(* ===== verification/_CoqProject ===== *)
-Q . S2P
Prelude.v
Sys.v
Text.v
Relocate.v
SocketUtils.v
Daemon.v
ShmCache.v
ProcUtils.v
ModuleProp.v
Monitor.v
Mem.v
Linker.v
LinkerSpec.v
LinkerTables.v
LinkerLife.v
ModLoader.v
TracerPid.v
Seccomp.v
Sort.v
Unmount.v
Ptracer.v
Cli.v
Clean.v
Fossil.v
ElfParser.v
Owned.v
Atexit.v
SoList.v
Context.v
Fds.v
Specialize.v
JniTable.v
JniRefs.v
Hook.v
ElfUtil.v
ZnApi.v
InlineHooks.v
Hyos.v
Entry.v
