(* ===== verification/Prelude.v ===== *)
(** * A verification of NyaZygisk's native code

    NyaZygisk injects code into Android's zygote. Its native side
    ([loader/src]) has four parts that interact as follows.

    - The _monitor_ ([ptracer/monitor_impl.cpp], [zygote_abi.cpp],
      [event_loop.cpp]) seizes init with ptrace, sees every process init
      starts, launches the daemon and hands a starting zygote to the
      _injector process_ ([ptracer/ptracer.cpp]), which loads the library into
      it by remote calls ([ptracer/utils.cpp]).
    - The _library_ inside the process ([injector/]) asks the daemon which
      modules to load and what a process may see, over a Unix socket and
      through shared memory ([common/daemon.cpp], [socket_utils.cpp]); it hooks
      the zygote's fork and specialisation, runs the modules in the child and
      removes the traces of both. In hyos_spawner it serves native modules
      instead ([zn_api.cpp], [zn_loader.cpp]).
    - The _module loader_ ([injector/module_loader.cpp], [linker/],
      [common/dl.cpp]) maps a module into the process, with a linker of its
      own or the system's, and keeps the CFI shadow right ([injector/clean.cpp],
      [linker/cfi.cpp]).
    - The _daemon_ ([zygiskd/], in Rust) answers; only the writer of the
      shared memory is modelled here, because the reader's correctness is a
      statement about both.

    ** How the code is represented

    Pure code is a function; a function that can fail in a way C++ gives no
    meaning to, or that loops, returns an [outcome] ([Ret], [Crash], [Exit],
    [OutOfFuel]). Code with effects is a program of the monad [Sys.M]: it
    threads a component's variables, [errno] and the log of the calls it made
    to the operating system, and every call is answered by a [World], about
    which nothing is assumed unless a theorem says so. A theorem over all
    worlds covers every error, short transfer and interruption, and whatever
    the kernel, the daemon and the other processes do. [Sys.wp] is the weakest
    precondition of a program; the tactics [wrun], [wcase] and [wsys] run one
    symbolically. Integers are [Z] kept in their width by [u8] ... [s64];
    bytes are [Z] in [0,256); strings and buffers are lists of bytes.

    ** Files

    - [Prelude]: machine words, bytes, C strings, little-endian integers, bits,
      outcomes; their lemmas, hints ([words]) and tactics.
    - [Sys]: the calls, worlds, the monad, its rules and tactics.
    - [Text]: [strtol], [sscanf], [std::to_string], lines of a stream, and
      [file_readline] of [common/files.cpp].
    - [Relocate]: [linker/relocate.cpp], SLEB128, APS2 and RELR. Every
      relocation table has a packed stream that decodes back to it, every
      well-formed stream decodes to what its groups stand for, RELR decodes
      what an encoder produces; a truncated stream makes the decoder loop for
      ever.
    - [SocketUtils]: [common/socket_utils.cpp]. The interface [ByteStream]
      says what a socket promises (bytes arrive in order, in pieces of any
      size, with interruptions); strings are read back as written, a number
      cut off by end of file is not returned, an error of recvmsg lets
      [recv_fd] return an uninitialised value. [pipe] is a concrete stream
      that discharges the interface.
    - [Daemon]: [common/daemon.cpp]. All requests; sockets are neither leaked
      nor closed twice, and the one descriptor that is closed without having
      been opened here, that of the shared memory, is named; module lists and plans are decoded exactly (against the
      interface [Reachable], which extends [ByteStream] with descriptors and a
      listening daemon).
    - [ShmCache]: the writer of the shared memory in [zygiskd/src/zygiskd.rs],
      interleaved with the reader of [Daemon]: an answer of the lock-free
      lookup is what the abstract map held at one moment of the call, and the
      lookup ends in every environment.
    - [ProcUtils]: [ptracer/utils.cpp]. Memory maps are read back, remote
      calls set up the calling convention, a wait returns only real stops, a
      status file appears only complete.
    - [ModuleProp]: the text of module.prop that [monitor_impl.cpp] reads and
      writes, and that reading it back changes nothing.
    - [Monitor]: the whole monitor as a program over one record. Seizes and
      detaches of init balance as the state says, granted and refused ones
      accounted for; commands and events move the state machine exactly as
      its tables say; no stopped process is left stopped, the crash guard trips
      exactly when it should.
    - [Mem]: memory with page protections, C loads and stores, mmap, munmap
      and mprotect, and the interface [HasMem] of a state that contains one.
    - [Linker]: [linker/linker.cpp], [interpose.cpp], [reloc_arch.hpp],
      [elf_compat.hpp], every function.
    - [LinkerSpec]: a load of well-formed segments that fails or is undone
      leaves the address space and every library handle as they were.
    - [LinkerTables]: lookup through the GNU hash table agrees with a linear
      search; the property note is parsed within its bounds, and exactly; the
      reverse lookup finds the nearest symbol.
    - [LinkerLife]: segments get the rights their headers ask for; the registry
      of handles closes each once; what a malformed segment does.
    - [ModLoader]: [injector/module_loader.cpp], [common/dl.cpp],
      [linker/cfi.cpp], [cfi.hpp] and the configuration and CFI parts of
      [injector/clean.cpp]: which slots of the shadow are marked, that a
      restore puts back what was saved, how a switch is read.

    - [TracerPid]: [injector/tracer_pid.cpp] and the four hooks that use it: a
      tracked status file is read with the tracer hidden and nothing else
      changed, as far as its number lies within one read.
    - [Seccomp]: [injector/seccomp.cpp]: the filter traps exactly the call with
      the random signature.
    - [Sort]: [std::sort] as an interface, with an implementation.
    - [Unmount]: [injector/unmount.cpp]: the mounts found are those of the root
      implementation, as the kernel printed them.
    - [Ptracer]: [ptracer/ptracer.cpp]: the steps of an injection, the argument
      block it builds, that a late injection restores the registers, and that a
      target is let go on every path of the trace command, up to detaches the
      kernel refuses.
    - [Cli]: [ptracer/main.cpp]: a command reported as sent reaches the monitor
      as that command; one monitor at a time.
    - [Clean]: hiding mappings ([injector/clean.cpp]): a replaced range holds
      the same bytes with its protection and no file (the mapping the kernel
      unmapped and then failed to replace excepted), no range that was not so
      is writable and executable on the way, ranges are normalised exactly.
    - [Owned], [Fossil]: the mount command left on the stack
      ([injector/fossil.cpp]) is replaced in place, by the first suitable
      mount.
    - [ElfParser]: [common/elf_parser.cpp]: an address that is returned is
      computed from a symbol of that name, and is its address if the bias is 0;
      file mappings are returned.
    - [Atexit]: libc's exit handlers ([injector/atexit.cpp]): compaction keeps
      exactly the live entries, under libc's lock and with the pages' rights
      restored.
    - [SoList]: the linker's list ([injector/solist.cpp]): records are dropped
      under the linker's guard, exactly the matching ones, and the counters do
      not wrap.
    - [Context]: the module API ([injector/module.cpp], [module.hpp]): whatever
      a module does, it changes only what the API offers; PLT hooks are
      registered exactly where they were asked for.
    - [Fds]: the descriptors of a forked process: none that was open at the
      fork is closed, none that was opened since survives unless exempted.
    - [Specialize]: which modules run, which mounts are undone, by the flags of
      the process; what becomes of a module that does not register.
    - [JniTable], [Hook]: the replaced native methods and the bootstrap
      ([injector/jni_hooks.hpp], [hook.cpp], [system_server.cpp]): the rows are
      well typed, the zygote forks once and runs no module itself unless the
      fork failed, the library unloads only when every hook was restored.
    - [JniRefs]: the owning wrappers of [injector/android_util.hpp]: every local
      reference and string buffer has one holder and is given back once; the
      references an assignment between two environments can lose are counted.
    - [ElfUtil]: [common/elf_util.cpp]: what a symbol lookup finds, how the load
      address is found among mappings, the CRC, the bound on decompressed data.
    - [ZnApi]: [injector/zn_api.cpp], every function; the two inline-hook
      calls as programs of their critical sections and calls of Dobby.
      [InlineHooks]: inline hooks from several threads are neither lost nor
      doubled, and interleavings of these programs are the steps considered.
      [Hyos]: the runtime for the applications of hyos_spawner: its variables
      stay well formed, an application is announced at most once, only in a
      child, and to every module unless one of them does not return.
    - [Entry]: [injector/zn_loader.cpp], [entry.cpp]: which process gets which
      hooks.

    ** Abstract specifications

    The shared cache refines a map from uids to flags ([ShmCache]), the GNU
    hash lookup a search of a list of named symbols ([LinkerTables]), the
    decoders the lists of relocations their encoders were given ([Relocate]),
    the socket protocol the daemon's own lists ([Daemon]), the registry of
    handles a finite map ([LinkerLife]), the monitor a state machine over
    [TracingState] ([Monitor.monitor_transitions]), a run of the zygote's
    original code with the early fork the same run with one fork
    ([Hook.fork_happens_once]), the inline-hook calls the steps of a shared
    table ([InlineHooks.hook_calls_are_steps]).

    ** Fuel

    Loops of the source that are not structural carry a bound, and end in
    [OutOfFuel] when it runs out. The bounds are not part of the code, so a
    theorem about a result is stated so that they do not matter: it gives a
    bound from which the loop ends ([Relocate]: the number of relocations;
    [Daemon]: the number of interruptions and pieces the stream has; the shared
    memory search: the size of the table, which the source has itself;
    [Hyos]: sixteen modules and one more test), or holds for every bound, the
    runs that stop early included ([Monitor]'s invariants hold after every
    prefix of an endless event loop). A loop that never ends is stated as one
    that exhausts every bound. Modules that call back into code that calls
    modules are run to any depth ([ZnApi.run_zn]).

    ** Choices and limits

    The 64-bit build is modelled ([LP64], [ElfW] = [Elf64]); the 32-bit
    register layouts and [dl_unwind_find_exidx] are left out, and so is
    logging. Foreign code (constructors, resolvers, the runtime) may overwrite
    any writable byte; modules moreover run arbitrary programs over the API
    they are given. The reader and the writer of the shared memory are
    interleaved in program order, which is what their fences grant. C strings
    passed to the environment are byte lists. LSPlt, Dobby, the lzma decoder,
    the Java runtime and regular expressions are environment: their calls are
    events with arbitrary answers, or an interface.

    Not modelled: the vendored lzma decoder ([external/lzma]); the Rust daemon
    outside the shared memory, another process behind the interface of
    [Daemon]; scope guards and smart pointers as such ([files.hpp],
    [misc.hpp]), whose effect is part of the code that uses them; the tests of
    the linker; the installer and the web page. The hooks in [Context] and
    [Hook] use the JNI wrappers as events that yield raw references; that the
    references are given back is what [JniRefs] shows of the wrappers.

    ** Plan

    What would extend the development: the lzma decoder against the format it
    decodes, the daemon's side of the socket protocol, and weak-memory
    behaviour of the shared cache beyond its fences. *)
From stdpp Require Export base list list_numbers gmap strings.
From Stdlib Require Export ZArith Lia Sorting.Sorted Sorting.Permutation.

Open Scope Z_scope.

(** ** Machine words *)

Definition uwrap (w x : Z) : Z := x mod 2 ^ w.
Definition swrap (w x : Z) : Z := (x + 2 ^ (w - 1)) mod 2 ^ w - 2 ^ (w - 1).

Abbreviation u8 := (uwrap 8).
Abbreviation u16 := (uwrap 16).
Abbreviation u32 := (uwrap 32).
Abbreviation u64 := (uwrap 64).
Abbreviation s32 := (swrap 32).
Abbreviation s64 := (swrap 64).

(** The values a [w]-bit integer has, unsigned and signed. *)
Definition fits_u (w x : Z) : Prop := 0 <= x < 2 ^ w.
Definition fits_s (w x : Z) : Prop := - 2 ^ (w - 1) <= x < 2 ^ (w - 1).

Lemma uwrap_fits w x : 0 <= w -> fits_u w (uwrap w x).
Proof. intros; unfold fits_u, uwrap; apply Z.mod_pos_bound; lia. Qed.

Lemma uwrap_id w x : fits_u w x -> uwrap w x = x.
Proof. intros; unfold uwrap; apply Z.mod_small; assumption. Qed.

Lemma swrap_fits w x : 0 < w -> fits_s w (swrap w x).
Proof.
  intros Hw; unfold fits_s, swrap.
  pose proof (Z.mod_pos_bound (x + 2 ^ (w - 1)) (2 ^ w) ltac:(lia)).
  replace (2 ^ w) with (2 * 2 ^ (w - 1)) in *
    by (rewrite <- Z.pow_succ_r by lia; f_equal; lia).
  lia.
Qed.

Lemma swrap_id w x : 0 < w -> fits_s w x -> swrap w x = x.
Proof.
  intros Hw H; unfold fits_s, swrap in *.
  assert (E : 2 ^ w = 2 * 2 ^ (w - 1))
    by (rewrite <- Z.pow_succ_r by lia; f_equal; lia).
  rewrite Z.mod_small by lia; lia.
Qed.

Lemma swrap_eq_mod w x y :
  0 < w -> fits_s w y -> x mod 2 ^ w = y mod 2 ^ w -> swrap w x = y.
Proof.
  intros Hw Hy E.
  rewrite <- (swrap_id w y Hw Hy); unfold swrap.
  f_equal. rewrite (Z.add_mod x), (Z.add_mod y), E by lia. reflexivity.
Qed.

(** Closes a range condition by linear arithmetic. *)
Ltac fits := unfold fits_u, fits_s; lia.

(** Decides the comparisons of the goal. *)
Ltac zcase :=
  repeat match goal with
  | |- context [?a <=? ?b] => destruct (Z.leb_spec a b)
  | |- context [?a <? ?b] => destruct (Z.ltb_spec a b)
  end; cbn [andb orb]; try lia.

Create HintDb words.
#[export] Hint Resolve uwrap_fits swrap_fits uwrap_id swrap_id : words.
#[export] Hint Extern 1 (fits_u _ _) => fits : words.
#[export] Hint Extern 1 (_ <= _) => lia : words.
#[export] Hint Extern 1 (_ < _) => lia : words.

(** ** Bytes and C strings

    A byte is a [Z] in [0,256); a buffer or a string is the list of its bytes.
    [B "text"] is the byte list of a literal. *)

Definition B (s : string) : list Z :=
  map (fun c => Z.of_N (Ascii.N_of_ascii c)) (String.list_ascii_of_string s).

Definition is_byte (b : Z) : Prop := 0 <= b < 256.

Definition beq (a b : list Z) : bool := bool_decide (a = b).

Lemma beq_true a b : beq a b = true <-> a = b.
Proof. apply bool_decide_eq_true. Qed.

Lemma beq_refl a : beq a a = true.
Proof. by apply beq_true. Qed.

(** [std::string_view::starts_with] / [ends_with], [find] and [strstr]. *)

Fixpoint starts_with (s pre : list Z) {struct pre} : bool :=
  match pre, s with
  | [], _ => true
  | p :: pre', c :: s' => (p =? c) && starts_with s' pre'
  | _ :: _, [] => false
  end.

Definition ends_with (s suf : list Z) : bool := starts_with (rev s) (rev suf).

(** Position of the first occurrence of [pat] in [s], [None] for [npos]. *)
Fixpoint find_sub (s pat : list Z) : option nat :=
  if starts_with s pat then Some 0%nat
  else match s with
       | [] => None
       | _ :: s' => S <$> find_sub s' pat
       end.

Definition contains (s pat : list Z) : bool :=
  match find_sub s pat with Some _ => true | None => false end.

Fixpoint find_char (s : list Z) (c : Z) : option nat :=
  match s with
  | [] => None
  | x :: s' => if x =? c then Some 0%nat else S <$> find_char s' c
  end.

Definition rfind_char (s : list Z) (c : Z) : option nat :=
  match find_char (rev s) c with
  | Some i => Some (length s - 1 - i)%nat
  | None => None
  end.

(** The longest prefix/suffix of [s] whose characters satisfy [p], dropped. *)
Fixpoint drop_while (p : Z -> bool) (s : list Z) : list Z :=
  match s with
  | [] => []
  | c :: s' => if p c then drop_while p s' else s
  end.

Fixpoint take_while (p : Z -> bool) (s : list Z) : list Z :=
  match s with
  | [] => []
  | c :: s' => if p c then c :: take_while p s' else []
  end.

Definition drop_while_end (p : Z -> bool) (s : list Z) : list Z :=
  rev (drop_while p (rev s)).

Definition is_digit (c : Z) : bool := (48 <=? c) && (c <=? 57).

(** The C string starting at the head of [s]: the bytes before the first NUL. *)
Definition c_str (s : list Z) : list Z := take_while (fun c => negb (c =? 0)) s.

Lemma starts_with_spec s pre :
  starts_with s pre = true <-> exists t, s = pre ++ t.
Proof.
  revert s; induction pre as [|p pre IH]; intros s; simpl.
  - split; eauto.
  - destruct s as [|c s]; simpl.
    + split; [done | intros (t & Ht); discriminate].
    + rewrite andb_true_iff, Z.eqb_eq, IH. split.
      * intros [-> (t & ->)]; by exists t.
      * intros (t & Ht); simplify_eq; split; [done | by exists t].
Qed.

Lemma ends_with_spec s suf :
  ends_with s suf = true <-> exists t, s = t ++ suf.
Proof.
  unfold ends_with; rewrite starts_with_spec; split; intros (t & Ht).
  - exists (rev t). apply (f_equal (@rev Z)) in Ht.
    by rewrite rev_app_distr, !rev_involutive in Ht.
  - exists (rev t). by rewrite Ht, rev_app_distr.
Qed.

Lemma starts_with_app pre t : starts_with (pre ++ t) pre = true.
Proof. apply starts_with_spec; eauto. Qed.

Lemma find_sub_Some s pat i :
  find_sub s pat = Some i ->
  (exists t, s = take i s ++ pat ++ t) /\ (i <= length s)%nat.
Proof.
  revert i; induction s as [|c s IH]; intros i; simpl.
  - destruct (starts_with [] pat) eqn:E; [|done].
    intros ?; simplify_eq/=; split; [|lia]. by apply starts_with_spec in E.
  - destruct (starts_with (c :: s) pat) eqn:E.
    + intros ?; simplify_eq/=; split; [|lia]. by apply starts_with_spec in E.
    + destruct (find_sub s pat) as [j|] eqn:F; [|done]. simpl; intros ?; simplify_eq/=.
      destruct (IH _ eq_refl) as [(t & Ht) Hl]; simpl; split; [|lia].
      exists t; by f_equal.
Qed.

Lemma contains_spec s pat :
  contains s pat = true <-> exists a b, s = a ++ pat ++ b.
Proof.
  unfold contains; split.
  - destruct (find_sub s pat) eqn:F; [|done]. intros _.
    apply find_sub_Some in F as [(t & Ht) _]; eauto.
  - intros (a & b & ->). induction a as [|x a IH]; simpl.
    + destruct (pat ++ b) as [|y l] eqn:E; simpl.
      * by apply app_nil in E as [-> ->].
      * by rewrite <- E, starts_with_app.
    + destruct (starts_with _ _); [done|].
      destruct (find_sub (a ++ pat ++ b) pat) eqn:F; done.
Qed.

Lemma drop_while_all p s : forallb p s = true -> drop_while p s = [].
Proof. induction s as [|c s IH]; simpl; [done|]. by destruct (p c). Qed.

Lemma take_drop_while p s : take_while p s ++ drop_while p s = s.
Proof. induction s as [|c s IH]; simpl; [done|]. destruct (p c); simpl; by f_equal. Qed.

Lemma take_while_forallb p s : forallb p (take_while p s) = true.
Proof. induction s as [|c s IH]; simpl; [done|]. destruct (p c) eqn:E; simpl; by rewrite ?E. Qed.

Lemma c_str_app_nul s t : 0 ∉ s -> c_str (s ++ 0 :: t) = s.
Proof.
  unfold c_str; induction s as [|c s IH]; simpl; [done|].
  rewrite not_elem_of_cons; intros [Hc Hs].
  destruct (Z.eqb_spec c 0); [lia|]; simpl; by rewrite IH.
Qed.

(** ** Little-endian integers *)

Fixpoint le_bytes (n : nat) (x : Z) : list Z :=
  match n with
  | O => []
  | S n' => x mod 256 :: le_bytes n' (x / 256)
  end.

Fixpoint le_Z (bs : list Z) : Z :=
  match bs with
  | [] => 0
  | b :: bs' => b + 256 * le_Z bs'
  end.

Lemma length_le_bytes n x : length (le_bytes n x) = n.
Proof. revert x; induction n; simpl; auto. Qed.

Lemma le_bytes_range n x : Forall is_byte (le_bytes n x).
Proof.
  revert x; induction n; simpl; constructor; auto.
  apply Z.mod_pos_bound; lia.
Qed.

Lemma le_Z_bytes n x : le_Z (le_bytes n x) = x mod 2 ^ (8 * Z.of_nat n).
Proof.
  revert x; induction n as [|n IH]; intros x; cbn [le_bytes le_Z].
  - by rewrite Z.mod_1_r.
  - rewrite IH. replace (8 * Z.of_nat (S n)) with (8 + 8 * Z.of_nat n) by lia.
    rewrite Z.pow_add_r by lia. change (2 ^ 8) with 256.
    rewrite Z.rem_mul_r by lia. lia.
Qed.

Lemma le_Z_range bs : Forall is_byte bs -> 0 <= le_Z bs < 2 ^ (8 * Z.of_nat (length bs)).
Proof.
  induction 1 as [|b bs Hb _ IH]; cbn [le_Z length]; [simpl; lia|].
  replace (8 * Z.of_nat (S (length bs))) with (8 + 8 * Z.of_nat (length bs)) by lia.
  rewrite Z.pow_add_r by lia. change (2 ^ 8) with 256. unfold is_byte in Hb. lia.
Qed.

Lemma le_bytes_Z bs : Forall is_byte bs -> le_bytes (length bs) (le_Z bs) = bs.
Proof.
  induction 1 as [|b bs Hb _ IH]; cbn [le_Z length le_bytes]; [done|].
  unfold is_byte in Hb. f_equal.
  - rewrite Z.mul_comm, Z.mod_add, Z.mod_small; lia.
  - rewrite Z.mul_comm, Z.div_add, (Z.div_small b), Z.add_0_l by lia. done.
Qed.

#[export] Hint Resolve le_bytes_range : words.

(** ** Bits *)

Lemma testbit_lt x w n : 0 <= x < 2 ^ w -> w <= n -> Z.testbit x n = false.
Proof.
  intros Hx Hn. destruct (Z.ltb_spec w 0).
  - rewrite Z.pow_neg_r in Hx by lia. lia.
  - destruct (Z.eq_dec x 0) as [->|]; [apply Z.bits_0|].
    apply Z.bits_above_log2; [lia|].
    assert (Z.log2 x < w) by (apply Z.log2_lt_pow2; lia). lia.
Qed.

Lemma land_disjoint x y k :
  0 <= k -> 0 <= x < 2 ^ k -> y mod 2 ^ k = 0 -> Z.land x y = 0.
Proof.
  intros Hk Hx Hy. apply Z.bits_inj'; intros n Hn. rewrite Z.land_spec, Z.bits_0.
  destruct (Z.ltb_spec n k).
  - replace (Z.testbit y n) with false; [by rewrite andb_false_r|].
    rewrite <- (Z.mod_pow2_bits_low y k n) by lia. by rewrite Hy, Z.bits_0.
  - by rewrite (testbit_lt x k n) by lia.
Qed.

Lemma lor_disjoint_add x y k :
  0 <= k -> 0 <= x < 2 ^ k -> y mod 2 ^ k = 0 -> Z.lor x y = x + y.
Proof.
  intros Hk Hx Hy.
  rewrite <- Z.lxor_lor by eauto using land_disjoint.
  symmetry; apply Z.add_nocarry_lxor. eauto using land_disjoint.
Qed.

(** [x & m] used as a condition. *)
Definition has_bits (x m : Z) : bool := negb (Z.land x m =? 0).

Declare Scope word_scope.
Notation "x &? m" := (has_bits x m) (at level 35) : word_scope.
Open Scope word_scope.

Lemma has_bits_pow2 x k : 0 <= k -> has_bits x (2 ^ k) = Z.testbit x k.
Proof.
  intros Hk. unfold has_bits.
  assert (E : Z.land x (2 ^ k) = if Z.testbit x k then 2 ^ k else 0).
  { apply Z.bits_inj'; intros n Hn. rewrite Z.land_spec, Z.pow2_bits_eqb by lia.
    destruct (Z.eqb_spec k n) as [->|Hne].
    - destruct (Z.testbit x n) eqn:E; simpl.
      + by rewrite Z.pow2_bits_true by lia.
      + by rewrite Z.bits_0.
    - rewrite andb_false_r. destruct (Z.testbit x k).
      + by rewrite Z.pow2_bits_false by lia.
      + by rewrite Z.bits_0. }
  rewrite E. destruct (Z.testbit x k); [|done].
  destruct (Z.eqb_spec (2 ^ k) 0); [lia | done].
Qed.

(** ** Outcomes of running C++ code

    [Ret a]: the code returned [a]; [Crash]: it performed an operation with
    no defined result (an access outside every mapping, a shift by the width);
    [Exit c]: it called [exit(c)]; [OutOfFuel]: the iteration bound given to a
    loop ran out before the loop ended. *)
Inductive outcome (A : Type) : Type :=
| Ret (a : A)
| Crash
| Exit (code : Z)
| OutOfFuel.
Arguments Ret {A} a.
Arguments Crash {A}.
Arguments Exit {A} code.
Arguments OutOfFuel {A}.

#[global] Instance outcome_ret : MRet outcome := fun A a => Ret a.
#[global] Instance outcome_bind : MBind outcome := fun A C f m =>
  match m with
  | Ret a => f a
  | Crash => Crash
  | Exit c => Exit c
  | OutOfFuel => OutOfFuel
  end.

Definition or_crash {A} (o : option A) : outcome A :=
  match o with Some a => Ret a | None => Crash end.

(** Runs the binds of the outcome monad that have a value to continue with. *)
Ltac ostep := cbn [mbind mret outcome_bind outcome_ret].

(** A decidable closed statement, decided by evaluation. *)
Ltac vm_decide := apply (bool_decide_eq_true_1 _); vm_compute; reflexivity.

Lemma Forall_impl2 {A} (P Q R : A -> Prop) l :
  Forall P l -> Forall Q l -> (forall x, P x -> Q x -> R x) -> Forall R l.
Proof. intros HP HQ H. induction HP; inversion HQ; subst; constructor; auto. Qed.
