(* ===== verification/Sys.v ===== *)
(** The effects the loader performs, as a state monad over an environment.

    Code that talks to the operating system is a function of a [World]: an
    arbitrary state [W] with a function [sys] that answers each call. The
    environment may answer anything (errors, short transfers, interruptions,
    changes made by other processes), so a theorem over all worlds covers
    every behaviour of the kernel, the daemon and the other processes. Each
    run keeps the log of the calls it made with their answers, newest first,
    and threads [errno] and a component's own variables [S].

    Log output (LOGV ... PLOGE) has no effect on any of these and is left out. *)
From S2P Require Import Prelude.
Open Scope Z_scope.

(** Functions of the Java runtime: of a JNIEnv, of a JavaVM, and the field of
    a reflected method that holds its internal record. References, method and
    field ids are numbers, 0 for null. *)
Inductive jni :=
| GetStringUTFChars (s : Z)
| ReleaseStringUTFChars (s chars : Z)
| NewIntArray (len : Z)
| GetArrayLength (array : Z)
| GetIntArrayElements (array : Z)
| SetIntArrayRegion (array start : Z) (vals : list Z)
| ReleaseIntArrayElements (array : Z)
| DeleteLocalRef (ref : Z)
| FindClass (name : list Z)
| ExceptionClear
| GetMethodID (clazz : Z) (name sig : list Z)
| GetStaticMethodID (clazz : Z) (name sig : list Z)
| GetFieldID (clazz : Z) (name sig : list Z)
| GetStaticFieldID (clazz : Z) (name sig : list Z)
| GetStaticIntField (clazz field : Z)
| GetLongField (obj field : Z)
| ToReflectedMethod (clazz method : Z) (is_static : bool)
| FromReflectedMethod (method : Z)
| CallIntMethod (obj method : Z)
| CallObjectMethod (obj method : Z)
| GetObjectArrayElement (array i : Z)
| RegisterNatives (clazz : Z) (methods : list (list Z * list Z * Z))
| GetCreatedJavaVMs (fn : Z)
| GetEnv (vm : Z)
| AttachCurrentThread (vm : Z)
| DetachCurrentThread (vm : Z).

(** The system and library calls whose result the environment chooses. *)
Inductive call :=
| CRead (fd count : Z)
| CWrite (fd : Z) (buf : list Z)
| CClose (fd : Z)
| CSocket (domain type protocol : Z)
| CConnect (fd : Z) (path : list Z)
| CSetsockopt (fd opt tv_sec tv_usec : Z)
| CRecvmsg (fd iov_len controllen flags : Z)
| CSleep (seconds : Z)
| CNew (size : Z)
| CUninit (size : Z)
| CLoad32 (addr : Z)
| CMmap (addr len prot flags fd off : Z)
| CMunmap (addr len : Z)
| CMprotect (addr len prot : Z)
(** Files; [CFile] is [fopen] for reading with everything the stream then
    yields, [COpendir] a directory with its entries' names, each ended by NUL. *)
| CFile (path : list Z)
| COpen (path : list Z) (flags mode : Z)
| CFsync (fd : Z)
| CFstat (fd : Z)
| CRename (from to : list Z)
| CUnlink (path : list Z)
| CReadlink (path : list Z) (size : Z)
| COpendir (path : list Z)
(** Processes. [CPtraceRegs] carries a register file in or out. *)
| CFork
| CGetppid
| CPrctl (option arg : Z)
| CExec (path : list Z) (argv : list (list Z))
| CKill (pid sig : Z)
| CWaitpid (pid flags : Z)
| CPtrace (request pid addr data : Z)
| CPtraceRegs (request pid addr : Z) (regs : list Z)
| CVmWrite (pid addr : Z) (buf : list Z)
| CVmRead (pid addr len : Z)
(** Events, time and messages. *)
| CClock
| CEpollCreate
| CEpollCtl (epfd op fd events : Z)
| CEpollWait (epfd maxevents : Z)
| CSigprocmask (how : Z) (signals : list Z)
| CSignalfd (signals : list Z) (flags : Z)
| CBind (fd : Z) (path : list Z)
| CRecv (fd len flags : Z)
(** Memory and code: [CPread] a positioned read, [CCall] a call of foreign
    code, which answers with its result and the bytes it overwrote (pairs of
    address and value in [r_aux]). *)
| CSysconf (name : Z)
| CPread (fd len off : Z)
| CCall (addr : Z) (args : list Z)
(** The dynamic linker. *)
| CDladdr (addr : Z)
| CDlIterate (cb data : Z)
| CDlopenExt (name : list Z) (flags fd : Z)
| CDlopen (name : list Z) (flags : Z)
| CDlsym (handle : Z) (name : list Z)
| CDlclose (handle : Z)
(** The [i]-th object [dl_iterate_phdr] reports: returns 0 if there is none,
    else its name in [r_data] and its address, program headers and their
    number in [r_aux]. *)
| CDlObject (i : Z)
(** More of the process's own state. *)
| COpenat (dirfd : Z) (path : list Z) (flags mode : Z)
| CGetpid
| CGettid
| CUname
| CSetSeccomp (filter : list (Z * Z * Z * Z))
| CSyscall (nr : Z) (args : list Z)
| CMremap (old_addr old_len new_len flags new_addr : Z)
| CNameVma (addr len : Z)
| CUsleep (usec : Z)
| CSendto (fd : Z) (buf : list Z) (path : list Z)
| CSignal (sig : Z) (handler : Z)
(** Locks, memory advice and the auxiliary vector. *)
| CGetauxval (type : Z)
| CMadvise (addr len advice : Z)
| CTrylock (lock : Z)
| CUnlock (lock : Z)
| CSchedYield
(** Process state around a fork: the records [getdents64] stores, limits,
    mounts and namespaces, identity, threads. *)
| CGetdents (fd size : Z)
| CGetrlimit (resource : Z)
| CUmount (target : list Z) (flags : Z)
| CSetns (fd nstype : Z)
| CUnshare (flags : Z)
| CStat (path : list Z)
| CSetenv (name value : list Z)
| CGetuid
| CGetgid
| CGetgroups (size : Z)
| CCapget
| CPthreadCreate (fn : Z)
| CPthreadDetach (thread : Z)
| CPthreadSelf
| CAtfork (prepare : Z)
| CStrdup (str : list Z)
| CPropertyGet (key default_value : list Z)
| CSetStackSize (attr size : Z)
| CJni (c : jni)
(** The hooking libraries: LSPlt, whose [CCommitHook] answers in [r_aux] with
    pairs of a backup variable and the function stored there, and Dobby. *)
| CRegisterHook (dev inode : Z) (symbol : list Z) (fn backup : Z)
| CCommitHook (unhook : bool)
| CDobbyHook (target fn backup : Z)
| CDobbyDestroy (target : Z)
(** The lzma decoder: creating one, and one call of it, with room for
    [out_size] bytes in all. *)
| CXzInit (dict_max : Z)
| CXzRun (out_size : Z)
(** The functions of a Zygisk Next module, with what their arguments point
    to; answered like [CCall]. *)
| CZnLoaded (fn handle api : Z)
| CZnSpecialized (fn : Z) (process_name package_name se_info : list Z).

(** [r_ret] is the return value, [r_errno] the value [errno] has afterwards
    (looked at only when the call failed), [r_data] the bytes stored through
    its pointer arguments and [r_aux] the integers stored through them. *)
Record reply := Reply { r_ret : Z; r_errno : Z; r_data : list Z; r_aux : list Z }.

Class World (W : Type) := sys : call -> W -> reply * W.

Definition event : Type := call * reply.

Record st (W S : Type) := St { st_w : W; st_log : list event; st_errno : Z; st_s : S }.
Arguments St {W S} _ _ _ _.
Arguments st_w {W S} _.
Arguments st_log {W S} _.
Arguments st_errno {W S} _.
Arguments st_s {W S} _.

Definition M (W S A : Type) : Type := st W S -> outcome A * st W S.

#[global] Instance M_ret {W S} : MRet (M W S) := fun A a s => (Ret a, s).
#[global] Instance M_bind {W S} : MBind (M W S) := fun A C f m s =>
  match m s with
  | (Ret a, s') => f a s'
  | (Crash, s') => (Crash, s')
  | (Exit c, s') => (Exit c, s')
  | (OutOfFuel, s') => (OutOfFuel, s')
  end.

Section Ops.
Context {W S : Type} `{!World W}.

Definition syscall (c : call) : M W S reply := fun s =>
  let '(r, w') := sys c (st_w s) in
  (Ret r, St w' ((c, r) :: st_log s) (if r_ret r <? 0 then r_errno r else st_errno s) (st_s s)).

Definition get : M W S S := fun s => (Ret (st_s s), s).
Definition put (x : S) : M W S unit := fun s =>
  (Ret tt, St (st_w s) (st_log s) (st_errno s) x).
Definition modify (f : S -> S) : M W S unit := fun s =>
  (Ret tt, St (st_w s) (st_log s) (st_errno s) (f (st_s s))).
Definition get_errno : M W S Z := fun s => (Ret (st_errno s), s).
Definition crash {A} : M W S A := fun s => (Crash, s).
Definition exit_ {A} (code : Z) : M W S A := fun s => (Exit code, s).
Definition out_of_fuel {A} : M W S A := fun s => (OutOfFuel, s).
Definition lift {A} (o : outcome A) : M W S A := fun s => (o, s).

(** [wp m Q s]: running [m] from [s] ends in an outcome and a state that
    satisfy [Q]. *)
Definition wp {A} (m : M W S A) (Q : outcome A -> st W S -> Prop) (s : st W S) : Prop :=
  Q (m s).1 (m s).2.

(** The postcondition of [m] when what follows is [f]: only a returned value
    is passed on, any other outcome ends the run. *)
Definition wp_cont {A C} (f : A -> M W S C) (Q : outcome C -> st W S -> Prop)
  (o : outcome A) (s : st W S) : Prop :=
  match o with
  | Ret a => wp (f a) Q s
  | Crash => Q Crash s
  | Exit c => Q (Exit c) s
  | OutOfFuel => Q OutOfFuel s
  end.

Lemma wp_bind {A C} (m : M W S A) (f : A -> M W S C) Q s :
  wp m (wp_cont f Q) s -> wp (m ≫= f) Q s.
Proof.
  unfold wp, mbind, M_bind. destruct (m s) as [[a| | |] s']; done.
Qed.

Lemma wp_bind_inv {A C} (m : M W S A) (f : A -> M W S C) Q s :
  wp (m ≫= f) Q s -> wp m (wp_cont f Q) s.
Proof.
  unfold wp, mbind, M_bind. destruct (m s) as [[a| | |] s']; done.
Qed.

Lemma wp_ret {A} (a : A) (Q : outcome A -> st W S -> Prop) s : Q (Ret a) s -> wp (mret a) Q s.
Proof. done. Qed.

Lemma wp_get (Q : outcome S -> st W S -> Prop) s : Q (Ret (st_s s)) s -> wp get Q s.
Proof. done. Qed.

Lemma wp_put x (Q : outcome unit -> st W S -> Prop) s :
  Q (Ret tt) (St (st_w s) (st_log s) (st_errno s) x) -> wp (put x) Q s.
Proof. done. Qed.

Lemma wp_modify f (Q : outcome unit -> st W S -> Prop) s :
  Q (Ret tt) (St (st_w s) (st_log s) (st_errno s) (f (st_s s))) -> wp (modify f) Q s.
Proof. done. Qed.

Lemma wp_errno (Q : outcome Z -> st W S -> Prop) s : Q (Ret (st_errno s)) s -> wp get_errno Q s.
Proof. done. Qed.

Lemma wp_crash {A} (Q : outcome A -> st W S -> Prop) s : Q Crash s -> wp crash Q s.
Proof. done. Qed.

Lemma wp_exit {A} c (Q : outcome A -> st W S -> Prop) s : Q (Exit c) s -> wp (exit_ c) Q s.
Proof. done. Qed.

Lemma wp_fuel {A} (Q : outcome A -> st W S -> Prop) s : Q OutOfFuel s -> wp out_of_fuel Q s.
Proof. done. Qed.

Lemma wp_lift {A} o (Q : outcome A -> st W S -> Prop) s : Q o s -> wp (lift o) Q s.
Proof. done. Qed.

(** A call, answered by this world. *)
Lemma wp_syscall_eq c (Q : outcome reply -> st W S -> Prop) s r w' :
  sys c (st_w s) = (r, w') ->
  Q (Ret r) (St w' ((c, r) :: st_log s) (if r_ret r <? 0 then r_errno r else st_errno s) (st_s s)) ->
  wp (syscall c) Q s.
Proof. intros E HQ. unfold wp, syscall. by rewrite E. Qed.

(** A call, whatever the answer. *)
Lemma wp_syscall c (Q : outcome reply -> st W S -> Prop) s :
  (forall r w' e, Q (Ret r) (St w' ((c, r) :: st_log s) e (st_s s))) ->
  wp (syscall c) Q s.
Proof.
  intros HQ. unfold wp, syscall. destruct (sys c (st_w s)) as [r w']; apply HQ.
Qed.

Lemma wp_mono {A} (m : M W S A) (Q R : outcome A -> st W S -> Prop) s :
  wp m Q s -> (forall o s', Q o s' -> R o s') -> wp m R s.
Proof. unfold wp; eauto. Qed.

Lemma wp_and {A} (m : M W S A) (Q R : outcome A -> st W S -> Prop) s :
  wp m Q s -> wp m R s -> wp m (fun o s' => Q o s' /\ R o s') s.
Proof. by unfold wp. Qed.

Lemma wp_elim {A} (m : M W S A) (Q : outcome A -> st W S -> Prop) s o s' :
  wp m Q s -> m s = (o, s') -> Q o s'.
Proof. unfold wp. intros H E. by rewrite E in H. Qed.

(** A run known to return a value, as an equation. *)
Lemma wp_returns {A} (m : M W S A) a (P : st W S -> Prop) s :
  wp m (fun o s' => o = Ret a /\ P s') s -> exists s', m s = (Ret a, s') /\ P s'.
Proof.
  unfold wp. destruct (m s) as [o s'] eqn:E; cbn. intros [-> HP]. eauto.
Qed.

(** A postcondition on the runs that return. *)
Definition on_ret {A} (P : A -> st W S -> Prop) (o : outcome A) (s : st W S) : Prop :=
  match o with Ret a => P a s | _ => True end.

Lemma wp_on_ret {A} (m : M W S A) (P : A -> st W S -> Prop) s a s' :
  wp m (on_ret P) s -> m s = (Ret a, s') -> P a s'.
Proof. intros H E. exact (wp_elim _ _ _ _ _ H E). Qed.

Definition returns {A} (o : outcome A) : Prop := exists a, o = Ret a.

Lemma wp_total {A} (m : M W S A) s :
  wp m (fun o _ => returns o) s -> exists a s', m s = (Ret a, s').
Proof.
  unfold wp. destruct (m s) as [o s'] eqn:E; cbn. intros [a ->]. eauto.
Qed.

(** [exec] returns only when it fails; otherwise this program's run ends. *)
Definition execl (path : list Z) (argv : list (list Z)) : M W S unit :=
  r ← syscall (CExec path argv);
  if r_ret r =? -1 then mret tt else exit_ 0.

(** A call whose result is not looked at. *)
Definition do_ (c : call) : M W S unit := syscall c;; mret tt.

Lemma wp_do c (Q : outcome unit -> st W S -> Prop) s :
  (forall r w' e, Q (Ret tt) (St w' ((c, r) :: st_log s) e (st_s s))) -> wp (do_ c) Q s.
Proof. intros HQ. apply wp_bind, wp_syscall. intros. apply wp_ret, HQ. Qed.

End Ops.

(** Running code of a component inside the state of one that contains it. *)
Definition zoom {W S T A} (get_part : S -> T) (set_part : T -> S -> S) (m : M W T A)
  : M W S A := fun s =>
  let '(o, s') := m (St (st_w s) (st_log s) (st_errno s) (get_part (st_s s))) in
  (o, St (st_w s') (st_log s') (st_errno s') (set_part (st_s s') (st_s s))).

Lemma wp_zoom {W S T A} (g : S -> T) (p : T -> S -> S) (m : M W T A)
  (Q : outcome A -> st W S -> Prop) s :
  wp m (fun o s' => Q o (St (st_w s') (st_log s') (st_errno s') (p (st_s s') (st_s s))))
     (St (st_w s) (st_log s) (st_errno s) (g (st_s s))) ->
  wp (zoom g p m) Q s.
Proof.
  unfold wp, zoom. destruct (m _) as [o s']. done.
Qed.

Arguments wp_cont {W S A C} f Q o s /.
Arguments on_ret {W S A} P o s /.

(** One step of symbolic execution: runs the head of the program as far as
    it needs no choice of the environment. *)
Ltac wstep :=
  lazymatch goal with
  | |- wp (mbind _ _) _ _ => apply wp_bind
  | |- wp (mret _) _ _ => apply wp_ret
  | |- wp get _ _ => apply wp_get
  | |- wp (put _) _ _ => apply wp_put
  | |- wp (modify _) _ _ => apply wp_modify
  | |- wp get_errno _ _ => apply wp_errno
  | |- wp crash _ _ => apply wp_crash
  | |- wp (exit_ _) _ _ => apply wp_exit
  | |- wp out_of_fuel _ _ => apply wp_fuel
  | |- wp (lift _) _ _ => apply wp_lift
  | |- wp_cont _ _ _ _ => cbn [wp_cont]
  end; cbn [wp_cont st_w st_log st_errno st_s fst snd].

Ltac wrun := repeat wstep.

(** Case analysis on the test the program is about to make. *)
Ltac wcase :=
  match goal with
  | |- wp (if ?b then _ else _) _ _ => destruct b eqn:?
  | |- wp (match ?x with _ => _ end) _ _ => destruct x eqn:?
  end.

(** Runs a call, naming this world's answer, its next state and the equation. *)
Ltac wsys r w' E :=
  lazymatch goal with
  | |- wp (syscall ?c) _ ?s =>
      destruct (sys c (st_w s)) as [r w'] eqn:E; cbn [st_w] in E;
      eapply wp_syscall_eq; [exact E|]; cbn [wp_cont st_w st_log st_errno st_s fst snd]
  end.

(** The membership [H] of an event in a short log is impossible, or settled
    by what is known of the event. *)
Ltac no_event H :=
  repeat (apply elem_of_cons in H as [H|H]; [try discriminate H; simplify_eq; try done|]);
  by apply elem_of_nil in H.

(** Turns a claim about a run that returned into a weakest precondition. *)
Ltac wp_of_run :=
  lazymatch goal with
  | |- _ ?s = (Ret ?a, ?s') -> _ =>
      let E := fresh "E" in
      intros E; pattern a, s'; refine (wp_on_ret _ _ _ _ _ _ E); clear E
  end; cbn beta.

Section Extends.
Context {W S : Type} `{!World W}.

(** Calls extend the log. *)
Definition extends {A} (m : M W S A) : Prop :=
  forall s, wp m (fun _ s' => exists evs, st_log s' = evs ++ st_log s) s.

Lemma extends_bind {A C} (m : M W S A) (f : A -> M W S C) :
  extends m -> (forall a, extends (f a)) -> extends (m ≫= f).
Proof.
  intros Hm Hf s. wstep. eapply wp_mono; [apply Hm|].
  intros [a| | |] s1 [evs E]; cbn; eauto.
  eapply wp_mono; [apply Hf|]. intros o s2 [evs' E']. exists (evs' ++ evs).
  by rewrite E', E, app_assoc.
Qed.

Lemma extends_syscall c : extends (syscall c : M W S reply).
Proof. intros s. apply wp_syscall. intros r w e. by exists [(c, r)]. Qed.

Lemma extends_pure {A} (m : M W S A) : (forall s, (m s).2 = s) -> extends m.
Proof. intros H s. unfold wp. rewrite H. by exists []. Qed.

End Extends.

(** Closes [extends] goals structurally. *)
Ltac extends_tac :=
  repeat match goal with
  | |- extends (mbind _ _) => apply extends_bind; [|intros ?]
  | |- extends (syscall _) => apply extends_syscall
  | |- extends (if ?b then _ else _) => destruct b
  | |- extends (let '_ := ?x in _) => destruct x
  | |- extends (match ?x with _ => _ end) => destruct x
  | |- extends (modify _) => let s := fresh in intros s; wrun; by exists []
  | |- extends _ => first [by apply extends_pure | solve [eauto with extends]]
  end.

Create HintDb extends.

Section CallsOnly.
Context {W S : Type} `{!World W}.

(** Calls that leave the component's own variables alone. *)
Definition calls_only {A} (m : M W S A) : Prop :=
  forall s, wp m (fun _ s' => st_s s' = st_s s /\ exists evs, st_log s' = evs ++ st_log s) s.

Lemma calls_only_bind {A C} (m : M W S A) (f : A -> M W S C) :
  calls_only m -> (forall a, calls_only (f a)) -> calls_only (m ≫= f).
Proof.
  intros Hm Hf s. wstep. eapply wp_mono; [apply Hm|].
  intros [a| | |] s1 (Es & evs & E); cbn; eauto.
  eapply wp_mono; [apply Hf|]. intros o s2 (Es' & evs' & E'). split; [congruence|].
  exists (evs' ++ evs). by rewrite E', E, app_assoc.
Qed.

Lemma calls_only_syscall c : calls_only (syscall c : M W S reply).
Proof. intros s. apply wp_syscall. intros r w e. split; [done|]. by exists [(c, r)]. Qed.

Lemma calls_only_pure {A} (m : M W S A) : (forall s, (m s).2 = s) -> calls_only m.
Proof. intros H s. unfold wp. rewrite H. split; [done|]. by exists []. Qed.
End CallsOnly.

(** Closes [calls_only] goals structurally. *)
Ltac calls_only_tac :=
  repeat match goal with
  | |- calls_only (mbind _ _) => apply calls_only_bind; [|intros ?]
  | |- calls_only (syscall _) => apply calls_only_syscall
  | |- calls_only (if ?b then _ else _) => destruct b
  | |- calls_only (let '_ := ?x in _) => destruct x
  | |- calls_only (match ?x with _ => _ end) => destruct x
  | |- calls_only _ => first [by apply calls_only_pure | solve [eauto with calls_only]]
  end.

Create HintDb calls_only.

Section Emits.
Context {W S : Type} `{!World W} (P : event -> Prop).

(** Every event the code adds to the log satisfies [P]. *)
Definition emits {A} (m : M W S A) : Prop :=
  forall s, wp m (fun _ s' => exists evs, st_log s' = evs ++ st_log s /\ Forall P evs) s.

Lemma emits_bind {A C} (m : M W S A) (f : A -> M W S C) :
  emits m -> (forall a, emits (f a)) -> emits (m ≫= f).
Proof.
  intros Hm Hf s. wstep. eapply wp_mono; [apply Hm|].
  intros [a| | |] s1 (evs & E & HP); cbn; eauto.
  eapply wp_mono; [apply Hf|]. intros o s2 (evs' & E' & HP'). exists (evs' ++ evs).
  rewrite E', E, app_assoc. split; [done|]. by apply Forall_app.
Qed.

Lemma emits_syscall c : (forall r, P (c, r)) -> emits (syscall c : M W S reply).
Proof. intros H s. apply wp_syscall. intros r w e. exists [(c, r)]. auto. Qed.

Lemma emits_pure {A} (m : M W S A) : (forall s, (m s).2 = s) -> emits m.
Proof. intros H s. unfold wp. rewrite H. by exists []. Qed.

Lemma emits_modify f : emits (modify f).
Proof. intros s. wrun. by exists []. Qed.
End Emits.

(** Closes [emits] goals structurally, up to the events. *)
Ltac emits_tac :=
  repeat match goal with
  | |- emits _ (mbind _ _) => apply emits_bind; [|intros ?]
  | |- emits _ (syscall _) => apply emits_syscall; intros ?
  | |- emits _ (modify _) => apply emits_modify
  | |- emits _ (if ?b then _ else _) => destruct b eqn:?
  | |- emits _ (let '_ := ?x in _) => destruct x
  | |- emits _ (match ?x with _ => _ end) => destruct x eqn:?
  | |- emits _ _ => by apply emits_pure
  end.

(** A world that answers from a script, then with zeros. *)
Definition script : Type := list reply.

#[export] Instance script_world : World script := fun _ w =>
  match w with
  | [] => (Reply 0 0 [] [], [])
  | r :: w' => (r, w')
  end.

(** The reply of a call that only returns [n]. *)
Definition ans (n : Z) : reply := Reply n 0 [] [].
