(* ===== verification/Text.v ===== *)
(** Text as the C library reads and prints it: numbers ([strtol], [sscanf],
    [std::to_string], ["%x"]), lines ([getline], [fgets]) and
    [file_readline] (loader/src/common/files.cpp). *)
From S2P Require Import Prelude.
Open Scope Z_scope.

(** ** Printing *)

(** Digits of [n], most significant first; [fuel] bounds their number. *)
Definition digit_char (d : Z) : Z := if d <? 10 then 48 + d else 87 + d.

Fixpoint digits (base : Z) (fuel : nat) (n : Z) (acc : list Z) : list Z :=
  match fuel with
  | O => acc
  | S fuel' =>
      let acc := digit_char (n mod base) :: acc in
      if n <? base then acc else digits base fuel' (n / base) acc
  end.

(** [std::to_string] of a 64-bit integer ("%d", "%ld") and "%x". *)
Definition to_string (n : Z) : list Z :=
  if n <? 0 then 45 :: digits 10 20 (- n) [] else digits 10 20 n [].
Definition to_hex (n : Z) : list Z := digits 16 16 n [].

(** ** Reading numbers *)

Definition isspace (c : Z) : bool := (c =? 32) || ((9 <=? c) && (c <=? 13)).

Definition digit_val (c : Z) : option Z :=
  if (48 <=? c) && (c <=? 57) then Some (c - 48)
  else if (97 <=? c) && (c <=? 102) then Some (c - 87)
  else if (65 <=? c) && (c <=? 70) then Some (c - 55)
  else None.

Definition is_digit_of (base c : Z) : bool :=
  match digit_val c with Some d => d <? base | None => false end.

(** The value of a run of digits. *)
Definition digits_val (base : Z) (ds : list Z) : Z :=
  fold_left (fun v c => v * base + default 0 (digit_val c)) ds 0.

(** An optional sign. *)
Definition read_sign (s : list Z) : bool * list Z :=
  match s with
  | c :: s' => if c =? 45 then (true, s') else if c =? 43 then (false, s') else (false, s)
  | [] => (false, s)
  end.

(** A "0x" prefix is skipped only when a hexadecimal digit follows it. *)
Definition read_0x (base : Z) (s : list Z) : list Z :=
  match s with
  | z :: x :: d :: _ =>
      if (base =? 16) && (z =? 48) && ((x =? 120) || (x =? 88)) && is_digit_of 16 d
      then drop 2 s else s
  | _ => s
  end.

(** A signed number of unbounded size after white space, and what follows it;
    [None] if there are no digits. *)
Definition read_number (base : Z) (s : list Z) : option (Z * list Z) :=
  let '(neg, s1) := read_sign (drop_while isspace s) in
  let s2 := read_0x base s1 in
  let ds := take_while (is_digit_of base) s2 in
  if bool_decide (ds = []) then None
  else Some (if neg : bool then - digits_val base ds else digits_val base ds,
             drop (length ds) s2).

(** [strtol(s, &end, 10)]: the value clamped to a [long], whether it was
    clamped ([errno = ERANGE]), and the text from [end] on, which is [s]
    itself when there is no number. *)
Definition strtol (s : list Z) : Z * bool * list Z :=
  match read_number 10 s with
  | None => (0, false, s)
  | Some (v, rest) =>
      if v <? - 2 ^ 63 then (- 2 ^ 63, true, rest)
      else if 2 ^ 63 - 1 <? v then (2 ^ 63 - 1, true, rest)
      else (v, false, rest)
  end.

(** [strtoul] clamps to [ULONG_MAX]; a minus sign negates modulo 2^64. *)
Definition clamp_u64 (v : Z) : Z := if 2 ^ 64 <=? Z.abs v then 2 ^ 64 - 1 else u64 v.

(** The conversions of [sscanf] the loader uses. *)
Definition scan_lx (s : list Z) : option (Z * list Z) :=
  '(v, r) ← read_number 16 s; Some (clamp_u64 v, r).
Definition scan_lu (s : list Z) : option (Z * list Z) :=
  '(v, r) ← read_number 10 s; Some (clamp_u64 v, r).
Definition scan_x (s : list Z) : option (Z * list Z) :=
  '(v, r) ← read_number 16 s; Some (u32 (clamp_u64 v), r).
Definition scan_d (s : list Z) : option (Z * list Z) :=
  '(v, r) ← read_number 10 s; Some (s32 v, r).
(** A literal character. *)
Definition scan_char (c : Z) (s : list Z) : option (list Z) :=
  match s with x :: s' => if x =? c then Some s' else None | [] => None end.
(** "%4s" and the like: at most [n] characters of one word. *)
Definition scan_word (n : nat) (s : list Z) : option (list Z * list Z) :=
  let s := drop_while isspace s in
  let w := take n (take_while (fun c => negb (isspace c)) s) in
  if bool_decide (w = []) then None else Some (w, drop (length w) s).

(** ** Lines *)

Definition NL : Z := 10.

(** The lines [getline] returns, each with its newline (the last one may have none). *)
Fixpoint getlines_aux (s cur : list Z) : list (list Z) :=
  match s with
  | [] => if bool_decide (cur = []) then [] else [cur]
  | c :: s' => if c =? NL then (cur ++ [c]) :: getlines_aux s' [] else getlines_aux s' (cur ++ [c])
  end.

Definition getlines (s : list Z) : list (list Z) := getlines_aux s [].

(** The chunks [fgets(buf, size, f)] returns: up to a newline or [size - 1] characters. *)
Fixpoint fgets_aux (n left : nat) (s cur : list Z) : list (list Z) :=
  match s with
  | [] => if bool_decide (cur = []) then [] else [cur]
  | c :: s' =>
      if (c =? NL) || Nat.eqb left 1 then (cur ++ [c]) :: fgets_aux n n s' []
      else fgets_aux n (left - 1) s' (cur ++ [c])
  end.

Definition fgets_chunks (size : nat) (s : list Z) : list (list Z) :=
  fgets_aux (size - 1) (size - 1) s [].

(** The text [file_readline] passes to its callback for one line: as a C
    string, and with [trim] without surrounding white space. *)
Definition trim_line (trim : bool) (line : list Z) : list Z :=
  if trim then
    let line := drop_while_end (fun c => (c =? 10) || (c =? 13) || (c =? 32)) line in
    c_str (drop_while (fun c => c =? 32) line)
  else c_str line.

(** The callback threads a state and asks to stop by returning [false]. *)
Fixpoint readline_loop {S} (trim : bool) (fn : S -> list Z -> S * bool)
  (lines : list (list Z)) (x : S) : S :=
  match lines with
  | [] => x
  | l :: lines' =>
      let '(x', go) := fn x (trim_line trim l) in
      if go : bool then readline_loop trim fn lines' x' else x'
  end.

Definition file_readline {S} (trim : bool) (contents : list Z)
  (fn : S -> list Z -> S * bool) (x : S) : S :=
  readline_loop trim fn (getlines contents) x.

(** ** Paths *)

Definition SLASH : Z := 47.

Definition dirname (p : list Z) : list Z :=
  if bool_decide (p = []) then B "."
  else
    let p1 := drop_while_end (fun c => c =? SLASH) p in
    if bool_decide (p1 = []) then B "/"
    else
      let p2 := drop_while_end (fun c => negb (c =? SLASH)) p1 in
      if bool_decide (p2 = []) then B "."
      else
        let p3 := drop_while_end (fun c => c =? SLASH) p2 in
        if bool_decide (p3 = []) then B "/" else p3.

Definition basename (p : list Z) : list Z :=
  match rfind_char p SLASH with Some i => drop (S i) p | None => p end.

(** ** Numbers print and read back *)

Lemma digits_app base fuel n acc :
  digits base fuel n acc = digits base fuel n [] ++ acc.
Proof.
  revert n acc. induction fuel as [|fuel IH]; intros n acc; cbn [digits]; [done|].
  destruct (n <? base); [done|]. rewrite IH, (IH _ [_]), <- app_assoc. done.
Qed.

Lemma digit_val_char d : 0 <= d < 16 -> digit_val (digit_char d) = Some d.
Proof.
  intros Hd. assert (H : In d (map Z.of_nat (seq 0 16))).
  { apply in_map_iff. exists (Z.to_nat d). split; [lia|]. apply in_seq. lia. }
  revert H. vm_compute. intros H. repeat (destruct H as [<-|H]; [reflexivity|]). done.
Qed.

Lemma digits_val_snoc base ds c :
  digits_val base (ds ++ [c]) = digits_val base ds * base + default 0 (digit_val c).
Proof. unfold digits_val. by rewrite fold_left_app. Qed.

Lemma digits_spec base fuel n :
  2 <= base <= 16 -> 0 <= n < base ^ Z.of_nat fuel -> (0 < fuel)%nat ->
  let ds := digits base fuel n [] in
  digits_val base ds = n /\ Forall (fun c => is_digit_of base c = true) ds /\ ds <> [].
Proof.
  intros Hb. revert n. induction fuel as [|fuel IH]; intros n Hn Hf; [lia|]. cbn [digits].
  assert (Hm := Z.mod_pos_bound n base ltac:(lia)).
  assert (Hc : digit_val (digit_char (n mod base)) = Some (n mod base)) by (apply digit_val_char; lia).
  assert (Hd : is_digit_of base (digit_char (n mod base)) = true)
    by (unfold is_digit_of; rewrite Hc; apply Z.ltb_lt; lia).
  destruct (Z.ltb_spec n base) as [Hlt|Hge].
  - rewrite Z.mod_small in * by lia. unfold digits_val. cbn. rewrite Hc. cbn. auto.
  - rewrite digits_app. assert (Hq : 0 <= n / base < base ^ Z.of_nat fuel).
    { split; [apply Z.div_pos; lia|]. apply Z.div_lt_upper_bound; [lia|].
      rewrite Nat2Z.inj_succ, Z.pow_succ_r in Hn by lia. lia. }
    destruct (IH (n / base) Hq) as (H1 & H2 & H3).
    { destruct fuel; [|lia]. cbn in Hq. pose proof (Z.div_le_mono base n base).
      rewrite Z.div_same in * by lia. lia. }
    rewrite digits_val_snoc, H1, Hc. cbn [default]. split; [|split].
    + pose proof (Z.div_mod n base). cbn. lia.
    + apply Forall_app; auto.
    + by destruct (digits _ _ _ _).
Qed.

Lemma take_while_app_stop p l rest :
  Forall (fun c => p c = true) l -> (match rest with c :: _ => p c = false | [] => True end) ->
  take_while p (l ++ rest) = l.
Proof.
  intros Hl Hr. induction Hl as [|c l Hc _ IH]; cbn.
  - by destruct rest as [|c rest]; cbn; rewrite ?Hr.
  - by rewrite Hc, IH.
Qed.

(** A digit is neither white space nor a sign. *)
Lemma digit_plain base c : is_digit_of base c = true -> isspace c = false /\ c <> 45 /\ c <> 43.
Proof.
  unfold is_digit_of, digit_val, isspace. intros H.
  destruct ((48 <=? c) && (c <=? 57)) eqn:E1;
    [|destruct ((97 <=? c) && (c <=? 102)) eqn:E2;
      [|destruct ((65 <=? c) && (c <=? 70)) eqn:E3; [|done]]];
    match goal with E : (_ <=? c) && (c <=? _) = true |- _ =>
      apply andb_true_iff in E as [Ea Eb]; apply Z.leb_le in Ea, Eb end;
    (split; [|lia]); apply orb_false_iff;
    (split; [apply Z.eqb_neq; lia|apply andb_false_iff; right; apply Z.leb_gt; lia]).
Qed.

(** Nothing that follows could be taken for more of the number. *)
Definition stops (base : Z) (rest : list Z) : Prop :=
  match rest with c :: _ => is_digit_of base c = false /\ c <> 120 /\ c <> 88 | [] => True end.

Lemma read_0x_digits ds base rest :
  Forall (fun c => is_digit_of base c = true) ds -> stops base rest -> base <= 16 ->
  read_0x base (ds ++ rest) = ds ++ rest.
Proof.
  intros Hd Hr Hb. destruct ds as [|a [|b ds]].
  - cbn [app]. destruct rest as [|z [|x [|d rest]]]; cbn [read_0x]; try done.
    destruct (z =? 48) eqn:E; [|by rewrite andb_false_r].
    apply Z.eqb_eq in E as ->. destruct Hr as [Hr _].
    destruct (Z.eqb_spec base 16) as [->|]; done.
  - cbn [app]. destruct rest as [|x [|d rest]]; cbn [read_0x]; try done.
    destruct Hr as (_ & H1 & H2).
    destruct (Z.eqb_spec x 120), (Z.eqb_spec x 88); try done.
    cbn [orb]. rewrite andb_false_r. done.
  - cbn [app]. apply Forall_cons in Hd as [_ Hd]. apply Forall_cons in Hd as [Hb' _].
    assert (b <> 120 /\ b <> 88) as [N1 N2].
    { split; intros ->; unfold is_digit_of in Hb'; cbn in Hb'; done. }
    destruct (ds ++ rest) as [|d l]; cbn [read_0x]; [done|].
    destruct (Z.eqb_spec b 120), (Z.eqb_spec b 88); try done.
    cbn [orb]. rewrite andb_false_r. done.
Qed.

(** Any run of digits, leading zeros included, reads as its value. *)
Lemma read_number_run base ds rest :
  2 <= base <= 16 -> Forall (fun c => is_digit_of base c = true) ds -> ds <> [] -> stops base rest ->
  read_number base (ds ++ rest) = Some (digits_val base ds, rest).
Proof.
  intros Hb Hall Hne Hr. unfold read_number. destruct ds as [|d ds'] eqn:Eds; [done|].
  apply Forall_cons in Hall as Hd. destruct Hd as [Hd _].
  destruct (digit_plain base d Hd) as (Hsp & Hm & Hp).
  cbn [app drop_while]. rewrite Hsp. cbn [read_sign].
  destruct (Z.eqb_spec d 45), (Z.eqb_spec d 43); try done.
  change (d :: ds' ++ rest) with ((d :: ds') ++ rest).
  rewrite read_0x_digits by (auto; lia).
  rewrite take_while_app_stop; [|done|destruct rest; [done|by destruct Hr]].
  rewrite bool_decide_false by done. by rewrite drop_app_length.
Qed.

Lemma read_number_spaces base n s :
  read_number base (replicate n 32 ++ s) = read_number base s.
Proof.
  unfold read_number. replace (drop_while isspace (replicate n 32 ++ s)) with (drop_while isspace s).
  - done.
  - induction n; cbn; auto.
Qed.

Lemma digits_val_zeros base k ds : digits_val base (replicate k 48 ++ ds) = digits_val base ds.
Proof.
  unfold digits_val. rewrite fold_left_app. f_equal. induction k as [|k IH]; [done|].
  cbn [replicate fold_left]. exact IH.
Qed.

(** Printing with at least [w] digits, as "%08lx" does. *)
Definition pad_digits (base : Z) (w : nat) (n : Z) : list Z :=
  let ds := digits base 20 n [] in replicate (w - length ds) 48 ++ ds.

Lemma read_number_pad base w n rest :
  2 <= base <= 16 -> 0 <= n < base ^ 20 -> stops base rest ->
  read_number base (pad_digits base w n ++ rest) = Some (n, rest).
Proof.
  intros Hb Hn Hr. destruct (digits_spec base 20 n Hb Hn) as (Hv & Hall & Hne); [lia|].
  unfold pad_digits. rewrite read_number_run; [|done| | |done].
  - by rewrite digits_val_zeros, Hv.
  - apply Forall_app; split; [|done]. apply Forall_replicate. unfold is_digit_of. cbn.
    apply Z.ltb_lt. lia.
  - intros E. by apply app_nil in E as [_ ?].
Qed.

(** ** Lines that were printed are read back *)

Lemma getlines_aux_line l cur rest :
  NL ∉ l -> getlines_aux (l ++ NL :: rest) cur = (cur ++ l ++ [NL]) :: getlines_aux rest [].
Proof.
  revert cur. induction l as [|c l IH]; intros cur H; cbn [app getlines_aux].
  - by rewrite Z.eqb_refl.
  - apply not_elem_of_cons in H as [Hc Hl]. destruct (Z.eqb_spec c NL); [congruence|].
    rewrite IH by done. by rewrite <- !app_assoc.
Qed.

Lemma getlines_concat ls :
  Forall (fun l => NL ∉ l) ls -> getlines (concat (map (fun l => l ++ [NL]) ls)) = map (fun l => l ++ [NL]) ls.
Proof.
  unfold getlines. induction 1 as [|l ls Hl _ IH]; [done|]. cbn [map concat].
  rewrite <- app_assoc. cbn [app]. rewrite getlines_aux_line by done. by rewrite IH.
Qed.

Lemma c_str_id l : 0 ∉ l -> c_str l = l.
Proof.
  unfold c_str. induction l as [|c l IH]; intros H; [done|]. cbn.
  apply not_elem_of_cons in H as [Hc Hl]. destruct (Z.eqb_spec c 0); [congruence|].
  cbn. by rewrite IH.
Qed.

(** The characters of a printed number. *)
Lemma pad_digits_chars base w n c :
  2 <= base <= 16 -> 0 <= n < base ^ 20 -> c ∈ pad_digits base w n -> 48 <= c.
Proof.
  intros Hb Hn Hc. destruct (digits_spec base 20 n Hb Hn) as (_ & Hall & _); [lia|].
  unfold pad_digits in Hc. apply elem_of_app in Hc as [Hc|Hc].
  - apply elem_of_replicate in Hc. lia.
  - rewrite Forall_forall in Hall. specialize (Hall c Hc). unfold is_digit_of, digit_val in Hall.
    repeat match type of Hall with context [if ?b then _ else _] => destruct b eqn:? end;
      try done; repeat match goal with H : _ && _ = true |- _ => apply andb_true_iff in H as [? ?] end; lia.
Qed.
