(* ===== verification/Relocate.v ===== *)
(** Decoders of the two compact relocation encodings
    (loader/src/linker/relocate.cpp): APS2 packed relocations and RELR.
    The byte cursor [p] of the source is the list of the bytes that remain
    before [end]; the callback [emit] never influences decoding, so a decoder
    returns the list of the calls it makes to it, in order. *)
From S2P Require Import Prelude.
Open Scope Z_scope.

(** ** SLEB128 *)

(** One signed LEB128 number. A shift of a 64-bit value by 64 or more has no
    defined result, so an over-long number is a [Crash]; running into [end]
    returns what was read so far, as the source does. *)
Fixpoint ReadSleb128_loop (value shift : Z) (p : list Z) : outcome (Z * list Z) :=
  match p with
  | [] => Ret (value, [])
  | byte :: p' =>
      if 64 <=? shift then Crash
      else
        let value := Z.lor value (s64 (Z.shiftl (Z.land byte 0x7f) shift)) in
        let shift := shift + 7 in
        if (byte &? 0x80) then ReadSleb128_loop value shift p'
        else Ret (if (shift <? 64) && (byte &? 0x40)
                  then Z.lor value (s64 (- s64 (Z.shiftl 1 shift)))
                  else value, p')
  end.

Definition ReadSleb128 (p : list Z) : outcome (Z * list Z) := ReadSleb128_loop 0 0 p.

(** ** APS2 packed relocations *)

Definition kGroupedByInfo : Z := 1.
Definition kGroupedByOffsetDelta : Z := 2.
Definition kGroupedByAddend : Z := 4.
Definition kGroupHasAddend : Z := 8.

(** The arguments of one call of [emit]. *)
Record reloc := Reloc { rl_offset : Z; rl_info : Z; rl_addend : Z }.

(** The running relocation of the decoder and its cursor. *)
Record aps2_state := Aps2 {
  a_offset : Z; a_info : Z; a_addend : Z; a_p : list Z }.

Definition packed_entry (flags group_delta : Z) (has_addend : bool) (st : aps2_state)
  : outcome aps2_state :=
  '(delta, p) ← (if (flags &? kGroupedByOffsetDelta) then Ret (group_delta, a_p st)
                 else '(v, p) ← ReadSleb128 (a_p st); Ret (u64 v, p));
  let r_offset := u64 (a_offset st + delta) in
  '(r_info, p) ← (if negb (flags &? kGroupedByInfo)
                  then '(v, p) ← ReadSleb128 p; Ret (u64 v, p) else Ret (a_info st, p));
  '(r_addend, p) ← (if has_addend && negb (flags &? kGroupedByAddend)
                    then '(v, p) ← ReadSleb128 p; Ret (s64 (a_addend st + v), p)
                    else Ret (a_addend st, p));
  Ret (Aps2 r_offset r_info r_addend p).

Fixpoint packed_group (fuel : nat) (i group_size flags group_delta : Z) (has_addend : bool)
  (st : aps2_state) (emitted : list reloc) : outcome (aps2_state * list reloc) :=
  if i <? group_size then
    match fuel with
    | O => OutOfFuel
    | S fuel' =>
        st ← packed_entry flags group_delta has_addend st;
        packed_group fuel' (i + 1) group_size flags group_delta has_addend st
          (emitted ++ [Reloc (a_offset st) (a_info st) (a_addend st)])
    end
  else Ret (st, emitted).

Fixpoint packed_groups (fuel : nat) (idx total : Z) (st : aps2_state) (emitted : list reloc)
  : outcome (list reloc) :=
  if idx <? total then
    match fuel with
    | O => OutOfFuel
    | S fuel' =>
        '(group_size, p) ← ReadSleb128 (a_p st);
        '(v, p) ← ReadSleb128 p;
        let flags := u64 v in
        '(group_delta, p) ← (if (flags &? kGroupedByOffsetDelta)
                             then '(v, p) ← ReadSleb128 p; Ret (u64 v, p) else Ret (0, p));
        '(r_info, p) ← (if (flags &? kGroupedByInfo)
                        then '(v, p) ← ReadSleb128 p; Ret (u64 v, p) else Ret (a_info st, p));
        let has_addend := (flags &? kGroupHasAddend) in
        '(r_addend, p) ← (if negb has_addend then Ret (0, p)
                          else if (flags &? kGroupedByAddend)
                               then '(v, p) ← ReadSleb128 p; Ret (s64 (a_addend st + v), p)
                               else Ret (a_addend st, p));
        '(st, emitted) ← packed_group fuel' 0 group_size flags group_delta has_addend
                           (Aps2 (a_offset st) r_info r_addend p) emitted;
        packed_groups fuel' (s64 (idx + group_size)) total st emitted
    end
  else Ret emitted.

(** [None]: the magic is wrong and the source returns [false]. *)
Definition ForEachPackedReloc (fuel : nat) (stream : list Z) : outcome (option (list reloc)) :=
  if negb (starts_with stream (B "APS2")) then Ret None
  else
    '(total, p) ← ReadSleb128 (drop 4 stream);
    '(v, p) ← ReadSleb128 p;
    rs ← packed_groups fuel 0 total (Aps2 (u64 v) 0 0 p) [];
    Ret (Some rs).

(** ** RELR *)

(** The words of one bitmap, low bit first; [fuel] 64 covers a 64-bit entry. *)
Fixpoint relr_bits (fuel : nat) (bits where_ : Z) : list Z :=
  match fuel with
  | O => []
  | S fuel' =>
      if bits =? 0 then []
      else (if (bits &? 1) then [where_] else [])
           ++ relr_bits fuel' (Z.shiftr bits 1) (u64 (where_ + 8))
  end.

Fixpoint ForEachRelr_loop (table : list Z) (load_bias base : Z) : list Z :=
  match table with
  | [] => []
  | entry :: table' =>
      if negb (entry &? 1) then
        let base := u64 (load_bias + entry) in
        base :: ForEachRelr_loop table' load_bias (u64 (base + 8))
      else
        relr_bits 64 (Z.shiftr entry 1) base
          ++ ForEachRelr_loop table' load_bias (u64 (base + (8 * 8 - 1) * 8))
  end.

(** The addresses [emit] is called with, for the first [count] entries. *)
Definition ForEachRelr (table : list Z) (count : nat) (load_bias : Z) : list Z :=
  ForEachRelr_loop (take count table) load_bias 0.

(** ** Specification of the encodings *)

(** The canonical SLEB128 encoding; ten bytes hold every [int64_t]. *)
Fixpoint sleb_encode (n : nat) (v : Z) : list Z :=
  match n with
  | O => []
  | S n' => if (-64 <=? v) && (v <? 64) then [v mod 128]
            else (v mod 128 + 128) :: sleb_encode n' (v / 128)
  end.

Definition sleb (v : Z) : list Z := sleb_encode 10 v.

Lemma land_7f b : Z.land b 0x7f = b mod 128.
Proof. change 0x7f with (Z.ones 7). by rewrite Z.land_ones by lia. Qed.

Lemma bit7_low v : ((v mod 128) &? 0x80) = false.
Proof.
  change 0x80 with (2 ^ 7). rewrite has_bits_pow2 by lia.
  apply (testbit_lt _ 7); [|lia]. apply Z.mod_pos_bound; lia.
Qed.

Lemma bit7_high v : ((v mod 128 + 128) &? 0x80) = true.
Proof.
  change 0x80 with (2 ^ 7). rewrite has_bits_pow2 by lia.
  rewrite Z.testbit_true by lia. pose proof (Z.mod_pos_bound v 128).
  change (2 ^ 7) with 128.
  replace ((v mod 128 + 128) / 128) with 1
    by (apply Z.div_unique with (v mod 128); lia). done.
Qed.

Lemma bit6_sign v : -64 <= v < 64 -> ((v mod 128) &? 0x40) = (v <? 0).
Proof.
  intros Hv. change 0x40 with (2 ^ 6). rewrite has_bits_pow2 by lia.
  destruct (Z.ltb_spec v 0).
  - replace (v mod 128) with (v + 128) by (apply Zmod_unique with (-1); lia).
    rewrite Z.testbit_true by lia. change (2 ^ 6) with 64.
    replace ((v + 128) / 64) with 1 by (apply Z.div_unique with (v + 64); lia). done.
  - rewrite (Z.mod_small v) by lia. apply (testbit_lt _ 6); lia.
Qed.

(** Accumulating seven more bits: the bits read so far stay below the shift. *)
Lemma sleb_accumulate acc k b :
  0 <= k -> k + 7 <= 63 -> 0 <= acc < 2 ^ k -> 0 <= b < 128 ->
  Z.lor acc (s64 (Z.shiftl b k)) = acc + 2 ^ k * b.
Proof.
  intros Hk Hk' Ha Hb. rewrite Z.shiftl_mul_pow2 by lia.
  assert (Hp : 2 ^ k * 128 <= 2 ^ 63).
  { change 128 with (2 ^ 7). rewrite <- Z.pow_add_r by lia. apply Z.pow_le_mono_r; lia. }
  rewrite swrap_id; [|lia|unfold fits_s; change (64 - 1) with 63; nia].
  rewrite (lor_disjoint_add _ _ k) by (try lia; apply Z.mod_mul; lia). lia.
Qed.

Lemma sleb_sign_extend acc k :
  0 <= k <= 63 -> 0 <= acc < 2 ^ k ->
  Z.lor acc (s64 (- s64 (Z.shiftl 1 k))) = acc - 2 ^ k.
Proof.
  intros Hk Ha. rewrite Z.shiftl_1_l.
  assert (E : s64 (- s64 (2 ^ k)) = - 2 ^ k).
  { assert (2 ^ k <= 2 ^ 63) by (apply Z.pow_le_mono_r; lia).
    destruct (Z.eq_dec k 63) as [->|]; [reflexivity|].
    assert (2 * 2 ^ k <= 2 ^ 63)
      by (rewrite <- Z.pow_succ_r by lia; apply Z.pow_le_mono_r; lia).
    rewrite (swrap_id 64 (2 ^ k)) by (try lia; unfold fits_s; change (64 - 1) with 63; lia).
    apply swrap_id; [lia|]. unfold fits_s; change (64 - 1) with 63; lia. }
  rewrite E, (lor_disjoint_add _ _ k); [lia|lia|lia|].
  replace (- 2 ^ k) with (-1 * 2 ^ k) by ring. apply Z.mod_mul; lia.
Qed.

Lemma ReadSleb128_loop_encode n acc k v rest :
  0 <= acc < 2 ^ (7 * Z.of_nat k) -> (k + n = 10)%nat -> (0 < n)%nat ->
  fits_s 64 (acc + 2 ^ (7 * Z.of_nat k) * v) ->
  ReadSleb128_loop acc (7 * Z.of_nat k) (sleb_encode n v ++ rest)
  = Ret (acc + 2 ^ (7 * Z.of_nat k) * v, rest).
Proof.
  revert acc k v. induction n as [|n IH]; intros acc k v Ha Hkn Hn Hfit; [lia|].
  unfold fits_s in Hfit; change (64 - 1) with 63 in Hfit.
  set (sh := 7 * Z.of_nat k) in *.
  assert (Hb := Z.mod_pos_bound v 128 ltac:(lia)).
  assert (Hv := Z.div_mod v 128 ltac:(lia)).
  cbn [sleb_encode].
  destruct ((-64 <=? v) && (v <? 64)) eqn:Ec.
  - apply andb_true_iff in Ec as [E1 E2]. apply Z.leb_le in E1. apply Z.ltb_lt in E2.
    cbn [app ReadSleb128_loop]. rewrite bit7_low, land_7f, Z.mod_mod by lia.
    replace (64 <=? sh) with false by (symmetry; apply Z.leb_gt; lia).
    rewrite bit6_sign by lia.
    destruct (Z.eq_dec sh 63) as [E63|N63].
    + rewrite E63 in *. change (63 + 7 <? 64) with false. cbn [andb].
      assert (v = 0 \/ v = -1) as [-> | ->] by lia.
      * change (s64 (Z.shiftl (0 mod 128) 63)) with 0. rewrite Z.lor_0_r. do 2 f_equal; lia.
      * change (s64 (Z.shiftl (-1 mod 128) 63)) with (-1 * 2 ^ 63).
        rewrite (lor_disjoint_add _ _ 63) by (try lia; apply Z.mod_mul; lia). do 2 f_equal; lia.
    + assert (Hsh : sh + 7 <= 63) by lia.
      rewrite sleb_accumulate by lia.
      replace (sh + 7 <? 64) with true by (symmetry; apply Z.ltb_lt; lia). cbn [andb].
      destruct (Z.ltb_spec v 0).
      * rewrite sleb_sign_extend; [|lia|rewrite Z.pow_add_r by lia; change (2 ^ 7) with 128; nia].
        rewrite Z.pow_add_r by lia. change (2 ^ 7) with 128.
        replace (v mod 128) with (v + 128) by (apply Zmod_unique with (-1); lia).
        do 2 f_equal; ring.
      * by rewrite (Z.mod_small v 128) by lia.
  - assert (Hout : v < -64 \/ 64 <= v).
    { apply andb_false_iff in Ec as [E|E]; [apply Z.leb_gt in E | apply Z.ltb_ge in E]; lia. }
    assert (Hsh : sh + 7 <= 63).
    { destruct (Z.le_gt_cases (sh + 7) 63); [lia|]. exfalso.
      assert (2 ^ 63 <= 2 ^ sh) by (apply Z.pow_le_mono_r; lia). nia. }
    cbn [app ReadSleb128_loop]. rewrite bit7_high, land_7f.
    replace ((v mod 128 + 128) mod 128) with (v mod 128)
      by (apply Zmod_unique with 1; lia).
    replace (64 <=? sh) with false by (symmetry; apply Z.leb_gt; lia).
    rewrite sleb_accumulate by lia.
    replace (sh + 7) with (7 * Z.of_nat (S k)) by lia.
    assert (E7 : 2 ^ (7 * Z.of_nat (S k)) = 2 ^ sh * 128).
    { replace (7 * Z.of_nat (S k)) with (sh + 7) by lia.
      rewrite Z.pow_add_r by lia. done. }
    assert (E : acc + 2 ^ sh * v
                = acc + 2 ^ sh * (v mod 128) + 2 ^ (7 * Z.of_nat (S k)) * (v / 128)).
    { rewrite E7. rewrite Hv at 1. ring. }
    rewrite E. apply IH; [rewrite E7; nia | lia | lia |].
    rewrite <- E. exact Hfit.
Qed.

Lemma ReadSleb128_sleb v rest : fits_s 64 v -> ReadSleb128 (sleb v ++ rest) = Ret (v, rest).
Proof.
  intros Hv. pose proof (ReadSleb128_loop_encode 10 0 0 v rest) as H.
  change (7 * Z.of_nat 0) with 0 in H. change (2 ^ 0) with 1 in H.
  rewrite !Z.mul_1_l, Z.add_0_l in H. apply H; lia || done.
Qed.

(** A group of an APS2 stream: the fields its flags say it has, and its
    entries, each with the fields that are not shared by the group. *)
Record entry := Entry { e_delta : Z; e_info : Z; e_addend : Z }.
Record group := Group {
  g_flags : Z; g_delta : Z; g_info : Z; g_addend : Z; g_entries : list entry }.

Definition opt (b : bool) (bs : list Z) : list Z := if b then bs else [].

Section GroupFlags.
Context (flags : Z).

Definition by_delta : bool := (flags &? kGroupedByOffsetDelta).
Definition by_info : bool := (flags &? kGroupedByInfo).
Definition by_addend : bool := (flags &? kGroupedByAddend).
Definition with_addend : bool := (flags &? kGroupHasAddend).

Definition encode_entry (e : entry) : list Z :=
  opt (negb by_delta) (sleb (e_delta e)) ++ opt (negb by_info) (sleb (e_info e))
  ++ opt (with_addend && negb by_addend) (sleb (e_addend e)).

(** The relocations a group stands for, from the running offset, info and
    addend it starts with. *)
Fixpoint expand_entries (delta off info add : Z) (es : list entry) : list reloc :=
  match es with
  | [] => []
  | e :: es' =>
      let off := u64 (off + (if by_delta then delta else u64 (e_delta e))) in
      let info := if by_info then info else u64 (e_info e) in
      let add := if with_addend && negb by_addend then s64 (add + e_addend e) else add in
      Reloc off info add :: expand_entries delta off info add es'
  end.
End GroupFlags.

Definition encode_group (g : group) : list Z :=
  let f := g_flags g in
  sleb (Z.of_nat (length (g_entries g))) ++ sleb f
  ++ opt (by_delta f) (sleb (g_delta g)) ++ opt (by_info f) (sleb (g_info g))
  ++ opt (with_addend f && by_addend f) (sleb (g_addend g))
  ++ concat (map (encode_entry f) (g_entries g)).

Definition group_start (g : group) (info add : Z) : Z * Z :=
  let f := g_flags g in
  (if by_info f then u64 (g_info g) else info,
   if with_addend f then (if by_addend f then s64 (add + g_addend g) else add) else 0).

Definition last_reloc (off info add : Z) (rs : list reloc) : Z * Z * Z :=
  match last rs with
  | Some r => (rl_offset r, rl_info r, rl_addend r)
  | None => (off, info, add)
  end.

Fixpoint expand (off info add : Z) (gs : list group) : list reloc :=
  match gs with
  | [] => []
  | g :: gs' =>
      let '(info, add) := group_start g info add in
      let rs := expand_entries (g_flags g) (u64 (g_delta g)) off info add (g_entries g) in
      let '(off, info, add) := last_reloc off info add rs in
      rs ++ expand off info add gs'
  end.

Definition group_count (gs : list group) : Z :=
  Z.of_nat (length (concat (map g_entries gs))).

Definition encode_stream (off : Z) (gs : list group) : list Z :=
  B "APS2" ++ sleb (group_count gs) ++ sleb off ++ concat (map encode_group gs).

Definition entry_ok (e : entry) : Prop :=
  fits_s 64 (e_delta e) /\ fits_s 64 (e_info e) /\ fits_s 64 (e_addend e).
Definition group_ok (g : group) : Prop :=
  0 <= g_flags g < 16 /\ fits_s 64 (g_delta g) /\ fits_s 64 (g_info g)
  /\ fits_s 64 (g_addend g) /\ g_entries g <> [] /\ Forall entry_ok (g_entries g).

(** Reading an optional field of a group. *)
Lemma read_opt {A} (b : bool) v (f : Z -> A) (d : A) rest :
  fits_s 64 v ->
  (if b then '(x, p) ← ReadSleb128 (opt b (sleb v) ++ rest); Ret (f x, p)
   else Ret (d, opt b (sleb v) ++ rest))
  = Ret (if b then f v else d, rest).
Proof. intros Hv. destruct b; simpl; [by rewrite ReadSleb128_sleb|done]. Qed.

Lemma packed_entry_spec flags delta off info add e rest :
  entry_ok e ->
  packed_entry flags delta (with_addend flags)
    (Aps2 off info add (encode_entry flags e ++ rest))
  = Ret (Aps2 (u64 (off + (if by_delta flags then delta else u64 (e_delta e))))
           (if by_info flags then info else u64 (e_info e))
           (if with_addend flags && negb (by_addend flags)
            then s64 (add + e_addend e) else add) rest).
Proof.
  intros (Hd & Hi & Ha). unfold packed_entry, encode_entry. rewrite <- !app_assoc.
  fold (by_delta flags) (by_info flags) (by_addend flags). cbn [a_p a_offset a_info a_addend].
  destruct (by_delta flags), (by_info flags), (by_addend flags), (with_addend flags);
    cbn [negb andb opt app]; do 3 (rewrite ?ReadSleb128_sleb by done; ostep); done.
Qed.

Lemma last_reloc_app off info add r rs :
  last_reloc off info add (r :: rs)
  = last_reloc (rl_offset r) (rl_info r) (rl_addend r) rs.
Proof. unfold last_reloc. destruct rs as [|x rs]; [done|]. rewrite last_cons_cons.
  destruct (last (x :: rs)) eqn:E; [done|]. by apply last_None in E. Qed.

Lemma packed_group_spec fuel flags delta i n es off info add acc rest :
  Forall entry_ok es -> n = i + Z.of_nat (length es) -> (length es <= fuel)%nat ->
  packed_group fuel i n flags delta (with_addend flags)
    (Aps2 off info add (concat (map (encode_entry flags) es) ++ rest)) acc
  = let rs := expand_entries flags delta off info add es in
    let '(off, info, add) := last_reloc off info add rs in
    Ret (Aps2 off info add rest, acc ++ rs).
Proof.
  revert i n off info add acc fuel.
  induction es as [|e es IH]; intros i n off info add acc fuel Hok -> Hf; cbn [length] in *.
  - destruct fuel; cbn [packed_group]; rewrite Z.add_0_r, Z.ltb_irrefl; cbn;
      by rewrite app_nil_r.
  - destruct fuel as [|fuel]; [lia|]. apply Forall_cons in Hok as [He Hes].
    cbn [packed_group map concat].
    replace (i <? i + Z.of_nat (S (length es))) with true by (symmetry; apply Z.ltb_lt; lia).
    rewrite <- app_assoc, packed_entry_spec by done. ostep.
    rewrite (IH (i + 1) _ _ _ _ _ fuel) by (done || lia).
    cbn [expand_entries a_offset a_info a_addend]. rewrite last_reloc_app.
    cbn [rl_offset rl_info rl_addend].
    destruct (last_reloc _ _ _ _) as [[? ?] ?]. by rewrite <- app_assoc.
Qed.

Lemma group_count_cons g gs :
  group_count (g :: gs) = Z.of_nat (length (g_entries g)) + group_count gs.
Proof. unfold group_count. cbn. rewrite length_app. lia. Qed.

Lemma packed_groups_spec fuel gs idx total off info add acc rest :
  Forall group_ok gs -> total = idx + group_count gs -> 0 <= idx -> total < 2 ^ 63 ->
  (length gs + length (concat (map g_entries gs)) <= fuel)%nat ->
  packed_groups fuel idx total
    (Aps2 off info add (concat (map encode_group gs) ++ rest)) acc
  = Ret (acc ++ expand off info add gs).
Proof.
  revert fuel idx off info add acc.
  induction gs as [|g gs IH]; intros fuel idx off info add acc Hok Ht Hi Hb Hf.
  - unfold group_count in Ht; cbn in Ht. subst total. rewrite Z.add_0_r.
    destruct fuel; cbn [packed_groups]; rewrite Z.ltb_irrefl; by rewrite app_nil_r.
  - apply Forall_cons in Hok as [(Hfl & Hd & Hin & Had & Hne & Hes) Hgs].
    rewrite group_count_cons in Ht.
    destruct fuel as [|fuel]; [cbn in Hf; lia|].
    cbn [map concat length] in Hf. rewrite length_app in Hf.
    assert (Hlen : (0 < length (g_entries g))%nat) by (destruct (g_entries g); [done|cbn; lia]).
    cbn [packed_groups map concat a_p].
    assert (0 <= group_count gs) by (unfold group_count; lia).
    replace (idx <? total) with true by (symmetry; apply Z.ltb_lt; lia).
    unfold encode_group. rewrite <- !app_assoc.
    rewrite ReadSleb128_sleb by (unfold fits_s; change (64 - 1) with 63; lia). ostep.
    rewrite ReadSleb128_sleb by (unfold fits_s; change (64 - 1) with 63; lia). ostep.
    rewrite (uwrap_id 64 (g_flags g)) by fits.
    fold (by_delta (g_flags g)) (by_info (g_flags g)) (by_addend (g_flags g))
      (with_addend (g_flags g)).
    rewrite (read_opt (by_delta (g_flags g)) (g_delta g) (uwrap 64) 0) by done. ostep.
    cbn [a_info a_addend a_offset].
    rewrite (read_opt (by_info (g_flags g)) (g_info g) (uwrap 64) info) by done. ostep.
    match goal with |- context [Ret (0, ?q)] => set (tail := q) end.
    assert (E : (if negb (with_addend (g_flags g)) then Ret (0, tail)
                 else if by_addend (g_flags g)
                      then '(v, p) ← ReadSleb128 tail; Ret (s64 (add + v), p)
                      else Ret (add, tail))
                = Ret (snd (group_start g info add),
                       concat (map (encode_entry (g_flags g)) (g_entries g))
                         ++ concat (map encode_group gs) ++ rest)).
    { unfold tail, group_start. destruct (with_addend (g_flags g)), (by_addend (g_flags g));
        cbn [negb andb opt app snd]; rewrite ?ReadSleb128_sleb by done; done. }
    rewrite E. ostep. clear E tail.
    rewrite (packed_group_spec fuel (g_flags g) _ 0 _ (g_entries g)) by (done || lia).
    cbn [expand]. unfold group_start at 2; cbn [snd].
    set (d := if by_delta (g_flags g) then u64 (g_delta g) else 0).
    assert (Ed : forall o i a, expand_entries (g_flags g) d o i a (g_entries g)
             = expand_entries (g_flags g) (u64 (g_delta g)) o i a (g_entries g)).
    { unfold d. generalize (g_entries g) as es. intros es.
      induction es as [|e es IHe]; intros o i a; [done|]. cbn [expand_entries].
      destruct (by_delta (g_flags g)); [done|]. by rewrite IHe. }
    rewrite Ed. unfold group_start; cbn [snd].
    destruct (last_reloc _ _ _ _) as [[o1 i1] a1] eqn:El. ostep.
    rewrite swrap_id by (try lia; unfold fits_s; change (64 - 1) with 63; lia).
    rewrite IH by (done || lia). by rewrite Ed, <- app_assoc.
Qed.

(** Number of loop iterations the decoder needs on an encoded stream. *)
Definition stream_fuel (gs : list group) : nat :=
  length gs + length (concat (map g_entries gs)).

Lemma ForEachPackedReloc_encode fuel off gs :
  Forall group_ok gs -> fits_s 64 off -> group_count gs < 2 ^ 63 ->
  (stream_fuel gs <= fuel)%nat ->
  ForEachPackedReloc fuel (encode_stream off gs)
  = Ret (Some (expand (u64 off) 0 0 gs)).
Proof.
  intros Hok Hoff Hc Hf. unfold ForEachPackedReloc, encode_stream.
  rewrite starts_with_app. cbn [negb]. change (drop 4 (B "APS2" ++ ?l)) with l.
  assert (0 <= group_count gs) by (unfold group_count; lia).
  rewrite ReadSleb128_sleb by (unfold fits_s; change (64 - 1) with 63; lia). ostep.
  rewrite ReadSleb128_sleb by done. ostep.
  pose proof (packed_groups_spec fuel gs 0 (group_count gs) (u64 off) 0 0 [] []) as H'.
  rewrite app_nil_r in H'. rewrite H'; unfold stream_fuel in Hf; done || lia.
Qed.

(** Every well-formed APS2 stream, whatever its groups share, decodes to
    exactly the relocations its groups stand for, in order, within one loop
    iteration per group and per entry. *)
Theorem packed_reloc_decodes fuel off gs :
  Forall group_ok gs -> fits_s 64 off -> group_count gs < 2 ^ 63 ->
  (stream_fuel gs <= fuel)%nat ->
  ForEachPackedReloc fuel (encode_stream off gs)
  = Ret (Some (expand (u64 off) 0 0 gs)).
Proof. apply ForEachPackedReloc_encode. Qed.

Definition demo_groups : list group :=
  [Group 11 8 0x403 0 [Entry 0 0 0x1000; Entry 0 0 (-16)];
   Group 0 0 0 0 [Entry 0x20 0x501 0]].

Lemma packed_reloc_decodes_witness :
  ForEachPackedReloc 5 (encode_stream 0x3000 demo_groups)
  = Ret (Some [Reloc 0x3008 0x403 0x1000; Reloc 0x3010 0x403 0xff0; Reloc 0x3030 0x501 0]).
Proof.
  rewrite (packed_reloc_decodes 5 0x3000 demo_groups); [reflexivity| | | |].
  - repeat constructor; cbv; intuition congruence.
  - cbv; intuition congruence.
  - reflexivity.
  - cbv; lia.
Defined.

(** The simplest packing of a relocation table: one group that shares nothing. *)
Fixpoint pack_entries (off add : Z) (rs : list reloc) : list entry :=
  match rs with
  | [] => []
  | r :: rs' =>
      Entry (s64 (rl_offset r - off)) (s64 (rl_info r)) (s64 (rl_addend r - add))
      :: pack_entries (rl_offset r) (rl_addend r) rs'
  end.

Definition pack (rs : list reloc) : list Z :=
  encode_stream 0 [Group kGroupHasAddend 0 0 0 (pack_entries 0 0 rs)].

Definition reloc_ok (r : reloc) : Prop :=
  fits_u 64 (rl_offset r) /\ fits_u 64 (rl_info r) /\ fits_s 64 (rl_addend r).

Lemma uwrap_swrap_add x y : fits_u 64 x -> u64 (y + u64 (s64 (x - y))) = x.
Proof.
  intros Hx. unfold uwrap, swrap.
  rewrite Z.add_mod_idemp_r by lia.
  replace (y + ((x - y + 2 ^ (64 - 1)) mod 2 ^ 64 - 2 ^ (64 - 1)))
    with ((x - y + 2 ^ (64 - 1)) mod 2 ^ 64 + (y - 2 ^ (64 - 1))) by ring.
  rewrite Z.add_mod_idemp_l by lia.
  replace (x - y + 2 ^ (64 - 1) + (y - 2 ^ (64 - 1))) with x by ring.
  by apply uwrap_id.
Qed.

Lemma swrap_add_diff x y : fits_s 64 x -> s64 (y + s64 (x - y)) = x.
Proof.
  intros Hx. apply swrap_eq_mod; [lia|done|]. unfold swrap.
  replace (y + ((x - y + 2 ^ (64 - 1)) mod 2 ^ 64 - 2 ^ (64 - 1)))
    with ((x - y + 2 ^ (64 - 1)) mod 2 ^ 64 + (y - 2 ^ (64 - 1))) by ring.
  rewrite Z.add_mod_idemp_l by lia. f_equal; ring.
Qed.

Lemma expand_pack_entries d off info add rs :
  Forall reloc_ok rs ->
  expand_entries kGroupHasAddend d off info add (pack_entries off add rs) = rs.
Proof.
  intros Hok. revert off info add.
  induction Hok as [|[o i a] rs (Ho & Hi & Ha) _ IH]; intros off info add; [done|].
  cbn [pack_entries expand_entries rl_offset rl_info rl_addend e_delta e_info e_addend] in *.
  change (by_delta kGroupHasAddend) with false. change (by_info kGroupHasAddend) with false.
  change (with_addend kGroupHasAddend && negb (by_addend kGroupHasAddend)) with true.
  cbv iota. rewrite uwrap_swrap_add, swrap_add_diff by done.
  pose proof (uwrap_swrap_add i 0 Hi) as Ei. rewrite Z.add_0_l, Z.sub_0_r in Ei.
  unfold uwrap in Ei at 1. rewrite Z.mod_small in Ei by (apply uwrap_fits; lia).
  rewrite Ei, IH. done.
Qed.

Lemma pack_entries_ok off add rs : Forall entry_ok (pack_entries off add rs).
Proof.
  revert off add; induction rs; intros; cbn; constructor; auto.
  repeat split; cbn; apply swrap_fits; lia.
Qed.

Lemma length_pack_entries off add rs : length (pack_entries off add rs) = length rs.
Proof. revert off add; induction rs; intros; cbn; auto. Qed.

(** C13. Packing is lossless: for every non-empty table of relocations with
    64-bit fields there is an APS2 stream that decodes back to that table. *)
Theorem packed_reloc_roundtrip fuel rs :
  Forall reloc_ok rs -> rs <> [] -> Z.of_nat (length rs) < 2 ^ 63 ->
  (length rs < fuel)%nat ->
  ForEachPackedReloc fuel (pack rs) = Ret (Some rs).
Proof.
  intros Hok Hne Hl Hf. unfold pack.
  assert (Hc : concat (map g_entries [Group kGroupHasAddend 0 0 0 (pack_entries 0 0 rs)])
               = pack_entries 0 0 rs) by (cbn; apply app_nil_r).
  rewrite ForEachPackedReloc_encode.
  - cbn [expand group_start g_flags g_delta g_info g_addend g_entries].
    rewrite expand_pack_entries by done.
    destruct (last_reloc _ _ _ _) as [[? ?] ?]. by rewrite app_nil_r.
  - repeat constructor; cbn; try (unfold kGroupHasAddend; lia).
    + destruct rs; done.
    + apply pack_entries_ok.
  - split; lia.
  - unfold group_count. by rewrite Hc, length_pack_entries.
  - unfold stream_fuel. rewrite Hc, length_pack_entries. cbn; lia.
Qed.

Lemma packed_reloc_roundtrip_witness :
  ForEachPackedReloc 4 (pack [Reloc 0x4000 0x403 (-1); Reloc 0x10 0x100000401 (2 ^ 63 - 1)])
  = Ret (Some [Reloc 0x4000 0x403 (-1); Reloc 0x10 0x100000401 (2 ^ 63 - 1)]).
Proof.
  apply (packed_reloc_roundtrip 4); [|discriminate|reflexivity|cbn; lia].
  repeat constructor; cbv; intuition congruence.
Defined.

Lemma packed_groups_exhausted fuel idx total st acc :
  idx < total -> fits_s 64 idx -> a_p st = [] -> packed_groups fuel idx total st acc = OutOfFuel.
Proof.
  revert st; induction fuel as [|fuel IH]; intros [off info add p] Hi Hs Hp; cbn in Hp; subst p;
    cbn [packed_groups]; (replace (idx <? total) with true by (symmetry; apply Z.ltb_lt; lia));
    [done|].
  cbn [a_p]. change (ReadSleb128 []) with (@Ret (Z * list Z) (0, [])). ostep.
  change (ReadSleb128 []) with (@Ret (Z * list Z) (0, [])). ostep. change (u64 0) with 0.
  change (0 &? kGroupedByOffsetDelta) with false.
  change (0 &? kGroupedByInfo) with false.
  change (0 &? kGroupHasAddend) with false. cbn [negb]. ostep. cbn [a_offset a_info].
  assert (E : forall f s, packed_group f 0 0 0 0 false s acc = Ret (s, acc)) by (by intros []).
  rewrite E. ostep. rewrite Z.add_0_r, swrap_id by (done || lia). by apply IH.
Qed.

(** A stream that announces relocations but ends after its header is
    never rejected: the group loop reads empty groups for ever. *)
Theorem packed_reloc_truncated_diverges total off fuel :
  0 < total -> fits_s 64 total -> fits_s 64 off ->
  ForEachPackedReloc fuel (B "APS2" ++ sleb total ++ sleb off) = OutOfFuel.
Proof.
  intros Ht Hs Ho. unfold ForEachPackedReloc. rewrite starts_with_app. cbn [negb].
  change (drop 4 (B "APS2" ++ ?l)) with l.
  rewrite ReadSleb128_sleb by done. ostep.
  pose proof (ReadSleb128_sleb off [] Ho) as E. rewrite app_nil_r in E. rewrite E. ostep.
  rewrite packed_groups_exhausted; [done|lia|split; lia|done].
Qed.

Lemma packed_reloc_truncated_diverges_witness :
  ForEachPackedReloc 1000 (B "APS2" ++ [1; 0]) = OutOfFuel.
Proof.
  apply (packed_reloc_truncated_diverges 1 0 1000); [lia|split; lia|split; lia].
Defined.

(** ** RELR: the encoding and its round trip *)

(** The bitmap of the word indices [ds]. *)
Definition bitmap (ds : list Z) : Z := foldr (fun d acc => 2 ^ d + acc) 0 ds.

Definition in_window (b o : Z) : bool := o <? b + 63 * 8.

(** Greedy RELR encoding of an increasing list of word offsets: an offset
    outside the 63-word window after the previous entry starts a new address
    entry, the offsets inside one window share a bitmap. *)
Fixpoint relr_encode (fuel : nat) (base : option Z) (offs : list Z) : list Z :=
  match offs, fuel with
  | [], _ => []
  | _, O => []
  | o :: offs', S fuel' =>
      match base with
      | Some b =>
          if in_window b o then
            (2 * bitmap (map (fun o => (o - b) / 8) (take_while (in_window b) offs)) + 1)
            :: relr_encode fuel' (Some (b + 63 * 8)) (drop_while (in_window b) offs)
          else o :: relr_encode fuel' (Some (o + 8)) offs'
      | None => o :: relr_encode fuel' (Some (o + 8)) offs'
      end
  end.

Definition ascending (l : list Z) : Prop := StronglySorted Z.lt l.

Lemma ascending_cons x l : ascending (x :: l) -> ascending l /\ Forall (Z.lt x) l.
Proof. intros H; by apply StronglySorted_inv in H. Qed.

Lemma bitmap_pred ds :
  Forall (fun d => 1 <= d) ds -> bitmap ds = 2 * bitmap (map Z.pred ds).
Proof.
  induction 1 as [|d ds Hd _ IH]; [done|]. cbn [bitmap foldr map].
  fold (bitmap ds). fold (bitmap (map Z.pred ds)). rewrite IH.
  replace (2 ^ d) with (2 * 2 ^ Z.pred d) by (rewrite <- Z.pow_succ_r by lia; f_equal; lia).
  ring.
Qed.

Lemma ascending_pred ds : ascending ds -> ascending (map Z.pred ds).
Proof.
  induction 1 as [|d ds _ IH Hd]; cbn; constructor; [done|].
  apply Forall_map. eapply Forall_impl; [exact Hd|]. cbn; lia.
Qed.

Lemma bitmap_nonneg ds : 0 <= bitmap ds.
Proof. induction ds as [|d ds IH]; cbn; [lia|]. fold (bitmap ds). lia. Qed.

Lemma relr_words_shift w ds :
  map (fun d => u64 (u64 (w + 8) + 8 * d)) (map Z.pred ds) = map (fun d => u64 (w + 8 * d)) ds.
Proof.
  rewrite map_map. apply map_ext. intros d.
  unfold uwrap. rewrite Z.add_mod_idemp_l by lia. f_equal. lia.
Qed.

Lemma relr_bits_bitmap fuel w ds :
  fits_u 64 w -> ascending ds -> Forall (fun d => 0 <= d < Z.of_nat fuel) ds ->
  relr_bits fuel (bitmap ds) w = map (fun d => u64 (w + 8 * d)) ds.
Proof.
  revert w ds; induction fuel as [|fuel IH]; intros w ds Hw Hs Hr.
  - destruct ds as [|d ds]; [done|]. apply Forall_cons in Hr as [Hd _]. lia.
  - destruct ds as [|d ds]; [done|]. cbn [relr_bits].
    apply ascending_cons in Hs as [Hs Hlt]. apply Forall_cons in Hr as [Hd Hr].
    pose proof (bitmap_nonneg ds) as Hnn.
    assert (Hpos : bitmap (d :: ds) <> 0) by (cbn; fold (bitmap ds); lia).
    replace (bitmap (d :: ds) =? 0) with false by (symmetry; by apply Z.eqb_neq).
    change 1 with (2 ^ 0) at 1. rewrite has_bits_pow2, Z.bit0_odd, Z.shiftr_div_pow2 by lia.
    change (2 ^ 1) with 2.
    assert (Hds : Forall (fun x => 1 <= x) ds) by (eapply Forall_impl; [exact Hlt|]; cbn; lia).
    assert (Hp : forall l, ascending l -> Forall (fun x => 1 <= x) l ->
                 Forall (fun x => 0 <= x < Z.of_nat (S fuel)) l ->
                 relr_bits fuel (bitmap (map Z.pred l)) (u64 (w + 8))
                 = map (fun d => u64 (w + 8 * d)) l).
    { intros l Hl H1 Hb. rewrite IH; [apply relr_words_shift|by auto with words|by apply ascending_pred|].
      apply Forall_map. eapply Forall_impl2; [exact H1|exact Hb|]. cbn. lia. }
    destruct (Z.eq_dec d 0) as [->|Hd0].
    + replace (bitmap (0 :: ds)) with (1 + 2 * bitmap (map Z.pred ds))
        by (cbn [bitmap foldr]; fold (bitmap ds); rewrite (bitmap_pred ds) by done; lia).
      rewrite Z.odd_add, Z.odd_mul. cbn [Z.odd xorb andb negb].
      replace ((1 + 2 * bitmap (map Z.pred ds)) / 2) with (bitmap (map Z.pred ds))
        by (apply Z.div_unique with 1; lia).
      rewrite Hp by done. cbn [map app]. by rewrite Z.mul_0_r, Z.add_0_r, uwrap_id.
    + assert (H1 : Forall (fun x => 1 <= x) (d :: ds)) by (constructor; [lia|done]).
      rewrite (bitmap_pred _ H1), Z.odd_mul. cbn [Z.odd andb].
      rewrite (Z.mul_comm 2), Z.div_mul by lia. cbn [app].
      apply Hp; [constructor; done | done | by constructor].
Qed.

Definition word_offset (o : Z) : Prop := 0 <= o /\ o mod 8 = 0.

Lemma in_window_split b offs :
  ascending offs ->
  Forall (fun o => in_window b o = true) (take_while (in_window b) offs)
  /\ ascending (take_while (in_window b) offs) /\ ascending (drop_while (in_window b) offs)
  /\ Forall (fun o => b + 63 * 8 <= o) (drop_while (in_window b) offs).
Proof.
  induction 1 as [|o offs Hs IH Ho]; cbn; [repeat constructor|].
  destruct IH as (H1 & H2 & H3 & H4).
  destruct (in_window b o) eqn:E; [repeat split; auto|].
  - constructor; [done|]. rewrite <- (take_drop_while (in_window b) offs) in Ho.
    by apply Forall_app in Ho as [Ho _].
  - unfold in_window in E. apply Z.ltb_ge in E. repeat split; [constructor|constructor| |].
    + by constructor.
    + constructor; [done|]. eapply Forall_impl; [exact Ho|]. cbn; lia.
Qed.

Lemma relr_window bias b offs :
  ascending offs -> Forall word_offset offs -> b mod 8 = 0 -> Forall (fun o => b <= o) offs ->
  Forall (fun o => in_window b o = true) offs ->
  relr_bits 64 (bitmap (map (fun o => (o - b) / 8) offs)) (u64 (bias + b))
  = map (fun o => u64 (bias + o)) offs.
Proof.
  intros Hs Hw Hb Hge Hwin. rewrite relr_bits_bitmap.
  - rewrite map_map. apply map_ext_Forall.
    eapply Forall_impl2; [exact Hw|exact Hge|].
    intros o [_ Ho] Hbo. cbn in *. unfold uwrap. rewrite Z.add_mod_idemp_l by lia. f_equal.
    assert ((o - b) mod 8 = 0) by (rewrite Zminus_mod, Ho, Hb; done).
    pose proof (Z.div_mod (o - b) 8). lia.
  - by auto with words.
  - clear Hge Hwin. induction Hs as [|o offs Hs IH Ho]; cbn; constructor.
    + apply IH. by apply Forall_cons in Hw as [_ ?].
    + apply Forall_map. apply Forall_cons in Hw as [[_ Ho8] Hw].
      eapply Forall_impl2; [exact Hw|exact Ho|].
      intros x [_ Hx] Hlt; cbn in *.
      pose proof (Z.div_mod (o - b) 8). pose proof (Z.div_mod (x - b) 8).
      assert ((o - b) mod 8 = 0) by (rewrite Zminus_mod, Ho8, Hb; done).
      assert ((x - b) mod 8 = 0) by (rewrite Zminus_mod, Hx, Hb; done). lia.
  - apply Forall_map. eapply Forall_impl2; [exact Hge|exact Hwin|].
    intros o Ho Hi; cbn in *. unfold in_window in Hi. apply Z.ltb_lt in Hi.
    split; [apply Z.div_pos; lia|]. apply Z.div_lt_upper_bound; lia.
Qed.

Lemma shiftr_odd x : Z.shiftr (2 * x + 1) 1 = x.
Proof.
  rewrite Z.shiftr_div_pow2 by lia. change (2 ^ 1) with 2.
  symmetry; apply Z.div_unique with 1; lia.
Qed.

Lemma has_bits_1_odd x : (x &? 1) = Z.odd x.
Proof. change 1 with (2 ^ 0). by rewrite has_bits_pow2, Z.bit0_odd by lia. Qed.

Lemma word_offset_even o : word_offset o -> (o &? 1) = false.
Proof.
  intros [_ Ho]. rewrite has_bits_1_odd. apply Z.div_exact in Ho; [|lia].
  rewrite Ho, Z.odd_mul. done.
Qed.

(** What is still to decode lies after the window of the last entry. *)
Definition after_base (base : option Z) (offs : list Z) : Prop :=
  match base with
  | Some b => b mod 8 = 0 /\ Forall (fun o => b <= o) offs
  | None => True
  end.

Lemma relr_decode_encode fuel base bias offs cur :
  ascending offs -> Forall word_offset offs -> after_base base offs ->
  (forall b, base = Some b -> cur = u64 (bias + b)) -> (length offs <= fuel)%nat ->
  ForEachRelr_loop (relr_encode fuel base offs) bias cur = map (fun o => u64 (bias + o)) offs.
Proof.
  revert base offs cur. induction fuel as [|fuel IH]; intros base offs cur Hs Hw Hb Hc Hf.
  - destruct offs; [by destruct base|cbn in Hf; lia].
  - destruct offs as [|o offs]; [by destruct base|].
    assert (Haddr : ForEachRelr_loop (o :: relr_encode fuel (Some (o + 8)) offs) bias cur
                    = map (fun o => u64 (bias + o)) (o :: offs)).
    { apply Forall_cons in Hw as [Ho Hw]. cbn [ForEachRelr_loop map].
      rewrite (word_offset_even o) by done. cbn [negb]. f_equal.
      apply ascending_cons in Hs as [Hs Hlt]. apply IH; [done|done| | |cbn in Hf; lia].
      - destruct Ho as [_ Ho]. split; [rewrite Z.add_mod, Ho by lia; done|].
        eapply Forall_impl2; [exact Hw|exact Hlt|]. intros x [_ Hx] Hox.
        pose proof (Z.div_mod x 8). pose proof (Z.div_mod o 8). lia.
      - intros b ?; simplify_eq. unfold uwrap. rewrite Z.add_mod_idemp_l by lia. f_equal; lia. }
    cbn [relr_encode]. destruct base as [b|]; [|exact Haddr].
    destruct (in_window b o) eqn:E; [|exact Haddr]. clear Haddr.
    destruct Hb as [Hb Hge]. rewrite (Hc b eq_refl). set (l := o :: offs) in *.
    destruct (in_window_split b l Hs) as (H1 & H2 & H3 & H4).
    assert (Hsplit := take_drop_while (in_window b) l).
    rewrite <- Hsplit in Hw. apply Forall_app in Hw as [Hw1 Hw2].
    rewrite <- Hsplit in Hge at 1. apply Forall_app in Hge as [Hg1 Hg2].
    cbn [ForEachRelr_loop].
    rewrite has_bits_1_odd, Z.odd_add, Z.odd_mul. cbn [Z.odd andb xorb negb].
    rewrite shiftr_odd, relr_window by done. rewrite <- Hsplit at 3. rewrite map_app. f_equal.
    apply IH; [done|done| | |].
    + split; [rewrite Z.add_mod, Hb by lia; done|exact H4].
    + intros b' ?; simplify_eq. unfold uwrap. rewrite Z.add_mod_idemp_l by lia. f_equal; lia.
    + assert (length l = length (take_while (in_window b) l)
                         + length (drop_while (in_window b) l))%nat
        by (rewrite <- length_app; by f_equal).
      assert (take_while (in_window b) l <> []) by (unfold l; cbn; by rewrite E).
      destruct (take_while (in_window b) l); [done|]. cbn in *. lia.
Qed.

(** C14. RELR decoding inverts RELR encoding: for every increasing list of
    word-aligned offsets, the words rebased are exactly those offsets from
    the load bias, each once and in order. *)
Theorem relr_roundtrip bias offs :
  ascending offs -> Forall word_offset offs ->
  let table := relr_encode (length offs) None offs in
  ForEachRelr table (length table) bias = map (fun o => u64 (bias + o)) offs.
Proof.
  intros Hs Hw table. unfold ForEachRelr. rewrite take_ge by done.
  by apply relr_decode_encode.
Qed.

Lemma relr_roundtrip_witness :
  ForEachRelr (relr_encode 4 None [0x10; 0x18; 0x28; 0x1000]) 3 0x7000
  = [0x7010; 0x7018; 0x7028; 0x8000].
Proof.
  apply (relr_roundtrip 0x7000 [0x10; 0x18; 0x28; 0x1000]).
  - repeat constructor.
  - repeat constructor; cbv; congruence.
Defined.
