(* ===== verification/SocketUtils.v ===== *)
(** Blocking transfers over the daemon's socket
    (loader/src/common/socket_utils.cpp).

    A buffer passed by pointer is the list of the bytes stored in it; the
    indeterminate contents of a fresh buffer are a value the environment
    chooses. [size_t] is 64 bits wide, [CMSG_SPACE(sizeof(int))] is 24 and
    [CMSG_DATA] lies 16 bytes into the control buffer (LP64). *)
From S2P Require Import Prelude Sys.
Open Scope Z_scope.

Definition EINTR : Z := 4.
Definition MSG_WAITALL : Z := 0x100.
Definition cmsghdr_size : Z := 16.
Definition cmsg_space_int : Z := 24.

Section SocketUtils.
Context {W S : Type} `{!World W}.

(** The condition of both transfer loops. *)
Definition more (sz count ret : Z) : bool := negb (sz =? count) && negb (ret =? 0).

(** The return value and the bytes stored in [buf]. *)
Fixpoint xread_loop (fuel : nat) (fd count read_sz : Z) (buf : list Z) : M W S (Z * list Z) :=
  match fuel with
  | O => out_of_fuel
  | Datatypes.S fuel' =>
      r ← syscall (CRead fd (u64 (count - read_sz)));
      let ret := r_ret r in
      if ret <? 0 then
        errno ← get_errno;
        if errno =? EINTR
        then if more read_sz count ret then xread_loop fuel' fd count read_sz buf
             else mret (s64 read_sz, buf)
        else mret (ret, buf)
      else
        let read_sz := u64 (read_sz + ret) in
        let buf := buf ++ take (Z.to_nat ret) (r_data r) in
        if more read_sz count ret then xread_loop fuel' fd count read_sz buf
        else mret (s64 read_sz, buf)
  end.

Definition xread (fuel : nat) (fd count : Z) : M W S (Z * list Z) :=
  xread_loop fuel fd count 0 [].

Fixpoint xwrite_loop (fuel : nat) (fd : Z) (buf : list Z) (count write_sz : Z) : M W S Z :=
  match fuel with
  | O => out_of_fuel
  | Datatypes.S fuel' =>
      r ← syscall (CWrite fd (take (Z.to_nat (u64 (count - write_sz)))
                                   (drop (Z.to_nat write_sz) buf)));
      let ret := r_ret r in
      if ret <? 0 then
        errno ← get_errno;
        if errno =? EINTR
        then if more write_sz count ret then xwrite_loop fuel' fd buf count write_sz
             else mret write_sz
        else mret write_sz
      else
        let write_sz := u64 (write_sz + ret) in
        if more write_sz count ret then xwrite_loop fuel' fd buf count write_sz
        else mret write_sz
  end.

Definition xwrite (fuel : nat) (fd : Z) (buf : list Z) (count : Z) : M W S Z :=
  xwrite_loop fuel fd buf count 0.

(** What [recvmsg] leaves behind: its result, [msg_controllen] and the control
    buffer. A failing call stores nothing. *)
Definition xrecvmsg (sockfd bufsz : Z) (cmsgbuf : list Z) (flags : Z)
  : M W S (Z * Z * list Z) :=
  r ← syscall (CRecvmsg sockfd 4 bufsz flags);
  let rec := s32 (r_ret r) in
  if rec <? 0 then mret (rec, bufsz, cmsgbuf)
  else mret (rec, nth 0 (r_aux r) 0, r_data r).

(** [None] is the null pointer, [Some data] what [CMSG_DATA] points at. Every
    other check of the source only logs. *)
Definition recv_fds (sockfd : Z) (cmsgbuf : list Z) (bufsz cnt : Z) : M W S (option (list Z)) :=
  '(_, msg_controllen, cmsgbuf) ← xrecvmsg sockfd bufsz cmsgbuf MSG_WAITALL;
  if msg_controllen <? cmsghdr_size then mret None
  else mret (Some (drop (Z.to_nat cmsghdr_size) cmsgbuf)).

(** [read_exact_or<T>] and [write_exact<T>] for an unsigned [T] of [n] bytes. *)
Definition read_exact_or (fuel : nat) (n : nat) (fd fail : Z) : M W S Z :=
  '(ret, res) ← xread fuel fd (Z.of_nat n);
  mret (if u64 ret =? Z.of_nat n then le_Z res else fail).

Definition write_exact (fuel : nat) (n : nat) (fd val : Z) : M W S bool :=
  sz ← xwrite fuel fd (le_bytes n val) (Z.of_nat n);
  mret (Z.of_nat n =? sz).

Definition read_u8 (fuel : nat) (fd : Z) : M W S Z := read_exact_or fuel 1 fd 0.
Definition read_u32 (fuel : nat) (fd : Z) : M W S Z := read_exact_or fuel 4 fd 0.
Definition read_usize (fuel : nat) (fd : Z) : M W S Z := read_exact_or fuel 8 fd 0.
Definition write_usize (fuel : nat) (fd val : Z) : M W S bool := write_exact fuel 8 fd val.
Definition write_u8 (fuel : nat) (fd val : Z) : M W S bool := write_exact fuel 1 fd val.
Definition write_u32 (fuel : nat) (fd val : Z) : M W S bool := write_exact fuel 4 fd val.

(** [new char[n]]; a failing allocation ends the process. *)
Definition new_chars (n : Z) : M W S (list Z) :=
  r ← syscall (CNew n);
  if r_ret r =? 0 then crash else mret (r_data r).

(** [buf] has [len + 1] bytes, the last one set to NUL; the size wraps for
    [len = SIZE_MAX], and the store of the NUL is then outside the buffer. *)
Definition read_string (fuel : nat) (fd : Z) : M W S (list Z) :=
  len ← read_usize fuel fd;
  buf ← new_chars (u64 (len + 1));
  if u64 (len + 1) <=? len then crash
  else
    let buf := take (Z.to_nat len) buf ++ [0] in
    '(_, got) ← xread fuel fd len;
    mret (c_str (got ++ drop (length got) buf)).

Definition write_string (fuel : nat) (fd : Z) (str : list Z) : M W S bool :=
  ok ← write_usize fuel fd (Z.of_nat (length str));
  if ok : bool then
    sz ← xwrite fuel fd str (Z.of_nat (length str));
    mret (Z.of_nat (length str) =? sz)
  else mret false.

(** [cmsgbuf] starts uninitialised. *)
Definition recv_fd (sockfd : Z) : M W S Z :=
  r ← syscall (CUninit cmsg_space_int);
  data ← recv_fds sockfd (r_data r) cmsg_space_int 1;
  match data with
  | None => mret (-1)
  | Some d => mret (s32 (le_Z (take 4 d)))
  end.

(** A descriptor is taken from memory nobody wrote: when [recvmsg] fails
    (the 3 s receive timeout expiring is enough), the failure is only logged,
    [msg_controllen] still has the capacity of the buffer, and [recv_fd]
    returns the four bytes the uninitialised control buffer happens to hold
    instead of -1. *)
Theorem recv_fd_error_uninitialised (sockfd : Z) (s : st W S) g w1 r w2 :
  sys (CUninit cmsg_space_int) (st_w s) = (g, w1) ->
  sys (CRecvmsg sockfd 4 cmsg_space_int MSG_WAITALL) w1 = (r, w2) -> r_ret r = -1 ->
  exists s', recv_fd sockfd s = (Ret (s32 (le_Z (take 4 (drop 16 (r_data g))))), s').
Proof.
  intros E1 E2 Hr. eexists. unfold recv_fd, recv_fds, xrecvmsg, mbind, M_bind, syscall.
  rewrite E1; cbn [st_w]. rewrite E2, Hr. reflexivity.
Qed.

(** On success the descriptor is the one the peer attached. *)
Lemma recv_fd_success (sockfd : Z) (s : st W S) g w1 r w2 len :
  sys (CUninit cmsg_space_int) (st_w s) = (g, w1) ->
  sys (CRecvmsg sockfd 4 cmsg_space_int MSG_WAITALL) w1 = (r, w2) -> 0 <= r_ret r < 2 ^ 31 ->
  nth 0 (r_aux r) 0 = len -> cmsghdr_size <= len ->
  exists s', recv_fd sockfd s = (Ret (s32 (le_Z (take 4 (drop 16 (r_data r))))), s').
Proof.
  intros E1 E2 Hr Ha Hl. eexists. unfold recv_fd, recv_fds, xrecvmsg, mbind, M_bind, syscall.
  rewrite E1; cbn [st_w]. rewrite E2, swrap_id by (unfold fits_s; lia).
  destruct (Z.ltb_spec (r_ret r) 0); [lia|]. unfold mret, M_ret. cbn [fst snd].
  rewrite Ha. destruct (Z.ltb_spec len cmsghdr_size); [lia|]. reflexivity.
Qed.

End SocketUtils.

(** ** What a stream socket promises

    [unread w fd]: the bytes the peer sends on [fd] that are still to be read;
    [sent w fd]: the bytes accepted on [fd] so far; [patience w] bounds the
    interruptions ([EINTR]) still to come; [attached w fd]: the descriptors
    attached to the messages still to be received on [fd]. A transfer may be as short as the
    kernel likes, but moves at least one byte unless there is none to move. *)
Class ByteStream (W : Type) `{!World W} := {
  unread : W -> Z -> list Z;
  sent : W -> Z -> list Z;
  attached : W -> Z -> list Z;
  patience : W -> nat;
  read_law w fd n r w' :
    sys (CRead fd n) w = (r, w') -> 0 <= n ->
    (forall fd', sent w' fd' = sent w fd')
    /\ (forall fd', attached w' fd' = attached w fd')
    /\ (forall fd', fd' <> fd -> unread w' fd' = unread w fd')
    /\ ((r_ret r = -1 /\ r_errno r = EINTR /\ unread w' fd = unread w fd
         /\ (patience w' < patience w)%nat)
        \/ (Z.of_nat (length (r_data r)) = r_ret r /\ r_ret r <= n
            /\ unread w fd = r_data r ++ unread w' fd
            /\ (r_ret r = 0 -> n = 0 \/ unread w fd = []) /\ (patience w' <= patience w)%nat));
  write_law w fd buf r w' :
    sys (CWrite fd buf) w = (r, w') ->
    (forall fd', unread w' fd' = unread w fd')
    /\ (forall fd', attached w' fd' = attached w fd')
    /\ (forall fd', fd' <> fd -> sent w' fd' = sent w fd')
    /\ ((r_ret r = -1 /\ r_errno r = EINTR /\ sent w' fd = sent w fd
         /\ (patience w' < patience w)%nat)
        \/ (0 <= r_ret r <= Z.of_nat (length buf)
            /\ sent w' fd = sent w fd ++ take (Z.to_nat (r_ret r)) buf
            /\ (r_ret r = 0 -> buf = []) /\ (patience w' <= patience w)%nat));
  new_law w n r w' :
    sys (CNew n) w = (r, w') -> 0 <= n ->
    r_ret r <> 0 /\ Z.of_nat (length (r_data r)) = n
    /\ (forall fd, unread w' fd = unread w fd) /\ (forall fd, sent w' fd = sent w fd)
    /\ (forall fd, attached w' fd = attached w fd) /\ (patience w' <= patience w)%nat;
  uninit_law w n r w' :
    sys (CUninit n) w = (r, w') ->
    (forall fd, unread w' fd = unread w fd) /\ (forall fd, sent w' fd = sent w fd)
    /\ (forall fd, attached w' fd = attached w fd) /\ (patience w' <= patience w)%nat;
  recv_law w fd r w' b rest f fs :
    sys (CRecvmsg fd 4 cmsg_space_int MSG_WAITALL) w = (r, w') ->
    unread w fd = b ++ rest -> length b = 4%nat -> attached w fd = f :: fs ->
    r_ret r = 4 /\ cmsghdr_size <= nth 0 (r_aux r) 0
    /\ take 4 (drop 16 (r_data r)) = le_bytes 4 f
    /\ unread w' fd = rest /\ attached w' fd = fs
    /\ (forall fd', fd' <> fd -> unread w' fd' = unread w fd' /\ attached w' fd' = attached w fd')
    /\ (forall fd', sent w' fd' = sent w fd') /\ (patience w' <= patience w)%nat
}.

Section Streams.
Context {W S : Type} `{!World W} `{!ByteStream W}.

(** Reading [bs] from [fd] and nothing else. *)
Definition consumed (fd : Z) (bs : list Z) (w w' : W) : Prop :=
  unread w fd = bs ++ unread w' fd
  /\ (forall fd', fd' <> fd -> unread w' fd' = unread w fd')
  /\ (forall fd', sent w' fd' = sent w fd')
  /\ (forall fd', attached w' fd' = attached w fd') /\ (patience w' <= patience w)%nat.

(** Sending [bs] on [fd] and nothing else. *)
Definition produced (fd : Z) (bs : list Z) (w w' : W) : Prop :=
  sent w' fd = sent w fd ++ bs
  /\ (forall fd', fd' <> fd -> sent w' fd' = sent w fd')
  /\ (forall fd', unread w' fd' = unread w fd')
  /\ (forall fd', attached w' fd' = attached w fd') /\ (patience w' <= patience w)%nat.

Lemma consumed_app fd a b w1 w2 w3 :
  consumed fd a w1 w2 -> consumed fd b w2 w3 -> consumed fd (a ++ b) w1 w3.
Proof.
  intros (A1 & A2 & A3 & A5 & A4) (B1 & B2 & B3 & B5 & B4). repeat split.
  - by rewrite A1, B1, app_assoc.
  - intros fd' Hne. by rewrite B2, A2.
  - intros fd'. by rewrite B3, A3.
  - intros fd'. by rewrite B5, A5.
  - lia.
Qed.

Lemma produced_app fd a b w1 w2 w3 :
  produced fd a w1 w2 -> produced fd b w2 w3 -> produced fd (a ++ b) w1 w3.
Proof.
  intros (A1 & A2 & A3 & A5 & A4) (B1 & B2 & B3 & B5 & B4). repeat split.
  - by rewrite B1, A1, app_assoc.
  - intros fd' Hne. by rewrite B2, A2.
  - intros fd'. by rewrite B3, A3.
  - intros fd'. by rewrite B5, A5.
  - lia.
Qed.

Lemma more_true sz count ret : sz <> count -> ret <> 0 -> more sz count ret = true.
Proof.
  intros. unfold more. destruct (Z.eqb_spec sz count), (Z.eqb_spec ret 0); done.
Qed.

Lemma more_done sz ret : more sz sz ret = false.
Proof. unfold more. by rewrite Z.eqb_refl. Qed.

Lemma xread_loop_stream fuel fd count sz buf (s : st W S) bs rest :
  0 <= sz -> count < 2 ^ 63 -> unread (st_w s) fd = bs ++ rest ->
  sz + Z.of_nat (length bs) = count \/ (sz + Z.of_nat (length bs) < count /\ rest = []) ->
  (length bs + patience (st_w s) + 1 < fuel)%nat ->
  wp (xread_loop fuel fd count sz buf)
     (fun o s' => o = Ret (sz + Z.of_nat (length bs), buf ++ bs)
                  /\ consumed fd bs (st_w s) (st_w s')) s.
Proof.
  revert sz buf s bs. induction fuel as [|fuel IH]; intros sz buf s bs Hsz Hb Hu Hc Hf; [lia|].
  cbn [xread_loop]. wstep. rewrite uwrap_id by fits.
  wsys r w' E. wrun.
  apply read_law in E as (Hs & Ha & Ho & [(Hr & He & Hu' & Hp) | (Hl & Hn & Hu' & Hz & Hp)]); [| |lia].
  - rewrite Hr, He. cbn. wrun. cbn.
    destruct (decide (sz = count)) as [Heq|Hne].
    + assert (bs = []) as -> by (apply length_zero_iff_nil; lia).
      rewrite Heq, more_done. wrun. rewrite swrap_id by (unfold fits_s; lia). cbn.
      split; [by rewrite app_nil_r, Z.add_0_r|]. repeat split; auto; lia.
    + rewrite more_true by lia.
      eapply wp_mono; [eapply (IH sz buf _ bs); cbn; try done; [by rewrite Hu'|lia]|].
      cbn. intros o s' [-> (H1 & H2 & H3 & H5 & H4)]. split; [done|].
      repeat split; [by rewrite <- Hu'| |by intros; rewrite H3, Hs|by intros; rewrite H5, Ha|lia].
      intros fd' Hne'. by rewrite H2, Ho.
  - destruct (Z.ltb_spec (r_ret r) 0); [lia|].
    assert (Hlen : (length (r_data r) <= length bs)%nat).
    { destruct Hc as [Hc|[Hc ->]]; [lia|].
      apply (f_equal length) in Hu'. rewrite Hu, !length_app in Hu'. cbn in Hu'. lia. }
    rewrite Hu in Hu'. assert (Hbs : bs = r_data r ++ drop (length (r_data r)) bs).
    { rewrite <- (take_drop (length (r_data r)) bs) at 1. f_equal.
      apply (f_equal (take (length (r_data r)))) in Hu'.
      rewrite take_app_le, take_app_length in Hu' by lia. done. }
    set (bs' := drop (length (r_data r)) bs) in *.
    rewrite Hbs, <- app_assoc in Hu'. apply app_inv_head in Hu'.
    assert (Hlb : length bs = (length (r_data r) + length bs')%nat)
      by (rewrite Hbs at 1; by rewrite length_app).
    assert (Hcon : consumed fd (r_data r) (st_w s) w').
    { repeat split; auto. rewrite Hu, Hbs, <- app_assoc. by f_equal. }
    rewrite uwrap_id by fits. rewrite take_ge by lia.
    destruct (more (sz + r_ret r) count (r_ret r)) eqn:Em.
    + apply andb_true_iff in Em as [E1 E2].
      apply negb_true_iff, Z.eqb_neq in E1, E2.
      eapply wp_mono; [eapply (IH _ _ _ bs'); cbn; try done; try lia;
        destruct Hc as [Hc|[Hc Hr]]; [left; lia|right; split; [lia|done]]|].
      cbn. intros o s' [-> H']. rewrite <- app_assoc, <- Hbs. split; [do 2 f_equal; lia|].
      rewrite Hbs. eapply consumed_app; [exact Hcon|exact H'].
    + assert (bs' = []) as Hnil.
      { apply length_zero_iff_nil. apply andb_false_iff in Em as [Em|Em];
          apply negb_false_iff, Z.eqb_eq in Em; [lia|].
        destruct (Hz Em) as [|Hz']; [lia|]. rewrite Hu in Hz'.
        apply app_nil in Hz' as [-> _]. cbn in *. lia. }
      rewrite Hnil, app_nil_r in Hbs. wrun.
      rewrite swrap_id by (unfold fits_s; lia). rewrite Hbs. split; [do 2 f_equal; lia|done].
Qed.

Lemma xwrite_loop_stream fuel fd buf count sz (s : st W S) :
  0 <= sz <= count -> count = Z.of_nat (length buf) -> count < 2 ^ 63 ->
  (length buf - Z.to_nat sz + patience (st_w s) < fuel)%nat ->
  wp (xwrite_loop fuel fd buf count sz)
     (fun o s' => o = Ret count /\ produced fd (drop (Z.to_nat sz) buf) (st_w s) (st_w s')) s.
Proof.
  revert sz s. induction fuel as [|fuel IH]; intros sz s Hsz Hc Hb Hf; [lia|].
  cbn [xwrite_loop]. wstep. rewrite uwrap_id by fits.
  rewrite take_ge by (rewrite length_drop; lia).
  wsys r w' E. wrun.
  assert (Hlen := length_drop buf (Z.to_nat sz)).
  set (rem := drop (Z.to_nat sz) buf) in *.
  apply write_law in E as (Hu & Ha & Ho & [(Hr & He & Hs & Hp) | (Hn & Hs & Hz & Hp)]).
  - rewrite Hr, He. cbn. wrun. cbn.
    destruct (decide (sz = count)) as [Heq|Hne].
    + rewrite Heq, more_done. wrun. split; [done|].
      assert (rem = []) as -> by (apply length_zero_iff_nil; lia).
      repeat split; auto; [by rewrite app_nil_r|lia].
    + rewrite more_true by lia.
      eapply wp_mono; [apply IH; cbn; lia|].
      cbn. intros o s' [-> (H1 & H2 & H3 & H5 & H4)]. split; [done|].
      repeat split; [by rewrite H1, Hs| |by intros; rewrite H3, Hu|by intros; rewrite H5, Ha|lia].
      intros fd' Hne'. by rewrite H2, Ho.
  - destruct (Z.ltb_spec (r_ret r) 0); [lia|].
    rewrite uwrap_id by fits.
    assert (Hpro : produced fd (take (Z.to_nat (r_ret r)) rem) (st_w s) w')
      by (repeat split; auto).
    destruct (decide (sz + r_ret r = count)) as [Heq|Hne].
    + rewrite Heq, more_done. wrun. split; [done|]. by rewrite take_ge in Hpro by lia.
    + destruct (decide (r_ret r = 0)) as [Hr0|Hr0].
      { specialize (Hz Hr0). rewrite Hz in *. cbn in *. lia. }
      rewrite more_true by lia.
      eapply wp_mono; [apply IH; cbn; lia|].
      cbn. intros o s' [-> H']. split; [done|].
      replace (drop (Z.to_nat (sz + r_ret r)) buf) with (drop (Z.to_nat (r_ret r)) rem) in H'
        by (unfold rem; rewrite drop_drop; f_equal; lia).
      rewrite <- (take_drop (Z.to_nat (r_ret r)) rem).
      eapply produced_app; [exact Hpro|exact H'].
Qed.

Lemma xread_stream fuel fd count bs rest (s : st W S) :
  count = Z.of_nat (length bs) -> count < 2 ^ 63 -> unread (st_w s) fd = bs ++ rest ->
  (length bs + patience (st_w s) + 1 < fuel)%nat ->
  wp (xread fuel fd count)
     (fun o s' => o = Ret (count, bs) /\ consumed fd bs (st_w s) (st_w s')) s.
Proof.
  intros -> Hb Hu Hf. unfold xread.
  pose proof (xread_loop_stream fuel fd (Z.of_nat (length bs)) 0 [] s bs rest) as H.
  rewrite Z.add_0_l in H. apply H; auto with lia.
Qed.

Lemma xwrite_stream fuel fd buf count (s : st W S) :
  count = Z.of_nat (length buf) -> count < 2 ^ 63 ->
  (length buf + patience (st_w s) < fuel)%nat ->
  wp (xwrite fuel fd buf count)
     (fun o s' => o = Ret count /\ produced fd buf (st_w s) (st_w s')) s.
Proof.
  intros. unfold xwrite.
  replace buf with (drop (Z.to_nat 0) buf) at 2 by (by rewrite drop_0).
  apply xwrite_loop_stream; lia.
Qed.

Lemma read_exact_or_stream fuel n fd fail val rest (s : st W S) :
  (n <= 8)%nat -> fits_u (8 * Z.of_nat n) val ->
  unread (st_w s) fd = le_bytes n val ++ rest ->
  (n + patience (st_w s) + 1 < fuel)%nat ->
  wp (read_exact_or fuel n fd fail)
     (fun o s' => o = Ret val /\ consumed fd (le_bytes n val) (st_w s) (st_w s')) s.
Proof.
  intros Hn Hv Hu Hf. unfold read_exact_or. wstep.
  eapply wp_mono; [eapply (xread_stream _ _ _ (le_bytes n val) rest);
                   rewrite ?length_le_bytes; lia || done|].
  intros o s' [-> Hc]. wrun. rewrite uwrap_id by fits.
  rewrite Z.eqb_refl, le_Z_bytes. split; [|done]. f_equal. by apply Z.mod_small.
Qed.

Lemma write_exact_stream fuel n fd val (s : st W S) :
  (n <= 8)%nat -> (n + patience (st_w s) < fuel)%nat ->
  wp (write_exact fuel n fd val)
     (fun o s' => o = Ret true /\ produced fd (le_bytes n val) (st_w s) (st_w s')) s.
Proof.
  intros Hn Hf. unfold write_exact. wstep.
  eapply wp_mono; [apply xwrite_stream; rewrite ?length_le_bytes; lia|].
  intros o s' [-> Hc]. wrun. by rewrite Z.eqb_refl.
Qed.

(** A string on the wire: its length as a [size_t], then its bytes. *)
Definition wire_string (str : list Z) : list Z :=
  le_bytes 8 (Z.of_nat (length str)) ++ str.

Lemma write_string_stream fuel fd str (s : st W S) :
  Z.of_nat (length str) < 2 ^ 63 -> (8 + length str + patience (st_w s) < fuel)%nat ->
  wp (write_string fuel fd str)
     (fun o s' => o = Ret true /\ produced fd (wire_string str) (st_w s) (st_w s')) s.
Proof.
  intros Hl Hf. unfold write_string. wstep.
  eapply wp_mono; [apply write_exact_stream; lia|]. intros o s' [-> H1]. wrun.
  eapply wp_mono; [apply xwrite_stream; destruct H1 as (_ & _ & _ & _ & ?); lia|].
  intros o s'' [-> H2]. wrun. rewrite Z.eqb_refl. split; [done|].
  eapply produced_app; eauto.
Qed.

Lemma read_string_stream fuel fd str rest (s : st W S) :
  Z.of_nat (length str) < 2 ^ 63 -> unread (st_w s) fd = wire_string str ++ rest ->
  (9 + length str + patience (st_w s) < fuel)%nat ->
  wp (read_string fuel fd)
     (fun o s' => o = Ret (c_str (str ++ [0])) /\ consumed fd (wire_string str) (st_w s) (st_w s')) s.
Proof.
  intros Hl Hu Hf. unfold read_string. wstep. unfold wire_string in *.
  rewrite <- app_assoc in Hu.
  eapply wp_mono; [eapply read_exact_or_stream; [|split| |]; eauto; lia|].
  intros o s' [-> H1]. wrun. unfold new_chars. wrun. wsys r w' E.
  rewrite uwrap_id in * by fits.
  apply new_law in E as (Hr & Hd & Hn1 & Hn2 & Hn4 & Hn3); [|lia].
  destruct (Z.eqb_spec (r_ret r) 0); [done|]. wrun.
  destruct (Z.leb_spec (Z.of_nat (length str) + 1) (Z.of_nat (length str))); [lia|]. wrun.
  destruct H1 as (H1 & H2 & H3 & H5 & H4).
  assert (unread (st_w s') fd = str ++ rest) as Hu'.
  { rewrite Hu in H1. by apply app_inv_head in H1. }
  eapply wp_mono; [eapply (xread_stream _ _ _ str rest); cbn; try done;
                   [by rewrite Hn1|lia]|].
  intros o s'' [-> (G1 & G2 & G3 & G5 & G4)]. cbn [st_w] in *. wrun. split.
  - by rewrite drop_app_length' by (rewrite length_take; lia).
  - repeat split.
    + rewrite H1, Hu', <- app_assoc. f_equal. rewrite Hn1, Hu' in G1. done.
    + intros fd' Hne. by rewrite G2, Hn1, H2.
    + intros fd'. by rewrite G3, Hn2, H3.
    + intros fd'. by rewrite G5, Hn4, H5.
    + lia.
Qed.

(** Receiving the descriptor of a message of four bytes. *)
Definition received (fd f : Z) (b : list Z) (w w' : W) : Prop :=
  unread w fd = b ++ unread w' fd /\ attached w fd = f :: attached w' fd
  /\ (forall fd', fd' <> fd -> unread w' fd' = unread w fd' /\ attached w' fd' = attached w fd')
  /\ (forall fd', sent w' fd' = sent w fd') /\ (patience w' <= patience w)%nat.

Lemma recv_fd_stream fd f fs b rest (s : st W S) :
  unread (st_w s) fd = b ++ rest -> length b = 4%nat -> attached (st_w s) fd = f :: fs ->
  0 <= f < 2 ^ 31 ->
  wp (recv_fd fd) (fun o s' => o = Ret f /\ received fd f b (st_w s) (st_w s')) s.
Proof.
  intros Hu Hb Ha Hf. unfold recv_fd, recv_fds, xrecvmsg. wrun.
  wsys g w1 E. wrun. apply uninit_law in E as (H1 & H2 & H3 & H4).
  wsys r w2 E. wrun.
  eapply recv_law in E as (Hr & Hc & Hd & G1 & G2 & G3 & G4 & G5);
    [|rewrite H1; exact Hu|exact Hb|rewrite H3; exact Ha].
  rewrite Hr. change (s32 4) with 4. cbn [Z.ltb Z.compare]. wrun.
  destruct (Z.ltb_spec (nth 0 (r_aux r) 0) cmsghdr_size); [lia|]. wrun.
  change (Z.to_nat cmsghdr_size) with 16%nat. rewrite Hd, le_Z_bytes, Z.mod_small by lia.
  rewrite swrap_id by (unfold fits_s; lia). split; [done|]. repeat split.
  - by rewrite Hu, G1.
  - by rewrite Ha, G2.
  - destruct (G3 fd'); [done|]. by rewrite <- H1.
  - destruct (G3 fd'); [done|]. by rewrite <- H3.
  - intros fd'. by rewrite G4, H2.
  - lia.
Qed.

(** A string survives the socket: whatever the sizes of the kernel's short
    transfers and however often it interrupts, [write_string] succeeds, and
    [read_string] on the receiving end returns the same string from exactly
    the bytes it put on the wire (a string without NUL bytes, as [std::string]
    built from a [char*] cannot hold one). *)
Theorem string_roundtrip fuel fd fd' str (s r : st W S) rest :
  0 ∉ str -> Z.of_nat (length str) < 2 ^ 63 ->
  (8 + length str + patience (st_w s) < fuel)%nat ->
  (9 + length str + patience (st_w r) < fuel)%nat ->
  exists s' wire,
    write_string fuel fd str s = (Ret true, s')
    /\ sent (st_w s') fd = sent (st_w s) fd ++ wire
    /\ (unread (st_w r) fd' = wire ++ rest ->
        exists r', read_string fuel fd' r = (Ret str, r') /\ unread (st_w r') fd' = rest).
Proof.
  intros Hz Hl Hf Hf'.
  destruct (wp_returns _ _ _ _ (write_string_stream fuel fd str s Hl Hf)) as (s' & Hs & Hp).
  exists s', (wire_string str). split; [done|]. split; [apply Hp|]. intros Hu.
  destruct (wp_returns _ _ _ _ (read_string_stream fuel fd' str rest r Hl Hu Hf'))
    as (r' & Hr & (Hc & _)).
  exists r'. rewrite c_str_app_nul in Hr by done. split; [done|].
  rewrite Hu in Hc. by apply app_inv_head in Hc.
Qed.

(** End of file: when the peer closes before all [n] bytes of a number
    arrived, the reader consumes what there was and returns the default,
    never a number put together from a partial read. *)
Theorem read_exact_or_eof fuel n fd fail (s : st W S) :
  (n <= 8)%nat -> (length (unread (st_w s) fd) < n)%nat ->
  (n + patience (st_w s) + 1 < fuel)%nat ->
  exists s', read_exact_or fuel n fd fail s = (Ret fail, s') /\ unread (st_w s') fd = [].
Proof.
  intros Hn Hu Hf. apply wp_returns. unfold read_exact_or. wstep. unfold xread.
  eapply wp_mono; [apply (xread_loop_stream _ _ _ 0 [] _ (unread (st_w s) fd) []);
    [lia|lia|by rewrite app_nil_r|right; split; [lia|done]|lia]|].
  intros o s' [-> (Hc & _)]. wrun. rewrite uwrap_id by fits.
  destruct (Z.eqb_spec (0 + Z.of_nat (length (unread (st_w s) fd))) (Z.of_nat n)); [lia|].
  split; [done|]. apply (f_equal length) in Hc. rewrite length_app in Hc.
  apply length_zero_iff_nil; lia.
Qed.
End Streams.

#[global] Arguments wire_string : simpl never.

(** ** A socket that keeps the promise

    Descriptors with buffers on both sides and a plan of how the next
    transfers go: [0] interrupts one, [k] moves at most [k] bytes; past the
    plan every transfer is complete. *)
Record pipe := Pipe {
  p_in : Z -> list Z; p_out : Z -> list Z; p_fds : Z -> list Z; p_plan : list nat }.

Definition upd (f : Z -> list Z) (k : Z) (v : list Z) : Z -> list Z :=
  fun x => if x =? k then v else f x.

Definition pipe_limit (p : pipe) : option nat :=
  match p_plan p with
  | [] => None
  | k :: _ => Some k
  end.

Definition pipe_move (p : pipe) (bs : list Z) : list Z :=
  match pipe_limit p with Some k => take k bs | None => bs end.

#[export] Instance pipe_world : World pipe := fun c p =>
  match c, pipe_limit p with
  | CRead _ _, Some O | CWrite _ _, Some O =>
      (Reply (-1) EINTR [] [], Pipe (p_in p) (p_out p) (p_fds p) (tail (p_plan p)))
  | CRead fd n, _ =>
      let got := pipe_move p (take (Z.to_nat n) (p_in p fd)) in
      (Reply (Z.of_nat (length got)) 0 got [],
       Pipe (upd (p_in p) fd (drop (length got) (p_in p fd))) (p_out p) (p_fds p) (tail (p_plan p)))
  | CWrite fd buf, _ =>
      let put := pipe_move p buf in
      (Reply (Z.of_nat (length put)) 0 [] [],
       Pipe (p_in p) (upd (p_out p) fd (p_out p fd ++ put)) (p_fds p) (tail (p_plan p)))
  | CRecvmsg fd n _ _, _ =>
      (Reply (Z.of_nat (length (take (Z.to_nat n) (p_in p fd)))) 0
         (replicate 16 0 ++ le_bytes 8 (hd 0 (p_fds p fd)))
         [if bool_decide (p_fds p fd = []) then 0 else 24],
       Pipe (upd (p_in p) fd (drop (Z.to_nat n) (p_in p fd))) (p_out p)
         (upd (p_fds p) fd (tail (p_fds p fd))) (p_plan p))
  | CNew n, _ => (Reply 0x1000 0 (replicate (Z.to_nat n) 0xcc) [], p)
  | _, _ => (Reply 0 0 [] [], p)
  end.

Lemma upd_eq f k v : upd f k v k = v.
Proof. unfold upd. by rewrite Z.eqb_refl. Qed.

Lemma upd_ne f k v k' : k' <> k -> upd f k v k' = f k'.
Proof. unfold upd. by destruct (Z.eqb_spec k' k). Qed.

Lemma pipe_move_prefix p bs : exists t, bs = pipe_move p bs ++ t.
Proof.
  unfold pipe_move. destruct (pipe_limit p) as [k|]; [|exists []; by rewrite app_nil_r].
  exists (drop k bs). by rewrite take_drop.
Qed.

Lemma pipe_move_nil p bs : pipe_limit p <> Some O -> pipe_move p bs = [] -> bs = [].
Proof.
  unfold pipe_move. destruct (pipe_limit p) as [[|k]|]; [done| |done].
  by destruct bs.
Qed.

Definition pipe_patience (p : pipe) : nat := length (filter (fun k => k = O) (p_plan p)).

Lemma pipe_patience_tail p :
  (length (filter (fun k => k = O) (tail (p_plan p))) <= pipe_patience p)%nat.
Proof.
  unfold pipe_patience. destruct (p_plan p) as [|k l]; [done|]. cbn [tail].
  rewrite filter_cons. case_decide; cbn; lia.
Qed.

Lemma pipe_patience_eintr p :
  pipe_limit p = Some O ->
  (length (filter (fun k => k = O) (tail (p_plan p))) < pipe_patience p)%nat.
Proof.
  unfold pipe_patience, pipe_limit. destruct (p_plan p) as [|k l]; [done|].
  intros ?; simplify_eq. cbn [tail]. rewrite filter_cons. case_decide; [cbn; lia|done].
Qed.

#[export] Program Instance pipe_stream : ByteStream pipe := {|
  unread := p_in; sent := p_out; attached := p_fds; patience := pipe_patience
|}.
Next Obligation.
  intros w fd n r w' E Hn. unfold sys, pipe_world in E.
  destruct (decide (pipe_limit w = Some O)) as [El|El].
  { rewrite El in E. simplify_eq; cbn. repeat split; auto. left.
    repeat split; auto. by apply pipe_patience_eintr. }
  assert (E' : r = Reply (Z.of_nat (length (pipe_move w (take (Z.to_nat n) (p_in w fd))))) 0
                     (pipe_move w (take (Z.to_nat n) (p_in w fd))) []
           /\ w' = Pipe (upd (p_in w) fd
                     (drop (length (pipe_move w (take (Z.to_nat n) (p_in w fd)))) (p_in w fd)))
                     (p_out w) (p_fds w) (tail (p_plan w)))
    by (destruct (pipe_limit w) as [[|k]|]; [done| |]; by simplify_eq).
  destruct E' as [-> ->]; cbn. clear E.
  destruct (pipe_move_prefix w (take (Z.to_nat n) (p_in w fd))) as [t Ht].
  assert (Hn' := pipe_move_nil w (take (Z.to_nat n) (p_in w fd)) El).
  set (got := pipe_move w _) in *. repeat split; [intros; by apply upd_ne|right].
  assert (Hl : (length got + length t <= Z.to_nat n)%nat)
    by (rewrite <- length_app, <- Ht, length_take; lia).
  repeat split; [lia| | |apply pipe_patience_tail].
  - rewrite upd_eq. rewrite <- (take_drop (length got) (p_in w fd)) at 1. f_equal.
    rewrite <- (take_drop (Z.to_nat n) (p_in w fd)), Ht, <- app_assoc.
    by rewrite take_app_length.
  - intros H0. assert (got = []) as Hg by (apply length_zero_iff_nil; lia).
    specialize (Hn' Hg). apply (f_equal length) in Hn'. rewrite length_take in Hn'. cbn in Hn'.
    destruct (Z.eq_dec n 0); [by left|right]. apply length_zero_iff_nil; lia.
Qed.
Next Obligation.
  intros w fd buf r w' E. unfold sys, pipe_world in E.
  destruct (decide (pipe_limit w = Some O)) as [El|El].
  { rewrite El in E. simplify_eq; cbn. repeat split; auto. left.
    repeat split; auto. by apply pipe_patience_eintr. }
  assert (E' : r = Reply (Z.of_nat (length (pipe_move w buf))) 0 [] []
           /\ w' = Pipe (p_in w) (upd (p_out w) fd (p_out w fd ++ pipe_move w buf))
                     (p_fds w) (tail (p_plan w)))
    by (destruct (pipe_limit w) as [[|k]|]; [done| |]; by simplify_eq).
  destruct E' as [-> ->]; cbn. clear E.
  destruct (pipe_move_prefix w buf) as [t Ht].
  assert (Hn' := pipe_move_nil w buf El).
  set (put := pipe_move w buf) in *. repeat split; [intros; by apply upd_ne|right].
  repeat split; [lia| | | |apply pipe_patience_tail].
  - rewrite Ht, length_app; lia.
  - rewrite upd_eq. f_equal. by rewrite Ht, Nat2Z.id, take_app_length.
  - intros H0. apply Hn', length_zero_iff_nil; lia.
Qed.
Next Obligation.
  intros w n r w' E Hn. unfold sys, pipe_world in E. simplify_eq; cbn.
  rewrite length_replicate. repeat split; lia.
Qed.
Next Obligation.
  intros w n r w' E. unfold sys, pipe_world in E. simplify_eq; cbn. repeat split; lia.
Qed.
Next Obligation.
  intros w fd r w' b rest f fs E Hu Hb Hf. unfold sys, pipe_world in E. simplify_eq; cbn.
  rewrite Hu, Hf, !upd_eq, take_app_length', drop_app_length', Hb by done.
  repeat split; try done; by apply upd_ne.
Qed.

Definition pipe_st (inb : list Z) (plan : list nat) : st pipe unit :=
  St (Pipe (fun fd => if fd =? 3 then inb else []) (fun _ => []) (fun _ => []) plan) [] 0 tt.

Lemma string_roundtrip_witness :
  exists s', write_string 40 3 (B "zygote64") (pipe_st [] [1; 0; 3; 2]%nat) = (Ret true, s')
  /\ exists r', read_string 40 3 (pipe_st (wire_string (B "zygote64") ++ [7]) [0; 2; 0; 5; 1]%nat)
                = (Ret (B "zygote64"), r') /\ unread (st_w r') 3 = [7].
Proof.
  destruct (string_roundtrip 40 3 3 (B "zygote64") (pipe_st [] [1; 0; 3; 2]%nat)
              (pipe_st (wire_string (B "zygote64") ++ [7]) [0; 2; 0; 5; 1]%nat) [7])
    as (s' & wire & Hs & Hw & Hr).
  - vm_decide.
  - by vm_compute.
  - vm_compute; lia.
  - vm_compute; lia.
  - exists s'. split; [exact Hs|]. apply Hr.
    assert (Es : s' = (write_string 40 3 (B "zygote64") (pipe_st [] [1; 0; 3; 2]%nat)).2)
      by (by rewrite Hs).
    rewrite Es in Hw. vm_compute in Hw. rewrite <- Hw. reflexivity.
Defined.

Lemma read_exact_or_eof_witness :
  exists s', read_exact_or 20 4 3 0 (pipe_st [1; 2; 3] [0; 1]%nat) = (Ret 0, s')
             /\ unread (st_w s') 3 = [].
Proof. apply read_exact_or_eof; vm_compute; lia. Defined.

(** A stack that holds the number 42 where the descriptor belongs, and a
    receive that times out. *)
Definition stale_world : World unit := fun c _ =>
  match c with
  | CUninit n => (Reply 0 0 (replicate 16 0 ++ [42; 0; 0; 0; 0; 0; 0; 0]) [], tt)
  | _ => (Reply (-1) 11 [] [], tt)
  end.

Lemma recv_fd_error_uninitialised_witness :
  exists s', @recv_fd unit unit stale_world 3 (St tt [] 0 tt) = (Ret 42, s').
Proof.
  exact (@recv_fd_error_uninitialised unit unit stale_world 3 (St tt [] 0 tt)
           (Reply 0 0 (replicate 16 0 ++ [42; 0; 0; 0; 0; 0; 0; 0]) []) tt
           (Reply (-1) 11 [] []) tt eq_refl eq_refl eq_refl).
Defined.
