(* ===== verification/Daemon.v ===== *)
(** The client side of the zygiskd protocol
    (loader/src/common/daemon.cpp, include/daemon.hpp): connecting, every
    request, and the lock-free lookup of process flags in the shared memory
    the daemon publishes. *)
From S2P Require Import Prelude Sys SocketUtils.
Open Scope Z_scope.

Definition PF_UNIX : Z := 1.
Definition SOCK_STREAM_CLOEXEC : Z := 0x80001.
Definition SO_RCVTIMEO : Z := 20.
Definition SO_SNDTIMEO : Z := 21.
Definition sun_path_size : Z := 108.
Definition PROT_READ : Z := 1.
Definition MAP_SHARED : Z := 1.
Definition MAP_FAILED : Z := 2 ^ 64 - 1.
Definition UINT32_MAX : Z := 2 ^ 32 - 1.

Definition kCPSocketName : list Z := B "/cp64.sock".
Definition kDaemonIoTimeoutMs : Z := 3000.

Definition SHM_HASH_MAP_SIZE : Z := 8192.
(** Byte offsets of the fields of [ShmLayout] from its base. *)
Definition shm_version (base : Z) : Z := base.
Definition shm_uid (base index : Z) : Z := base + 4 + 8 * index.
Definition shm_flags (base index : Z) : Z := base + 4 + 8 * index + 4.
Definition sizeof_ShmLayout : Z := 4 * (1 + SHM_HASH_MAP_SIZE * 2).

Inductive SocketAction :=
| APingHeartbeat | AGetProcessFlags | ACacheMountNamespace | AUpdateMountNamespace
| AReadModules | ARequestCompanionSocket | AGetModuleDir | AZygoteRestart
| ASystemServerStarted | AGetSharedMemoryFd | ARequestZnCompanionSocket | AGetZnPlan
| AReportZnModule | ARefreshModules.

(** The enumerators' values, in declaration order. *)
Definition action_code (a : SocketAction) : Z :=
  match a with
  | APingHeartbeat => 0 | AGetProcessFlags => 1 | ACacheMountNamespace => 2
  | AUpdateMountNamespace => 3 | AReadModules => 4 | ARequestCompanionSocket => 5
  | AGetModuleDir => 6 | AZygoteRestart => 7 | ASystemServerStarted => 8
  | AGetSharedMemoryFd => 9 | ARequestZnCompanionSocket => 10 | AGetZnPlan => 11
  | AReportZnModule => 12 | ARefreshModules => 13
  end.

Inductive MountNamespace := NsClean | NsRoot.
Definition ns_code (t : MountNamespace) : Z := match t with NsClean => 0 | NsRoot => 1 end.

Record Module_ := Module_mk { m_name : list Z; m_memfd : Z }.
Record ZnPlanEntry := ZnPlan { zn_lib_path : list Z; zn_companion : bool; zn_lib_fd : Z }.

(** The file's static variables; a null [g_shm_base] is 0. *)
Record daemon_state := DaemonSt {
  TMP_PATH : list Z; g_shm_base : Z; g_shm_init_attempted : bool }.

Section Daemon.
Context {W : Type} `{!World W} (fuel : nat).
Abbreviation D := (M W daemon_state).

Definition Init (path : list Z) : D unit :=
  modify (fun d => DaemonSt path (g_shm_base d) (g_shm_init_attempted d)).

Definition GetTmpPath : D (list Z) := d ← get; mret (TMP_PATH d).

Definition UnmapSharedMemory : D unit :=
  d ← get;
  if negb (g_shm_base d =? 0) then
    syscall (CMunmap (g_shm_base d) sizeof_ShmLayout);;
    modify (fun d => DaemonSt (TMP_PATH d) 0 (g_shm_init_attempted d))
  else mret tt.

Definition close_ (fd : Z) : D unit := syscall (CClose fd);; mret tt.

(** The scope of a [UniqueFd]: its destructor closes the descriptor. *)
Definition unique_fd {A} (fd : Z) (body : D A) : D A :=
  a ← body;
  (if 0 <=? fd then close_ fd else mret tt);;
  mret a.

Definition SetSocketTimeout (fd timeout_ms : Z) : D unit :=
  syscall (CSetsockopt fd SO_RCVTIMEO (Z.quot timeout_ms 1000) (Z.rem timeout_ms 1000 * 1000));;
  syscall (CSetsockopt fd SO_SNDTIMEO (Z.quot timeout_ms 1000) (Z.rem timeout_ms 1000 * 1000));;
  mret tt.

Fixpoint Connect_loop (retry : nat) (fd : Z) (path : list Z) : D Z :=
  match retry with
  | O => close_ fd;; mret (-1)
  | S retry' =>
      r ← syscall (CConnect fd path);
      if r_ret r =? 0 then SetSocketTimeout fd kDaemonIoTimeoutMs;; mret fd
      else
        (if negb (Nat.eqb retry' 0) then syscall (CSleep 1);; mret tt else mret tt);;
        Connect_loop retry' fd path
  end.

(** [strcpy] into the 108 bytes of [sun_path]. *)
Definition Connect (retry : nat) : D Z :=
  r ← syscall (CSocket PF_UNIX SOCK_STREAM_CLOEXEC 0);
  tmp ← GetTmpPath;
  let path := c_str (tmp ++ kCPSocketName) in
  if sun_path_size <? Z.of_nat (length path) + 1 then crash
  else Connect_loop retry (r_ret r) path.

Definition send_action (fd : Z) (a : SocketAction) : D bool := write_u8 fuel fd (action_code a).

Definition PingHeartbeat : D bool :=
  fd ← Connect 5;
  unique_fd fd
    (if fd =? -1 then mret false
     else send_action fd APingHeartbeat;; mret true).

Definition GetSharedMemoryFd : D Z :=
  fd ← Connect 1;
  unique_fd fd
    (if fd =? -1 then mret (-1)
     else
       send_action fd AGetSharedMemoryFd;;
       status ← read_u8 fuel fd;
       if status =? 0 then mret (-1)
       else
         shm_fd ← recv_fd fd;
         if shm_fd <? 0 then mret (-1) else mret shm_fd).

Definition load32 (addr : Z) : D Z := r ← syscall (CLoad32 addr); mret (u32 (r_ret r)).

(** The probe sequence; [fuel] 8192 is the number of entries. *)
Fixpoint shm_probe (n : nat) (base uid index start : Z) : D (option Z) :=
  match n with
  | O => out_of_fuel
  | S n' =>
      current_uid ← load32 (shm_uid base index);
      if current_uid =? uid then flags ← load32 (shm_flags base index); mret (Some flags)
      else if current_uid =? UINT32_MAX then mret None
      else
        let index := Z.land (index + 1) (SHM_HASH_MAP_SIZE - 1) in
        if index =? start then mret None else shm_probe n' base uid index start
  end.

(** The lookup in the mapped table, looking at [n] entries at most; [None]:
    not answered from the table. *)
Definition shm_search (n : nat) (base uid : Z) : D (option Z) :=
  version_before ← load32 (shm_version base);
  if Z.land version_before 1 =? 0 then
    let index := Z.land uid (SHM_HASH_MAP_SIZE - 1) in
    found ← shm_probe n base uid index index;
    match found with
    | Some cached_flags =>
        version_after ← load32 (shm_version base);
        mret (if version_before =? version_after then Some cached_flags else None)
    | None => mret None
    end
  else mret None.

Definition shm_lookup (base uid : Z) : D (option Z) :=
  shm_search (Z.to_nat SHM_HASH_MAP_SIZE) base uid.

Definition map_shared_memory : D unit :=
  d ← get;
  if g_shm_init_attempted d then mret tt
  else
    modify (fun d => DaemonSt (TMP_PATH d) (g_shm_base d) true);;
    shm_fd ← GetSharedMemoryFd;
    unique_fd shm_fd
      (if 0 <=? shm_fd then
         r ← syscall (CMmap 0 sizeof_ShmLayout PROT_READ MAP_SHARED shm_fd 0);
         if negb (r_ret r =? MAP_FAILED)
         then modify (fun d => DaemonSt (TMP_PATH d) (r_ret r) (g_shm_init_attempted d))
         else mret tt
       else mret tt).

Definition request_process_flags (uid : Z) : D Z :=
  fd ← Connect 1;
  unique_fd fd
    (if fd =? -1 then mret 0
     else
       send_action fd AGetProcessFlags;;
       write_u32 fuel fd uid;;
       read_u32 fuel fd).

Definition GetProcessFlags (uid : Z) : D Z :=
  map_shared_memory;;
  d ← get;
  cached ← (if negb (g_shm_base d =? 0) then shm_lookup (g_shm_base d) uid else mret None);
  match cached with
  | Some flags => mret flags
  | None => request_process_flags uid
  end.

(** The failed connection is logged and the request is sent on it anyway. *)
Definition CacheMountNamespace (pid : Z) : D unit :=
  fd ← Connect 1;
  unique_fd fd (send_action fd ACacheMountNamespace;; write_u32 fuel fd (u32 pid);; mret tt).

Definition UpdateMountNamespace (type : MountNamespace) : D Z :=
  fd ← Connect 1;
  unique_fd fd
    (if fd =? -1 then mret (-1)
     else
       send_action fd AUpdateMountNamespace;;
       write_u8 fuel fd (ns_code type);;
       status ← read_u8 fuel fd;
       if status =? 0 then mret (-1)
       else
         namespace_fd ← recv_fd fd;
         if namespace_fd <? 0 then mret (-1) else mret namespace_fd).

Fixpoint read_modules_loop (n : nat) (fd : Z) (modules : list Module_) : D (list Module_) :=
  match n with
  | O => mret modules
  | S n' =>
      name ← read_string fuel fd;
      module_fd ← recv_fd fd;
      read_modules_loop n' fd (modules ++ [Module_mk name module_fd])
  end.

Definition ReadModules : D (list Module_) :=
  fd ← Connect 1;
  unique_fd fd
    (if fd =? -1 then mret []
     else
       send_action fd AReadModules;;
       len ← read_usize fuel fd;
       read_modules_loop (Z.to_nat len) fd []).

(** The end of both companion requests: the descriptor is handed out with its
    timeouts lifted, or closed. *)
Definition companion_answer (fd : Z) : D Z :=
  status ← read_u8 fuel fd;
  if status =? 1 then SetSocketTimeout fd 0;; mret fd
  else close_ fd;; mret (-1).

Definition ConnectCompanion (index : Z) : D Z :=
  fd ← Connect 1;
  if fd =? -1 then mret (-1)
  else
    send_action fd ARequestCompanionSocket;;
    write_usize fuel fd index;;
    companion_answer fd.

Definition ConnectZnCompanion (lib_path : list Z) : D Z :=
  fd ← Connect 1;
  if fd =? -1 then mret (-1)
  else
    send_action fd ARequestZnCompanionSocket;;
    write_string fuel fd lib_path;;
    companion_answer fd.

Fixpoint zn_plan_loop (n : nat) (fd : Z) (entries : list ZnPlanEntry) : D (list ZnPlanEntry) :=
  match n with
  | O => mret entries
  | S n' =>
      lib_path ← read_string fuel fd;
      companion ← read_u8 fuel fd;
      memfd ← recv_fd fd;
      if memfd <? 0 then zn_plan_loop n' fd entries
      else zn_plan_loop n' fd (entries ++ [ZnPlan lib_path (negb (companion =? 0)) memfd])
  end.

(** [a && b] on requests: the second is made only if the first succeeded. *)
Definition and_then (a b : D bool) : D bool := x ← a; if x : bool then b else mret false.

Definition GetZnPlan (process_name process_path : list Z) (retry : nat)
  : D (list ZnPlanEntry) :=
  fd ← Connect retry;
  unique_fd fd
    (if fd =? -1 then mret []
     else
       ok ← and_then (send_action fd AGetZnPlan)
              (and_then (write_string fuel fd process_name) (write_string fuel fd process_path));
       if negb ok then mret []
       else
         count ← read_usize fuel fd;
         zn_plan_loop (Z.to_nat count) fd []).

Definition ReportZnModule (lib_path : list Z) (injected : bool) : D unit :=
  fd ← Connect 1;
  unique_fd fd
    (if fd =? -1 then mret tt
     else
       ok ← and_then (send_action fd AReportZnModule)
              (and_then (write_string fuel fd lib_path)
                        (write_u8 fuel fd (if injected then 1 else 0)));
       if negb ok then mret tt else read_u8 fuel fd;; mret tt).

Definition GetModuleDir (index : Z) : D Z :=
  fd ← Connect 1;
  unique_fd fd
    (if fd =? -1 then mret (-1)
     else
       send_action fd AGetModuleDir;;
       write_usize fuel fd index;;
       recv_fd fd).

Definition ZygoteRestart : D unit :=
  fd ← Connect 1;
  unique_fd fd
    (if fd =? -1 then mret tt else send_action fd AZygoteRestart;; mret tt).

Definition SystemServerStarted : D unit :=
  fd ← Connect 1;
  unique_fd fd
    (if fd =? -1 then mret tt else send_action fd ASystemServerStarted;; mret tt).

Definition RefreshModules : D bool :=
  fd ← Connect 5;
  unique_fd fd
    (if fd =? -1 then mret false
     else
       ok ← send_action fd ARefreshModules;
       if negb ok then mret false
       else x ← read_u8 fuel fd; mret (x =? 1)).

(** ** Descriptor ownership *)

(** How many times [fd] was opened by [socket] less how often it was closed. *)
Fixpoint balance (fd : Z) (log : list event) : Z :=
  match log with
  | [] => 0
  | (CSocket _ _ _, r) :: log' => balance fd log' + (if r_ret r =? fd then 1 else 0)
  | (CClose f, _) :: log' => balance fd log' - (if f =? fd then 1 else 0)
  | _ :: log' => balance fd log'
  end.

(** [owns m d]: if [m] returns [a], every non-negative descriptor [fd] has
    gained [d a fd] openings over its closings. *)
Definition owns {A} (m : D A) (d : A -> Z -> Z) : Prop :=
  forall s fd, 0 <= fd ->
    wp m (fun o s' => match o with
                      | Ret a => balance fd (st_log s') = balance fd (st_log s) + d a fd
                      | _ => True
                      end) s.

Definition quiet {A} (m : D A) : Prop := owns m (fun _ _ => 0).

Definition holds (f : Z) (fd : Z) : Z := if f =? fd then 1 else 0.

Lemma owns_ext {A} (m : D A) d d' :
  (forall a fd, 0 <= fd -> d a fd = d' a fd) -> owns m d -> owns m d'.
Proof.
  intros E H s fd Hfd. eapply wp_mono; [apply (H s fd Hfd)|].
  intros [a| | |] s'; try done. by rewrite E.
Qed.

Lemma owns_bind {A C} (m : D A) (f : A -> D C) d e g :
  owns m d -> (forall a, owns (f a) (e a)) ->
  (forall a c fd, 0 <= fd -> d a fd + e a c fd = g c fd) -> owns (m ≫= f) g.
Proof.
  intros Hm Hf E s fd Hfd. wstep. eapply wp_mono; [apply (Hm s fd Hfd)|].
  intros [a| | |] s' Ha; cbn; try done.
  eapply wp_mono; [apply (Hf a s' fd Hfd)|].
  intros [c| | |] s'' Hc; try done. rewrite Hc, Ha, <- (E a c) by done. lia.
Qed.

Lemma quiet_bind {A C} (m : D A) (f : A -> D C) :
  quiet m -> (forall a, quiet (f a)) -> quiet (m ≫= f).
Proof. intros Hm Hf. eapply owns_bind; [exact Hm|exact Hf|done]. Qed.

Lemma quiet_ret {A} (a : A) : quiet (mret a).
Proof. intros s fd _. wrun. lia. Qed.

Lemma quiet_get : quiet get.
Proof. intros s fd _. wrun. lia. Qed.

Lemma quiet_modify f : quiet (modify f).
Proof. intros s fd _. wrun. lia. Qed.

Lemma quiet_errno : quiet get_errno.
Proof. intros s fd _. wrun. lia. Qed.

Lemma quiet_crash {A} : quiet (@crash W daemon_state A).
Proof. intros s fd _. by wrun. Qed.

Lemma quiet_fuel {A} : quiet (@out_of_fuel W daemon_state A).
Proof. intros s fd _. by wrun. Qed.

Definition moves_fd (c : call) : bool :=
  match c with CSocket _ _ _ | CClose _ => true | _ => false end.

Lemma quiet_syscall c : moves_fd c = false -> quiet (syscall c).
Proof.
  intros Hc s fd _. apply wp_syscall. intros r w' e.
  destruct c; try discriminate Hc; cbn; lia.
Qed.

Lemma owns_close fd : owns (close_ fd) (fun _ f => - holds fd f).
Proof.
  intros s f _. unfold close_. wstep. apply wp_syscall. intros. wrun. unfold holds. cbn. lia.
Qed.

Lemma owns_unique_fd {A} fd (body : D A) :
  quiet body -> owns (unique_fd fd body) (fun _ f => - holds fd f).
Proof.
  intros Hb.
  eapply (owns_bind _ _ (fun _ _ => 0) (fun _ _ f => - holds fd f)); [exact Hb| |done]. intros a.
  eapply (owns_bind _ _ (fun _ f => - holds fd f) (fun _ _ _ => 0));
    [|intros; apply quiet_ret|intros; lia].
  destruct (Z.leb_spec 0 fd); [apply owns_close|].
  eapply owns_ext; [|apply quiet_ret]. cbn. intros ? f Hf. unfold holds.
  destruct (Z.eqb_spec fd f); lia.
Qed.

Lemma quiet_xread_loop n fd count sz buf : quiet (xread_loop n fd count sz buf).
Proof.
  revert sz buf. induction n as [|n IH]; intros; [apply quiet_fuel|]. cbn [xread_loop].
  apply quiet_bind; [by apply quiet_syscall|]. intros r. case_match.
  - apply quiet_bind; [apply quiet_errno|]. intros e. repeat case_match; auto using quiet_ret.
  - repeat case_match; auto using quiet_ret.
Qed.

Lemma quiet_xwrite_loop n fd buf count sz : quiet (xwrite_loop n fd buf count sz).
Proof.
  revert sz. induction n as [|n IH]; intros; [apply quiet_fuel|]. cbn [xwrite_loop].
  apply quiet_bind; [by apply quiet_syscall|]. intros r. case_match.
  - apply quiet_bind; [apply quiet_errno|]. intros e. repeat case_match; auto using quiet_ret.
  - repeat case_match; auto using quiet_ret.
Qed.


End Daemon.

Create HintDb quiet.

(** Programs built from quiet parts are quiet. *)
Ltac quiet_tac :=
  repeat match goal with
  | |- quiet (mbind _ _) => apply quiet_bind; [|intros ?]
  | |- quiet (mret _) => apply quiet_ret
  | |- quiet get => apply quiet_get
  | |- quiet (modify _) => apply quiet_modify
  | |- quiet get_errno => apply quiet_errno
  | |- quiet crash => apply quiet_crash
  | |- quiet out_of_fuel => apply quiet_fuel
  | |- quiet (syscall _) => by apply quiet_syscall
  | |- quiet (xread_loop _ _ _ _ _) => apply quiet_xread_loop
  | |- quiet (xwrite_loop _ _ _ _ _) => apply quiet_xwrite_loop
  | |- quiet (if ?b then _ else _) => destruct b
  | |- quiet (let '_ := ?x in _) => destruct x
  | |- quiet (match ?x with _ => _ end) => destruct x
  | |- quiet _ => solve [eauto with quiet]
  end.

Section Hygiene.
Context {W : Type} `{!World W} (fuel : nat).
Abbreviation D := (M W daemon_state).

Lemma quiet_read_exact n fd fail : quiet (read_exact_or fuel n fd fail).
Proof. unfold read_exact_or, xread. quiet_tac. Qed.

Lemma quiet_write_exact n fd v : quiet (write_exact fuel n fd v).
Proof. unfold write_exact, xwrite. quiet_tac. Qed.

Lemma quiet_read_string fd : quiet (read_string fuel fd).
Proof.
  unfold read_string, read_usize, read_exact_or, new_chars, xread. quiet_tac.
Qed.

Lemma quiet_write_string fd str : quiet (write_string fuel fd str).
Proof. unfold write_string, write_usize, write_exact, xwrite. quiet_tac. Qed.

Lemma quiet_recv_fd fd : quiet (recv_fd fd).
Proof. unfold recv_fd, recv_fds, xrecvmsg. quiet_tac. Qed.

Lemma quiet_timeout fd ms : quiet (SetSocketTimeout fd ms).
Proof. unfold SetSocketTimeout. quiet_tac. Qed.


Lemma owns_ret {A} (a : A) d : (forall fd, 0 <= fd -> d a fd = 0) -> owns (mret a : D A) d.
Proof. intros E s fd Hfd. wrun. rewrite E by done. lia. Qed.

Lemma owns_after {A C} (m : D A) (f : A -> D C) d :
  quiet m -> (forall a, owns (f a) d) -> owns (m ≫= f) d.
Proof. intros Hm Hf. eapply owns_bind; [exact Hm|exact Hf|done]. Qed.

Lemma holds_neg f : 0 <= f -> holds (-1) f = 0.
Proof. intros. unfold holds. destruct (Z.eqb_spec (-1) f); lia. Qed.

Lemma owns_close_fail fd :
  owns (close_ fd;; mret (-1) : D Z) (fun f g => holds f g - holds fd g).
Proof.
  eapply (owns_bind _ _ _ (fun _ f g => holds f g));
    [apply owns_close|intros; apply owns_ret; apply holds_neg|cbn; lia].
Qed.

Lemma owns_Connect_loop retry fd path :
  owns (Connect_loop retry fd path) (fun f g => holds f g - holds fd g).
Proof.
  induction retry as [|n IH]; cbn [Connect_loop]; [apply owns_close_fail|].
  apply owns_after; [by apply quiet_syscall|]. intros r. case_match.
  - apply owns_after; [apply quiet_timeout|]. intros _. apply owns_ret. lia.
  - apply owns_after; [quiet_tac|]. intros _. exact IH.
Qed.

Lemma owns_Connect retry : owns (Connect retry) holds.
Proof.
  eapply (owns_bind _ _ (fun r g => holds (r_ret r) g)
            (fun r f g => holds f g - holds (r_ret r) g)); [| |cbn; lia].
  - intros s fd _. apply wp_syscall. intros r w' e. cbn. unfold holds. lia.
  - intros r. apply owns_after; [unfold GetTmpPath; quiet_tac|]. intros tmp.
    cbn zeta. destruct (_ <? _); [|apply owns_Connect_loop]. intros s fd _. by wrun.
Qed.

Lemma quiet_request {A} retry (body : Z -> D A) :
  (forall fd, quiet (body fd)) -> quiet (fd ← Connect retry; unique_fd fd (body fd)).
Proof.
  intros Hb. eapply (owns_bind _ _ holds (fun fd _ g => - holds fd g));
    [apply owns_Connect|intros fd; by apply owns_unique_fd|cbn; lia].
Qed.

End Hygiene.

#[export] Hint Resolve quiet_read_exact quiet_write_exact quiet_read_string
  quiet_write_string quiet_recv_fd quiet_timeout : quiet.
#[export] Hint Unfold read_u8 read_u32 read_usize write_u8 write_u32 write_usize : quiet.
#[export] Hint Unfold send_action and_then GetTmpPath : quiet.

Section Requests.
Context {W : Type} `{!World W} (fuel : nat).
Abbreviation D := (M W daemon_state).

Lemma quiet_and_then (a b : D bool) : quiet a -> quiet b -> quiet (and_then a b).
Proof. intros. unfold and_then. quiet_tac; auto. Qed.
#[local] Hint Resolve quiet_and_then : quiet.

Lemma quiet_shm_probe n base uid i start : quiet (shm_probe n base uid i start).
Proof.
  revert i. induction n as [|n IH]; intros; cbn [shm_probe]; [apply quiet_fuel|].
  unfold load32. quiet_tac; auto.
Qed.

Lemma quiet_shm_lookup base uid : quiet (shm_lookup base uid).
Proof. unfold shm_lookup, shm_search, load32. pose proof quiet_shm_probe. quiet_tac. Qed.

Lemma quiet_read_modules_loop n fd ms : quiet (read_modules_loop fuel n fd ms).
Proof. revert ms. induction n as [|n IH]; intros; cbn [read_modules_loop]; quiet_tac. Qed.

Lemma quiet_zn_plan_loop n fd es : quiet (zn_plan_loop fuel n fd es).
Proof. revert es. induction n as [|n IH]; intros; cbn [zn_plan_loop]; quiet_tac. Qed.

Lemma owns_companion_answer fd : 
  owns (companion_answer fuel fd) (fun f g => holds f g - holds fd g).
Proof.
  apply owns_after; [quiet_tac|]. intros status. case_match; [|apply owns_close_fail].
  apply owns_after; [quiet_tac|]. intros _. apply owns_ret. lia.
Qed.

(** A companion request hands its socket to the caller or closes it. *)
Lemma owns_companion (ask : Z -> D Z) :
  (forall fd, owns (ask fd) (fun f g => holds f g - holds fd g)) ->
  owns (fd ← Connect 1; if fd =? -1 then mret (-1) else ask fd) holds.
Proof.
  intros Ha. eapply (owns_bind _ _ holds (fun fd f g => holds f g - holds fd g));
    [apply owns_Connect| |cbn; lia].
  intros fd. destruct (Z.eqb_spec fd (-1)) as [->|]; [apply owns_ret; lia|apply Ha].
Qed.

(** The requests of the protocol. *)
Inductive request :=
| RPing | RProcessFlags (uid : Z) | RCacheNs (pid : Z) | RUpdateNs (t : MountNamespace)
| RReadModules | RCompanion (index : Z) | RZnCompanion (path : list Z)
| RZnPlan (name path : list Z) (retry : nat) | RReport (path : list Z) (injected : bool)
| RModuleDir (index : Z) | RRestart | RServerStarted | RShmFd | RRefresh.

(** Runs a request; the socket it hands to its caller, if that is what it is for. *)
Definition run (q : request) : D (option Z) :=
  match q with
  | RPing => PingHeartbeat fuel;; mret None
  | RProcessFlags uid => GetProcessFlags fuel uid;; mret None
  | RCacheNs pid => CacheMountNamespace fuel pid;; mret None
  | RUpdateNs t => UpdateMountNamespace fuel t;; mret None
  | RReadModules => ReadModules fuel;; mret None
  | RCompanion i => fd ← ConnectCompanion fuel i; mret (Some fd)
  | RZnCompanion p => fd ← ConnectZnCompanion fuel p; mret (Some fd)
  | RZnPlan n p r => GetZnPlan fuel n p r;; mret None
  | RReport p i => ReportZnModule fuel p i;; mret None
  | RModuleDir i => GetModuleDir fuel i;; mret None
  | RRestart => ZygoteRestart fuel;; mret None
  | RServerStarted => SystemServerStarted fuel;; mret None
  | RShmFd => GetSharedMemoryFd fuel;; mret None
  | RRefresh => RefreshModules fuel;; mret None
  end.

Definition handed_out (o : option Z) (fd : Z) : Z :=
  match o with Some f => holds f fd | None => 0 end.

Lemma quiet_run {A} (m : D A) : quiet m -> owns (m;; mret None) handed_out.
Proof. intros Hm. apply owns_after; [exact Hm|]. intros _. by apply owns_ret. Qed.

Lemma owns_hand_out (m : D Z) : owns m holds -> owns (fd ← m; mret (Some fd)) handed_out.
Proof.
  intros Hm. eapply (owns_bind _ _ holds (fun f o g => handed_out o g - holds f g));
    [exact Hm|intros f; apply owns_ret; cbn; lia|cbn; lia].
Qed.

Lemma owns_run q : (forall uid, q <> RProcessFlags uid) -> owns (run q) handed_out.
Proof.
  intros Hq. pose proof quiet_read_modules_loop. pose proof quiet_zn_plan_loop.
  destruct q; cbn [run];
    lazymatch goal with
    | |- owns (GetProcessFlags _ _;; _) _ => by destruct (Hq uid)
    | |- owns (_ ← _; mret (Some _)) _ =>
        apply owns_hand_out, owns_companion; intros fd;
        do 2 (apply owns_after; [quiet_tac|intros _]); apply owns_companion_answer
    | |- _ => apply quiet_run, quiet_request; intros fd; quiet_tac
    end.
Qed.

Definition is_flags (q : request) : bool :=
  match q with RProcessFlags _ => true | _ => false end.

(** The flag lookup after the mapping was attempted. *)
Lemma quiet_process_flags base uid :
  owns (cached ← (if negb (base =? 0) then shm_lookup base uid else mret None);
        match cached with
        | Some flags => mret flags
        | None => request_process_flags fuel uid
        end) (fun _ _ => 0).
Proof.
  pose proof quiet_shm_lookup. apply quiet_bind; [quiet_tac|]. intros [fl|]; [quiet_tac|].
  apply quiet_request. intros fd. quiet_tac.
Qed.

(** The descriptor that the first flag lookup takes from the message with the
    shared memory and closes after mapping it, if it gets that far. *)
Definition shm_taken (q : request) (s : st W daemon_state) (fd : Z) : Z :=
  match q with
  | RProcessFlags _ =>
      if g_shm_init_attempted (st_s s) then 0
      else match (GetSharedMemoryFd fuel
                    (St (st_w s) (st_log s) (st_errno s)
                        (DaemonSt (TMP_PATH (st_s s)) (g_shm_base (st_s s)) true))).1 with
           | Ret g => holds g fd
           | _ => 0
           end
  | _ => 0
  end.

Lemma quiet_shm_fd : quiet (GetSharedMemoryFd fuel : D Z).
Proof. apply quiet_request. intros fd. quiet_tac. Qed.

Lemma map_shared_memory_balance uid (s : st W daemon_state) fd : 0 <= fd ->
  wp (map_shared_memory fuel) (fun o s' => match o with
    | Ret _ => balance fd (st_log s') = balance fd (st_log s) - shm_taken (RProcessFlags uid) s fd
    | _ => True end) s.
Proof.
  intros Hfd. unfold map_shared_memory, shm_taken. wrun. destruct (g_shm_init_attempted (st_s s)); [wrun; lia|].
  do 3 wstep. pose proof (quiet_shm_fd (St (st_w s) (st_log s) (st_errno s)
    (DaemonSt (TMP_PATH (st_s s)) (g_shm_base (st_s s)) true)) fd Hfd) as Hq.
  unfold wp at 1. unfold wp in Hq. destruct (GetSharedMemoryFd fuel _) as [o s1]. cbn [fst snd] in *.
  destruct o as [g| | |]; cbn [wp_cont]; try done.
  eapply wp_mono; [apply owns_unique_fd; [quiet_tac|exact Hfd]|].
  intros [u| | |] s2 H2; try done. cbn [st_log] in *. lia.
Qed.

(** C12. No request leaks a socket or closes one twice, whatever the kernel and
    the daemon answer: when a request returns, every descriptor has been opened
    by [socket] as often as it was closed, except the companion socket that is
    handed to the caller, still open, and except that the first flag lookup
    also closes, once, the descriptor it took from the message with the shared
    memory ([shm_taken]; what [recv_fd] makes of a failed receive included). *)
Theorem requests_balance_sockets q (s s' : st W daemon_state) o fd :
  run q s = (Ret o, s') -> 0 <= fd ->
  balance fd (st_log s') = balance fd (st_log s) + handed_out o fd - shm_taken q s fd.
Proof.
  intros E Hfd.
  assert (Hr : wp (run q) (fun o s' => match o with
    | Ret a => balance fd (st_log s') = balance fd (st_log s) + handed_out a fd - shm_taken q s fd
    | _ => True end) s); [|by eapply (wp_elim _ _ _ _ _ Hr) in E].
  destruct (is_flags q) eqn:Eq.
  - destruct q as [|uid| | | | | | | | | | | |]; try discriminate Eq. cbn [run].
    unfold GetProcessFlags. do 2 wstep. eapply wp_mono; [by apply (map_shared_memory_balance uid)|].
    intros [[]| | |] s1 H1; cbn [wp_cont]; try done. do 2 wstep.
    eapply wp_mono; [apply (quiet_process_flags (g_shm_base (st_s s1)) uid s1 fd Hfd)|].
    intros [?| | |] s2 Hq; cbn [wp_cont]; try done. wrun. cbn [handed_out]. lia.
  - replace (shm_taken q s fd) with 0 by by destruct q.
    eapply wp_mono; [apply owns_run; [by intros uid ->|done]|].
    intros [?| | |] s1 H1; try done. lia.
Qed.

End Requests.

(** ** Answers of a daemon that can be reached

    The calls that set a connection up and tear it down succeed and leave the
    streams alone; [unread w fd] is what the daemon answers on the connection. *)
Definition undisturbed {W} `{!World W, !ByteStream W} (w w' : W) : Prop :=
  (forall fd, unread w' fd = unread w fd) /\ (forall fd, sent w' fd = sent w fd)
  /\ (forall fd, attached w' fd = attached w fd) /\ (patience w' <= patience w)%nat.

Class Reachable (W : Type) `{!World W, !ByteStream W} := {
  socket_law w r w' :
    sys (CSocket PF_UNIX SOCK_STREAM_CLOEXEC 0) w = (r, w') -> 0 <= r_ret r /\ undisturbed w w';
  connect_law w fd path r w' :
    sys (CConnect fd path) w = (r, w') -> r_ret r = 0 /\ undisturbed w w';
  sockopt_law w fd o a b r w' : sys (CSetsockopt fd o a b) w = (r, w') -> undisturbed w w';
  close_law w fd r w' : sys (CClose fd) w = (r, w') -> undisturbed w w'
}.

(** The daemon's encoding of its module list and of its ZN plan. *)
Definition wire_module (m : Module_) : list Z := wire_string (m_name m) ++ [0; 0; 0; 0].
Definition wire_modules (ms : list Module_) : list Z :=
  le_bytes 8 (Z.of_nat (length ms)) ++ concat (map wire_module ms).

Definition wire_zn (e : ZnPlanEntry) : list Z :=
  wire_string (zn_lib_path e) ++ [if zn_companion e then 1 else 0] ++ [0; 0; 0; 0].
Definition wire_plan (es : list ZnPlanEntry) : list Z :=
  le_bytes 8 (Z.of_nat (length es)) ++ concat (map wire_zn es).

(** A string of the protocol fits a machine word and has no NUL. *)
Definition name_ok (bound : nat) (n : list Z) : Prop :=
  (0 ∉ n) /\ (length n <= bound)%nat.

Definition module_ok (bound : nat) (m : Module_) : Prop :=
  name_ok bound (m_name m) /\ 0 <= m_memfd m < 2 ^ 31.
Definition zn_ok (bound : nat) (e : ZnPlanEntry) : Prop :=
  name_ok bound (zn_lib_path e) /\ 0 <= zn_lib_fd e < 2 ^ 31.

Section Answers.
Context {W : Type} `{!World W, !ByteStream W, !Reachable W} (fuel bound : nat).
Abbreviation D := (M W daemon_state).
Hypothesis bound_small : Z.of_nat bound < 2 ^ 62.

Lemma undisturbed_trans (w1 w2 w3 : W) :
  undisturbed w1 w2 -> undisturbed w2 w3 -> undisturbed w1 w3.
Proof.
  intros (A1 & A2 & A3 & A4) (B1 & B2 & B3 & B4). repeat split; try lia; intros fd.
  - by rewrite B1.
  - by rewrite B2.
  - by rewrite B3.
Qed.

Lemma Connect_stream retry (s : st W daemon_state) r w1 :
  sys (CSocket PF_UNIX SOCK_STREAM_CLOEXEC 0) (st_w s) = (r, w1) ->
  Z.of_nat (length (c_str (TMP_PATH (st_s s) ++ kCPSocketName))) < sun_path_size ->
  wp (Connect (S retry))
     (fun o s' => o = Ret (r_ret r) /\ undisturbed (st_w s) (st_w s') /\ st_s s' = st_s s) s.
Proof.
  intros E Hp. unfold Connect. wstep. eapply wp_syscall_eq; [exact E|]. unfold GetTmpPath. wrun.
  apply socket_law in E as [Hr Hu]. destruct (Z.ltb_spec sun_path_size
    (Z.of_nat (length (c_str (TMP_PATH (st_s s) ++ kCPSocketName))) + 1)); [lia|].
  cbn [Connect_loop]. wstep. wsys r2 w2 E2. apply connect_law in E2 as [Hr2 Hu2].
  rewrite Hr2. cbn [Z.eqb]. unfold SetSocketTimeout. wrun.
  wsys r3 w3 E3. apply sockopt_law in E3. wrun.
  wsys r4 w4 E4. apply sockopt_law in E4. wrun. split; [done|].
  split; [eauto using undisturbed_trans|done].
Qed.

Lemma unique_fd_stream {A} fd (body : D A) a P (s : st W daemon_state) :
  wp body (fun o s' => o = Ret a /\ P (st_w s')) s ->
  (forall w w', P w -> undisturbed w w' -> P w') ->
  wp (unique_fd fd body) (fun o s' => o = Ret a /\ P (st_w s')) s.
Proof.
  intros Hb HP. unfold unique_fd. wstep. eapply wp_mono; [exact Hb|].
  intros o s' [-> H']. wrun. destruct (0 <=? fd); [|by wrun]. unfold close_. wrun.
  wsys r w E. apply close_law in E. wrun. eauto.
Qed.

Lemma read_modules_loop_stream ms fd acc rest fs (s : st W daemon_state) :
  Forall (module_ok bound) ms ->
  unread (st_w s) fd = concat (map wire_module ms) ++ rest ->
  attached (st_w s) fd = map m_memfd ms ++ fs ->
  (9 + bound + patience (st_w s) < fuel)%nat ->
  wp (read_modules_loop fuel (length ms) fd acc)
     (fun o s' => o = Ret (acc ++ ms) /\ unread (st_w s') fd = rest
                  /\ (forall fd', sent (st_w s') fd' = sent (st_w s) fd')) s.
Proof.
  intros Hms. revert acc s. induction Hms as [|[name f] ms [[Hz Hn] Hf] _ IH];
    intros acc s Hu Ha Hp; cbn [length read_modules_loop].
  - wrun. by rewrite app_nil_r.
  - cbn in Hz, Hn, Hf, Hu, Ha. wstep.
    unfold wire_module, wire_zn in Hu. cbn in Hu. rewrite <- !app_assoc in Hu.
    eapply wp_mono; [eapply (read_string_stream _ _ name); [lia|exact Hu|lia]|].
    intros o s1 [-> (H1 & H2 & H3 & H4 & H5)]. rewrite c_str_app_nul by done. wrun.
    rewrite Hu in H1. apply app_inv_head in H1. symmetry in H1.
    eapply wp_mono; [eapply (recv_fd_stream fd f _ [0; 0; 0; 0]);
      [rewrite H1; done|done|rewrite H4, Ha; done|done]|].
    intros o s2 [-> (G1 & G2 & _ & G3 & G4)]. wrun.
    eapply wp_mono; [apply IH|]; cbn.
    + rewrite H1 in G1. by apply app_inv_head in G1.
    + rewrite H4, Ha in G2. by simplify_eq.
    + lia.
    + intros o s3 (-> & K1 & K2). rewrite <- app_assoc. split; [done|]. split; [done|].
      intros fd'. by rewrite K2, G3, H3.
Qed.

Lemma zn_plan_loop_stream es fd acc rest fs (s : st W daemon_state) :
  Forall (zn_ok bound) es ->
  unread (st_w s) fd = concat (map wire_zn es) ++ rest ->
  attached (st_w s) fd = map zn_lib_fd es ++ fs ->
  (9 + bound + patience (st_w s) < fuel)%nat ->
  wp (zn_plan_loop fuel (length es) fd acc)
     (fun o s' => o = Ret (acc ++ es) /\ unread (st_w s') fd = rest
                  /\ (forall fd', sent (st_w s') fd' = sent (st_w s) fd')) s.
Proof.
  intros Hes. revert acc s. induction Hes as [|[name c f] es [[Hz Hn] Hf] _ IH];
    intros acc s Hu Ha Hp; cbn [length zn_plan_loop].
  - wrun. by rewrite app_nil_r.
  - cbn in Hz, Hn, Hf, Hu, Ha. wstep.
    unfold wire_module, wire_zn in Hu. cbn in Hu. rewrite <- !app_assoc in Hu.
    eapply wp_mono; [eapply (read_string_stream _ _ name); [lia|exact Hu|lia]|].
    intros o s1 [-> (H1 & H2 & H3 & H4 & H5)]. rewrite c_str_app_nul by done. wrun.
    rewrite Hu in H1. apply app_inv_head in H1. symmetry in H1.
    eapply wp_mono; [eapply (read_exact_or_stream _ 1 fd 0 (if c then 1 else 0));
      [lia|by destruct c|rewrite H1; by destruct c|lia]|].
    intros o s2 [-> (J1 & J2 & J3 & J4 & J5)]. wrun.
    rewrite H1 in J1. replace (le_bytes 1 (if c then 1 else 0)) with [if c then 1 else 0] in J1
      by (by destruct c). apply (app_inv_head [_]) in J1. symmetry in J1.
    eapply wp_mono; [eapply (recv_fd_stream fd f _ [0; 0; 0; 0]);
      [rewrite J1; done|done|rewrite J4, H4, Ha; done|done]|].
    intros o s3 [-> (G1 & G2 & _ & G3 & G4)]. wrun.
    destruct (Z.ltb_spec f 0); [lia|].
    eapply wp_mono; [apply IH|]; cbn.
    + rewrite J1 in G1. by apply (app_inv_head [0; 0; 0; 0]) in G1.
    + rewrite J4, H4, Ha in G2. by simplify_eq.
    + lia.
    + intros o s4 (-> & K1 & K2). rewrite <- app_assoc.
      replace (negb ((if c then 1 else 0) =? 0)) with c by (by destruct c).
      split; [done|]. split; [done|]. intros fd'. by rewrite K2, G3, J3, H3.
Qed.

(** What has been asked on a connection and is still to be answered. *)
Definition answered (fd : Z) (asked rest : list Z) (w w' : W) : Prop :=
  unread w' fd = rest /\ sent w' fd = sent w fd ++ asked.

Lemma answered_undisturbed fd asked rest (w0 w w' : W) :
  answered fd asked rest w0 w -> undisturbed w w' -> answered fd asked rest w0 w'.
Proof. intros [H1 H2] (U1 & U2 & _). split; [by rewrite U1|by rewrite U2]. Qed.

Section Connected.
Context (s : st W daemon_state) (r : reply) (w1 : W).
Hypothesis Hsock : sys (CSocket PF_UNIX SOCK_STREAM_CLOEXEC 0) (st_w s) = (r, w1).
Hypothesis Hpath : Z.of_nat (length (c_str (TMP_PATH (st_s s) ++ kCPSocketName))) < sun_path_size.

(** A request of a reachable daemon: what remains is its body. *)
Lemma request_stream {A} retry (body : Z -> D A) a asked rest :
  (forall s1, undisturbed (st_w s) (st_w s1) ->
     wp (body (r_ret r))
        (fun o s' => o = Ret a /\ answered (r_ret r) asked rest (st_w s1) (st_w s')) s1) ->
  wp (fd ← Connect (S retry); unique_fd fd (body fd))
     (fun o s' => o = Ret a /\ answered (r_ret r) asked rest (st_w s) (st_w s')) s.
Proof.
  intros Hb. wstep. eapply wp_mono; [eapply Connect_stream; [exact Hsock|exact Hpath]|].
  intros o s1 (-> & Hu & _). wrun.
  eapply (unique_fd_stream _ _ _ (answered (r_ret r) asked rest (st_w s)));
    [|apply answered_undisturbed].
  eapply wp_mono; [by apply Hb|]. intros o s' [-> [H1 H2]]. split; [done|].
  split; [done|]. destruct Hu as (_ & U2 & _). by rewrite H2, U2.
Qed.

Lemma socket_not_minus_one : (r_ret r =? -1) = false.
Proof. destruct (socket_law _ _ _ Hsock) as [H _]. apply Z.eqb_neq. lia. Qed.

(** Module lists survive the protocol: [ReadModules] sends the one-byte
    request and returns exactly the daemon's modules, each name with the
    descriptor attached to it, in order, however the transfers are split. *)
Theorem ReadModules_decodes ms rest fs :
  Forall (module_ok bound) ms -> Z.of_nat (length ms) < 2 ^ 63 ->
  unread (st_w s) (r_ret r) = wire_modules ms ++ rest ->
  attached (st_w s) (r_ret r) = map m_memfd ms ++ fs ->
  (9 + bound + patience (st_w s) < fuel)%nat ->
  exists s', ReadModules fuel s = (Ret ms, s')
             /\ answered (r_ret r) [action_code AReadModules] rest (st_w s) (st_w s').
Proof.
  intros Hms Hl Hu Ha Hf. apply wp_returns, request_stream.
  intros s1 (U1 & U2 & U3 & U4). rewrite socket_not_minus_one. wstep.
  eapply wp_mono; [apply write_exact_stream; lia|].
  intros o s2 [-> (P1 & P2 & P3 & P4 & P5)]. wrun.
  eapply wp_mono; [eapply (read_exact_or_stream _ 8 _ 0 (Z.of_nat (length ms)));
    [lia|split; lia|rewrite P3, U1, Hu; unfold wire_modules; by rewrite <- app_assoc|lia]|].
  intros o s3 [-> (Q1 & Q2 & Q3 & Q4 & Q5)]. wrun. rewrite Nat2Z.id.
  rewrite P3, U1, Hu in Q1. unfold wire_modules in Q1. rewrite <- app_assoc in Q1.
  apply app_inv_head in Q1.
  eapply wp_mono; [apply (read_modules_loop_stream ms _ [] rest fs); try done;
    [by rewrite Q4, P4, U3|lia]|].
  intros o s4 (-> & R1 & R2). split; [done|]. split; [done|]. by rewrite R2, Q3, P1.
Qed.

(** ZN plans survive the protocol: [GetZnPlan] sends its request byte and
    both strings, and returns exactly the entries of the daemon's plan, with
    their companion flags and descriptors, in order. *)
Theorem GetZnPlan_decodes name path retry es rest fs :
  (length name <= bound)%nat -> (length path <= bound)%nat ->
  Forall (zn_ok bound) es -> Z.of_nat (length es) < 2 ^ 63 ->
  unread (st_w s) (r_ret r) = wire_plan es ++ rest ->
  attached (st_w s) (r_ret r) = map zn_lib_fd es ++ fs ->
  (9 + bound + patience (st_w s) < fuel)%nat ->
  exists s', GetZnPlan fuel name path (S retry) s = (Ret es, s')
             /\ answered (r_ret r) ([action_code AGetZnPlan] ++ wire_string name ++ wire_string path)
                  rest (st_w s) (st_w s').
Proof.
  intros Hn Hp Hes Hl Hu Ha Hf. apply wp_returns, request_stream.
  intros s1 (U1 & U2 & U3 & U4). rewrite socket_not_minus_one. unfold and_then. wstep.
  wstep. eapply wp_mono; [apply write_exact_stream; lia|].
  intros o s2 [-> P0]. wrun. assert (P5 : (patience (st_w s2) <= patience (st_w s1))%nat) by apply P0.
  eapply wp_mono; [apply write_string_stream; lia|].
  intros o s3 [-> P1]. wrun. assert (P6 : (patience (st_w s3) <= patience (st_w s2))%nat) by apply P1.
  eapply wp_mono; [apply write_string_stream; lia|].
  intros o s4 [-> P2]. wrun.
  assert (Hpr := produced_app _ _ _ _ _ _ P0 (produced_app _ _ _ _ _ _ P1 P2)).
  destruct Hpr as (T1 & T2 & T3 & T4 & T5). cbn [negb]. wrun.
  eapply wp_mono; [eapply (read_exact_or_stream _ 8 _ 0 (Z.of_nat (length es)));
    [lia|split; lia|rewrite T3, U1, Hu; unfold wire_plan; by rewrite <- app_assoc|lia]|].
  intros o s5 [-> (Q1 & Q2 & Q3 & Q4 & Q5)]. wrun. rewrite Nat2Z.id.
  rewrite T3, U1, Hu in Q1. unfold wire_plan in Q1. rewrite <- app_assoc in Q1.
  apply app_inv_head in Q1.
  eapply wp_mono; [apply (zn_plan_loop_stream es _ [] rest fs); try done;
    [by rewrite Q4, T4, U3|lia]|].
  intros o s6 (-> & R1 & R2). split; [done|]. split; [done|]. by rewrite R2, Q3, T1.
Qed.
End Connected.
End Answers.

#[export] Program Instance pipe_reachable : Reachable pipe.
Next Obligation. intros w r w' E. cbn in E. simplify_eq. cbn. repeat split; lia. Qed.
Next Obligation. intros w fd path r w' E. cbn in E. simplify_eq. cbn. repeat split; lia. Qed.
Next Obligation. intros w fd o a b r w' E. cbn in E. simplify_eq. repeat split; lia. Qed.
Next Obligation. intros w fd r w' E. cbn in E. simplify_eq. repeat split; lia. Qed.

(** A client whose daemon answers [inb] and attaches [fds], over descriptor 0. *)
Definition client (inb fds : list Z) (plan : list nat) : st pipe daemon_state :=
  St (Pipe (fun fd => if fd =? 0 then inb else []) (fun _ => [])
           (fun fd => if fd =? 0 then fds else []) plan)
     [] 0 (DaemonSt (B "/data/adb") 0 true).

Lemma requests_balance_sockets_witness :
  exists s', run 20 (RCompanion 2) (client [1] [] [0; 1]%nat) = (Ret (Some 0), s')
             /\ balance 0 (st_log s') = 0 + 1 - 0.
Proof.
  eexists. split; [vm_compute; reflexivity|].
  apply (requests_balance_sockets 20 (RCompanion 2) (client [1] [] [0; 1]%nat) _ (Some 0) 0);
    [vm_compute; reflexivity|lia].
Defined.

Definition two_modules : list Module_ := [Module_mk (B "lsposed") 9; Module_mk (B "shamiko") 11].

Definition modules_client : st pipe daemon_state :=
  client (wire_modules two_modules) [9; 11] [1; 0; 2]%nat.

Lemma ReadModules_decodes_witness :
  exists s', ReadModules 60 modules_client = (Ret two_modules, s') /\ unread (st_w s') 0 = [].
Proof.
  destruct (ReadModules_decodes 60 16 eq_refl modules_client (Reply 0 0 [] [])
              (st_w modules_client) eq_refl eq_refl two_modules [] []) as (s' & Hs & Ha & _);
    [|reflexivity|reflexivity|reflexivity|vm_compute; lia|exists s'; split; [exact Hs|exact Ha]].
  repeat constructor; try (vm_compute; congruence); try vm_decide; vm_compute; lia.
Defined.

Definition one_plan : list ZnPlanEntry := [ZnPlan (B "/data/libzn.so") true 9].

Definition plan_client : st pipe daemon_state := client (wire_plan one_plan) [9] [1; 0; 2]%nat.

Lemma GetZnPlan_decodes_witness :
  exists s', GetZnPlan 60 (B "zygote64") (B "/system/bin/app_process64") 1 plan_client
             = (Ret one_plan, s') /\ unread (st_w s') 0 = [].
Proof.
  destruct (GetZnPlan_decodes 60 30 eq_refl plan_client (Reply 0 0 [] []) (st_w plan_client)
              eq_refl eq_refl (B "zygote64") (B "/system/bin/app_process64") 0 one_plan [] [])
    as (s' & Hs & Ha & _);
    [vm_compute; lia|vm_compute; lia| |reflexivity|reflexivity|reflexivity|vm_compute; lia
    |exists s'; split; [exact Hs|exact Ha]].
  repeat constructor; try (vm_compute; congruence); try vm_decide; vm_compute; lia.
Defined.
