(* ===== verification/ShmCache.v ===== *)
(** The process-flag cache shared between the daemon and the zygotes.

    The daemon writes the table (zygiskd/src/zygiskd.rs, [cache_process_flags]
    and [invalidate_process_flag_cache]); the loader reads it without a lock
    ([GetProcessFlags] of loader/src/common/daemon.cpp, modelled in [Daemon]).
    The writer is a sequence of atomic stores, the reader a sequence of atomic
    loads, and any interleaving of the two is possible: the fences of both
    sides order the version accesses around the entry accesses, so the model
    interleaves the accesses in program order. *)
From S2P Require Import Prelude Sys SocketUtils Daemon.
Open Scope Z_scope.

Record layout := Layout { l_version : Z; l_uid : Z -> Z; l_flags : Z -> Z }.

Inductive store := SVersion (v : Z) | SUid (index v : Z) | SFlags (index v : Z).

Definition fupd (f : Z -> Z) (k v : Z) : Z -> Z := fun x => if x =? k then v else f x.

Definition apply_store (st : store) (l : layout) : layout :=
  match st with
  | SVersion v => Layout (u32 v) (l_uid l) (l_flags l)
  | SUid i v => Layout (l_version l) (fupd (l_uid l) i (u32 v)) (l_flags l)
  | SFlags i v => Layout (l_version l) (l_uid l) (fupd (l_flags l) i (u32 v))
  end.

Definition apply_stores (sts : list store) (l : layout) : layout :=
  fold_left (fun l st => apply_store st l) sts l.

Abbreviation MASK := (SHM_HASH_MAP_SIZE - 1).
Abbreviation SLOTS := (Z.to_nat SHM_HASH_MAP_SIZE).

(** ** The writer *)

(** The slot the writer picks for [uid]: the first one on its probe sequence
    that is free or already its own, [None] when the table is full. *)
Fixpoint free_slot (n : nat) (uids : Z -> Z) (uid index start : Z) : option Z :=
  match n with
  | O => None
  | S n' =>
      if (uids index =? UINT32_MAX) || (uids index =? uid) then Some index
      else
        let index := Z.land (index + 1) MASK in
        if index =? start then None else free_slot n' uids uid index start
  end.

Definition slot (uids : Z -> Z) (uid : Z) : option Z :=
  let start := Z.land uid MASK in free_slot SLOTS uids uid start start.

#[global] Arguments slot : simpl never.

(** The stores of [cache_process_flags], in program order. *)
Definition cache_process_flags (uid flags : Z) (l : layout) : list store :=
  [SVersion (l_version l + 1)]
  ++ match slot (l_uid l) uid with
     | Some i => [SUid i uid; SFlags i flags]
     | None => []
     end
  ++ [SVersion (l_version l + 2)].

Fixpoint clear_entries (n : nat) (index : Z) : list store :=
  match n with
  | O => []
  | S n' => SUid index UINT32_MAX :: SFlags index 0 :: clear_entries n' (index + 1)
  end.

Definition invalidate_process_flag_cache (l : layout) : list store :=
  [SVersion (l_version l + 1)] ++ clear_entries SLOTS 0 ++ [SVersion (l_version l + 2)].

Definition initialize_shared_memory : layout := Layout 0 (fun _ => UINT32_MAX) (fun _ => 0).

Inductive op := OCache (uid flags : Z) | OInvalidate.

Definition op_stores (o : op) (l : layout) : list store :=
  match o with
  | OCache uid flags => cache_process_flags uid flags l
  | OInvalidate => invalidate_process_flag_cache l
  end.

(** ** What the cache means: a finite map from uids to flags *)

Definition op_ok (o : op) : Prop :=
  match o with
  | OCache uid flags => 0 <= uid < UINT32_MAX /\ fits_u 32 flags
  | OInvalidate => True
  end.

(** A full table ignores a new uid. *)
Definition op_model (o : op) (l : layout) (m : gmap Z Z) : gmap Z Z :=
  match o with
  | OCache uid flags => match slot (l_uid l) uid with Some _ => <[uid := flags]> m | None => m end
  | OInvalidate => ∅
  end.

(** The reader's lookup in a table nobody writes to. *)
Definition table_lookup (l : layout) (uid : Z) : option Z :=
  match slot (l_uid l) uid with
  | Some i => if l_uid l i =? uid then Some (l_flags l i) else None
  | None => None
  end.

Definition in_table (i : Z) : Prop := 0 <= i < SHM_HASH_MAP_SIZE.

(** Every stored uid is found by its own probe sequence, so it is stored once. *)
Definition probed (l : layout) : Prop :=
  forall i, in_table i -> l_uid l i <> UINT32_MAX -> slot (l_uid l) (l_uid l i) = Some i.

Definition represents (l : layout) (m : gmap Z Z) : Prop :=
  probed l /\ forall uid, uid <> UINT32_MAX -> table_lookup l uid = m !! uid.

Lemma land_mask x : Z.land x MASK = x mod SHM_HASH_MAP_SIZE.
Proof. change MASK with (Z.ones 13). by rewrite Z.land_ones by lia. Qed.

Lemma in_table_mask x : in_table (Z.land x MASK).
Proof. rewrite land_mask. unfold in_table. apply Z.mod_pos_bound. by vm_compute. Qed.

Lemma free_slot_in_table n uids uid i start j :
  in_table i -> free_slot n uids uid i start = Some j ->
  in_table j /\ (uids j = UINT32_MAX \/ uids j = uid).
Proof.
  revert i. induction n as [|n IH]; intros i Hi; cbn [free_slot]; [done|].
  destruct ((uids i =? UINT32_MAX) || (uids i =? uid)) eqn:E.
  - intros ?; simplify_eq. apply orb_true_iff in E as [E|E]; apply Z.eqb_eq in E; auto.
  - case_match; [done|]. apply IH. apply in_table_mask.
Qed.

Lemma slot_in_table uids uid j :
  slot uids uid = Some j -> in_table j /\ (uids j = UINT32_MAX \/ uids j = uid).
Proof. apply free_slot_in_table, in_table_mask. Qed.

(** Changing a slot the probe does not stop at keeps its result. *)
Lemma free_slot_agree n uids uids' uid i start j :
  (forall k, k <> j -> uids k <> UINT32_MAX -> uids' k = uids k) ->
  (uids' j = UINT32_MAX \/ uids' j = uid) ->
  free_slot n uids uid i start = Some j -> free_slot n uids' uid i start = Some j.
Proof.
  intros Hk Hj. revert i. induction n as [|n IH]; intros i; cbn [free_slot]; [done|].
  destruct (decide (i = j)) as [->|Hij].
  - intros _. assert ((uids' j =? UINT32_MAX) || (uids' j =? uid) = true) as ->; [|done].
    apply orb_true_iff. destruct Hj as [->| ->]; [left|right]; apply Z.eqb_refl.
  - destruct ((uids i =? UINT32_MAX) || (uids i =? uid)) eqn:E; [intros; by simplify_eq|].
    apply orb_false_iff in E as [E1 E2].
    rewrite (Hk i) by (auto; by apply Z.eqb_neq). rewrite E1, E2. cbn [orb].
    case_match; auto.
Qed.

Lemma slot_agree uids uids' uid j :
  (forall k, k <> j -> uids k <> UINT32_MAX -> uids' k = uids k) ->
  (uids' j = UINT32_MAX \/ uids' j = uid) -> slot uids uid = Some j -> slot uids' uid = Some j.
Proof. apply free_slot_agree. Qed.

Lemma slot_unfold uids uid :
  slot uids uid = free_slot SLOTS uids uid (Z.land uid MASK) (Z.land uid MASK).
Proof. reflexivity. Qed.
#[global] Opaque slot.

Lemma fupd_eq f k v : fupd f k v k = v.
Proof. unfold fupd. by rewrite Z.eqb_refl. Qed.

Lemma fupd_ne f k v x : x <> k -> fupd f k v x = f x.
Proof. intros. unfold fupd. by destruct (Z.eqb_spec x k). Qed.

(** Under [probed], a lookup finds exactly the stored entry. *)
Lemma table_lookup_stored l uid i :
  probed l -> in_table i -> uid <> UINT32_MAX -> l_uid l i = uid ->
  table_lookup l uid = Some (l_flags l i).
Proof.
  intros Hp Hi Hu E. unfold table_lookup. rewrite <- E at 1.
  rewrite Hp by congruence. by rewrite E, Z.eqb_refl.
Qed.

Lemma table_lookup_absent l uid :
  (forall i, in_table i -> l_uid l i <> uid) -> table_lookup l uid = None.
Proof.
  intros H. unfold table_lookup. destruct (slot _ _) as [i|] eqn:E; [|done].
  apply slot_in_table in E as [Hi _]. by rewrite (proj2 (Z.eqb_neq _ _) (H i Hi)).
Qed.

(** Decides whether a uid is stored. *)
Lemma stored_or_absent l uid :
  probed l -> uid <> UINT32_MAX ->
  (exists i, in_table i /\ l_uid l i = uid) \/ (forall i, in_table i -> l_uid l i <> uid).
Proof.
  intros Hp Hu. destruct (slot (l_uid l) uid) as [i|] eqn:E.
  - destruct (Z.eq_dec (l_uid l i) uid) as [Hi|Hi].
    + left. exists i. split; [|done]. by apply slot_in_table in E as [? _].
    + right. intros j Hj Hju. rewrite <- Hju in E. rewrite Hp in E by congruence.
      simplify_eq.
  - right. intros j Hj Hju. rewrite <- Hju in E. by rewrite Hp in E by congruence.
Qed.

(** The version plays no part in what the table holds. *)
Lemma represents_ext l l' m :
  l_uid l' = l_uid l -> l_flags l' = l_flags l -> represents l m -> represents l' m.
Proof.
  destruct l as [v u f], l' as [v' u' f']. cbn. intros -> ->.
  unfold represents, probed, table_lookup. cbn [l_uid l_flags]. auto.
Qed.

Lemma represents_cache l m uid flags :
  represents l m -> op_ok (OCache uid flags) ->
  represents (apply_stores (cache_process_flags uid flags l) l) (op_model (OCache uid flags) l m).
Proof.
  intros [Hp Hm] [Hu Hf]. unfold cache_process_flags, op_model.
  destruct (slot (l_uid l) uid) as [i|] eqn:E;
    cbn [app apply_stores fold_left apply_store l_version l_uid l_flags]; 
    [|by eapply represents_ext; [| |split; [exact Hp|exact Hm]]].
  assert (Hu32 : fits_u 32 uid) by (unfold UINT32_MAX in Hu; clear - Hu; unfold fits_u; lia).
  rewrite (uwrap_id 32 uid Hu32), (uwrap_id 32 flags Hf).
  set (uids := fupd (l_uid l) i uid). apply slot_in_table in E as Hi. destruct Hi as [Hi Hfree].
  assert (Hagree : forall k, k <> i -> uids k = l_uid l k)
    by (intros; by apply fupd_ne).
  assert (Hi' : uids i = uid) by apply fupd_eq.
  assert (Hp' : probed (Layout (u32 (l_version l + 2)) uids (fupd (l_flags l) i flags))).
  { intros j Hj Hne. cbn in *. destruct (decide (j = i)) as [->|Hji].
    - rewrite Hi'. eapply slot_agree; [|right; exact Hi'|exact E]. auto.
    - rewrite Hagree in * by done. eapply slot_agree; [| |by apply Hp].
      + intros k Hk Hk'. destruct (decide (k = i)) as [->|]; [|auto].
        destruct Hfree as [|Heq]; [done|]. rewrite Hi', Heq. done.
      + rewrite Hagree by done. auto. }
  split; [done|]. intros u Hune. destruct (decide (u = uid)) as [->|Hne].
  - rewrite lookup_insert_eq, (table_lookup_stored _ _ i) by done. cbn. by rewrite fupd_eq.
  - rewrite lookup_insert_ne by done. rewrite <- Hm by done.
    destruct (stored_or_absent l u Hp Hune) as [(j & Hj & Hju)|Hno].
    + assert (j <> i) by (intros ->; destruct Hfree; congruence).
      rewrite (table_lookup_stored _ u j), (table_lookup_stored l u j); auto; cbn.
      * by rewrite fupd_ne.
      * by rewrite Hagree.
    + rewrite !table_lookup_absent; auto. intros j Hj. cbn.
      destruct (decide (j = i)) as [->|]; [by rewrite Hi'|rewrite Hagree; auto].
Qed.

Lemma apply_clear n i l :
  0 <= i ->
  let l' := apply_stores (clear_entries n i) l in
  l_version l' = l_version l
  /\ (forall k, i <= k < i + Z.of_nat n -> l_uid l' k = UINT32_MAX)
  /\ (forall k, k < i -> l_uid l' k = l_uid l k).
Proof.
  revert i l. induction n as [|n IH]; intros i l Hi; cbn.
  - repeat split; try done. lia.
  - destruct (IH (i + 1) (apply_store (SFlags i 0) (apply_store (SUid i UINT32_MAX) l)))
      as (H1 & H2 & H3); [lia|]. cbn in *. repeat split; [done| |].
    + intros k Hk. destruct (decide (k = i)) as [->|]; [|apply H2; lia].
      rewrite H3 by lia. by rewrite fupd_eq.
    + intros k Hk. rewrite H3 by lia. by rewrite fupd_ne by lia.
Qed.

Lemma apply_stores_app a b l : apply_stores (a ++ b) l = apply_stores b (apply_stores a l).
Proof. apply fold_left_app. Qed.

Lemma represents_cleared n l v :
  Z.of_nat n = SHM_HASH_MAP_SIZE ->
  represents (apply_stores (clear_entries n 0 ++ [SVersion v]) l) ∅.
Proof.
  intros Hn. rewrite apply_stores_app. destruct (apply_clear n 0 l) as (_ & H & _); [lia|].
  set (l2 := apply_stores (clear_entries _ _) l) in *.
  assert (Hall : forall i, in_table i -> l_uid l2 i = UINT32_MAX).
  { intros i [Hi1 Hi2]. apply H. rewrite Hn. lia. }
  split.
  - intros i Hi Hne. cbn in Hne. by rewrite Hall in Hne.
  - intros uid Hu. rewrite lookup_empty. apply table_lookup_absent.
    intros i Hi. cbn. rewrite Hall by done. congruence.
Qed.

Lemma slots_size : Z.of_nat SLOTS = SHM_HASH_MAP_SIZE.
Proof. apply Z2Nat.id. by vm_compute. Qed.

Lemma represents_invalidate l :
  represents (apply_stores (invalidate_process_flag_cache l) l) ∅.
Proof.
  unfold invalidate_process_flag_cache. rewrite apply_stores_app.
  apply represents_cleared, slots_size.
Qed.

Lemma represents_op o l m :
  represents l m -> op_ok o -> represents (apply_stores (op_stores o l) l) (op_model o l m).
Proof.
  destruct o; intros Hr Ho; [by apply represents_cache|apply represents_invalidate].
Qed.

(** ** Runs of the writer

    [ws_todo]: the stores of the running update still to be made;
    [ws_count]: how many stores to the version there have been; [ws_now],
    [ws_next]: what the cache means before and after the running update. *)
Record wstate := WS {
  ws_layout : layout; ws_todo : list store; ws_count : Z;
  ws_now : gmap Z Z; ws_next : gmap Z Z }.

Definition is_version (st : store) : bool :=
  match st with SVersion _ => true | _ => false end.

(** The daemon holds [write_lock] during an update, so updates do not overlap. *)
Inductive writer_step : wstate -> wstate -> Prop :=
| W_idle ws : writer_step ws ws
| W_begin l n now next o :
    op_ok o ->
    writer_step (WS l [] n now next) (WS l (op_stores o l) n now (op_model o l now))
| W_store l st rest n now next :
    writer_step (WS l (st :: rest) n now next)
      (WS (apply_store st l) rest (if is_version st then n + 1 else n)
          (match rest with [] => next | _ => now end) next).

Definition quiet_body (body : list store) : Prop := Forall (fun st => is_version st = false) body.

Definition fields_fit (l : layout) : Prop :=
  forall i, fits_u 32 (l_uid l i) /\ fits_u 32 (l_flags l i).

(** An even count is a table at rest, or one whose update has not yet touched
    it; while the count is odd the entries are being changed. *)
Definition winv (ws : wstate) : Prop :=
  let '(WS l todo n now next) := ws in
  l_version l = u32 n /\ fields_fit l /\ represents (apply_stores todo l) next
  /\ ((Z.even n = true /\ represents l now
       /\ (todo = [] \/ exists a body b, todo = SVersion a :: body ++ [SVersion b]
             /\ quiet_body body /\ u32 a = u32 (n + 1) /\ u32 b = u32 (n + 2)))
      \/ (Z.even n = false
          /\ exists body b, todo = body ++ [SVersion b] /\ quiet_body body /\ u32 b = u32 (n + 1))).

Lemma clear_quiet n i : quiet_body (clear_entries n i).
Proof. revert i. induction n; intros; cbn; repeat constructor. apply IHn. Qed.

Lemma op_stores_shape o l :
  exists body, op_stores o l = SVersion (l_version l + 1) :: body ++ [SVersion (l_version l + 2)]
               /\ quiet_body body.
Proof.
  destruct o as [uid flags|]; cbn [op_stores].
  - unfold cache_process_flags. eexists. split; [reflexivity|].
    destruct (slot _ _); repeat constructor.
  - eexists. split; [reflexivity|]. apply clear_quiet.
Qed.

Lemma fields_fit_store st l : fields_fit l -> fields_fit (apply_store st l).
Proof.
  intros H i. destruct (H i). destruct st as [v|k v|k v]; cbn; unfold fupd;
    repeat case_match; split; try done; auto with words.
Qed.

Lemma u32_add n k : u32 (u32 n + k) = u32 (n + k).
Proof. unfold uwrap. by rewrite Z.add_mod_idemp_l by lia. Qed.

Lemma even_succ n : Z.even (n + 1) = negb (Z.even n).
Proof. rewrite Z.even_add. by destruct (Z.even n). Qed.

Lemma winv_step ws ws' : writer_step ws ws' -> winv ws -> winv ws'.
Proof.
  intros Hs. destruct Hs as [ws|l n now next o Ho|l st rest n now next]; [done| |].
  - cbn [winv]. intros (Hv & Hf & Hr & [(He & Hn & _)|(He & body & b & Hb & _)]).
    + split; [done|]. split; [done|]. split; [by apply represents_op|].
      left. split; [done|]. split; [done|]. right.
      destruct (op_stores_shape o l) as (body & -> & Hq).
      exists (l_version l + 1), body, (l_version l + 2). rewrite Hv, !u32_add. done.
    + by destruct body.
  - cbn [winv]. intros (Hv & Hf & Hr & [(He & Hn & Ht)|(He & body & b & Hb & Hq & Hu)]).
    + destruct Ht as [|(a & body & b & Ht & Hq & Ha & Hb)]; [done|]. simplify_eq.
      cbn [is_version]. split; [exact Ha|].
      split; [by apply fields_fit_store|]. split; [exact Hr|]. right.
      split; [by rewrite even_succ, He|]. exists body, b. split; [done|]. split; [done|].
      rewrite Hb. f_equal. lia.
    + destruct body as [|st' body]; cbn in Hb; simplify_eq.
      * cbn [is_version]. split; [exact Hu|]. split; [by apply fields_fit_store|].
        split; [exact Hr|]. left. split; [by rewrite even_succ, He|]. split; [exact Hr|by left].
      * apply Forall_cons in Hq as [Hst Hq]. rewrite Hst.
        split; [by destruct st'; [discriminate Hst| |]|]. split; [by apply fields_fit_store|].
        split; [exact Hr|]. right. split; [done|]. by exists body, b.
Qed.

(** The entries change only while the count is odd. *)
Lemma step_keeps_entries ws ws' :
  writer_step ws ws' -> winv ws -> ws_count ws <= ws_count ws'
  /\ (Z.even (ws_count ws) = true -> l_uid (ws_layout ws') = l_uid (ws_layout ws)
       /\ l_flags (ws_layout ws') = l_flags (ws_layout ws)).
Proof.
  intros Hs. destruct Hs as [ws|l n now next o Ho|l st rest n now next]; cbn;
    [intros _; split; [lia|done]..|].
  intros (_ & _ & _ & H). split; [case_match; lia|]. intros He.
  destruct H as [(_ & _ & [|(a & body & b & ? & _)])|(He' & _)]; [done| |congruence].
  by simplify_eq.
Qed.

Definition ws_init : wstate := WS initialize_shared_memory [] 0 ∅ ∅.

Definition writer_run (trace : nat -> wstate) : Prop :=
  trace 0%nat = ws_init /\ forall t, writer_step (trace t) (trace (S t)).

Lemma winv_init : winv ws_init.
Proof.
  assert (Hr : represents initialize_shared_memory ∅).
  { split; [by intros i _ []|]. intros uid Hu. rewrite lookup_empty.
    apply table_lookup_absent. cbn. congruence. }
  split; [done|]. split; [by intros i|]. split; [exact Hr|]. left.
  split; [done|]. split; [exact Hr|by left].
Qed.

(** ** The reader *)

Section Reader.
Context (trace : nat -> wstate) (Hrun : writer_run trace).
Context (base : Z) (delay : nat -> nat).

Lemma run_winv t : winv (trace t).
Proof.
  destruct Hrun as [H0 Hs]. induction t as [|t IH]; [rewrite H0; exact winv_init|].
  by eapply winv_step.
Qed.

Lemma run_count_mono t d : ws_count (trace t) <= ws_count (trace (t + d)%nat).
Proof.
  destruct Hrun as [_ Hs]. induction d as [|d IH]; [rewrite Nat.add_0_r; lia|].
  rewrite Nat.add_succ_r.
  destruct (step_keeps_entries _ _ (Hs (t + d)%nat) (run_winv _)) as [H _]. lia.
Qed.

(** As long as the count stays at an even number, so do the entries. *)
Lemma run_entries t d :
  Z.even (ws_count (trace t)) = true ->
  ws_count (trace (t + d)%nat) = ws_count (trace t) ->
  l_uid (ws_layout (trace (t + d)%nat)) = l_uid (ws_layout (trace t))
  /\ l_flags (ws_layout (trace (t + d)%nat)) = l_flags (ws_layout (trace t)).
Proof.
  destruct Hrun as [_ Hs]. intros He. induction d as [|d IH]; [by rewrite Nat.add_0_r|].
  rewrite Nat.add_succ_r. intros Hc.
  destruct (step_keeps_entries _ _ (Hs (t + d)%nat) (run_winv _)) as [Hle Hk].
  pose proof (run_count_mono t d). assert (Hd : ws_count (trace (t + d)%nat) = ws_count (trace t)) by lia.
  rewrite Hd in Hk. destruct (Hk He) as [-> ->]. by apply IH.
Qed.

(** A load at address [a] of the mapping. *)
Definition peek (l : layout) (a : Z) : Z :=
  if a =? base then l_version l
  else let o := a - base - 4 in
       if o mod 8 =? 0 then l_uid l (o / 8) else l_flags l (o / 8).

(** The environment of the reader: a point in time and the number of the next
    load. The writer makes any number of steps before each load. *)
#[local] Instance shm_world : World (nat * nat) := fun c '(t, k) =>
  match c with
  | CLoad32 a =>
      let t' := (t + delay k)%nat in
      (Reply (peek (ws_layout (trace t')) a) 0 [] [], (t', S k))
  | _ => (Reply 0 0 [] [], (t, k))
  end.

Definition now_ (s : st (nat * nat) daemon_state) : nat := fst (st_w s).

Lemma peek_uid l i : 0 <= i -> peek l (shm_uid base i) = l_uid l i.
Proof.
  intros. unfold peek, shm_uid. destruct (Z.eqb_spec (base + 4 + 8 * i) base); [lia|].
  replace (base + 4 + 8 * i - base - 4) with (i * 8) by lia.
  by rewrite Z.mod_mul, Z.div_mul by lia.
Qed.

Lemma peek_flags l i : 0 <= i -> peek l (shm_flags base i) = l_flags l i.
Proof.
  intros. unfold peek, shm_flags. destruct (Z.eqb_spec (base + 4 + 8 * i + 4) base); [lia|].
  replace (base + 4 + 8 * i + 4 - base - 4) with (4 + i * 8) by lia.
  by rewrite Z.mod_add, Z.div_add by lia.
Qed.

Lemma load32_run a s o s' :
  load32 a s = (o, s') ->
  exists d, now_ s' = (now_ s + d)%nat /\ o = Ret (u32 (peek (ws_layout (trace (now_ s'))) a)).
Proof.
  unfold load32, mbind, M_bind, syscall, sys, shm_world, mret, M_ret, now_.
  destruct s as [[t k] log e d]; cbn. intros ?; simplify_eq; cbn. eauto.
Qed.

(** The entries hold [l]'s contents from [s] to [s']. *)
Definition frozen (l : layout) (s s' : st (nat * nat) daemon_state) : Prop :=
  forall t, (now_ s <= t <= now_ s')%nat ->
    l_uid (ws_layout (trace t)) = l_uid l /\ l_flags (ws_layout (trace t)) = l_flags l.

Lemma shm_probe_mono n uid i start s o s' :
  shm_probe n base uid i start s = (o, s') -> (now_ s <= now_ s')%nat.
Proof.
  revert i s. induction n as [|n IH]; intros i s; cbn [shm_probe].
  { by intros [= _ <-]. }
  unfold mbind at 1, M_bind at 1. destruct (load32 _ s) as [o1 s1] eqn:E1.
  apply load32_run in E1 as (d & Hd & ->). repeat case_match; intros E.
  - unfold mbind, M_bind in E. destruct (load32 _ s1) as [o2 s2] eqn:E2.
    apply load32_run in E2 as (d2 & Hd2 & ->). injection E as _ <-. lia.
  - injection E as _ <-. lia.
  - injection E as _ <-. lia.
  - apply IH in E. lia.
Qed.

Definition probe_result (l : layout) (uid : Z) (o : option Z) : option Z :=
  match o with
  | Some j => if l_uid l j =? uid then Some (l_flags l j) else None
  | None => None
  end.

Lemma table_lookup_probe l uid :
  table_lookup l uid
  = probe_result l uid (free_slot SLOTS (l_uid l) uid (Z.land uid MASK) (Z.land uid MASK)).
Proof. rewrite <- slot_unfold. reflexivity. Qed.

Lemma shm_probe_run n uid i start s o s' l :
  in_table i -> uid <> UINT32_MAX -> fields_fit l -> frozen l s s' ->
  shm_probe n base uid i start s = (Ret o, s') ->
  o = probe_result l uid (free_slot n (l_uid l) uid i start).
Proof.
  intros Hi Hu Hf. revert i s Hi. induction n as [|n IH]; intros i s Hi Hz; cbn [shm_probe]; [done|].
  unfold mbind at 1, M_bind at 1. destruct (load32 _ s) as [o1 s1] eqn:E1.
  apply load32_run in E1 as (d & Hd & ->). rewrite peek_uid by apply Hi.
  assert (Hfz : (now_ s1 <= now_ s')%nat ->
    u32 (l_uid (ws_layout (trace (now_ s1))) i) = l_uid l i
    /\ l_uid (ws_layout (trace (now_ s1))) i = l_uid l i).
  { intros Hle. destruct (Hz (now_ s1)) as [-> _]; [lia|]. split; [|done].
    apply uwrap_id, Hf. }
  cbn [free_slot]. intros E.
  destruct (u32 (l_uid (ws_layout (trace (now_ s1))) i) =? uid) eqn:C1.
  { unfold mbind, M_bind in E. destruct (load32 _ s1) as [o2 s2] eqn:E2.
    apply load32_run in E2 as (d2 & Hd2 & ->). rewrite peek_flags in E by apply Hi.
    injection E as <- <-. destruct Hfz as [Hf1 _]; [lia|]. rewrite Hf1 in C1.
    rewrite C1, orb_true_r. cbn [probe_result]. rewrite C1.
    destruct (Hz (now_ s2)) as [_ ->]; [lia|]. f_equal. apply uwrap_id, Hf. }
  destruct (u32 (l_uid (ws_layout (trace (now_ s1))) i) =? UINT32_MAX) eqn:C2.
  { injection E as <- <-. destruct Hfz as [Hf1 _]; [lia|]. rewrite Hf1 in C1, C2.
    rewrite C2. cbn [orb probe_result]. by rewrite C1. }
  destruct (Z.land (i + 1) MASK =? start) eqn:C3.
  { injection E as <- <-. destruct Hfz as [Hf1 _]; [lia|]. rewrite Hf1 in C1, C2.
    by rewrite C1, C2. }
  pose proof (shm_probe_mono _ _ _ _ _ _ _ E).
  destruct Hfz as [Hf1 _]; [lia|]. rewrite Hf1 in C1, C2. rewrite C1, C2. cbn [orb].
  eapply IH; [apply in_table_mask| |exact E]. intros t Ht. apply Hz. lia.
Qed.

Lemma run_version t : l_version (ws_layout (trace t)) = u32 (ws_count (trace t)).
Proof. pose proof (run_winv t) as H. destruct (trace t). apply H. Qed.

Lemma run_fields t : fields_fit (ws_layout (trace t)).
Proof. pose proof (run_winv t) as H. destruct (trace t). apply H. Qed.

Lemma run_represents t :
  Z.even (ws_count (trace t)) = true -> represents (ws_layout (trace t)) (ws_now (trace t)).
Proof.
  pose proof (run_winv t) as H. destruct (trace t) as [l todo n now next]. cbn in *.
  intros He. destruct H as (_ & _ & _ & [(_ & Hr & _)|(He' & _)]); [done|congruence].
Qed.

Lemma u32_even n : (Z.land (u32 n) 1 =? 0) = Z.even n.
Proof.
  change 1 with (Z.ones 1). rewrite Z.land_ones by lia. unfold uwrap. change (2 ^ 1) with 2.
  rewrite Z.mod_mod_divide by (by exists (2 ^ 31)).
  rewrite Zmod_even. by destruct (Z.even n).
Qed.

Lemma u32_same a b : u32 a = u32 b -> a <= b -> b - a < 2 ^ 32 -> a = b.
Proof.
  unfold uwrap. intros H1 H2 H3.
  pose proof (Z.div_mod a (2 ^ 32)). pose proof (Z.div_mod b (2 ^ 32)). lia.
Qed.

(** The lookup with any number of probes: it saw one state of the table. *)
Lemma shm_search_run n uid flags s s' :
  uid <> UINT32_MAX ->
  shm_search n base uid s = (Ret (Some flags), s') ->
  ws_count (trace (now_ s')) - ws_count (trace (now_ s)) < 2 ^ 32 ->
  exists t, (now_ s <= t <= now_ s')%nat /\ Z.even (ws_count (trace t)) = true
    /\ probe_result (ws_layout (trace t)) uid
         (free_slot n (l_uid (ws_layout (trace t))) uid (Z.land uid MASK) (Z.land uid MASK))
       = Some flags.
Proof.
  intros Hu E Hlim. unfold shm_search in E. unfold mbind at 1, M_bind at 1 in E.
  destruct (load32 _ s) as [o1 s1] eqn:E1. apply load32_run in E1 as (d1 & Hd1 & ->).
  unfold peek, shm_version in E. rewrite Z.eqb_refl, run_version in E.
  assert (Hid : forall n, u32 (u32 n) = u32 n) by (intros; apply uwrap_id, uwrap_fits; lia).
  rewrite Hid, u32_even in E. destruct (Z.even (ws_count (trace (now_ s1)))) eqn:He; [|done].
  unfold mbind at 1, M_bind at 1 in E. cbn zeta in E.
  destruct (shm_probe _ _ _ _ _ s1) as [o2 s2] eqn:E2.
  pose proof (shm_probe_mono _ _ _ _ _ _ _ E2) as Hm2.
  destruct o2 as [[g|]| | |]; try done. unfold mbind, M_bind in E.
  destruct (load32 _ s2) as [o3 s3] eqn:E3. apply load32_run in E3 as (d3 & Hd3 & ->).
  unfold peek in E. rewrite Z.eqb_refl, run_version, Hid in E. unfold mret, M_ret in E.
  destruct (Z.eqb_spec (u32 (ws_count (trace (now_ s1)))) (u32 (ws_count (trace (now_ s3)))))
    as [Hv|]; [|done]. injection E as <- <-.
  assert (Hc : ws_count (trace (now_ s1)) = ws_count (trace (now_ s3))).
  { pose proof (run_count_mono (now_ s1) (now_ s3 - now_ s1)) as K1.
    pose proof (run_count_mono (now_ s) d1) as K2.
    replace (now_ s1 + (now_ s3 - now_ s1))%nat with (now_ s3) in K1 by lia.
    rewrite <- Hd1 in K2. apply u32_same; [done|lia|lia]. }
  assert (Hz : frozen (ws_layout (trace (now_ s1))) s1 s2).
  { intros t Ht. pose proof (run_count_mono (now_ s1) (t - now_ s1)) as K1.
    pose proof (run_count_mono t (now_ s3 - t)) as K2.
    pose proof (run_entries (now_ s1) (t - now_ s1) He) as K3.
    replace (now_ s1 + (t - now_ s1))%nat with t in * by lia.
    replace (t + (now_ s3 - t))%nat with (now_ s3) in K2 by lia. apply K3. lia. }
  eapply shm_probe_run in E2; [|apply in_table_mask|exact Hu|apply run_fields|exact Hz].
  exists (now_ s1). split; [lia|].
  split; [exact He|]. by rewrite <- E2.
Qed.

(** C1. The lock-free lookup is linearizable: whatever the daemon's updates and
    flushes do between its loads, flags answered from the shared memory are
    what the cache held for that uid at one moment during the call. (A call
    must not be overtaken by 2^31 updates, which would wrap the version
    around; uid 0xffffffff is the free-slot marker.) *)
Theorem shm_lookup_linearizable uid flags s s' :
  uid <> UINT32_MAX ->
  shm_lookup base uid s = (Ret (Some flags), s') ->
  ws_count (trace (now_ s')) - ws_count (trace (now_ s)) < 2 ^ 32 ->
  exists t, (now_ s <= t <= now_ s')%nat /\ ws_now (trace t) !! uid = Some flags.
Proof.
  intros Hu E Hlim. apply shm_search_run in E as (t & Ht & He & Hp); [|done|done].
  exists t. split; [done|]. destruct (run_represents _ He) as [_ Hr].
  by rewrite <- Hr, table_lookup_probe by done.
Qed.
End Reader.

Lemma next_index start k :
  in_table start -> Z.land (Z.land (start + k) MASK + 1) MASK = Z.land (start + (k + 1)) MASK.
Proof. intros _. rewrite !land_mask, Z.add_mod_idemp_l by (by vm_compute). f_equal. lia. Qed.

Lemma shm_probe_returns {W} `{!World W} n base uid start k (s : st W daemon_state) :
  in_table start -> 0 <= k -> Z.of_nat n + k = SHM_HASH_MAP_SIZE -> (0 < n)%nat ->
  wp (shm_probe n base uid (Z.land (start + k) MASK) start) (fun o _ => returns o) s.
Proof.
  intros Hs. revert k s. induction n as [|n IH]; intros k s Hk Hn Hpos; [lia|].
  cbn [shm_probe]. unfold load32. wrun. apply wp_syscall. intros. wrun.
  destruct (_ =? uid).
  { wrun. apply wp_syscall. intros. wrun. by eexists. }
  destruct (_ =? UINT32_MAX); [wrun; by eexists|].
  rewrite next_index by done.
  destruct (Z.eqb_spec (Z.land (start + (k + 1)) MASK) start) as [|Hne]; [wrun; by eexists|].
  apply IH; [lia|lia|]. destruct n; [|lia]. exfalso. apply Hne. rewrite land_mask.
  replace (start + (k + 1)) with (start + 1 * SHM_HASH_MAP_SIZE) by lia.
  rewrite Z.mod_add by (by vm_compute). by apply Z.mod_small.
Qed.

Lemma shm_search_returns {W} `{!World W} n base uid (s : st W daemon_state) :
  Z.of_nat n = SHM_HASH_MAP_SIZE -> wp (shm_search n base uid) (fun o _ => returns o) s.
Proof.
  intros Hsz. unfold shm_search, load32. wrun. apply wp_syscall. intros. wrun.
  destruct (_ =? 0); [|wrun; by eexists]. wrun. rewrite <- (Z.add_0_r (Z.land uid MASK)) at 1.
  rewrite <- (Z.mod_small (Z.land uid MASK + 0) SHM_HASH_MAP_SIZE), <- land_mask
    by (rewrite Z.add_0_r; apply in_table_mask).
  eapply wp_mono; [apply shm_probe_returns; [apply in_table_mask|lia|lia|]|].
  { apply Nat2Z.inj_lt. by rewrite Hsz. }
  intros o s' [a ->]. wrun. destruct a; wrun; [|by eexists].
  apply wp_syscall. intros. wrun. by eexists.
Qed.

(** C39. The probe of the table ends: at most 8192 entries are looked at, in
    every environment and for every contents of the table, and the lookup
    returns. *)
Theorem shm_lookup_terminates {W} `{!World W} base uid (s : st W daemon_state) :
  exists o s', shm_lookup base uid s = (Ret o, s').
Proof.
  apply wp_total, shm_search_returns, slots_size.
Qed.

(** ** A run with one update, and a lookup during which it finishes *)

Definition l_odd : layout := apply_store (SVersion 1) initialize_shared_memory.
Definition l_uid_set : layout := apply_store (SUid 10 10) l_odd.
Definition l_flags_set : layout := apply_store (SFlags 10 5) l_uid_set.
Definition l_done : layout := apply_store (SVersion 2) l_flags_set.

Definition one_update (t : nat) : wstate :=
  let m := <[10 := 5]> (∅ : gmap Z Z) in
  match t with
  | 0%nat => ws_init
  | 1%nat => WS initialize_shared_memory [SVersion 1; SUid 10 10; SFlags 10 5; SVersion 2] 0 ∅ m
  | 2%nat => WS l_odd [SUid 10 10; SFlags 10 5; SVersion 2] 1 ∅ m
  | 3%nat => WS l_uid_set [SFlags 10 5; SVersion 2] 1 ∅ m
  | 4%nat => WS l_flags_set [SVersion 2] 1 ∅ m
  | _ => WS l_done [] 2 m m
  end.

Lemma slot_first uids uid :
  uids (Z.land uid MASK) = UINT32_MAX -> slot uids uid = Some (Z.land uid MASK).
Proof.
  intros H. rewrite slot_unfold. change SLOTS with (S (Z.to_nat MASK)). cbn [free_slot].
  by rewrite H.
Qed.

Lemma one_update_run : writer_run one_update.
Proof.
  split; [done|]. intros [|[|[|[|[|t]]]]]; cbn [one_update]; try apply W_store; [|apply W_idle].
  unfold ws_init.
  replace [SVersion 1; SUid 10 10; SFlags 10 5; SVersion 2]
    with (op_stores (OCache 10 5) initialize_shared_memory);
    [|cbn [op_stores]; unfold cache_process_flags; by rewrite slot_first].
  replace (<[10 := 5]> (∅ : gmap Z Z)) with (op_model (OCache 10 5) initialize_shared_memory ∅);
    [|cbn [op_model]; by rewrite slot_first].
  by apply W_begin.
Qed.

Definition reader_start : st (nat * nat) daemon_state :=
  St (0%nat, 0%nat) [] 0 (DaemonSt [] 0x1000 true).

Lemma shm_lookup_linearizable_witness :
  exists t : nat, ws_now (one_update t) !! 10 = Some 5.
Proof.
  destruct (shm_lookup_linearizable one_update one_update_run 0x1000 (fun _ => 6%nat) 10 5
              reader_start
              (@shm_lookup _ (shm_world one_update 0x1000 (fun _ => 6%nat)) 0x1000 10 reader_start).2)
    as (t & _ & Ht); [vm_compute; discriminate|vm_compute; reflexivity|vm_compute; reflexivity|].
  exists t. exact Ht.
Defined.
