(* ===== verification/ProcUtils.v ===== *)
(** Process inspection and remote calls of the tracer and the monitor
    (loader/src/ptracer/utils.cpp, utils.hpp), for the 64-bit targets.

    A register file is the array of the words of [user_regs_struct]; [arch]
    says where each register is. Output parameters passed by reference are
    returned. *)
From S2P Require Import Prelude Sys Text.
Open Scope Z_scope.

Inductive arch := AArch64 | X86_64 | RiscV64.

Abbreviation regs := (list Z).

(** [REG_SP], [REG_IP], [REG_RET], [REG_SYSNR] and the link register. *)
Definition REG_SP (a : arch) : nat := match a with AArch64 => 31 | X86_64 => 19 | RiscV64 => 2 end.
Definition REG_IP (a : arch) : nat := match a with AArch64 => 32 | X86_64 => 16 | RiscV64 => 0 end.
Definition REG_RET (a : arch) : nat := match a with AArch64 => 0 | X86_64 => 10 | RiscV64 => 10 end.
Definition REG_SYSNR (a : arch) : nat := match a with AArch64 => 8 | X86_64 => 15 | RiscV64 => 17 end.
Definition REG_LINK (a : arch) : option nat :=
  match a with AArch64 => Some 30%nat | X86_64 => None | RiscV64 => Some 1%nat end.

(** The registers that carry the first arguments, in order. *)
Definition arg_regs (a : arch) : list nat :=
  match a with
  | AArch64 => [0; 1; 2; 3; 4; 5; 6; 7]%nat
  | X86_64 => [14; 13; 12; 11; 9; 8]%nat
  | RiscV64 => [10; 11; 12; 13; 14; 15; 16; 17]%nat
  end.

Definition PTRACE_CONT : Z := 7.
Definition PTRACE_GETREGS : Z := 12.
Definition PTRACE_SETREGS : Z := 13.
Definition PTRACE_DETACH : Z := 17.
Definition PTRACE_SETOPTIONS : Z := 0x4200.
Definition PTRACE_GETEVENTMSG : Z := 0x4201.
Definition PTRACE_GETREGSET : Z := 0x4204.
Definition PTRACE_SETREGSET : Z := 0x4205.
Definition PTRACE_SEIZE : Z := 0x4206.
Definition PTRACE_INTERRUPT : Z := 0x4207.
Definition PTRACE_O_TRACEFORK : Z := 2.
Definition PTRACE_O_TRACEEXEC : Z := 16.
Definition PTRACE_EVENT_FORK : Z := 1.
Definition PTRACE_EVENT_EXEC : Z := 4.
Definition PTRACE_EVENT_SECCOMP : Z := 7.
Definition PTRACE_EVENT_STOP : Z := 128.
Definition NT_PRSTATUS : Z := 1.
Definition NT_ARM_SYSTEM_CALL : Z := 0x404.
Definition WALL : Z := 0x40000000.
Definition SIGKILL : Z := 9.
Definition SIGCHLD : Z := 17.
Definition SIGCONT : Z := 18.
Definition SIGSTOP : Z := 19.
Definition SIGTSTP : Z := 20.
Definition SIGTTIN : Z := 21.
Definition SIGTTOU : Z := 22.
Definition SIGTRAP : Z := 5.
Definition EINTR : Z := 4.

(** ** Wait statuses *)

Definition WTERMSIG (status : Z) : Z := Z.land status 0x7f.
Definition WEXITSTATUS (status : Z) : Z := Z.shiftr (Z.land status 0xff00) 8.
Definition WSTOPSIG (status : Z) : Z := WEXITSTATUS status.
Definition WIFEXITED (status : Z) : bool := WTERMSIG status =? 0.
Definition WIFSTOPPED (status : Z) : bool := WTERMSIG status =? 0x7f.
Definition WIFSIGNALED (status : Z) : bool := 2 <=? WTERMSIG (status + 1).
Definition WPTEVENT (status : Z) : Z := Z.shiftr status 16.

(** [parse_ptrace_event] of utils.hpp. *)
Definition parse_ptrace_event (status : Z) : list Z :=
  let e := Z.shiftr status 16 in
  if e =? 1 then B "PTRACE_EVENT_FORK" else if e =? 2 then B "PTRACE_EVENT_VFORK"
  else if e =? 3 then B "PTRACE_EVENT_CLONE" else if e =? 4 then B "PTRACE_EVENT_EXEC"
  else if e =? 5 then B "PTRACE_EVENT_VFORK_DONE" else if e =? 6 then B "PTRACE_EVENT_EXIT"
  else if e =? 7 then B "PTRACE_EVENT_SECCOMP" else if e =? 128 then B "PTRACE_EVENT_STOP"
  else B "(no event)".

(** [sys_signame], the C library's table of signal names, is a parameter. *)
Definition sigabbrev_np (sys_signame : Z -> list Z) (sig : Z) : list Z :=
  if (0 <? sig) && (sig <? 65) then sys_signame sig else B "(unknown)".

Definition parse_status (sys_signame : Z -> list Z) (status : Z) : list Z :=
  let snprintf n s := take (n - 1) s in
  let head := snprintf 24%nat (B "0x" ++ to_hex (u32 status) ++ B " ") in
  head ++
  (if WIFEXITED status then
     snprintf 96%nat (B "exited with " ++ to_string (WEXITSTATUS status))
   else if WIFSIGNALED status then
     snprintf 96%nat (B "signaled with " ++ sigabbrev_np sys_signame (WTERMSIG status)
                    ++ B "(" ++ to_string (WTERMSIG status) ++ B ")")
   else if WIFSTOPPED status then
     snprintf 96%nat (B "stopped by signal=" ++ sigabbrev_np sys_signame (WSTOPSIG status)
                    ++ B "(" ++ to_string (WSTOPSIG status) ++ B "),event="
                    ++ parse_ptrace_event status)
   else B "unknown").

(** ** Memory maps *)

Definition PROT_READ : Z := 1.
Definition PROT_WRITE : Z := 2.
Definition PROT_EXEC : Z := 4.

Record MapInfo := Map_mk {
  mi_start : Z; mi_end : Z; mi_perms : Z; mi_private : bool; mi_offset : Z;
  mi_dev : Z; mi_inode : Z; mi_path : list Z }.

(** [makedev] of bionic. *)
Definition makedev (major minor : Z) : Z :=
  Z.lor (Z.lor (Z.shiftl (Z.land major 0xfffff000) 32) (Z.shiftl (Z.land major 0xfff) 8))
        (Z.lor (Z.shiftl (Z.land minor 0xffffff00) 12) (Z.land minor 0xff)).

(** One line: "%lx-%lx %4s %lx %x:%x %lu %n"; [None] unless all seven
    conversions succeed. *)
Definition scan_map_line (line : list Z) : option MapInfo :=
  '(start, s) ← scan_lx line;
  s ← scan_char 45 s;
  '(end_, s) ← scan_lx s;
  '(perm, s) ← scan_word 4 s;
  '(off, s) ← scan_lx s;
  '(dev_major, s) ← scan_x s;
  s ← scan_char 58 s;
  '(dev_minor, s) ← scan_x s;
  '(inode, s) ← scan_lu s;
  let s := drop_while isspace (drop_while isspace s) in
  let path := take_while (fun c => negb (c =? NL)) s in
  let at_ i := nth i perm 0 in
  let perms := Z.lor (Z.lor (if at_ 0%nat =? 114 then PROT_READ else 0)
                            (if at_ 1%nat =? 119 then PROT_WRITE else 0))
                     (if at_ 2%nat =? 120 then PROT_EXEC else 0) in
  Some (Map_mk start end_ perms (at_ 3%nat =? 112) off (makedev dev_major dev_minor) inode path).

(** The lines that parse, in order. A line is read as a C string. *)
Definition Scan_lines (contents : list Z) : list MapInfo :=
  omap (fun l => scan_map_line (c_str l)) (getlines contents).

Definition get_addr_mem_region (info : list MapInfo) (addr : Z) : list Z :=
  match list_find (fun m => (mi_start m <= addr /\ addr < mi_end m)%Z) info with
  | Some (_, m) =>
      mi_path m ++ B " " ++ [if (mi_perms m &? PROT_READ) then 114 else 45]
      ++ [if (mi_perms m &? PROT_WRITE) then 119 else 45]
      ++ [if (mi_perms m &? PROT_EXEC) then 120 else 45]
  | None => B "<unknown>"
  end.

(** Null is 0. *)
Fixpoint find_module_return_addr (info : list MapInfo) (suffix : list Z) : Z :=
  match info with
  | [] => 0
  | m :: info' =>
      if (Z.land (mi_perms m) PROT_EXEC =? 0) && ends_with (mi_path m) suffix then mi_start m
      else find_module_return_addr info' suffix
  end.

Fixpoint find_module_base (info : list MapInfo) (suffix : list Z) : Z :=
  match info with
  | [] => 0
  | m :: info' =>
      if (mi_offset m =? 0) && (beq (mi_path m) suffix || ends_with (mi_path m) suffix)
      then mi_start m
      else find_module_base info' suffix
  end.

(** ** Symbols of an ELF file image *)

(** An access to [file.data()]: outside the vector it is undefined. *)
Definition rd (file : list Z) (off : Z) (n : nat) : outcome Z :=
  if (0 <=? off) && (off + Z.of_nat n <=? Z.of_nat (length file))
  then Ret (le_Z (take n (drop (Z.to_nat off) file))) else Crash.

(** The C string at [off]; it must end inside the vector. *)
Definition rd_str (file : list Z) (off : Z) : outcome (list Z) :=
  if (0 <=? off) && (off <? Z.of_nat (length file)) && contains (drop (Z.to_nat off) file) [0]
  then Ret (c_str (drop (Z.to_nat off) file)) else Crash.

(** [p_vaddr - p_offset] of the first PT_LOAD, 0 if there is none. *)
Fixpoint file_load_bias (n : nat) (file : list Z) (at_ : Z) : outcome Z :=
  match n with
  | O => Ret 0
  | S n' =>
      p_type ← rd file at_ 4;
      if p_type =? 1 then
        p_vaddr ← rd file (at_ + 16) 8;
        p_offset ← rd file (at_ + 8) 8;
        Ret (u64 (p_vaddr - p_offset))
      else file_load_bias n' file (at_ + 56)
  end.

(** The symbols from [at_] on: the value of the first one called [func]. *)
Fixpoint file_find_symbol (n : nat) (file : list Z) (at_ strings strsize : Z) (func : list Z)
  : outcome (option Z) :=
  match n with
  | O => Ret None
  | S n' =>
      st_name ← rd file at_ 4;
      if strsize <=? st_name then file_find_symbol n' file (at_ + 24) strings strsize func
      else
        name ← rd_str file (strings + st_name);
        if beq func name then v ← rd file (at_ + 8) 8; Ret (Some v)
        else file_find_symbol n' file (at_ + 24) strings strsize func
  end.

(** The sections from number [i] on; every one is an entry of the table at [shoff]. *)
Fixpoint file_find_section (n : nat) (i : Z) (file : list Z) (shoff shnum bias : Z) (func : list Z)
  : outcome Z :=
  match n with
  | O => Ret 0
  | S n' =>
      let sh := shoff + 64 * i in
      let next := file_find_section n' (i + 1) file shoff shnum bias func in
      let size := Z.of_nat (length file) in
      sh_type ← rd file (sh + 4) 4;
      if negb (sh_type =? 11) && negb (sh_type =? 2) then next
      else
        sh_link ← rd file (sh + 40) 4;
        sh_entsize ← rd file (sh + 56) 8;
        if (shnum <=? sh_link) || (sh_entsize =? 0) then next
        else
          let strtab := shoff + 64 * sh_link in
          sh_offset ← rd file (sh + 24) 8;
          sh_size ← rd file (sh + 32) 8;
          str_offset ← rd file (strtab + 24) 8;
          str_size ← rd file (strtab + 32) 8;
          if (size <? u64 (sh_offset + sh_size)) || (size <? u64 (str_offset + str_size)) then next
          else
            found ← file_find_symbol (Z.to_nat (sh_size / sh_entsize)) file sh_offset
                      str_offset str_size func;
            match found with
            | Some v => Ret (u64 (v - bias))
            | None => next
            end
  end.

(** What [find_symbol_offset_from_file] does with the contents it read. *)
Definition symbol_offset_in_image (file : list Z) (func : list Z) : outcome Z :=
  let size := Z.of_nat (length file) in
  if size <? 64 then Ret 0
  else if negb (starts_with file [0x7f; 69; 76; 70]) then Ret 0
  else
    e_phoff ← rd file 32 8;
    e_shoff ← rd file 40 8;
    e_phnum ← rd file 56 2;
    e_shnum ← rd file 60 2;
    if (size <? u64 (e_phoff + e_phnum * 56)) || (size <? u64 (e_shoff + e_shnum * 64)) then Ret 0
    else
      load_bias ← file_load_bias (Z.to_nat e_phnum) file e_phoff;
      file_find_section (Z.to_nat e_shnum) 0 file e_shoff e_shnum load_bias func.

Section Proc.
Context {W S : Type} `{!World W} (fuel : nat) (A : arch).
Abbreviation P := (M W S).

Definition Scan (pid : list Z) : P (list MapInfo) :=
  r ← syscall (CFile (B "/proc/" ++ pid ++ B "/maps"));
  if r_ret r =? 0 then mret [] else mret (Scan_lines (r_data r)).

Definition write_proc (pid remote_addr : Z) (buf : list Z) : P Z :=
  r ← syscall (CVmWrite pid remote_addr buf); mret (r_ret r).

(** The number of bytes read and the bytes. *)
Definition read_proc (pid remote_addr len : Z) : P (Z * list Z) :=
  r ← syscall (CVmRead pid remote_addr len); mret (r_ret r, r_data r).

(** [None]: the request failed and the caller's registers are unchanged. *)
Definition get_regs (pid : Z) : P (option regs) :=
  r ← syscall (match A with
               | X86_64 => CPtraceRegs PTRACE_GETREGS pid 0 []
               | _ => CPtraceRegs PTRACE_GETREGSET pid NT_PRSTATUS []
               end);
  mret (if r_ret r =? -1 then None else Some (r_aux r)).

Definition set_regs (pid : Z) (rs : regs) : P bool :=
  r ← syscall (match A with
               | X86_64 => CPtraceRegs PTRACE_SETREGS pid 0 rs
               | _ => CPtraceRegs PTRACE_SETREGSET pid NT_PRSTATUS rs
               end);
  mret (negb (r_ret r =? -1)).

Definition reg (n : nat) (rs : regs) : Z := nth n rs 0.

Definition STACK_ALIGN_MASK : Z := 2 ^ 64 - 16.

Definition align_stack (rs : regs) (preserve : Z) : regs :=
  <[REG_SP A := Z.land (u64 (reg (REG_SP A) rs - preserve)) STACK_ALIGN_MASK]> rs.

(** The string's remote address (0 on failure) and the new registers. *)
Definition push_string (pid : Z) (rs : regs) (str : list Z) : P (Z * regs) :=
  let len := Z.of_nat (length str) + 1 in
  let rs := <[REG_SP A := u64 (reg (REG_SP A) rs - len)]> rs in
  let rs := align_stack rs 0 in
  let remote_addr := reg (REG_SP A) rs in
  n ← write_proc pid remote_addr (str ++ [0]);
  if negb (n =? len) then mret (0, rs) else mret (remote_addr, rs).

Definition tracee_skip_syscall (pid : Z) : P unit :=
  o ← get_regs pid;
  match o with
  | None => exit_ 1
  | Some rs =>
      ok ← set_regs pid (<[REG_SYSNR A := u64 (-1)]> rs);
      if negb ok then exit_ 1
      else match A with
           | AArch64 => do_ (CPtraceRegs PTRACE_SETREGSET pid NT_ARM_SYSTEM_CALL [u32 (-1)])
           | _ => mret tt
           end
  end.

(** The status of the stop that ended the wait. *)
Fixpoint wait_for_trace (n : nat) (pid flags : Z) : P Z :=
  match n with
  | O => out_of_fuel
  | Datatypes.S n' =>
      r ← syscall (CWaitpid pid flags);
      if r_ret r =? -1 then
        errno ← get_errno;
        if errno =? EINTR then wait_for_trace n' pid flags else exit_ 1
      else
        let status := nth 0 (r_aux r) 0 in
        if Z.shiftr status 8 =? Z.lor SIGTRAP (Z.shiftl PTRACE_EVENT_SECCOMP 8) then
          tracee_skip_syscall pid;;
          do_ (CPtrace PTRACE_CONT pid 0 0);;
          wait_for_trace n' pid flags
        else if negb (WIFSTOPPED status) then exit_ 1
        else mret status
  end.

Definition word_bytes (ws : list Z) : list Z := concat (map (le_bytes 8) ws).

(** The arguments beyond the ones in registers go to the stack in one block. *)
Definition push_stack_args (pid : Z) (rs : regs) (extra : list Z) : P (bool * regs) :=
  if bool_decide (extra = []) then mret (true, rs)
  else
    let size := 8 * Z.of_nat (length extra) in
    let rs := <[REG_SP A := u64 (reg (REG_SP A) rs - size)]> rs in
    n ← write_proc pid (reg (REG_SP A) rs) (word_bytes extra);
    mret (n =? size, rs).

(** x86-64 pushes the return address; the others have a link register. *)
Definition set_return_addr (pid : Z) (rs : regs) (return_addr : Z) : P (bool * regs) :=
  match REG_LINK A with
  | Some lr => mret (true, <[lr := return_addr]> rs)
  | None =>
      let rs := <[REG_SP A := u64 (reg (REG_SP A) rs - 8)]> rs in
      n ← write_proc pid (reg (REG_SP A) rs) (le_bytes 8 return_addr);
      mret (n =? 8, rs)
  end.

Fixpoint set_arg_regs (rs : regs) (where_ : list nat) (args : list Z) : regs :=
  match where_, args with
  | n :: where_', a :: args' => set_arg_regs (<[n := u64 a]> rs) where_' args'
  | _, _ => rs
  end.

(** The result, [*ok] and the registers passed by reference. *)
Definition remote_call (pid : Z) (rs : regs) (func_addr return_addr : Z) (args : list Z)
  : P (Z * bool * regs) :=
  let rs := align_stack rs 0 in
  let rs := set_arg_regs rs (arg_regs A) args in
  '(ok, rs) ← push_stack_args pid rs (drop (length (arg_regs A)) args);
  if negb ok then mret (0, false, rs)
  else
    '(ok, rs) ← set_return_addr pid rs return_addr;
    if negb ok then mret (0, false, rs)
    else
      let rs := <[REG_IP A := func_addr]> rs in
      ok ← set_regs pid rs;
      if negb ok then mret (0, false, rs)
      else
        do_ (CPtrace PTRACE_CONT pid 0 0);;
        status ← wait_for_trace fuel pid WALL;
        o ← get_regs pid;
        match o with
        | None => mret (0, false, rs)
        | Some rs =>
            if WIFSTOPPED status && (reg (REG_IP A) rs =? return_addr)
            then mret (reg (REG_RET A) rs, true, rs)
            else mret (0, false, rs)
        end.

Definition RTLD_NOW : Z := 2.

Definition find_func_addr_from_loaded_module (local_info remote_info : list MapInfo)
  (module func : list Z) : P Z :=
  r ← syscall (CDlopen module RTLD_NOW);
  let lib := r_ret r in
  if lib =? 0 then mret 0
  else
    r ← syscall (CDlsym lib func);
    let local_sym := r_ret r in
    do_ (CDlclose lib);;
    if local_sym =? 0 then mret 0
    else
      let local_base := find_module_base local_info module in
      if local_base =? 0 then mret 0
      else
        let remote_base := find_module_base remote_info module in
        if remote_base =? 0 then mret 0
        else mret (u64 (remote_base + u64 (local_sym - local_base))).

Definition O_RDONLY_CLOEXEC : Z := 0x80000.

(** Reads until [remaining] is 0; [None] is the early failure. *)
Fixpoint read_whole (n : nat) (fd remaining : Z) (file : list Z) : P (option (list Z)) :=
  if 0 <? remaining then
    match n with
    | O => out_of_fuel
    | Datatypes.S n' =>
        r ← syscall (CRead fd remaining);
        if r_ret r <=? 0 then mret None
        else read_whole n' fd (u64 (remaining - r_ret r)) (file ++ take (Z.to_nat (r_ret r)) (r_data r))
    end
  else mret (Some file).

Definition find_symbol_offset_from_file (module func : list Z) : P Z :=
  r ← syscall (COpen module O_RDONLY_CLOEXEC 0);
  let fd := r_ret r in
  if fd =? -1 then mret 0
  else
    r ← syscall (CFstat fd);
    let st_size := nth 0 (r_aux r) 0 in
    if (r_ret r =? -1) || (st_size <=? 0) then do_ (CClose fd);; mret 0
    else
      o ← read_whole fuel fd st_size [];
      do_ (CClose fd);;
      match o with
      | None => mret 0
      | Some file => lift (symbol_offset_in_image file func)
      end.

Definition find_func_addr_from_file_module (local_info remote_info : list MapInfo)
  (module func : list Z) : P Z :=
  let local_base := find_module_base local_info module in
  if local_base =? 0 then mret 0
  else
    let remote_base := find_module_base remote_info module in
    if remote_base =? 0 then mret 0
    else
      offset ← find_symbol_offset_from_file module func;
      if offset =? 0 then mret 0 else mret (u64 (remote_base + offset)).

Definition linker_symbol (func : list Z) : option (list Z) :=
  if beq func (B "dlopen") then Some (B "__dl_dlopen")
  else if beq func (B "dlsym") then Some (B "__dl_dlsym")
  else if beq func (B "dlerror") then Some (B "__dl_dlerror")
  else None.

Definition find_func_addr (local_info remote_info : list MapInfo) (module func : list Z) : P Z :=
  addr ← find_func_addr_from_loaded_module local_info remote_info module func;
  if negb (addr =? 0) then mret addr
  else if negb (beq module (B "libdl.so")) then mret 0
  else match linker_symbol func with
       | None => mret 0
       | Some sym =>
           find_func_addr_from_file_module local_info remote_info (B "/system/bin/linker64") sym
       end.

(** In the parent the first child's pid, in the detached grandchild 0, -1 on
    failure; the intermediate child exits. *)
Definition fork_dont_care : P Z :=
  r ← syscall CFork;
  let pid := r_ret r in
  if pid <? 0 then mret (-1)
  else if 0 <? pid then do_ (CWaitpid pid WALL);; mret pid
  else
    r ← syscall CFork;
    if r_ret r <? 0 then exit_ 1
    else if 0 <? r_ret r then exit_ 0
    else mret 0.

Definition get_program (pid : Z) : P (list Z) :=
  r ← syscall (CReadlink (B "/proc/" ++ to_string pid ++ B "/exe") 256);
  if r_ret r =? -1 then mret []
  else mret (c_str (take (Z.to_nat (r_ret r)) (r_data r))).

Definition O_WRONLY_CREAT_TRUNC_CLOEXEC : Z := 0x80241.

Definition atomic_write_file (path data : list Z) : P bool :=
  let tmp_path := path ++ B ".tmp" in
  r ← syscall (COpen tmp_path O_WRONLY_CREAT_TRUNC_CLOEXEC 420);
  let fd := r_ret r in
  if fd =? -1 then mret false
  else
    r ← syscall (CWrite fd data);
    let written := r_ret r in
    if (written =? -1) || negb (u64 written =? Z.of_nat (length data)) then
      do_ (CClose fd);; do_ (CUnlink tmp_path);; mret false
    else
      r ← syscall (CFsync fd);
      if r_ret r =? -1 then do_ (CClose fd);; do_ (CUnlink tmp_path);; mret false
      else
        do_ (CClose fd);;
        r ← syscall (CRename tmp_path path);
        if r_ret r =? -1 then do_ (CUnlink tmp_path);; mret false
        else mret true.

(** The computation behind [get_module_dir], which runs once. *)
Definition resolve_module_dir : P (list Z) :=
  r ← syscall (CReadlink (B "/proc/self/exe") 4095);
  if r_ret r =? -1 then mret (B ".")
  else mret (dirname (dirname (c_str (take (Z.to_nat (r_ret r)) (r_data r))))).

(** Opens a file of /proc for reading and returns what it contains. *)
Definition proc_file (pid : Z) (name : list Z) : P (option (list Z)) :=
  r ← syscall (CFile (B "/proc/" ++ to_string pid ++ B "/" ++ name));
  mret (if r_ret r =? 0 then None else Some (r_data r)).

Definition get_comm (pid : Z) : P (list Z) :=
  o ← proc_file pid (B "comm");
  match o with
  | None => mret []
  | Some data =>
      match fgets_chunks 64 data with
      | [] => mret []
      | buf :: _ => mret (drop_while_end (fun c => (c =? 10) || (c =? 0)) (c_str buf))
      end
  end.

(** The NUL-separated arguments that are not empty. *)
Fixpoint split_args (data arg : list Z) : list (list Z) :=
  match data with
  | [] => if bool_decide (arg = []) then [] else [arg]
  | ch :: data' =>
      if ch =? 0 then
        (if bool_decide (arg = []) then [] else [arg]) ++ split_args data' []
      else split_args data' (arg ++ [ch])
  end.

Definition read_cmdline (pid : Z) : P (list (list Z)) :=
  o ← proc_file pid (B "cmdline");
  mret (match o with None => [] | Some data => split_args data [] end).

(** sscanf(line, "PPid: %d", &ppid) == 1 *)
Definition scan_ppid (line : list Z) : option Z :=
  if starts_with line (B "PPid:")
  then match scan_d (drop 5 line) with Some (v, _) => Some v | None => None end
  else None.

Definition get_ppid (pid : Z) : P Z :=
  o ← proc_file pid (B "status");
  mret (match o with
        | None => -1
        | Some data =>
            default (-1) (head (omap (fun l => scan_ppid (c_str l)) (fgets_chunks 256 data)))
        end).

(** The entries of a directory, from their NUL-terminated names. *)
Fixpoint dir_names (data name : list Z) : list (list Z) :=
  match data with
  | [] => []
  | c :: data' => if c =? 0 then name :: dir_names data' [] else dir_names data' (name ++ [c])
  end.

Fixpoint find_by_exe_loop (exe : list Z) (names : list (list Z)) (found : list Z) : P (list Z) :=
  match names with
  | [] => mret found
  | d_name :: names' =>
      let '(value, erange, rest) := strtol d_name in
      if negb (bool_decide (rest = [])) || erange || (value <=? 0)
      then find_by_exe_loop exe names' found
      else
        r ← syscall (CReadlink (B "/proc/" ++ d_name ++ B "/exe") 4095);
        if r_ret r =? -1 then find_by_exe_loop exe names' found
        else if beq exe (c_str (take (Z.to_nat (r_ret r)) (r_data r)))
             then find_by_exe_loop exe names' (found ++ [s32 value])
             else find_by_exe_loop exe names' found
  end.

Definition find_processes_by_exe (exe : list Z) : P (list Z) :=
  r ← syscall (COpendir (B "/proc"));
  if r_ret r =? 0 then mret []
  else find_by_exe_loop exe (dir_names (r_data r) []) [].

Definition has_library_mapped (pid : Z) (suffix : list Z) : P bool :=
  infos ← Scan (to_string pid);
  mret (existsb (fun m => contains (mi_path m) suffix) infos).

End Proc.

(** ** /proc/[pid]/maps is read back as the kernel printed it *)

(** A mapping as the kernel knows it; [v_gap] is the white space it pads the
    line with before the path. *)
Record vma := Vma {
  v_start : Z; v_end : Z; v_r : bool; v_w : bool; v_x : bool; v_private : bool;
  v_offset : Z; v_major : Z; v_minor : Z; v_inode : Z; v_gap : nat; v_path : list Z }.

Definition flag (b : bool) (c : Z) : Z := if b then c else 45.

Definition print_vma (v : vma) : list Z :=
  pad_digits 16 8 (v_start v) ++ 45 :: pad_digits 16 8 (v_end v)
  ++ 32 :: [flag (v_r v) 114; flag (v_w v) 119; flag (v_x v) 120; if v_private v then 112 else 115]
  ++ 32 :: pad_digits 16 8 (v_offset v) ++ 32 :: pad_digits 16 2 (v_major v)
  ++ 58 :: pad_digits 16 2 (v_minor v) ++ 32 :: pad_digits 10 1 (v_inode v)
  ++ 32 :: replicate (v_gap v) 32 ++ v_path v.

Definition info_of (v : vma) : MapInfo :=
  Map_mk (v_start v) (v_end v)
    (Z.lor (Z.lor (if v_r v then PROT_READ else 0) (if v_w v then PROT_WRITE else 0))
           (if v_x v then PROT_EXEC else 0))
    (v_private v) (v_offset v) (makedev (v_major v) (v_minor v)) (v_inode v) (v_path v).

Definition path_ok (p : list Z) : Prop :=
  (0 ∉ p) /\ (NL ∉ p) /\ (match p with c :: _ => isspace c = false | [] => True end).

Definition vma_ok (v : vma) : Prop :=
  fits_u 64 (v_start v) /\ fits_u 64 (v_end v) /\ fits_u 64 (v_offset v) /\ fits_u 64 (v_inode v)
  /\ fits_u 32 (v_major v) /\ fits_u 32 (v_minor v) /\ path_ok (v_path v).

Lemma clamp_u64_id v : fits_u 64 v -> clamp_u64 v = v.
Proof.
  intros Hv. unfold clamp_u64. unfold fits_u in Hv.
  destruct (Z.leb_spec (2 ^ 64) (Z.abs v)); [lia|]. by apply uwrap_id.
Qed.

Lemma u64_pow16 v : fits_u 64 v -> 0 <= v < 16 ^ 20.
Proof. unfold fits_u. lia. Qed.

(** A number at the start of the text or after one space. *)
Lemma scan_lx_pad k w n rest :
  fits_u 64 n -> stops 16 rest ->
  scan_lx (replicate k 32 ++ pad_digits 16 w n ++ rest) = Some (n, rest).
Proof.
  intros Hn Hr. unfold scan_lx.
  rewrite read_number_spaces, read_number_pad; [|lia|by apply u64_pow16|done].
  cbn. by rewrite clamp_u64_id.
Qed.

Lemma scan_lu_pad w n rest :
  fits_u 64 n -> stops 10 rest -> scan_lu (32 :: pad_digits 10 w n ++ rest) = Some (n, rest).
Proof.
  intros Hn Hr. unfold scan_lu. change (32 :: ?l) with (replicate 1 32 ++ l).
  rewrite read_number_spaces, read_number_pad; [|lia|unfold fits_u in Hn; lia|done].
  cbn. by rewrite clamp_u64_id.
Qed.

Lemma scan_x_pad k w n rest :
  fits_u 32 n -> stops 16 rest ->
  scan_x (replicate k 32 ++ pad_digits 16 w n ++ rest) = Some (n, rest).
Proof.
  intros Hn Hr. unfold fits_u in Hn. unfold scan_x.
  rewrite read_number_spaces, read_number_pad; [|lia|lia|done].
  cbn. rewrite clamp_u64_id by fits. by rewrite uwrap_id.
Qed.

Lemma scan_lx_start w n rest :
  fits_u 64 n -> stops 16 rest -> scan_lx (pad_digits 16 w n ++ rest) = Some (n, rest).
Proof. exact (scan_lx_pad 0 w n rest). Qed.

Lemma scan_lx_space w n rest :
  fits_u 64 n -> stops 16 rest -> scan_lx (32 :: pad_digits 16 w n ++ rest) = Some (n, rest).
Proof. exact (scan_lx_pad 1 w n rest). Qed.

Lemma scan_x_start w n rest :
  fits_u 32 n -> stops 16 rest -> scan_x (pad_digits 16 w n ++ rest) = Some (n, rest).
Proof. exact (scan_x_pad 0 w n rest). Qed.

Lemma scan_x_space w n rest :
  fits_u 32 n -> stops 16 rest -> scan_x (32 :: pad_digits 16 w n ++ rest) = Some (n, rest).
Proof. exact (scan_x_pad 1 w n rest). Qed.

Lemma scan_word_flags r w x p rest :
  scan_word 4 (32 :: flag r 114 :: flag w 119 :: flag x 120 :: (if p : bool then 112 else 115) :: 32 :: rest)
  = Some ([flag r 114; flag w 119; flag x 120; if p then 112 else 115], 32 :: rest).
Proof. by destruct r, w, x, p. Qed.

Lemma scan_path k p :
  path_ok p ->
  take_while (fun c => negb (c =? NL))
    (drop_while isspace (drop_while isspace (32 :: replicate k 32 ++ p ++ [NL]))) = p.
Proof.
  intros (Hz & Hn & Hs). change (32 :: ?l) with (replicate 1 32 ++ l).
  assert (E : forall k s, drop_while isspace (replicate k 32 ++ s) = drop_while isspace s)
    by (intros k' s; induction k'; cbn; auto).
  rewrite !E. destruct p as [|c p]; [done|]. cbn [app drop_while]. rewrite Hs.
  cbn [drop_while]. rewrite Hs. change (c :: p ++ [NL]) with ((c :: p) ++ [NL]).
  apply take_while_app_stop; [|done]. apply Forall_forall. intros x Hx.
  destruct (Z.eqb_spec x NL) as [->|]; [done|done].
Qed.

Lemma scan_map_line_print v :
  vma_ok v -> scan_map_line (print_vma v ++ [NL]) = Some (info_of v).
Proof.
  intros (H1 & H2 & H3 & H4 & H5 & H6 & Hp). unfold print_vma, scan_map_line.
  repeat first [rewrite <- app_assoc | progress cbn [app]].
  rewrite (scan_lx_start 8 (v_start v)) by done.
  cbn [mbind option_bind scan_char Z.eqb Pos.eqb].
  rewrite (scan_lx_start 8 (v_end v)) by done. cbn [mbind option_bind].
  rewrite scan_word_flags. cbn [mbind option_bind].
  rewrite (scan_lx_space 8 (v_offset v)) by done. cbn [mbind option_bind].
  rewrite (scan_x_space 2 (v_major v)) by done.
  cbn [mbind option_bind scan_char Z.eqb Pos.eqb].
  rewrite (scan_x_start 2 (v_minor v)) by done. cbn [mbind option_bind].
  rewrite (scan_lu_pad 1 (v_inode v)) by done. cbn [mbind option_bind].
  rewrite scan_path by done. unfold info_of.
  by destruct (v_r v), (v_w v), (v_x v), (v_private v).
Qed.

Lemma pad_digits_printable base w n c :
  2 <= base <= 16 -> 0 <= n < base ^ 20 -> c < 32 -> c ∉ pad_digits base w n.
Proof. intros Hb Hn Hc Hin. pose proof (pad_digits_chars base w n c Hb Hn Hin). lia. Qed.

Lemma print_vma_plain v c : vma_ok v -> c < 32 -> c ∉ v_path v -> c ∉ print_vma v.
Proof.
  intros (H1 & H2 & H3 & H4 & H5 & H6 & _) Hc Hp. unfold fits_u in *. unfold print_vma.
  assert (Hr : c ∉ replicate (v_gap v) 32) by (rewrite elem_of_replicate; lia).
  assert (Hn : c ∉ []) by apply not_elem_of_nil.
  repeat (rewrite ?not_elem_of_app, ?not_elem_of_cons).
  repeat split; auto; try apply pad_digits_printable; try lia;
    unfold flag; case_match; lia.
Qed.

(** Scanning reverses printing: from a maps file in the kernel's format
    (any zero padding of the numbers, any gap before the path) [MapInfo::Scan]
    returns one entry per mapping, in order, with its range, permissions,
    offset, device, inode and path. *)
Theorem maps_roundtrip vs :
  Forall vma_ok vs ->
  Scan_lines (concat (map (fun l => l ++ [NL]) (map print_vma vs))) = map info_of vs.
Proof.
  intros Hvs. unfold Scan_lines. rewrite getlines_concat.
  - induction Hvs as [|v vs Hv _ IH]; [done|]. cbn [map omap list_omap].
    rewrite c_str_id.
    + rewrite scan_map_line_print by done. by rewrite IH.
    + assert (Hp := Hv). destruct Hp as (_ & _ & _ & _ & _ & _ & Hz & _ & _).
      apply not_elem_of_app. split; [by apply print_vma_plain|].
      unfold NL. rewrite list_elem_of_singleton. lia.
  - apply Forall_map. eapply Forall_impl; [exact Hvs|]. intros v Hv.
    assert (Hp := Hv). destruct Hp as (_ & _ & _ & _ & _ & _ & _ & Hn & _).
    apply print_vma_plain; done.
Qed.

Lemma maps_roundtrip_witness :
  Scan_lines (B "7f00a000-7f00c000 r-xp 00001000 fd:02 1234      /system/lib64/libc.so
7ffe0000-7fff0000 rw-p 00000000 00:00 0 
")
  = [Map_mk 0x7f00a000 0x7f00c000 5 true 0x1000 (makedev 0xfd 2) 1234 (B "/system/lib64/libc.so");
     Map_mk 0x7ffe0000 0x7fff0000 3 true 0 0 0 []].
Proof.
  apply (maps_roundtrip
    [Vma 0x7f00a000 0x7f00c000 true false true true 0x1000 0xfd 2 1234 5 (B "/system/lib64/libc.so");
     Vma 0x7ffe0000 0x7fff0000 true true false true 0 0 0 0 0 []]).
  repeat constructor; try vm_decide; vm_compute; congruence.
Defined.

(** ** Replacing a file, waiting and calling *)

Section ProcTheorems.
Context {W S : Type} `{!World W} (fuel : nat).

(** A status file is replaced as a whole or not at all: when
    [atomic_write_file] succeeds its calls were, in this order, creating the
    temporary file, writing all of the data, flushing it, closing it and
    renaming it over the target; when it fails, no rename of it took effect. *)
Theorem atomic_write_whole path data (s s' : st W S) b :
  atomic_write_file path data s = (Ret b, s') ->
  let tmp := path ++ B ".tmp" in
  exists evs, st_log s' = evs ++ st_log s
  /\ (b = true -> exists fd ro rw rf rc rr,
        evs = [(CRename tmp path, rr); (CClose fd, rc); (CFsync fd, rf); (CWrite fd data, rw);
               (COpen tmp O_WRONLY_CREAT_TRUNC_CLOEXEC 420, ro)]
        /\ u64 (r_ret rw) = Z.of_nat (length data) /\ r_ret rf <> -1 /\ r_ret rr <> -1)
  /\ (b = false -> forall r, (CRename tmp path, r) ∈ evs -> r_ret r = -1).
Proof.
  intros E tmp. revert E. wp_of_run.
  unfold atomic_write_file, do_. fold tmp. wstep. apply wp_syscall. intros ro w0 e0. wrun.
  destruct (Z.eqb_spec (r_ret ro) (-1)).
  { wrun. eexists [_]. split; [done|]. split; [done|]. intros _ r Hr. no_event Hr. }
  wrun. apply wp_syscall. intros rw w1 e1. wrun.
  destruct ((r_ret rw =? -1) || negb (u64 (r_ret rw) =? Z.of_nat (length data))) eqn:Ew.
  { wrun. apply wp_syscall. intros. wrun. apply wp_syscall. intros. wrun. 
    eexists [_; _; _; _]. split; [done|]. split; [done|]. intros _ r' Hr. no_event Hr. }
  apply orb_false_iff in Ew as [_ Ew]. apply negb_false_iff, Z.eqb_eq in Ew.
  wrun. apply wp_syscall. intros rf w2 e2. wrun. destruct (Z.eqb_spec (r_ret rf) (-1)).
  { wrun. apply wp_syscall. intros. wrun. apply wp_syscall. intros. wrun. 
    eexists [_; _; _; _; _]. split; [done|]. split; [done|]. intros _ r' Hr. no_event Hr. }
  wrun. apply wp_syscall. intros rc w3 e3. wrun. apply wp_syscall. intros rr w4 e4. wrun.
  destruct (Z.eqb_spec (r_ret rr) (-1)).
  { wrun. apply wp_syscall. intros. wrun. 
    eexists [_; _; _; _; _; _]. split; [done|]. split; [done|].
    intros _ r' Hr. no_event Hr. }
  wrun. eexists [_; _; _; _; _]. split; [done|]. split; [|done].
  intros _. exists (r_ret ro), ro, rw, rf, rc, rr. auto.
Qed.

(** A wait ends only at a real stop: whatever the kernel reports,
    [wait_for_trace] returns only the status of a stopped tracee that is not
    a seccomp event; a seccomp event is skipped and the tracee resumed, and a
    tracee that ended ends the tracer. *)
Theorem wait_for_trace_stops a n pid flags (s s' : st W S) status :
  wait_for_trace a n pid flags s = (Ret status, s') ->
  WIFSTOPPED status = true
  /\ Z.shiftr status 8 <> Z.lor SIGTRAP (Z.shiftl PTRACE_EVENT_SECCOMP 8)
  /\ exists r log, st_log s' = (CWaitpid pid flags, r) :: log /\ nth 0 (r_aux r) 0 = status.
Proof.
  wp_of_run. revert s.
  induction n as [|n IH]; intros s; cbn [wait_for_trace]; [by wrun|].
  wstep. apply wp_syscall. intros r w e. wrun. destruct (r_ret r =? -1).
  { wrun. destruct (_ =? EINTR); [apply IH|by wrun]. }
  destruct (Z.eqb_spec (Z.shiftr (nth 0 (r_aux r) 0) 8)
              (Z.lor SIGTRAP (Z.shiftl PTRACE_EVENT_SECCOMP 8))) as [|Hne].
  { wrun. unfold tracee_skip_syscall, get_regs, set_regs, do_. wrun.
    apply wp_syscall. intros. wrun. destruct (r_ret _ =? -1); [by wrun|]. wrun.
    apply wp_syscall. intros. wrun. destruct (negb (negb _)); [by wrun|].
    destruct a; wrun; try (apply wp_syscall; intros; wrun); try (apply wp_syscall; intros; wrun);
      apply IH. }
  destruct (WIFSTOPPED (nth 0 (r_aux r) 0)) eqn:Es; cbn [negb]; [|by wrun].
  wrun. split; [done|]. split; [done|]. eauto.
Qed.

(** Clearing the low four bits. *)
Lemma align16 x :
  0 <= x < 2 ^ 64 -> let y := Z.land x STACK_ALIGN_MASK in y mod 16 = 0 /\ y <= x /\ x < y + 16.
Proof.
  intros Hx y. assert (E : y = x / 16 * 16).
  { unfold y. change STACK_ALIGN_MASK with (Z.ldiff (Z.ones 64) (Z.ones 4)).
    replace (x / 16 * 16) with (Z.ldiff x (Z.ones 4)).
    - apply Z.bits_inj'. intros n Hn. rewrite Z.land_spec, !Z.ldiff_spec.
      destruct (Z.ltb_spec n 64).
      + by rewrite (Z.ones_spec_low 64 n) by lia.
      + by rewrite (testbit_lt x 64 n) by lia.
    - rewrite Z.ldiff_ones_r, Z.shiftl_mul_pow2, Z.shiftr_div_pow2 by lia. done. }
  rewrite E. rewrite Z.mod_mul by lia. pose proof (Z.div_mod x 16).
  pose proof (Z.mod_pos_bound x 16). lia.
Qed.

Lemma length_set_arg_regs rs ns args : length (set_arg_regs rs ns args) = length rs.
Proof.
  revert rs args. induction ns as [|n ns IH]; intros rs args; [done|].
  destruct args; [done|]. cbn. by rewrite IH, length_insert.
Qed.

Lemma set_arg_regs_other rs ns args k :
  k ∉ ns -> set_arg_regs rs ns args !! k = rs !! k.
Proof.
  revert rs args. induction ns as [|n ns IH]; intros rs args Hk; [done|].
  destruct args as [|a args]; [done|]. apply not_elem_of_cons in Hk as [Hne Hk]. cbn.
  rewrite IH by done. by apply list_lookup_insert_ne.
Qed.

Lemma set_arg_regs_arg rs ns args i v n :
  NoDup ns -> Forall (fun n => n < length rs)%nat ns ->
  args !! i = Some v -> ns !! i = Some n -> set_arg_regs rs ns args !! n = Some (u64 v).
Proof.
  revert rs args i. induction ns as [|m ns IH]; intros rs args i Hd Hl Ha Hn; [done|].
  apply NoDup_cons in Hd as [Hm Hd]. apply Forall_cons in Hl as [Hlm Hl].
  destruct args as [|a args]; [done|]. destruct i as [|i]; cbn in *; simplify_eq.
  - rewrite set_arg_regs_other by done. by apply list_lookup_insert_eq.
  - eapply IH; eauto. eapply Forall_impl; [exact Hl|]. intros x Hx. by rewrite length_insert.
Qed.

Definition set_regs_call (a : arch) (pid : Z) (rs : regs) : call :=
  match a with
  | X86_64 => CPtraceRegs PTRACE_SETREGS pid 0 rs
  | _ => CPtraceRegs PTRACE_SETREGSET pid NT_PRSTATUS rs
  end.

Definition get_regs_call (a : arch) (pid : Z) : call :=
  match a with
  | X86_64 => CPtraceRegs PTRACE_GETREGS pid 0 []
  | _ => CPtraceRegs PTRACE_GETREGSET pid NT_PRSTATUS []
  end.

Lemma extends_wait a n pid flags : extends (wait_for_trace a n pid flags : M W S Z).
Proof.
  induction n as [|n IH]; [by apply extends_pure|]. cbn [wait_for_trace].
  unfold tracee_skip_syscall, get_regs, set_regs, do_.
  repeat first
    [ apply extends_bind; [|intros ?] | apply extends_syscall | exact IH
    | progress case_match | by apply extends_pure ].
Qed.

(** The register file of a call whose arguments all fit in registers. *)
Definition call_regs (a : arch) (rs : regs) (func_addr return_addr : Z) (args : list Z) (lr : nat)
  : regs :=
  <[REG_IP a := func_addr]> (<[lr := return_addr]>
    (set_arg_regs (align_stack a rs 0) (arg_regs a) args)).

(** A register file with at least the registers the calls use. *)
Definition regs_ok (a : arch) (rs : regs) : Prop :=
  (33 <= length rs)%nat /\ fits_u 64 (reg (REG_SP a) rs).

Lemma arg_regs_ok a lr :
  REG_LINK a = Some lr ->
  NoDup (arg_regs a) /\ Forall (fun n => n < 33)%nat (arg_regs a)
  /\ (lr ∉ arg_regs a) /\ (REG_IP a ∉ arg_regs a) /\ (REG_SP a ∉ arg_regs a)
  /\ REG_IP a <> lr /\ REG_SP a <> lr /\ REG_IP a <> REG_SP a
  /\ (lr < 33)%nat /\ (REG_IP a < 33)%nat /\ (REG_SP a < 33)%nat.
Proof.
  intros E. destruct a; simplify_eq/=; repeat split; try lia; try vm_decide;
    repeat constructor.
Qed.

Lemma call_regs_spec a rs func_addr return_addr args lr :
  REG_LINK a = Some lr -> regs_ok a rs -> (length args <= length (arg_regs a))%nat ->
  let rs0 := call_regs a rs func_addr return_addr args lr in
  (forall i v, args !! i = Some v ->
     exists n, arg_regs a !! i = Some n /\ rs0 !! n = Some (u64 v))
  /\ rs0 !! lr = Some return_addr /\ rs0 !! REG_IP a = Some func_addr
  /\ exists sp, rs0 !! REG_SP a = Some sp /\ sp mod 16 = 0 /\ sp <= reg (REG_SP a) rs < sp + 16.
Proof.
  intros El [Hlen Hsp] Hargs rs0.
  destruct (arg_regs_ok a lr El) as (Hd & Hf & A1 & A2 & A3 & A4 & A5 & A6 & L1 & L2 & L3).
  set (rs1 := align_stack a rs 0) in *.
  assert (Hl1 : length rs1 = length rs) by apply length_insert.
  set (rs2 := set_arg_regs rs1 (arg_regs a) args).
  assert (Hl2 : length rs2 = length rs) by (unfold rs2; by rewrite length_set_arg_regs).
  split; [|split; [|split]].
  - intros i v Hv. assert (Hi : (i < length (arg_regs a))%nat)
      by (apply lookup_lt_Some in Hv; lia).
    destruct (lookup_lt_is_Some_2 _ _ Hi) as [n Hn]. exists n. split; [done|].
    assert (Hin : n ∈ arg_regs a) by (by eapply list_elem_of_lookup_2).
    unfold rs0, call_regs. rewrite list_lookup_insert_ne by (intros ?; subst n; done).
    rewrite list_lookup_insert_ne by (intros ?; subst n; done).
    eapply set_arg_regs_arg; eauto. eapply Forall_impl; [exact Hf|]. cbn. fold rs1. lia.
  - unfold rs0, call_regs. rewrite list_lookup_insert_ne by done.
    apply list_lookup_insert_eq. fold rs1 rs2. lia.
  - unfold rs0, call_regs. apply list_lookup_insert_eq. fold rs1 rs2. rewrite length_insert. lia.
  - exists (Z.land (reg (REG_SP a) rs) STACK_ALIGN_MASK). split.
    + unfold rs0, call_regs. rewrite list_lookup_insert_ne by done.
      rewrite list_lookup_insert_ne by done. rewrite set_arg_regs_other by done.
      unfold align_stack. rewrite Z.sub_0_r, uwrap_id by done. apply list_lookup_insert_eq. lia.
    + destruct (align16 (reg (REG_SP a) rs) Hsp) as (E1 & E2 & E3). done.
Qed.

(** The log [log'] is [log] after a remote call that was made and returned:
    the register file of the call was set; the last thing read is a register
    file with [ret] as program counter, whose return register is [res]. *)
Definition returned (a : arch) (pid : Z) (rs : regs) (f ret : Z) (args : list Z) (lr : nat) (res : Z)
  (log log' : list event) : Prop :=
  exists g r evs,
    log' = (get_regs_call a pid, g) :: evs ++ (set_regs_call a pid (call_regs a rs f ret args lr), r) :: log
    /\ reg (REG_IP a) (r_aux g) = ret /\ res = reg (REG_RET a) (r_aux g).

(** What a remote call does when all arguments fit in registers: a call that
    is a success was made and returned; one that is not returns 0. *)
Lemma remote_call_calls a lr pid rs func_addr return_addr args (s : st W S) :
  REG_LINK a = Some lr -> (length args <= length (arg_regs a))%nat ->
  wp (remote_call fuel a pid rs func_addr return_addr args)
    (on_ret (fun x s' =>
       (x.1.2 = true -> returned a pid rs func_addr return_addr args lr x.1.1 (st_log s) (st_log s')
                        /\ reg (REG_IP a) x.2 = return_addr /\ x.1.1 = reg (REG_RET a) x.2)
       /\ (x.1.2 = false -> x.1.1 = 0))) s.
Proof.
  intros El Hargs. set (rs0 := call_regs a rs func_addr return_addr args lr) in *.
  unfold remote_call, push_stack_args, set_return_addr, set_regs, get_regs, do_.
  rewrite drop_ge by done. rewrite bool_decide_true by done. rewrite El.
  do 3 (wrun; cbn [negb]). wrun.
  replace (match a with
           | X86_64 => CPtraceRegs PTRACE_SETREGS pid 0 _
           | _ => _
           end) with (set_regs_call a pid rs0) by (by destruct a).
  fold (get_regs_call a pid).
  apply wp_syscall. intros r w e. wrun.
  destruct (negb (negb _)); wrun; [done|].
  apply wp_syscall. intros r1 w1 e1. wrun.
  eapply wp_mono; [apply extends_wait|]. intros [status| | |] s1 [evs Hevs]; cbn; try done.
  wrun. apply wp_syscall. intros r2 w2 e2. wrun. cbn in Hevs.
  destruct (r_ret r2 =? -1); wrun; [done|].
  destruct (WIFSTOPPED status && (reg (REG_IP a) (r_aux r2) =? return_addr)) eqn:Ec; wrun; [|done].
  apply andb_true_iff in Ec as [_ Ec]. apply Z.eqb_eq in Ec. split; [|done]. intros _. split; [|done].
  exists r2, r, (evs ++ [(CPtrace PTRACE_CONT pid 0 0, r1)]). rewrite Hevs, <- app_assoc. done.
Qed.

(** C21. A remote call runs the right function with the right arguments: on
    the targets with a link register, when all arguments fit in registers,
    the first thing done to the tracee is to set a register file that has
    each argument in its register, the function as the program counter, the
    fake return address in the link register and a stack pointer that is
    16-byte aligned and not above the tracee's; and the call is reported as
    successful only if the tracee stopped exactly at the return address, with
    the return register of that moment as the result. *)
Theorem remote_call_frame a lr pid rs func_addr return_addr args (s s' : st W S) res rs' :
  REG_LINK a = Some lr -> regs_ok a rs -> (length args <= length (arg_regs a))%nat ->
  remote_call fuel a pid rs func_addr return_addr args s = (Ret (res, true, rs'), s') ->
  exists rs0 r evs,
    st_log s' = evs ++ (set_regs_call a pid rs0, r) :: st_log s
    /\ (forall i v, args !! i = Some v ->
         exists n, arg_regs a !! i = Some n /\ rs0 !! n = Some (u64 v))
    /\ rs0 !! lr = Some return_addr /\ rs0 !! REG_IP a = Some func_addr
    /\ (exists sp, rs0 !! REG_SP a = Some sp /\ sp mod 16 = 0
                   /\ sp <= reg (REG_SP a) rs < sp + 16)
    /\ reg (REG_IP a) rs' = return_addr /\ res = reg (REG_RET a) rs'.
Proof.
  intros El Hok Hargs E.
  pose proof (call_regs_spec a rs func_addr return_addr args lr El Hok Hargs) as Hspec.
  cbn zeta in Hspec. set (rs0 := call_regs a rs func_addr return_addr args lr) in *.
  destruct (wp_on_ret _ _ _ _ _ (remote_call_calls a lr pid rs func_addr return_addr args s El Hargs) E)
    as (H1 & _). destruct (H1 eq_refl) as ((g & r & evs & E1 & _) & E2 & E3).
  exists rs0, r, ((get_regs_call a pid, g) :: evs). destruct Hspec as (P1 & P2 & P3 & P4). split; [exact E1|].
  auto 10.
Qed.
End ProcTheorems.

Lemma atomic_write_whole_witness :
  exists s' evs fd ro rw rf rc rr,
    atomic_write_file (B "/m/module.prop") (B "id=x") (St [ans 5; ans 4; ans 0; ans 0; ans 0] [] 0 tt)
    = (Ret true, s') /\ st_log s' = evs ++ []
    /\ evs = [(CRename (B "/m/module.prop.tmp") (B "/m/module.prop"), rr); (CClose fd, rc);
              (CFsync fd, rf); (CWrite fd (B "id=x"), rw);
              (COpen (B "/m/module.prop.tmp") O_WRONLY_CREAT_TRUNC_CLOEXEC 420, ro)].
Proof.
  destruct (atomic_write_whole (B "/m/module.prop") (B "id=x")
              (St [ans 5; ans 4; ans 0; ans 0; ans 0] [] 0 tt)
              (atomic_write_file (B "/m/module.prop") (B "id=x")
                 (St [ans 5; ans 4; ans 0; ans 0; ans 0] [] 0 tt)).2 true)
    as (evs & H1 & H2 & _); [vm_compute; reflexivity|].
  destruct (H2 eq_refl) as (fd & ro & rw & rf & rc & rr & H3 & _).
  eexists _, evs, fd, ro, rw, rf, rc, rr. split; [vm_compute; reflexivity|].
  split; [exact H1|exact H3].
Defined.

(** The tracee is interrupted, then stops with SIGTRAP. *)
Definition wait_script : script := [Reply (-1) EINTR [] []; Reply 100 0 [] [0x057f]].

Lemma wait_for_trace_stops_witness :
  WIFSTOPPED 0x057f = true
  /\ exists r log, st_log (wait_for_trace AArch64 4 100 WALL (St wait_script [] 0 tt)).2
                   = (CWaitpid 100 WALL, r) :: log.
Proof.
  destruct (wait_for_trace_stops AArch64 4 100 WALL (St wait_script [] 0 tt)
              (wait_for_trace AArch64 4 100 WALL (St wait_script [] 0 tt)).2 0x057f)
    as (H1 & _ & r & log & H2 & _); [vm_compute; reflexivity|].
  split; [exact H1|]. exists r, log. exact H2.
Defined.

(** A tracee whose stack is at 0x7ff8 and that stops at 0x5000 with 77 in x0. *)
Definition tracee_regs (x0 pc : Z) : regs := [x0] ++ replicate 30 0 ++ [0x7ff8; pc; 0].
Definition call_script : script :=
  [ans 0; ans 0; Reply 100 0 [] [0x0b7f]; Reply 0 0 [] (tracee_regs 77 0x5000)].

Lemma remote_call_frame_witness :
  exists s' rs0 r evs,
    remote_call 4 AArch64 100 (tracee_regs 0 0x4000) 0x9000 0x5000 [1; -1] (St call_script [] 0 tt)
    = (Ret (77, true, tracee_regs 77 0x5000), s')
    /\ st_log s' = evs ++ [(set_regs_call AArch64 100 rs0, r)]
    /\ rs0 !! 30%nat = Some 0x5000 /\ rs0 !! 32%nat = Some 0x9000.
Proof.
  destruct (remote_call_frame 4 AArch64 30 100 (tracee_regs 0 0x4000) 0x9000 0x5000 [1; -1]
              (St call_script [] 0 tt)
              (remote_call 4 AArch64 100 (tracee_regs 0 0x4000) 0x9000 0x5000 [1; -1]
                 (St call_script [] 0 tt)).2 77 (tracee_regs 77 0x5000))
    as (rs0 & r & evs & H1 & _ & H2 & H3 & _);
    [reflexivity|split; [vm_compute; lia|vm_compute; split; congruence]|vm_compute; lia
    |vm_compute; reflexivity|].
  eexists _, rs0, r, evs. split; [vm_compute; reflexivity|]. split; [exact H1|done].
Defined.
