(* ===== verification/ModuleProp.v ===== *)
(** The module.prop text the monitor keeps: reading the installed file into
    its sections and rendering the status into it ([prepare_environment],
    [update_status] and [write_abi_status_section] of
    loader/src/ptracer/monitor_impl.cpp, their text part). *)
From S2P Require Import Prelude Text.
Open Scope Z_scope.

(** ** Reading *)

(** What the callback of [prepare_environment] accumulates. *)
Record sections := Sections {
  sec_pre : list Z; sec_post : list Z; sec_version : Z; sec_in_post : bool }.

Definition is_generated_key (line : list Z) : bool :=
  starts_with line (B "monitor_status=") || starts_with line (B "monitor_stop_reason=")
  || starts_with line (B "zygote_") || starts_with line (B "daemon_").

Definition DESC : list Z := B "description=".
Definition MON : list Z := B "[Monitor:".

Definition is_pad (c : Z) : bool := (c =? 61) || (c =? 32) || (c =? 9).

(** One round of the cleaning loop: the value and [cleaning]. *)
Definition clean_step (desc : list Z) : list Z * bool :=
  let '(desc, cleaning) :=
    if starts_with desc MON then
      match find_char desc 93 with
      | Some closing_bracket => (drop (S closing_bracket) desc, true)
      | None => (desc, false)
      end
    else (desc, false) in
  if bool_decide (desc = []) then (desc, cleaning)
  else
    let rest := drop_while is_pad desc in
    if bool_decide (rest = []) then ([], cleaning)
    else if (length rest <? length desc)%nat then (rest, true)
    else (desc, cleaning).

Fixpoint clean_loop (fuel : nat) (desc : list Z) : list Z :=
  match fuel with
  | O => desc
  | S fuel' => let '(desc', cleaning) := clean_step desc in
               if cleaning then clean_loop fuel' desc' else desc'
  end.

(** A round that goes on shortens the value, so its length bounds the rounds. *)
Definition clean_desc (desc : list Z) : list Z := clean_loop (S (length desc)) desc.

Definition is_eol (c : Z) : bool := (c =? 13) || (c =? 10).
Definition is_blank (c : Z) : bool := (c =? 32) || (c =? 9).

Definition join_line (sec line : list Z) : list Z :=
  if bool_decide (sec = []) then line else sec ++ [NL] ++ line.

(** The callback for one line. *)
Definition prop_line (x : sections) (line_view : list Z) : sections * bool :=
  let line := drop_while_end is_eol line_view in
  if bool_decide (drop_while is_blank line = []) then (x, true)
  else if is_generated_key line then (x, true)
  else
    let version :=
      if starts_with line (B "versionCode=") then
        let code_str := drop 12 line in
        let '(val, _, rest) := strtol code_str in
        if bool_decide (rest = code_str) then sec_version x else val
      else sec_version x in
    if starts_with line DESC then
      if sec_in_post x then (Sections (sec_pre x) (sec_post x) version true, true)
      else (Sections (sec_pre x) (sec_post x ++ clean_desc (drop 12 line)) version true, true)
    else if sec_in_post x
    then (Sections (sec_pre x) (join_line (sec_post x) line) version true, true)
    else (Sections (join_line (sec_pre x) line) (sec_post x) version false, true).

Definition parse_prop (contents : list Z) : sections :=
  file_readline false contents prop_line (Sections [] [] (-1) false).

(** Whether the file on disk has a newer version than the one read at start. *)
Definition newer_line (initial_version_code : Z) (should_write : bool) (line_view : list Z)
  : bool * bool :=
  if starts_with line_view (B "versionCode=") then
    let code_str := drop_while_end (fun c => is_eol c || is_blank c) (drop 12 line_view) in
    let '(disk_code, _, rest) := strtol code_str in
    if negb (bool_decide (rest = code_str)) && (initial_version_code <? disk_code)
    then (false, false) else (should_write, true)
  else (should_write, true).

Definition should_write_installed (initial_version_code : Z) (contents : list Z) : bool :=
  file_readline false contents (newer_line initial_version_code) true.

(** ** Rendering *)

Definition ends_nl (s : list Z) : bool :=
  match last s with Some c => c =? NL | None => false end.

(** A section is followed by a newline unless it is empty or has one. *)
Definition with_nl (s : list Z) : list Z :=
  if negb (bool_decide (s = [])) && negb (ends_nl s) then s ++ [NL] else s.

Definition icon (ok : bool) : list Z := if ok then B "OK" else B "NO".

Definition runtime_status (pre post abi_pretty : list Z) (monitor_ok abi_ok : bool) : list Z :=
  with_nl pre ++ B "description=[Monitor: " ++ icon monitor_ok ++ B ", NyaZygisk " ++ abi_pretty
  ++ B ": " ++ icon abi_ok ++ B "] "
  ++ (if bool_decide (post = []) then [NL] else with_nl post).

(** ** The cleaning loop *)

Lemma drop_while_le p s : (length (drop_while p s) <= length s)%nat.
Proof. induction s as [|c s IH]; cbn; [lia|]. destruct (p c); cbn; lia. Qed.

Lemma clean_step_shorter d : let '(d', c) := clean_step d in c = true -> (length d' < length d)%nat.
Proof.
  unfold clean_step. destruct (starts_with d MON) eqn:Em.
  - assert (Hd : d <> []) by (by intros ->).
    destruct (find_char d 93) as [i|].
    + pose proof (drop_while_le is_pad (drop (S i) d)) as Hle. rewrite length_drop in Hle.
      assert (length d <> 0%nat) by (by destruct d).
      repeat case_match; simplify_eq; cbn; rewrite ?length_drop; lia.
    + repeat case_match; simplify_eq; try done.
      match goal with H : (_ <? _)%nat = true |- _ => apply Nat.ltb_lt in H end. lia.
  - repeat case_match; simplify_eq; try done.
    match goal with H : (_ <? _)%nat = true |- _ => apply Nat.ltb_lt in H end. lia.
Qed.

(** More rounds than characters never change the result. *)
Lemma clean_loop_enough n m d :
  (length d < n)%nat -> (length d < m)%nat -> clean_loop n d = clean_loop m d.
Proof.
  revert m d. induction n as [|n IH]; intros m d Hn Hm; [lia|]. destruct m as [|m]; [lia|].
  cbn [clean_loop]. pose proof (clean_step_shorter d) as Hs.
  destruct (clean_step d) as [d' [|]]; [|done]. specialize (Hs eq_refl). apply IH; lia.
Qed.

(** ** The status does not pile up in the file *)

(** A line of an installed file that is kept as it is. *)
Definition plain_line (l : list Z) : Prop :=
  (NL ∉ l) /\ (0 ∉ l) /\ drop_while_end is_eol l = l /\ drop_while is_blank l <> []
  /\ is_generated_key l = false /\ starts_with l DESC = false.

(** A description value that needs no cleaning. *)
Definition clean_value (d : list Z) : Prop :=
  (NL ∉ d) /\ (0 ∉ d) /\ drop_while_end is_eol d = d /\ clean_step d = (d, false).

Definition with_eols (ls : list (list Z)) : list Z := concat (map (fun l => l ++ [NL]) ls).

(** An installed module.prop: lines, a description, lines. *)
Definition installed_prop (pls : list (list Z)) (desc : list Z) (qls : list (list Z)) : list Z :=
  with_eols (pls ++ [DESC ++ desc] ++ qls).

Lemma plain_line_not_nil l : plain_line l -> l <> [].
Proof. intros (_ & _ & _ & H & _) ->. done. Qed.

Lemma last_app_ne {A} (l k : list A) : k <> [] -> last (l ++ k) = last k.
Proof. intros Hk. rewrite last_app. destruct (last k) eqn:E; [done|]. by apply last_None in E. Qed.

Lemma plain_no_nl l : NL ∉ l -> l <> [] -> ends_nl l = false.
Proof.
  intros Hn Hne. unfold ends_nl. destruct (last l) as [c|] eqn:E; [|done].
  apply Z.eqb_neq. intros ->. apply Hn. by eapply last_Some_elem_of.
Qed.

Lemma join_line_ne acc l : acc <> [] -> join_line acc l = acc ++ [NL] ++ l.
Proof. intros. unfold join_line. by rewrite bool_decide_false. Qed.

(** Joining lines to a section and ending it is ending each line. *)
Lemma with_nl_join ls acc :
  acc <> [] -> ends_nl acc = false -> Forall plain_line ls ->
  with_nl (fold_left join_line ls acc) = acc ++ [NL] ++ with_eols ls.
Proof.
  intros Hacc Hnl Hls. revert acc Hacc Hnl. induction Hls as [|l ls Hl _ IH]; intros acc Hacc Hnl.
  - cbn. unfold with_nl. rewrite bool_decide_false by done. by rewrite Hnl.
  - cbn [fold_left]. rewrite join_line_ne by done.
    pose proof (plain_line_not_nil l Hl) as Hne. rewrite IH.
    + unfold with_eols. cbn. by rewrite <- !app_assoc.
    + by destruct acc.
    + unfold ends_nl. rewrite app_assoc, last_app_ne by done.
      apply (plain_no_nl l); [apply Hl|done].
Qed.

Lemma with_nl_section ls :
  Forall plain_line ls -> with_nl (fold_left join_line ls []) = with_eols ls.
Proof.
  intros H. destruct H as [|l ls Hl Hls]; [done|]. cbn [fold_left].
  change (join_line [] l) with l. pose proof (plain_line_not_nil l Hl).
  rewrite with_nl_join; [|done|apply plain_no_nl; [apply Hl|done]|done].
  unfold with_eols. cbn. by rewrite <- app_assoc.
Qed.

Lemma trim_line_nl l : 0 ∉ l -> trim_line false (l ++ [NL]) = l ++ [NL].
Proof.
  intros Hz. apply c_str_id. rewrite not_elem_of_app, list_elem_of_singleton. by split.
Qed.

Lemma drop_eol_nl l : drop_while_end is_eol (l ++ [NL]) = drop_while_end is_eol l.
Proof. unfold drop_while_end. by rewrite rev_app_distr. Qed.

(** Reading lines one after the other. *)
Definition read_lines (ls : list (list Z)) (x : sections) : sections :=
  fold_left (fun x l => (prop_line x l).1) ls x.

Lemma prop_line_goes_on x l : (prop_line x l).2 = true.
Proof. unfold prop_line. repeat case_match; done. Qed.

Lemma prop_line_eol x l : prop_line x (l ++ [NL]) = prop_line x l.
Proof. unfold prop_line. by rewrite drop_eol_nl. Qed.

Lemma readline_lines ls x :
  Forall (fun l => 0 ∉ l) ls ->
  readline_loop false prop_line (map (fun l => l ++ [NL]) ls) x = read_lines ls x.
Proof.
  intros H. revert x. induction H as [|l ls Hl _ IH]; intros x; [done|].
  cbn [map readline_loop]. rewrite trim_line_nl, prop_line_eol by done.
  pose proof (prop_line_goes_on x l) as Hg. unfold read_lines. cbn [fold_left].
  destruct (prop_line x l) as [x' go]. cbn in *. subst go. apply IH.
Qed.

Lemma parse_prop_lines ls :
  Forall (fun l => (NL ∉ l) /\ (0 ∉ l)) ls ->
  parse_prop (with_eols ls) = read_lines ls (Sections [] [] (-1) false).
Proof.
  intros H. unfold parse_prop, file_readline, with_eols. rewrite getlines_concat.
  - apply readline_lines. eapply Forall_impl; [exact H|]. by intros l [_ ?].
  - eapply Forall_impl; [exact H|]. by intros l [? _].
Qed.

Definition version_of (v : Z) (line : list Z) : Z :=
  if starts_with line (B "versionCode=") then
    let code_str := drop 12 line in
    let '(val, _, rest) := strtol code_str in
    if bool_decide (rest = code_str) then v else val
  else v.

Lemma prop_line_plain x l :
  plain_line l ->
  (prop_line x l).1
  = if sec_in_post x
    then Sections (sec_pre x) (join_line (sec_post x) l) (version_of (sec_version x) l) true
    else Sections (join_line (sec_pre x) l) (sec_post x) (version_of (sec_version x) l) false.
Proof.
  intros (Hn & Hz & He & Hb & Hg & Hd). unfold prop_line. rewrite He.
  rewrite bool_decide_false by done. rewrite Hg, Hd. by destruct (sec_in_post x).
Qed.

Lemma read_lines_plain ls x :
  Forall plain_line ls ->
  read_lines ls x
  = if sec_in_post x
    then Sections (sec_pre x) (fold_left join_line ls (sec_post x))
           (fold_left version_of ls (sec_version x)) true
    else Sections (fold_left join_line ls (sec_pre x)) (sec_post x)
           (fold_left version_of ls (sec_version x)) false.
Proof.
  intros H. revert x. unfold read_lines.
  induction H as [|l ls Hl _ IH]; intros [pre post v b]; [by destruct b|].
  cbn [fold_left]. rewrite prop_line_plain by done. rewrite IH. by destruct b.
Qed.

(** The bracketed status in front of a description. *)
Definition badge (abi_pretty : list Z) (monitor_ok abi_ok : bool) : list Z :=
  B "[Monitor: " ++ icon monitor_ok ++ B ", NyaZygisk " ++ abi_pretty ++ B ": " ++ icon abi_ok
  ++ B "] ".

Lemma find_char_app s t c :
  c ∉ s -> find_char (s ++ c :: t) c = Some (length s).
Proof.
  induction s as [|x s IH]; intros H; cbn; [by rewrite Z.eqb_refl|].
  apply not_elem_of_cons in H as [Hx Hs]. destruct (Z.eqb_spec x c); [congruence|].
  by rewrite IH.
Qed.

Lemma clean_value_no_pad d : clean_value d -> drop_while is_pad d = d.
Proof.
  intros (_ & _ & _ & H). unfold clean_step in H. destruct d as [|c d]; [done|].
  set (l := c :: d) in *.
  assert (E : starts_with l MON = false \/ find_char l 93 = None).
  { destruct (starts_with l MON) eqn:Em; [|by left]. destruct (find_char l 93) eqn:Ef; [|by right].
    exfalso. repeat case_match; simplify_eq; by match goal with H : _ = l |- _ =>
      apply (f_equal length) in H; unfold l in H; rewrite ?length_drop in H; cbn in H; lia end. }
  assert (H' : (let rest := drop_while is_pad l in
                if bool_decide (rest = []) then ([], false)
                else if (length rest <? length l)%nat then (rest, true) else (l, false))
               = (l, false)).
  { destruct E as [E|E]; rewrite E in H; [exact H|]. destruct (starts_with l MON); exact H. }
  cbn zeta in H'. case_bool_decide; [by injection H'|].
  destruct (Nat.ltb_spec (length (drop_while is_pad l)) (length l)) as [|Hge]; [done|].
  assert (Hle := drop_while_le is_pad l).
  cbn in *. destruct (is_pad c); [|done].
  pose proof (drop_while_le is_pad d). lia.
Qed.

Lemma clean_desc_badge abi a b d :
  93 ∉ abi -> clean_value d -> clean_desc (badge abi a b ++ d) = d.
Proof.
  intros Habi Hd. pose proof (clean_value_no_pad d Hd) as Hp. destruct Hd as (_ & _ & _ & Hd).
  set (body := B "[Monitor: " ++ icon a ++ B ", NyaZygisk " ++ abi ++ B ": " ++ icon b).
  assert (Eb : badge abi a b ++ d = body ++ 93 :: 32 :: d).
  { unfold badge, body. change (B "] ") with [93; 32]. by rewrite <- !app_assoc. }
  assert (Hbody : 93 ∉ body).
  { unfold body. rewrite !not_elem_of_app. repeat split; try done; try vm_decide;
      destruct a; try vm_decide; destruct b; vm_decide. }
  unfold clean_desc. rewrite Eb. cbn [clean_loop]. unfold clean_step at 1.
  assert (Hst : starts_with (body ++ 93 :: 32 :: d) MON = true).
  { apply starts_with_spec. unfold body. eexists. rewrite <- !app_assoc. reflexivity. }
  rewrite Hst, find_char_app by done.
  replace (drop (S (length body)) (body ++ 93 :: 32 :: d)) with (32 :: d)
    by (rewrite drop_app_ge by lia; by replace (S (length body) - length body)%nat with 1%nat by lia).
  rewrite bool_decide_false by done. cbn [drop_while]. change (is_pad 32) with true. cbn [drop_while].
  rewrite Hp. assert (Hlast : forall n, (0 < n)%nat -> clean_loop n d = d).
  { intros [|n] Hn; [lia|]. cbn [clean_loop]. by rewrite Hd. }
  assert (Hlen : Nat.lt 0 (length (body ++ 93 :: 32 :: d))) by (rewrite length_app; cbn; lia).
  case_bool_decide as Hnil.
  - etransitivity; [|by apply (Hlast (length (body ++ 93 :: 32 :: d)))]. by rewrite Hnil.
  - assert (Nat.ltb (length d) (length (32 :: d)) = true) as -> by (apply Nat.ltb_lt; cbn; lia).
    by apply Hlast.
Qed.

Lemma prop_line_desc pre v d :
  (NL ∉ d) -> (0 ∉ d) -> drop_while_end is_eol (DESC ++ d) = DESC ++ d ->
  (prop_line (Sections pre [] v false) (DESC ++ d)).1 = Sections pre (clean_desc d) v true.
Proof. intros Hn Hz He. unfold prop_line. rewrite He. reflexivity. Qed.

Lemma drop_eol_app u d :
  drop_while_end is_eol d = d -> d <> [] -> drop_while_end is_eol (u ++ d) = u ++ d.
Proof.
  unfold drop_while_end. rewrite rev_app_distr. intros Hd Hne.
  destruct (rev d) as [|c r] eqn:E.
  { apply (f_equal (@rev Z)) in E. rewrite rev_involutive in E. done. }
  cbn in *. destruct (is_eol c).
  - exfalso. apply (f_equal length) in Hd. rewrite length_rev in Hd.
    pose proof (drop_while_le is_eol r). apply (f_equal length) in E. rewrite length_rev in E.
    cbn in E. lia.
  - change (c :: r ++ rev u) with ((c :: r) ++ rev u). rewrite <- E, <- rev_app_distr.
    by rewrite rev_involutive.
Qed.

Lemma drop_eol_desc u d :
  drop_while_end is_eol u = u -> drop_while_end is_eol d = d ->
  drop_while_end is_eol (u ++ d) = u ++ d.
Proof.
  intros Hu Hd. destruct (decide (d = [])) as [->|Hne]; [by rewrite app_nil_r|].
  by apply drop_eol_app.
Qed.

(** Reading a file made of lines, a description and lines. *)
Lemma parse_installed pls u qls :
  Forall plain_line pls -> Forall plain_line qls ->
  (NL ∉ u) -> (0 ∉ u) -> drop_while_end is_eol u = u ->
  parse_prop (installed_prop pls u qls)
  = Sections (fold_left join_line pls []) (fold_left join_line qls (clean_desc u))
      (fold_left version_of qls (fold_left version_of pls (-1))) true.
Proof.
  intros Hp Hq Hu1 Hu2 Hu3. unfold installed_prop.
  assert (Hplain : forall ls, Forall plain_line ls -> Forall (fun l => (NL ∉ l) /\ (0 ∉ l)) ls)
    by (intros ls H; eapply Forall_impl; [exact H|]; intros l (? & ? & _); done).
  rewrite parse_prop_lines.
  - unfold read_lines. rewrite !fold_left_app.
    fold (read_lines pls (Sections [] [] (-1) false)). rewrite (read_lines_plain pls) by done.
    cbn [sec_in_post sec_pre sec_post sec_version fold_left].
    rewrite prop_line_desc by (try done; by apply drop_eol_desc).
    fold (read_lines qls (Sections (fold_left join_line pls []) (clean_desc u)
                            (fold_left version_of pls (-1)) true)).
    by rewrite read_lines_plain.
  - apply Forall_app; split; [by apply Hplain|]. apply Forall_app; split; [|by apply Hplain].
    constructor; [|constructor]. rewrite !not_elem_of_app. split; split; try done; vm_decide.
Qed.

(** Rendering sections whose second one starts with the text [d]. *)
Lemma render_sections pls d qls abi a b :
  Forall plain_line pls -> Forall plain_line qls -> (NL ∉ d) -> (d = [] -> qls = []) ->
  runtime_status (fold_left join_line pls []) (fold_left join_line qls d) abi a b
  = installed_prop pls (badge abi a b ++ d) qls.
Proof.
  intros Hp Hq Hd Hemp. unfold runtime_status. rewrite with_nl_section by done.
  assert (Hpost : (if bool_decide (fold_left join_line qls d = []) then [NL]
                   else with_nl (fold_left join_line qls d)) = d ++ [NL] ++ with_eols qls).
  { destruct (decide (d = [])) as [E|Hne].
    - rewrite E, (Hemp E). done.
    - pose proof (with_nl_join qls d Hne (plain_no_nl _ Hd Hne) Hq) as Hj.
      case_bool_decide as Hnil; [|done]. rewrite Hnil in Hj. by destruct d. }
  rewrite Hpost. unfold installed_prop, with_eols. rewrite !map_app, !concat_app. cbn [map concat].
  rewrite app_nil_r. unfold badge. change (B "description=[Monitor: ") with (DESC ++ B "[Monitor: ").
  by rewrite <- !app_assoc.
Qed.

Lemma badge_plain abi a b c :
  c < 32 -> c ∉ abi -> c ∉ badge abi a b.
Proof.
  intros Hc Ha. unfold badge. rewrite !not_elem_of_app.
  assert (Hi : forall i, c ∉ icon i) by (intros [|]; cbn; rewrite !not_elem_of_cons, elem_of_nil; lia).
  repeat split; auto; cbn; rewrite !not_elem_of_cons, elem_of_nil; lia.
Qed.

(** The status badge never piles up and nothing is lost: take any
    installed module.prop made of plain lines around a description that is
    clean, and not empty unless it is the last line. Rendering the monitor's
    status into it and reading the result back gives the same sections and
    version as the original file, for every status. *)
Theorem prop_roundtrip pls desc qls abi_pretty monitor_ok abi_ok :
  Forall plain_line pls -> Forall plain_line qls -> clean_value desc ->
  (desc = [] -> qls = []) -> (93 ∉ abi_pretty) -> (NL ∉ abi_pretty) -> (0 ∉ abi_pretty) ->
  let x := parse_prop (installed_prop pls desc qls) in
  parse_prop (runtime_status (sec_pre x) (sec_post x) abi_pretty monitor_ok abi_ok) = x.
Proof.
  intros Hp Hq Hd Hemp Ha1 Ha2 Ha3 x. assert (Hc := Hd). destruct Hd as (Hd1 & Hd2 & Hd3 & Hd4).
  unfold x. rewrite parse_installed by done. cbn [sec_pre sec_post].
  assert (clean_desc desc = desc) as -> by (unfold clean_desc; cbn [clean_loop]; by rewrite Hd4).
  rewrite render_sections by done. rewrite parse_installed; [|done|done|..].
  - by rewrite clean_desc_badge.
  - rewrite not_elem_of_app. split; [by apply badge_plain|done].
  - rewrite not_elem_of_app. split; [by apply badge_plain|done].
  - apply drop_eol_desc; [|done]. unfold badge. rewrite !app_assoc. by apply drop_eol_app.
Qed.

(** An empty description swallows the next line: when the description of
    the installed file is empty and another property follows it, that line is
    rendered as part of the description, so the property it holds is gone
    from the file the monitor writes. *)
Theorem empty_description_swallows_line pls q qls abi_pretty monitor_ok abi_ok :
  Forall plain_line pls -> Forall plain_line (q :: qls) ->
  let x := parse_prop (installed_prop pls [] (q :: qls)) in
  runtime_status (sec_pre x) (sec_post x) abi_pretty monitor_ok abi_ok
  = installed_prop pls (badge abi_pretty monitor_ok abi_ok ++ q) qls.
Proof.
  intros Hp Hq x. unfold x. rewrite parse_installed by (try done; apply not_elem_of_nil).
  cbn [sec_pre sec_post]. change (clean_desc []) with (@nil Z). cbn [fold_left].
  change (join_line [] q) with q. apply Forall_cons in Hq as [Hq Hqs].
  apply render_sections; [done|done|apply Hq|]. intros E. by apply plain_line_not_nil in Hq.
Qed.

Lemma empty_description_swallows_line_witness :
  let x := parse_prop (B "id=a
description=
updateJson=https://x
") in
  runtime_status (sec_pre x) (sec_post x) (B "64-bit") true true
  = B "id=a
description=[Monitor: OK, NyaZygisk 64-bit: OK] updateJson=https://x
".
Proof.
  apply (empty_description_swallows_line [B "id=a"] (B "updateJson=https://x") [] (B "64-bit") true true);
    repeat constructor; try vm_decide; vm_compute; congruence.
Defined.

Lemma prop_roundtrip_witness :
  let x := parse_prop (B "id=nyazygisk
versionCode=42
description=Zygisk for all
updateJson=https://x
") in
  parse_prop (runtime_status (sec_pre x) (sec_post x) (B "64-bit") true false) = x.
Proof.
  apply (prop_roundtrip [B "id=nyazygisk"; B "versionCode=42"] (B "Zygisk for all")
           [B "updateJson=https://x"] (B "64-bit") true false);
    try vm_decide; repeat constructor; try vm_decide; vm_compute; congruence.
Defined.
