(* ===== verification/Monitor.v ===== *)
(** The init monitor: [AppMonitor] with its socket and SIGCHLD handlers, the
    per-ABI manager and the event loop (loader/src/ptracer/monitor_impl.cpp,
    monitor.hpp, zygote_abi.cpp, event_loop.cpp, types.hpp).

    All objects are members of one [AppMonitor] that call each other, so their
    fields form one record [monitor] and every method is a program over it.
    The 64-bit build is modelled ([abi_name_] is "64"). [module_dir] is what
    [get_module_dir] pinned, [sys_signame] the C library's signal names. *)
From S2P Require Import Prelude Sys Text SocketUtils Daemon ProcUtils ModuleProp.
Open Scope Z_scope.

(** ** Data *)

Inductive TracingState := TRACING | STOPPING | STOPPED | EXITING.

#[export] Instance TracingState_eq_dec : EqDecision TracingState.
Proof. solve_decision. Defined.

Record Status := Status_mk {
  supported : bool; zygote_injected : bool; daemon_running : bool; daemon_pid : Z;
  daemon_info : list Z; daemon_error_info : list Z }.

Record StartCounter := Counter { last_start_sec : Z; last_start_nsec : Z; count : Z }.

Record monitor := Mon {
  tracing_state : TracingState;
  monitor_stop_reason : list Z;
  prop_path : list Z;
  pre_section : list Z;
  post_section : list Z;
  last_written_status : list Z;
  initial_version_code : Z;
  status_ : Status;
  counter : StartCounter;
  epoll_fd : Z;
  running : bool;
  sock_fd : Z;
  buf_ : list Z;
  signal_fd : Z;
  process_ : gset Z;
  stub_processes : gset Z;
  dstate : daemon_state }.

Definition set_tracing_state (x : TracingState) (m : monitor) : monitor :=
  Mon x (monitor_stop_reason m) (prop_path m) (pre_section m) (post_section m)
    (last_written_status m) (initial_version_code m) (status_ m) (counter m) (epoll_fd m)
    (running m) (sock_fd m) (buf_ m) (signal_fd m) (process_ m) (stub_processes m) (dstate m).
Definition set_monitor_stop_reason (x : list Z) (m : monitor) : monitor :=
  Mon (tracing_state m) x (prop_path m) (pre_section m) (post_section m) (last_written_status m)
    (initial_version_code m) (status_ m) (counter m) (epoll_fd m) (running m) (sock_fd m) (buf_
    m) (signal_fd m) (process_ m) (stub_processes m) (dstate m).
Definition set_prop_path (x : list Z) (m : monitor) : monitor :=
  Mon (tracing_state m) (monitor_stop_reason m) x (pre_section m) (post_section m)
    (last_written_status m) (initial_version_code m) (status_ m) (counter m) (epoll_fd m)
    (running m) (sock_fd m) (buf_ m) (signal_fd m) (process_ m) (stub_processes m) (dstate m).
Definition set_pre_section (x : list Z) (m : monitor) : monitor :=
  Mon (tracing_state m) (monitor_stop_reason m) (prop_path m) x (post_section m)
    (last_written_status m) (initial_version_code m) (status_ m) (counter m) (epoll_fd m)
    (running m) (sock_fd m) (buf_ m) (signal_fd m) (process_ m) (stub_processes m) (dstate m).
Definition set_post_section (x : list Z) (m : monitor) : monitor :=
  Mon (tracing_state m) (monitor_stop_reason m) (prop_path m) (pre_section m) x
    (last_written_status m) (initial_version_code m) (status_ m) (counter m) (epoll_fd m)
    (running m) (sock_fd m) (buf_ m) (signal_fd m) (process_ m) (stub_processes m) (dstate m).
Definition set_last_written_status (x : list Z) (m : monitor) : monitor :=
  Mon (tracing_state m) (monitor_stop_reason m) (prop_path m) (pre_section m) (post_section m) x
    (initial_version_code m) (status_ m) (counter m) (epoll_fd m) (running m) (sock_fd m) (buf_
    m) (signal_fd m) (process_ m) (stub_processes m) (dstate m).
Definition set_initial_version_code (x : Z) (m : monitor) : monitor :=
  Mon (tracing_state m) (monitor_stop_reason m) (prop_path m) (pre_section m) (post_section m)
    (last_written_status m) x (status_ m) (counter m) (epoll_fd m) (running m) (sock_fd m) (buf_
    m) (signal_fd m) (process_ m) (stub_processes m) (dstate m).
Definition set_status_ (x : Status) (m : monitor) : monitor :=
  Mon (tracing_state m) (monitor_stop_reason m) (prop_path m) (pre_section m) (post_section m)
    (last_written_status m) (initial_version_code m) x (counter m) (epoll_fd m) (running m)
    (sock_fd m) (buf_ m) (signal_fd m) (process_ m) (stub_processes m) (dstate m).
Definition set_counter (x : StartCounter) (m : monitor) : monitor :=
  Mon (tracing_state m) (monitor_stop_reason m) (prop_path m) (pre_section m) (post_section m)
    (last_written_status m) (initial_version_code m) (status_ m) x (epoll_fd m) (running m)
    (sock_fd m) (buf_ m) (signal_fd m) (process_ m) (stub_processes m) (dstate m).
Definition set_epoll_fd (x : Z) (m : monitor) : monitor :=
  Mon (tracing_state m) (monitor_stop_reason m) (prop_path m) (pre_section m) (post_section m)
    (last_written_status m) (initial_version_code m) (status_ m) (counter m) x (running m)
    (sock_fd m) (buf_ m) (signal_fd m) (process_ m) (stub_processes m) (dstate m).
Definition set_running (x : bool) (m : monitor) : monitor :=
  Mon (tracing_state m) (monitor_stop_reason m) (prop_path m) (pre_section m) (post_section m)
    (last_written_status m) (initial_version_code m) (status_ m) (counter m) (epoll_fd m) x
    (sock_fd m) (buf_ m) (signal_fd m) (process_ m) (stub_processes m) (dstate m).
Definition set_sock_fd (x : Z) (m : monitor) : monitor :=
  Mon (tracing_state m) (monitor_stop_reason m) (prop_path m) (pre_section m) (post_section m)
    (last_written_status m) (initial_version_code m) (status_ m) (counter m) (epoll_fd m)
    (running m) x (buf_ m) (signal_fd m) (process_ m) (stub_processes m) (dstate m).
Definition set_buf_ (x : list Z) (m : monitor) : monitor :=
  Mon (tracing_state m) (monitor_stop_reason m) (prop_path m) (pre_section m) (post_section m)
    (last_written_status m) (initial_version_code m) (status_ m) (counter m) (epoll_fd m)
    (running m) (sock_fd m) x (signal_fd m) (process_ m) (stub_processes m) (dstate m).
Definition set_signal_fd (x : Z) (m : monitor) : monitor :=
  Mon (tracing_state m) (monitor_stop_reason m) (prop_path m) (pre_section m) (post_section m)
    (last_written_status m) (initial_version_code m) (status_ m) (counter m) (epoll_fd m)
    (running m) (sock_fd m) (buf_ m) x (process_ m) (stub_processes m) (dstate m).
Definition set_process_ (x : gset Z) (m : monitor) : monitor :=
  Mon (tracing_state m) (monitor_stop_reason m) (prop_path m) (pre_section m) (post_section m)
    (last_written_status m) (initial_version_code m) (status_ m) (counter m) (epoll_fd m)
    (running m) (sock_fd m) (buf_ m) (signal_fd m) x (stub_processes m) (dstate m).
Definition set_stub_processes (x : gset Z) (m : monitor) : monitor :=
  Mon (tracing_state m) (monitor_stop_reason m) (prop_path m) (pre_section m) (post_section m)
    (last_written_status m) (initial_version_code m) (status_ m) (counter m) (epoll_fd m)
    (running m) (sock_fd m) (buf_ m) (signal_fd m) (process_ m) x (dstate m).
Definition set_dstate (x : daemon_state) (m : monitor) : monitor :=
  Mon (tracing_state m) (monitor_stop_reason m) (prop_path m) (pre_section m) (post_section m)
    (last_written_status m) (initial_version_code m) (status_ m) (counter m) (epoll_fd m)
    (running m) (sock_fd m) (buf_ m) (signal_fd m) (process_ m) (stub_processes m) x.

(** Updates of the nested records. *)
Definition upd_status (f : Status -> Status) (m : monitor) : monitor := set_status_ (f (status_ m)) m.

Definition with_injected (b : bool) (s : Status) : Status :=
  Status_mk (supported s) b (daemon_running s) (daemon_pid s) (daemon_info s) (daemon_error_info s).
Definition with_supported (s : Status) : Status :=
  Status_mk true (zygote_injected s) (daemon_running s) (daemon_pid s) (daemon_info s)
    (daemon_error_info s).

(** The object after construction, before any handler ran. *)
Definition AppMonitor (d : daemon_state) : monitor :=
  Mon TRACING [] [] [] [] [] (-1) (Status_mk false false false (-1) [] []) (Counter 0 0 0)
    (-1) false (-1) [] (-1) ∅ ∅ d.

(** Commands of the control socket; [CmdOther] is any other number. *)
Inductive Command :=
| START | STOP | EXIT | ZYGOTE_INJECTED | DAEMON_SET_INFO | DAEMON_SET_ERROR_INFO
| SYSTEM_SERVER_STARTED | REARM | CmdOther (n : Z).

Definition command_of (n : Z) : Command :=
  if n =? 1 then START else if n =? 2 then STOP else if n =? 3 then EXIT
  else if n =? 4 then ZYGOTE_INJECTED else if n =? 5 then DAEMON_SET_INFO
  else if n =? 6 then DAEMON_SET_ERROR_INFO else if n =? 7 then SYSTEM_SERVER_STARTED
  else if n =? 8 then REARM else CmdOther n.

Definition CRASH_LOOP_RETRY_COUNT : Z := 5.
Definition CRASH_LOOP_WINDOW_SECONDS : Z := 30.
Definition SOCKET_NAME : list Z := B "init_monitor".
Definition EAGAIN : Z := 11.
Definition EPOLLIN_ET : Z := 0x80000001.
Definition SOCK_DGRAM_FLAGS : Z := 0x80802.
Definition MSG_PEEK_TRUNC : Z := 0x22.
Definition WALL_NOHANG : Z := 0x40000001.
Definition sizeof_siginfo : Z := 128.
Definition sizeof_MsgHead : Z := 8.
Definition sizeof_Command : Z := 4.
Definition PR_SET_PDEATHSIG : Z := 1.
Definition O_WRONLY_CREAT_TRUNC : Z := 0x241.

(** [stopped_with] of monitor.hpp. *)
Definition stopped_with (status sig event : Z) : bool :=
  WIFSTOPPED status && (Z.shiftr status 8 =? Z.lor sig (Z.shiftl event 8)).

Definition without_trailing_nuls (text : list Z) : list Z := drop_while_end (fun c => c =? 0) text.

Definition ABI_NAME : list Z := B "64".
Definition PROGRAM_PATH : list Z := B "/system/bin/app_process64".

(** ** Status text *)

Definition write_abi_status_section (state : TracingState) (s : Status) : list Z :=
  if supported s then
    B "zygote_" ++ ABI_NAME ++ B "_status="
    ++ (if decide (state = TRACING)
        then (if zygote_injected s then B "injected" else B "not_injected")
        else B "unknown")
    ++ [NL] ++ B "daemon_" ++ ABI_NAME ++ B "_status="
    ++ (if daemon_running s then
          B "running" ++ (if bool_decide (daemon_info s = []) then [] else [NL] ++ daemon_info s)
        else
          B "crashed"
          ++ (if bool_decide (daemon_error_info s = []) then []
              else [NL] ++ B "daemon_" ++ ABI_NAME ++ B "_error=" ++ daemon_error_info s))
  else [].

Definition abi_pretty (abi_name : list Z) : list Z :=
  if beq abi_name (B "64") then B "64-bit"
  else if beq abi_name (B "32") then B "32-bit" else abi_name.

Definition runtime_text (m : monitor) : list Z :=
  let s := status_ m in
  runtime_status (pre_section m) (post_section m) (abi_pretty ABI_NAME)
    (bool_decide (tracing_state m = TRACING))
    (supported s && daemon_running s && zygote_injected s).

Definition installed_text (m : monitor) : list Z :=
  runtime_text m ++ B "monitor_status="
  ++ (match tracing_state m with
      | TRACING => B "tracing"
      | STOPPING | STOPPED => B "stopped"
      | EXITING => B "exited"
      end)
  ++ (if negb (bool_decide (tracing_state m = TRACING))
         && negb (bool_decide (monitor_stop_reason m = []))
      then [NL] ++ B "monitor_stop_reason=" ++ monitor_stop_reason m else [])
  ++ [NL] ++ write_abi_status_section (tracing_state m) (status_ m) ++ [NL].

Section Monitor.
Context {W : Type} `{!World W} (fuel : nat).
Context (module_dir : list Z) (sys_signame : Z -> list Z).
Abbreviation K := (M W monitor).

Definition tracer_path : list Z := module_dir ++ B "/bin/zygisk-ptrace64".
Definition daemon_path : list Z := module_dir ++ B "/bin/zygiskd64".
Definition module_prop : list Z := module_dir ++ B "/module.prop".

Definition update_status : K unit :=
  m ← get;
  let installed := installed_text m in
  if beq installed (last_written_status m) then mret tt
  else
    modify (set_last_written_status installed);;
    atomic_write_file (prop_path m) installed;;
    should_write ← (if 0 <=? initial_version_code m then
                      r ← syscall (CFile module_prop);
                      mret (if r_ret r =? 0 then true
                            else should_write_installed (initial_version_code m) (r_data r))
                    else mret true);
    if should_write : bool then atomic_write_file module_prop (runtime_text m);; mret tt
    else mret tt.

Definition prepare_environment : K bool :=
  m ← get;
  let path := TMP_PATH (dstate m) ++ B "/module.prop" in
  modify (set_prop_path path);;
  r ← syscall (COpen path O_WRONLY_CREAT_TRUNC 420);
  (if 0 <=? r_ret r then do_ (CClose (r_ret r)) else mret tt);;
  r ← syscall (CFile module_prop);
  if r_ret r =? 0 then mret false
  else
    let x := parse_prop (r_data r) in
    modify (set_pre_section (sec_pre x));;
    modify (set_post_section (sec_post x));;
    modify (set_initial_version_code (sec_version x));;
    update_status;;
    mret true.

(** ** State changes *)

Definition set_state (x : TracingState) : K unit := modify (set_tracing_state x).

Definition request_start : K unit :=
  m ← get;
  (match tracing_state m with
   | STOPPING => set_state TRACING
   | STOPPED => do_ (CPtrace PTRACE_SEIZE 1 0 PTRACE_O_TRACEFORK);; set_state TRACING
   | _ => mret tt
   end);;
  update_status.

Definition request_stop (reason : list Z) : K unit :=
  m ← get;
  match tracing_state m with
  | TRACING =>
      set_state STOPPING;;
      modify (set_monitor_stop_reason reason);;
      do_ (CPtrace PTRACE_INTERRUPT 1 0 0);;
      update_status
  | _ => mret tt
  end.

Definition request_exit : K unit :=
  set_state EXITING;;
  modify (set_monitor_stop_reason (B "user requested"));;
  update_status;;
  modify (set_running false).

Definition notify_init_detached : K unit := set_state STOPPED.

(** ** ZygoteAbiManager *)

Definition is_zygote_cmdline (pid : Z) : K bool :=
  argv ← read_cmdline pid;
  match argv with
  | [] => mret false
  | name :: _ =>
      let name := basename name in
      if starts_with name (B "zygote") then mret true
      else mret (existsb (fun arg => beq arg (B "--zygote")) argv)
  end.

Definition notify_injected : K unit := modify (upd_status (with_injected true)).

Definition set_daemon_info (info : list Z) : K unit :=
  modify (upd_status (fun s =>
    Status_mk (supported s) (zygote_injected s) (daemon_running s) (daemon_pid s)
      (without_trailing_nuls info) (daemon_error_info s))).

Definition set_daemon_crashed (error : list Z) : K unit :=
  modify (upd_status (fun s =>
    Status_mk (supported s) (zygote_injected s) false (daemon_pid s)
      (daemon_info s) (without_trailing_nuls error))).

(** One start of a zygote at time [sec].[nsec]. *)
Definition bump (sec nsec : Z) (c : StartCounter) : StartCounter :=
  Counter sec nsec
    (if sec - last_start_sec c <? CRASH_LOOP_WINDOW_SECONDS then s32 (count c + 1) else 1).

Definition is_in_crash_loop : K bool :=
  r ← syscall CClock;
  modify (fun m => set_counter (bump (nth 0 (r_aux r) 0) (nth 1 (r_aux r) 0) (counter m)) m);;
  m ← get;
  mret (CRASH_LOOP_RETRY_COUNT <=? count (counter m)).

(** Whether the daemon runs, and [*started]. *)
Definition ensure_daemon_created : K (bool * bool) :=
  m ← get;
  if daemon_pid (status_ m) =? -1 then
    r ← syscall CFork;
    let pid := r_ret r in
    if pid <? 0 then mret (false, false)
    else if pid =? 0 then
      do_ (CPrctl PR_SET_PDEATHSIG SIGKILL);;
      r ← syscall CGetppid;
      if r_ret r =? 1 then exit_ 1
      else
        execl daemon_path [daemon_path; B "--workdir"; TMP_PATH (dstate m)];;
        exit_ 1
    else
      modify (upd_status (fun s =>
        Status_mk true (zygote_injected s) true pid (daemon_info s) (daemon_error_info s)));;
      m ← get;
      mret (daemon_running (status_ m), true)
  else mret (daemon_running (status_ m), false).

(** [None] is the null pointer. *)
Definition check_and_prepare_injection : K (option (list Z)) :=
  looping ← is_in_crash_loop;
  if looping : bool then request_stop (B "zygote crashed");; mret None
  else
    modify (upd_status (with_injected false));;
    '(ok, _) ← ensure_daemon_created;
    if negb ok then request_stop (B "daemon not running");; mret None
    else mret (Some tracer_path).

Definition prepare_aux_injection : K (option (list Z)) :=
  '(ok, _) ← ensure_daemon_created;
  mret (if ok : bool then Some tracer_path else None).

Definition handle_daemon_exit_if_match (pid process_status : Z) : K bool :=
  m ← get;
  if supported (status_ m) && (pid =? daemon_pid (status_ m)) then
    let status_str := parse_status sys_signame process_status in
    modify (upd_status (fun s =>
      Status_mk (supported s) (zygote_injected s) false (-1) (daemon_info s)
        (if bool_decide (daemon_error_info s = []) then status_str else daemon_error_info s)));;
    update_status;;
    mret true
  else mret false.

Definition attach_running (pid : Z) (mode_flag : list Z) : K unit :=
  child ← fork_dont_care;
  if child =? 0 then
    execl tracer_path [basename tracer_path; B "trace"; to_string pid; mode_flag];;
    exit_ 1
  else mret tt.

(** Sorts the processes that run the program: zygotes, in order, and the
    last one called system_server (-1 if none). *)
Fixpoint classify (pids zygotes : list Z) (system_server : Z) : K (list Z * Z) :=
  match pids with
  | [] => mret (zygotes, system_server)
  | pid :: pids' =>
      ppid ← get_ppid pid;
      if ppid =? 1 then
        z ← is_zygote_cmdline pid;
        classify pids' (if z : bool then zygotes ++ [pid] else zygotes) system_server
      else
        comm ← get_comm pid;
        classify pids' zygotes (if beq comm (B "system_server") then pid else system_server)
  end.

(** Attaches to the zygotes without the library; whether there was one. *)
Fixpoint attach_zygotes (pids : list Z) (any_bare : bool) : K bool :=
  match pids with
  | [] => mret any_bare
  | pid :: pids' =>
      mapped ← has_library_mapped pid (B "libzygisk.so");
      if mapped : bool then
        modify (upd_status (with_injected true));;
        attach_zygotes pids' any_bare
      else
        attach_running pid (B "--standalone");;
        attach_zygotes pids' true
  end.

Definition zoom_daemon {A} (x : M W daemon_state A) : K A := zoom dstate set_dstate x.

Definition rearm : K bool :=
  '(ok, daemon_started) ← ensure_daemon_created;
  if negb ok then mret false
  else
    (if daemon_started : bool then mret tt else zoom_daemon (RefreshModules fuel);; mret tt);;
    pids ← find_processes_by_exe PROGRAM_PATH;
    '(zygote_pids, system_server_pid) ← classify pids [] (-1);
    if bool_decide (zygote_pids = []) then mret true
    else
      modify (upd_status with_supported);;
      any_bare ← attach_zygotes zygote_pids false;
      (if system_server_pid =? -1 then mret tt
       else if negb any_bare then mret tt
       else attach_running system_server_pid (B "--system_server"));;
      update_status;;
      mret true.

Definition request_rearm : K unit :=
  m ← get;
  (if decide (tracing_state m = TRACING) then mret tt else request_start);;
  ok ← rearm;
  if negb ok then request_stop (B "rearm failed") else update_status.

(** ** The control socket *)

Definition SocketHandler_Init : K bool :=
  m ← get;
  r ← syscall (CSocket PF_UNIX SOCK_DGRAM_FLAGS 0);
  modify (set_sock_fd (r_ret r));;
  if r_ret r =? -1 then mret false
  else
    let path := c_str (TMP_PATH (dstate m)) ++ B "/" ++ SOCKET_NAME in
    if sun_path_size <? Z.of_nat (length path) + 1 then crash
    else
      do_ (CUnlink path);;
      b ← syscall (CBind (r_ret r) path);
      if r_ret b =? -1 then mret false else mret true.

(** [buf_.resize(n)]: kept bytes stay, new ones are zero; a size that is
    negative as a [ssize_t] is beyond [max_size] and throws. *)
Definition resize (n : Z) : K unit :=
  if n <? 0 then crash
  else modify (fun m => set_buf_ (take (Z.to_nat n) (buf_ m ++ replicate (Z.to_nat n) 0)) m).

(** [recv] into [buf_]: the bytes that arrived replace its first ones. *)
Definition recv_buf (len flags : Z) : K Z :=
  m ← get;
  r ← syscall (CRecv (sock_fd m) len flags);
  let got := take (Z.to_nat len) (r_data r) in
  (if r_ret r =? -1 then mret tt
   else modify (fun m => set_buf_ (got ++ drop (length got) (buf_ m)) m));;
  mret (r_ret r).

(** The fields of the message head in [buf_]. *)
Definition msg_cmd (m : monitor) : Z := s32 (le_Z (take 4 (buf_ m))).
Definition msg_length (m : monitor) : Z := s32 (le_Z (take 4 (drop 4 (buf_ m)))).

(** The payload of [len] bytes without its trailing NULs; bytes outside the
    buffer are undefined. *)
Definition payload : K (list Z) :=
  m ← get;
  let len := u64 (msg_length m) in
  if Z.of_nat (length (buf_ m)) <? sizeof_MsgHead + len then crash
  else mret (drop_while_end (fun c => c =? 0) (take (Z.to_nat len) (drop 8 (buf_ m)))).

Definition dispatch : K unit :=
  m ← get;
  if Z.of_nat (length (buf_ m)) <? sizeof_Command then crash
  else
  match command_of (msg_cmd m) with
  | START => request_start
  | STOP => request_stop (B "user requested")
  | EXIT => request_exit
  | REARM => request_rearm
  | ZYGOTE_INJECTED => notify_injected;; update_status
  | DAEMON_SET_INFO => info ← payload; set_daemon_info info;; update_status
  | DAEMON_SET_ERROR_INFO => error ← payload; set_daemon_crashed error;; update_status
  | SYSTEM_SERVER_STARTED => mret tt
  | CmdOther _ => mret tt
  end.

Definition has_payload (c : Command) : bool :=
  match c with DAEMON_SET_INFO | DAEMON_SET_ERROR_INFO => true | _ => false end.

(** One round of the receive loop; [false] is the [break]. *)
Definition receive_one : K bool :=
  resize sizeof_MsgHead;;
  nread ← recv_buf sizeof_MsgHead MSG_PEEK_TRUNC;
  if nread =? -1 then
    errno ← get_errno;
    mret (negb (errno =? EAGAIN))
  else
    m ← get;
    let big := has_payload (command_of (msg_cmd m)) in
    if (if big then u64 nread <? sizeof_MsgHead else negb (u64 nread =? sizeof_Command)) then
      recv_buf (Z.of_nat (length (buf_ m))) 0;; mret true
    else
      let real_size := if big then s64 (sizeof_MsgHead + msg_length m) else sizeof_Command in
      resize real_size;;
      nread ← recv_buf real_size 0;
      if nread =? -1 then mret true
      else if negb (nread =? real_size) then mret true
      else dispatch;; mret true.

Fixpoint SocketHandler_HandleEvent (n : nat) : K unit :=
  match n with
  | O => out_of_fuel
  | S n' => go ← receive_one; if go : bool then SocketHandler_HandleEvent n' else mret tt
  end.

(** ** Children *)

Definition SigChldHandler_Init : K bool :=
  r ← syscall (CSigprocmask 0 [SIGCHLD]);
  if r_ret r =? -1 then mret false
  else
    r ← syscall (CSignalfd [SIGCHLD] 0x80800);
    modify (set_signal_fd (r_ret r));;
    if r_ret r =? -1 then mret false
    else
      r ← syscall (CPtrace PTRACE_SEIZE 1 0 PTRACE_O_TRACEFORK);
      if r_ret r =? -1 then mret false else mret true.

Definition handleParentEvent (pid status : Z) : K unit :=
  m ← get;
  (** [true]: one of the early returns was taken *)
  returned ←
    (if stopped_with status SIGTRAP PTRACE_EVENT_FORK then
       do_ (CPtrace PTRACE_GETEVENTMSG pid 0 0);; mret false
     else if (pid =? 1) && stopped_with status SIGTRAP PTRACE_EVENT_STOP
             && bool_decide (tracing_state m = STOPPING) then
       do_ (CPtrace PTRACE_DETACH 1 0 0);; notify_init_detached;; mret true
     else if negb (pid =? 1) && (WIFEXITED status || WIFSIGNALED status) then
       modify (fun m => set_stub_processes (stub_processes m ∖ {[pid]}) m);; mret true
     else mret false);
  if returned : bool then mret tt
  else if WIFSTOPPED status then
    let sig := WSTOPSIG status in
    if (WPTEVENT status =? 0)
       && negb ((sig =? SIGSTOP) || (sig =? SIGTSTP) || (sig =? SIGTTIN) || (sig =? SIGTTOU))
       && negb (negb (pid =? 1) && (sig =? SIGCHLD))
    then do_ (CPtrace PTRACE_CONT pid 0 sig)
    else do_ (CPtrace PTRACE_CONT pid 0 0)
  else mret tt.

Definition handleNewProcess (pid : Z) : K unit :=
  modify (fun m => set_process_ (process_ m ∪ {[pid]}) m);;
  do_ (CPtrace PTRACE_SETOPTIONS pid 0 PTRACE_O_TRACEEXEC);;
  do_ (CPtrace PTRACE_CONT pid 0 0).

(** Hands a stopped target to the injector: whether it was handled, and the
    status of the last wait. *)
Definition hand_over (pid status : Z) (is_hyos_spawner : bool) (tracer : list Z) : K (bool * Z) :=
  do_ (CKill pid SIGSTOP);;
  do_ (CPtrace PTRACE_CONT pid 0 0);;
  r ← syscall (CWaitpid pid WALL);
  let status := if r_ret r =? -1 then status else nth 0 (r_aux r) 0 in
  if stopped_with status SIGSTOP 0 then
    do_ (CPtrace PTRACE_DETACH pid 0 SIGSTOP);;
    p ← fork_dont_care;
    (if p =? 0 then
       execl tracer ([basename tracer; B "trace"; to_string pid]
                     ++ (if is_hyos_spawner then [] else [B "--spawn"]));;
       do_ (CKill pid SIGCONT);;
       exit_ 1
     else if p =? -1 then do_ (CKill pid SIGCONT)
     else mret tt);;
    mret (true, status)
  else mret (false, status).

(** Whether the process was promoted or handed off, and the status. *)
Definition handleExecEvent (pid status : Z) : K (bool * Z) :=
  program ← get_program pid;
  res ←
    (if contains program (B "stub_zygote") then
       modify (fun m => set_stub_processes (stub_processes m ∪ {[pid]}) m);;
       do_ (CPtrace PTRACE_SETOPTIONS pid 0 (Z.lor PTRACE_O_TRACEFORK PTRACE_O_TRACEEXEC));;
       do_ (CPtrace PTRACE_CONT pid 0 0);;
       mret (true, status)
     else
       m ← get;
       if negb (bool_decide (tracing_state m = TRACING)) then mret (false, status)
       else
         let clean_prog := if ends_with program (B " (deleted)")
                           then take (length program - 10) program else program in
         let is_zygote := beq clean_prog PROGRAM_PATH in
         let is_hyos_spawner := beq clean_prog (B "/system_ext/bin/hyos_spawner")
                                || ends_with clean_prog (B "/hyos_spawner") in
         if negb is_zygote && negb is_hyos_spawner then mret (false, status)
         else
           tracer ← (if is_hyos_spawner then prepare_aux_injection
                     else check_and_prepare_injection);
           match tracer with
           | None => mret (false, status)
           | Some t => hand_over pid status is_hyos_spawner t
           end);
  update_status;;
  mret res.

Definition handleTracedProcess (pid status : Z) : K unit :=
  '(keep_attached, status) ←
    (if stopped_with status SIGTRAP PTRACE_EVENT_EXEC then handleExecEvent pid status
     else if stopped_with status SIGTRAP PTRACE_EVENT_STOP then
       do_ (CPtrace PTRACE_SETOPTIONS pid 0 PTRACE_O_TRACEEXEC);;
       do_ (CPtrace PTRACE_CONT pid 0 0);;
       mret (true, status)
     else mret (false, status));
  if keep_attached : bool then
    if stopped_with status SIGTRAP PTRACE_EVENT_EXEC
    then modify (fun m => set_process_ (process_ m ∖ {[pid]}) m)
    else mret tt
  else
    modify (fun m => set_process_ (process_ m ∖ {[pid]}) m);;
    if WIFSTOPPED status then do_ (CPtrace PTRACE_DETACH pid 0 0) else mret tt.

Definition handleChildEvent (pid status : Z) : K unit :=
  m ← get;
  if (pid =? 1) || bool_decide (pid ∈ stub_processes m) then handleParentEvent pid status
  else
    matched ← handle_daemon_exit_if_match pid status;
    if matched : bool then mret tt
    else
      m ← get;
      if bool_decide (pid ∈ process_ m) then handleTracedProcess pid status
      else handleNewProcess pid.

Fixpoint reap (n : nat) : K unit :=
  match n with
  | O => out_of_fuel
  | S n' =>
      r ← syscall (CWaitpid (-1) WALL_NOHANG);
      if 0 <? r_ret r
      then handleChildEvent (r_ret r) (nth 0 (r_aux r) 0);; reap n'
      else mret tt
  end.

(** [fdsi.ssi_signo] is the first word of what was read. *)
Fixpoint SigChldHandler_HandleEvent (n : nat) : K unit :=
  match n with
  | O => out_of_fuel
  | S n' =>
      m ← get;
      r ← syscall (CRead (signal_fd m) sizeof_siginfo);
      if r_ret r =? -1 then
        errno ← get_errno;
        if errno =? EAGAIN then mret tt else SigChldHandler_HandleEvent n'
      else if negb (r_ret r =? sizeof_siginfo) || negb (le_Z (take 4 (r_data r)) =? SIGCHLD)
      then SigChldHandler_HandleEvent n'
      else reap n';; SigChldHandler_HandleEvent n'
  end.

(** ** The event loop *)

Definition EventLoop_Init : K bool :=
  r ← syscall CEpollCreate;
  modify (set_epoll_fd (r_ret r));;
  mret (negb (r_ret r =? -1)).

Definition RegisterHandler (fd events : Z) : K bool :=
  m ← get;
  r ← syscall (CEpollCtl (epoll_fd m) 1 fd events);
  mret (negb (r_ret r =? -1)).

(** The handler whose address [data.ptr] carries: 0 is the SIGCHLD handler,
    anything else the socket handler. *)
Definition HandleEvent (h : Z) : K unit :=
  if h =? 0 then SigChldHandler_HandleEvent fuel else SocketHandler_HandleEvent fuel.

Fixpoint dispatch_events (handlers : list Z) : K unit :=
  match handlers with
  | [] => mret tt
  | h :: handlers' =>
      HandleEvent h;;
      m ← get;
      if running m then dispatch_events handlers' else mret tt
  end.

Fixpoint Loop_ (n : nat) : K unit :=
  m ← get;
  if running m then
    match n with
    | O => out_of_fuel
    | S n' =>
        r ← syscall (CEpollWait (epoll_fd m) 2);
        if r_ret r =? -1 then Loop_ n'
        else dispatch_events (take (Z.to_nat (r_ret r)) (r_aux r));; Loop_ n'
    end
  else mret tt.

Definition Loop (n : nat) : K unit := modify (set_running true);; Loop_ n.

Definition run (n : nat) : K unit :=
  EventLoop_Init;;
  ok ← SigChldHandler_Init;
  if negb ok then mret tt
  else
    m ← get;
    RegisterHandler (signal_fd m) EPOLLIN_ET;;
    ok ← SocketHandler_Init;
    if negb ok then mret tt
    else
      m ← get;
      RegisterHandler (sock_fd m) EPOLLIN_ET;;
      Loop n.
End Monitor.

(** ** Programs that leave the tracing state alone

    [bal]: how often init was seized less how often it was detached. *)
Fixpoint bal (log : list event) : Z :=
  match log with
  | [] => 0
  | (CPtrace req pid _ _, _) :: log' =>
      bal log' + (if pid =? 1 then
                    (if req =? PTRACE_SEIZE then 1 else if req =? PTRACE_DETACH then -1 else 0)
                  else 0)
  | _ :: log' => bal log'
  end.

(** The same count over those requests only whose reply [p] accepts. *)
Fixpoint bal_if (p : reply -> bool) (log : list event) : Z :=
  match log with
  | [] => 0
  | (CPtrace req pid _ _, r) :: log' =>
      bal_if p log' + (if (pid =? 1) && p r then
                         (if req =? PTRACE_SEIZE then 1 else if req =? PTRACE_DETACH then -1 else 0)
                       else 0)
  | _ :: log' => bal_if p log'
  end.

Definition refused (r : reply) : bool := r_ret r =? -1.

(** How often the kernel let the monitor seize init, less how often it let it
    detach; and the same of the requests it refused. *)
Definition init_held (log : list event) : Z := bal_if (fun r => negb (refused r)) log.
Definition init_missed (log : list event) : Z := bal_if refused log.

Lemma bal_split log : bal log = init_held log + init_missed log.
Proof.
  unfold init_held, init_missed. induction log as [|[c r] log IH]; [done|]. destruct c; try exact IH.
  cbn. rewrite IH. destruct (_ =? 1), (refused r); cbn; lia.
Qed.

(** No request to seize or detach init was refused. *)
Definition none_refused (log : list event) : Prop :=
  forall req a d r, (CPtrace req 1 a d, r) ∈ log -> refused r = false.

Lemma none_missed log : none_refused log -> init_missed log = 0.
Proof.
  unfold init_missed. induction log as [|[c r] log IH]; [done|]. intros H.
  assert (IH' : bal_if refused log = 0) by (apply IH; intros req a d r' Hin; eapply H; by right).
  destruct c; try exact IH'. cbn. rewrite IH'. match goal with |- context [?p =? 1] => destruct (Z.eqb_spec p 1) as [->|] end; [|done].
  rewrite (H _ _ _ r ltac:(left)). done.
Qed.

Definition core (m : monitor) : TracingState * Status := (tracing_state m, status_ m).

Section Neutral.
Context {W : Type} `{!World W} (fuel : nat).
Context (module_dir : list Z) (sys_signame : Z -> list Z).
Abbreviation K := (M W monitor).

(** Nothing of the monitor's tracing and daemon state changes, and init is
    neither seized nor detached, whatever the outcome. *)
Definition neutral {S A T} (proj : S -> T) (x : M W S A) : Prop :=
  forall s, wp x (fun _ s' => bal (st_log s') = bal (st_log s) /\ proj (st_s s') = proj (st_s s)) s.

Lemma neutral_bind {S A C T} (proj : S -> T) (x : M W S A) (f : A -> M W S C) :
  neutral proj x -> (forall a, neutral proj (f a)) -> neutral proj (x ≫= f).
Proof.
  intros Hx Hf s. wstep. eapply wp_mono; [apply Hx|].
  intros [a| | |] s1 [E1 E2]; cbn; auto.
  eapply wp_mono; [apply Hf|]. intros o s2 [E3 E4]. by rewrite E3, E4.
Qed.

Definition traces_init (c : call) : bool :=
  match c with CPtrace _ pid _ _ => pid =? 1 | _ => false end.

Lemma neutral_syscall {S T} (proj : S -> T) c :
  traces_init c = false -> neutral proj (syscall c).
Proof.
  intros Hc s. apply wp_syscall. intros r w e. split; [|done].
  destruct c; try done. cbn in *. rewrite Hc. lia.
Qed.

Lemma neutral_modify {S T} (proj : S -> T) (f : S -> S) :
  (forall m, proj (f m) = proj m) -> neutral proj (modify f).
Proof. intros Hf s. wrun. by rewrite Hf. Qed.

Lemma neutral_stay {S A T} (proj : S -> T) (x : M W S A) :
  (forall s, (x s).2 = s) -> neutral proj x.
Proof. intros H s. unfold wp. by rewrite H. Qed.

Lemma neutral_zoom {A} (x : M W daemon_state A) :
  (forall p : daemon_state -> TracingState * Status, (forall d e, p d = p e) -> neutral p x) ->
  neutral core (zoom_daemon x).
Proof.
  intros H s. apply wp_zoom. cbn.
  eapply wp_mono; [apply (H (fun _ => core (st_s s))); done|]. cbn. intros o s' [E _]. done.
Qed.
End Neutral.

(** Closes [neutral] goals structurally. *)
Ltac neutral_tac :=
  repeat match goal with
  | |- neutral _ (mbind _ _) => apply neutral_bind; [|intros ?]
  | |- neutral _ (syscall _) => by apply neutral_syscall
  | |- neutral _ (modify _) => by apply neutral_modify
  | |- neutral _ (if ?b then _ else _) => destruct b
  | |- neutral _ (let '_ := ?x in _) => destruct x
  | |- neutral _ (match ?x with _ => _ end) => destruct x
  | |- neutral _ _ => first [by apply neutral_stay | solve [eauto with neutral]]
  end.

Create HintDb neutral.

Section NeutralParts.
Context {W : Type} `{!World W} (fuel : nat).
Context (module_dir : list Z) (sys_signame : Z -> list Z).
Abbreviation K := (M W monitor).

Lemma neutral_do {S T} (proj : S -> T) c :
  traces_init c = false -> neutral proj (do_ c : M W S unit).
Proof. intros H. unfold do_. neutral_tac. Qed.

Lemma neutral_xread {S T} (proj : S -> T) n fd c z b :
  neutral proj (xread_loop n fd c z b : M W S _).
Proof. revert z b. induction n; intros; cbn [xread_loop]; neutral_tac. Qed.

Lemma neutral_xwrite {S T} (proj : S -> T) n fd b c z :
  neutral proj (xwrite_loop n fd b c z : M W S _).
Proof. revert z. induction n; intros; cbn [xwrite_loop]; neutral_tac. Qed.

Lemma neutral_Connect (p : daemon_state -> TracingState * Status) retry :
  (forall d e : daemon_state, p d = p e) -> neutral p (Connect retry : M W _ _).
Proof.
  intros Hp. unfold Connect, GetTmpPath. cbn zeta. neutral_tac.
  induction retry; cbn [Connect_loop]; unfold close_, SetSocketTimeout; neutral_tac.
Qed.

Lemma neutral_RefreshModules : neutral core (zoom_daemon (RefreshModules fuel) : K _).
Proof.
  apply neutral_zoom. intros p Hp. unfold RefreshModules.
  pose proof (@neutral_Connect). pose proof (@neutral_xread). pose proof (@neutral_xwrite).
  unfold unique_fd, send_action, write_u8, write_exact, xwrite, read_u8, read_exact_or, xread, close_.
  neutral_tac.
Qed.

Lemma neutral_atomic_write {T} (proj : monitor -> T) path data :
  neutral proj (atomic_write_file path data : K _).
Proof. unfold atomic_write_file, do_. neutral_tac. Qed.

Lemma neutral_update_status : neutral core (update_status module_dir : K _).
Proof. pose proof (neutral_atomic_write core). unfold update_status. cbn zeta. neutral_tac. Qed.

Lemma neutral_fork : neutral core (fork_dont_care : K _).
Proof. unfold fork_dont_care, do_. neutral_tac. Qed.

Lemma neutral_execl path argv : neutral core (execl path argv : K _).
Proof. unfold execl. neutral_tac. Qed.

Lemma neutral_attach pid flag : neutral core (attach_running module_dir pid flag : K _).
Proof. pose proof neutral_fork. pose proof neutral_execl. unfold attach_running. neutral_tac. Qed.

Lemma neutral_classify pids z ss : neutral core (classify pids z ss : K _).
Proof.
  revert z ss. induction pids as [|pid pids IH]; intros; cbn [classify];
    unfold get_ppid, is_zygote_cmdline, get_comm, read_cmdline, proc_file; neutral_tac.
Qed.

Lemma neutral_find exe : neutral core (find_processes_by_exe exe : K _).
Proof.
  unfold find_processes_by_exe. apply neutral_bind; [by apply neutral_syscall|]. intros r.
  destruct (_ =? 0); [neutral_tac|].
  generalize (dir_names (r_data r) []). intros names. generalize (@nil Z).
  induction names as [|n names IH]; intros found; cbn [find_by_exe_loop]; [neutral_tac|].
  destruct (strtol n) as [[v e] rest]. neutral_tac.
Qed.

Lemma neutral_mapped pid suffix : neutral core (has_library_mapped pid suffix : K _).
Proof. unfold has_library_mapped, Scan. neutral_tac. Qed.

Lemma neutral_program pid : neutral core (get_program pid : K _).
Proof. unfold get_program. neutral_tac. Qed.

Lemma neutral_recv len flags : neutral core (recv_buf len flags : K _).
Proof. unfold recv_buf. cbn zeta. neutral_tac. Qed.

Lemma neutral_resize n : neutral core (resize n : K _).
Proof. unfold resize. neutral_tac. Qed.

Lemma neutral_payload : neutral core (payload : K _).
Proof. unfold payload. cbn zeta. neutral_tac. Qed.

Lemma neutral_crash_loop : neutral core (is_in_crash_loop : K _).
Proof. unfold is_in_crash_loop. neutral_tac. Qed.

Lemma neutral_hand_over pid status h t :
  pid <> 1 -> neutral core (hand_over pid status h t : K _).
Proof.
  intros Hp. pose proof neutral_fork. pose proof neutral_execl. unfold hand_over, do_. cbn zeta.
  assert (Ht : forall req a d, traces_init (CPtrace req pid a d) = false)
    by (intros; cbn; by apply Z.eqb_neq).
  neutral_tac; apply neutral_syscall; auto.
Qed.
End NeutralParts.

(** ** The monitor's invariant and its state machine *)

(** EXITING is final. *)
Definition exit_final (x y : TracingState) : Prop := x = EXITING -> y = EXITING.

#[local] Instance exit_final_preorder : PreOrder exit_final.
Proof. split; unfold exit_final; [by intros x|intros x y z; auto]. Qed.

(** How many seizes of init without a detach go with a state. *)
Definition expected (x : TracingState) (n : Z) : Prop :=
  match x with
  | TRACING | STOPPING => n = 1
  | STOPPED => n = 0
  | EXITING => 0 <= n <= 1
  end.

(** A daemon that counts as running has a pid and makes the ABI supported;
    and init has been asked for exactly while the monitor traces or is
    stopping. *)
Definition daemon_ok (m : monitor) : Prop :=
  daemon_running (status_ m) = true -> daemon_pid (status_ m) <> -1 /\ supported (status_ m) = true.
Definition monitor_inv (m : monitor) (log : list event) : Prop :=
  daemon_ok m /\ expected (tracing_state m) (bal log).

Section Invariant.
Context {W : Type} `{!World W} (fuel : nat).
Context (module_dir : list Z) (sys_signame : Z -> list Z).
Abbreviation K := (M W monitor).

(** Whatever the outcome, the invariant holds and EXITING was not left. *)
Definition safe {A} (x : K A) : Prop :=
  forall s, monitor_inv (st_s s) (st_log s) ->
    wp x (fun _ s' => monitor_inv (st_s s') (st_log s')
                      /\ exit_final (tracing_state (st_s s)) (tracing_state (st_s s'))) s.

Lemma safe_bind {A C} (x : K A) (f : A -> K C) :
  safe x -> (forall a, safe (f a)) -> safe (x ≫= f).
Proof.
  intros Hx Hf s Hs. wstep. eapply wp_mono; [by apply Hx|].
  intros [a| | |] s1 [H1 H2]; cbn; auto.
  eapply wp_mono; [by apply Hf|]. intros o s2 [H3 H4]. split; [done|]. by etrans.
Qed.

Lemma safe_neutral {A} (x : K A) : neutral core x -> safe x.
Proof.
  intros Hn s Hs. eapply wp_mono; [apply Hn|]. intros o s' [E1 E2].
  unfold core in E2. injection E2 as E2 E3. split; [|by rewrite E2].
  unfold monitor_inv, daemon_ok. by rewrite E1, E2, E3.
Qed.

Lemma safe_if {A} (b : bool) (x y : K A) : safe x -> safe y -> safe (if b then x else y).
Proof. by destruct b. Qed.

Lemma safe_status f :
  (forall s, (daemon_running s = true -> daemon_pid s <> -1 /\ supported s = true) ->
     daemon_running (f s) = true -> daemon_pid (f s) <> -1 /\ supported (f s) = true) ->
  safe (modify (upd_status f)).
Proof. intros Hf s [H1 H2]. wrun. split; [|done]. split; [|done]. exact (Hf _ H1). Qed.

(** A program that looks at the state first. *)
Lemma safe_get {A} (f : monitor -> K A) :
  (forall s, monitor_inv (st_s s) (st_log s) ->
     wp (f (st_s s)) (fun _ s' => monitor_inv (st_s s') (st_log s')
                      /\ exit_final (tracing_state (st_s s)) (tracing_state (st_s s'))) s) ->
  safe (m ← get; f m).
Proof. intros H s Hs. wrun. by apply H. Qed.

Lemma safe_get_any {A} (f : monitor -> K A) : (forall m, safe (f m)) -> safe (m ← get; f m).
Proof. intros H. apply safe_get. intros s Hs. by apply H. Qed.

(** Going on after one edge was taken. *)
Lemma safe_then {A} (x : K A) (s : st W monitor) t0 :
  safe x -> monitor_inv (st_s s) (st_log s) -> exit_final t0 (tracing_state (st_s s)) ->
  wp x (fun _ s' => monitor_inv (st_s s') (st_log s')
                    /\ exit_final t0 (tracing_state (st_s s'))) s.
Proof.
  intros Hx Hs Ht. eapply wp_mono; [by apply Hx|]. intros o s' [H1 H2]. split; [done|]. by etrans.
Qed.

Lemma safe_update_status : safe (update_status module_dir).
Proof. apply safe_neutral, neutral_update_status. Qed.

Lemma safe_request_start : safe (request_start module_dir).
Proof.
  apply safe_get. intros s [H1 H2]. unfold expected in H2. unfold set_state, do_.
  destruct (tracing_state (st_s s)) eqn:Es; wrun.
  - apply safe_then; [apply safe_update_status| |]; [by split; [|rewrite Es]|by rewrite Es].
  - apply safe_then; [apply safe_update_status| |]; cbn; [by split|].
    done.
  - apply wp_syscall. intros r w e. wrun.
    apply safe_then; [apply safe_update_status| |]; cbn; [split; cbn; [done|lia]|].
    done.
  - apply safe_then; [apply safe_update_status| |]; [by split; [|rewrite Es]|by rewrite Es].
Qed.

Lemma safe_request_stop reason : safe (request_stop module_dir reason).
Proof.
  apply safe_get. intros s [H1 H2]. unfold expected in H2. unfold set_state, do_.
  destruct (tracing_state (st_s s)) eqn:Es; wrun;
    try (split; [by split; [|rewrite Es]|by rewrite Es]).
  apply wp_syscall. intros r w e. wrun.
  apply safe_then; [apply safe_update_status| |]; cbn; [split; cbn; [done|lia]|].
  done.
Qed.

Lemma safe_request_exit : safe (request_exit module_dir).
Proof.
  intros s [H1 H2]. unfold expected in H2. unfold request_exit, set_state. wrun.
  eapply wp_mono; [apply (safe_then (update_status module_dir)
                            _ (tracing_state (st_s s)) safe_update_status)|].
  - cbn. split; [done|]. cbn. destruct (tracing_state (st_s s)); lia.
  - done.
  - intros [a| | |] s1 H; exact H.
Qed.

Lemma safe_ensure_daemon : safe (ensure_daemon_created module_dir).
Proof.
  apply safe_get_any. intros m. destruct (_ =? -1); [|apply safe_neutral; neutral_tac].
  apply safe_bind; [apply safe_neutral; neutral_tac|]. intros r. cbn zeta.
  destruct (r_ret r <? 0) eqn:E1; [apply safe_neutral; neutral_tac|].
  destruct (r_ret r =? 0).
  { apply safe_neutral. pose proof (neutral_execl (W:=W)). unfold do_. neutral_tac. }
  apply safe_bind; [|intros; apply safe_neutral; neutral_tac].
  apply safe_status. intros st _ _. cbn. split; [|done]. apply Z.ltb_ge in E1. lia.
Qed.

Lemma safe_check : safe (check_and_prepare_injection module_dir).
Proof.
  pose proof safe_request_stop. unfold check_and_prepare_injection.
  apply safe_bind; [apply safe_neutral, neutral_crash_loop|]. intros [|].
  - apply safe_bind; [done|]. intros. apply safe_neutral. neutral_tac.
  - apply safe_bind; [by apply safe_status|]. intros _.
    apply safe_bind; [apply safe_ensure_daemon|]. intros [ok b]. destruct (negb ok).
    + apply safe_bind; [done|]. intros. apply safe_neutral. neutral_tac.
    + apply safe_neutral. neutral_tac.
Qed.

Lemma safe_aux : safe (prepare_aux_injection module_dir).
Proof.
  apply safe_bind; [apply safe_ensure_daemon|]. intros [ok b]. apply safe_neutral. neutral_tac.
Qed.

Lemma safe_daemon_exit pid status :
  safe (handle_daemon_exit_if_match module_dir sys_signame pid status).
Proof.
  apply safe_get_any. intros m. destruct (_ && _); [|apply safe_neutral; neutral_tac]. cbn zeta.
  apply safe_bind; [by apply safe_status|]. intros _.
  apply safe_bind; [apply safe_update_status|]. intros _. apply safe_neutral. neutral_tac.
Qed.

Lemma safe_attach_zygotes pids b : safe (attach_zygotes module_dir pids b).
Proof.
  revert b. induction pids as [|pid pids IH]; intros b; cbn [attach_zygotes];
    [apply safe_neutral; neutral_tac|].
  apply safe_bind; [apply safe_neutral, neutral_mapped|]. intros [|].
  - apply safe_bind; [by apply safe_status|]. auto.
  - apply safe_bind; [apply safe_neutral, neutral_attach|]. auto.
Qed.

Lemma safe_rearm : safe (rearm fuel module_dir).
Proof.
  apply safe_bind; [apply safe_ensure_daemon|]. intros [ok started].
  destruct (negb ok); [apply safe_neutral; neutral_tac|].
  apply safe_bind.
  { apply safe_neutral. pose proof (neutral_RefreshModules (W:=W) fuel). neutral_tac. }
  intros _. apply safe_bind; [apply safe_neutral, neutral_find|]. intros pids.
  apply safe_bind; [apply safe_neutral, neutral_classify|]. intros [zs ss].
  destruct (bool_decide _); [apply safe_neutral; neutral_tac|].
  apply safe_bind.
  { apply safe_status. intros st H1 H2. cbn in *. by destruct (H1 H2). }
  intros _. apply safe_bind; [apply safe_attach_zygotes|]. intros bare.
  apply safe_bind.
  { apply safe_neutral. pose proof (neutral_attach (W:=W) module_dir). neutral_tac. }
  intros _. apply safe_bind; [apply safe_update_status|]. intros _. apply safe_neutral. neutral_tac.
Qed.

Lemma safe_request_rearm : safe (request_rearm fuel module_dir).
Proof.
  apply safe_get_any. intros m. apply safe_bind.
  { destruct (decide _); [apply safe_neutral; neutral_tac|apply safe_request_start]. }
  intros _. apply safe_bind; [apply safe_rearm|]. intros ok.
  destruct (negb ok); [apply safe_request_stop|apply safe_update_status].
Qed.

Lemma safe_dispatch : safe (dispatch fuel module_dir).
Proof.
  apply safe_get_any. intros m. destruct (_ <? _); [apply safe_neutral; neutral_tac|].
  pose proof safe_update_status. pose proof (neutral_payload (W:=W)).
  destruct (command_of (msg_cmd m)).
  - apply safe_request_start.
  - apply safe_request_stop.
  - apply safe_request_exit.
  - apply safe_bind; [by apply safe_status|done].
  - apply safe_bind; [by apply safe_neutral|]. intros info.
    apply safe_bind; [by apply safe_status|done].
  - apply safe_bind; [by apply safe_neutral|]. intros info.
    apply safe_bind; [by apply safe_status|done].
  - apply safe_neutral. neutral_tac.
  - apply safe_request_rearm.
  - apply safe_neutral. neutral_tac.
Qed.

Lemma safe_receive_one : safe (receive_one fuel module_dir).
Proof.
  pose proof (neutral_recv (W:=W)). pose proof (neutral_resize (W:=W)).
  apply safe_bind; [by apply safe_neutral|]. intros _.
  apply safe_bind; [by apply safe_neutral|]. intros nread.
  apply safe_if; [apply safe_neutral; neutral_tac|].
  apply safe_get_any. intros m. cbn zeta. apply safe_if; [apply safe_neutral; neutral_tac|].
  apply safe_bind; [by apply safe_neutral|]. intros _.
  apply safe_bind; [by apply safe_neutral|]. intros nread'.
  do 2 (apply safe_if; [apply safe_neutral; neutral_tac|]).
  apply safe_bind; [apply safe_dispatch|]. intros _. apply safe_neutral. neutral_tac.
Qed.

(** A request on another process than init. *)
Lemma ptrace_other req pid a d : pid <> 1 -> traces_init (CPtrace req pid a d) = false.
Proof. intros. cbn. by apply Z.eqb_neq. Qed.

(** Resuming or inspecting init moves nothing. *)
Lemma neutral_cont req pid a d :
  req <> PTRACE_SEIZE -> req <> PTRACE_DETACH -> neutral core (do_ (CPtrace req pid a d) : K _).
Proof.
  intros H1 H2 s. apply wp_do. intros r w e. cbn. split; [|done].
  destruct (pid =? 1); [|lia]. destruct (Z.eqb_spec req PTRACE_SEIZE), (Z.eqb_spec req PTRACE_DETACH);
    done || lia.
Qed.

Lemma safe_parent pid status : safe (handleParentEvent pid status : K _).
Proof.
  assert (Hc : forall p sig, neutral core (do_ (CPtrace PTRACE_CONT p 0 sig) : K _))
    by (intros; by apply neutral_cont).
  assert (He : neutral core (do_ (CPtrace PTRACE_GETEVENTMSG pid 0 0) : K _))
    by (by apply neutral_cont).
  unfold handleParentEvent. apply safe_get. intros s [H1 H2]. unfold expected in H2. wstep.
  set (tail := fun returned : bool => _).
  assert (Ht : forall b, safe (tail b)) by (intros b; unfold tail; apply safe_neutral; neutral_tac).
  assert (Hn : forall x : K bool, neutral core x -> wp x (wp_cont tail (fun _ s' =>
    monitor_inv (st_s s') (st_log s')
    /\ exit_final (tracing_state (st_s s)) (tracing_state (st_s s')))) s).
  { intros x Hx. apply wp_bind_inv. apply safe_bind; [by apply safe_neutral|done|by split]. }
  destruct (stopped_with status SIGTRAP PTRACE_EVENT_FORK); [apply Hn; neutral_tac|].
  destruct ((pid =? 1) && _ && _) eqn:E.
  - apply andb_true_iff in E as [_ E]. apply bool_decide_eq_true in E. rewrite E in H2.
    unfold notify_init_detached, set_state, do_. wrun. apply wp_syscall. intros r w e. wrun.
    apply safe_then; [apply Ht| |]; cbn; [split; cbn; [done|lia]|].
    rewrite E. done.
  - destruct (negb _ && _); apply Hn; neutral_tac.
Qed.

Lemma safe_new pid : pid <> 1 -> safe (handleNewProcess pid : K _).
Proof.
  intros Hp. apply safe_neutral. unfold handleNewProcess, do_.
  neutral_tac; apply neutral_syscall, ptrace_other; done.
Qed.

Lemma safe_exec pid status : pid <> 1 -> safe (handleExecEvent module_dir pid status).
Proof.
  intros Hp. apply safe_bind; [apply safe_neutral, neutral_program|]. intros program.
  apply safe_bind; [|intros; apply safe_bind; [apply safe_update_status|];
                     intros; apply safe_neutral; neutral_tac].
  destruct (contains _ _).
  { apply safe_neutral. unfold do_. neutral_tac; apply neutral_syscall, ptrace_other; done. }
  apply safe_get_any. intros m. destruct (negb (bool_decide _)); [apply safe_neutral; neutral_tac|].
  cbn zeta. destruct (negb _ && negb _); [apply safe_neutral; neutral_tac|].
  apply safe_bind; [case_match; [apply safe_aux|apply safe_check]|].
  intros [t|]; apply safe_neutral; [by apply neutral_hand_over|neutral_tac].
Qed.

Lemma safe_traced pid status : pid <> 1 -> safe (handleTracedProcess module_dir pid status).
Proof.
  intros Hp. apply safe_bind.
  - case_match; [by apply safe_exec|]. apply safe_neutral. unfold do_.
    neutral_tac; apply neutral_syscall, ptrace_other; done.
  - intros [keep st]. apply safe_neutral. unfold do_.
    neutral_tac; apply neutral_syscall, ptrace_other; done.
Qed.

Lemma safe_child pid status : safe (handleChildEvent module_dir sys_signame pid status).
Proof.
  apply safe_get_any. intros m. destruct (Z.eqb_spec pid 1) as [->|Hp]; [apply safe_parent|].
  cbn [orb]. destruct (bool_decide _); [apply safe_parent|].
  apply safe_bind; [apply safe_daemon_exit|]. intros [|]; [apply safe_neutral; neutral_tac|].
  apply safe_get_any. intros m'.
  destruct (bool_decide _); [by apply safe_traced|by apply safe_new].
Qed.

Lemma safe_reap n : safe (reap module_dir sys_signame n).
Proof.
  induction n as [|n IH]; cbn [reap]; [apply safe_neutral; neutral_tac|].
  apply safe_bind; [apply safe_neutral; neutral_tac|]. intros r.
  destruct (0 <? _); [|apply safe_neutral; neutral_tac].
  apply safe_bind; [apply safe_child|done].
Qed.

Lemma safe_handle h : safe (HandleEvent fuel module_dir sys_signame h).
Proof.
  unfold HandleEvent. destruct (_ =? 0).
  - generalize fuel at 1. intros n. induction n as [|n IH]; cbn [SigChldHandler_HandleEvent];
      [apply safe_neutral; neutral_tac|].
    apply safe_get_any. intros m. apply safe_bind; [apply safe_neutral; neutral_tac|]. intros r.
    destruct (_ =? -1).
    + apply safe_bind; [apply safe_neutral; neutral_tac|]. intros e.
      destruct (_ =? EAGAIN); [apply safe_neutral; neutral_tac|done].
    + destruct (_ || _); [done|]. apply safe_bind; [apply safe_reap|done].
  - generalize fuel at 2. intros n. induction n as [|n IH]; cbn [SocketHandler_HandleEvent];
      [apply safe_neutral; neutral_tac|].
    apply safe_bind; [apply safe_receive_one|]. intros [|]; [done|apply safe_neutral; neutral_tac].
Qed.

Lemma safe_loop n : safe (Loop fuel module_dir sys_signame n).
Proof.
  apply safe_bind; [apply safe_neutral; neutral_tac|]. intros _.
  induction n as [|n IH]; cbn [Loop_]; apply safe_get_any; intros m; destruct (running m);
    try (apply safe_neutral; neutral_tac; fail).
  apply safe_bind; [apply safe_neutral; neutral_tac|]. intros r. destruct (_ =? -1); [done|].
  apply safe_bind; [|done]. generalize (take (Z.to_nat (r_ret r)) (r_aux r)). intros hs.
  induction hs as [|h hs IHh]; cbn [dispatch_events]; [apply safe_neutral; neutral_tac|].
  apply safe_bind; [apply safe_handle|]. intros _. apply safe_get_any. intros m'.
  destruct (running m'); [done|apply safe_neutral; neutral_tac].
Qed.
End Invariant.

(** ** The monitor as a whole *)

Section Claims.
Context {W : Type} `{!World W} (fuel : nat).
Context (module_dir : list Z) (sys_signame : Z -> list Z).
Abbreviation K := (M W monitor).

(** What [run] leaves behind, counted in requests. *)
Lemma run_requests n d (s : st W monitor) :
  st_s s = AppMonitor d -> bal (st_log s) = 0 ->
  wp (run fuel module_dir sys_signame n) (fun _ s' =>
    monitor_inv (st_s s') (st_log s')
    \/ (daemon_ok (st_s s') /\ tracing_state (st_s s') = TRACING /\ running (st_s s') = false
        /\ init_held (st_log s') = init_held (st_log s) /\ init_missed (st_log s') = init_missed (st_log s))) s.
Proof.
  intros Hs Hb. unfold run, EventLoop_Init, SigChldHandler_Init. destruct s as [w log e m]. cbn in *. subst m.
  wrun. apply wp_syscall. intros r1 w1 e1. wrun.
  apply wp_syscall. intros r2 w2 e2. wrun. destruct (_ =? -1); [wrun; cbn [negb]; wrun; right; by cbn|].
  wrun. apply wp_syscall. intros r3 w3 e3. wrun. destruct (_ =? -1); [wrun; cbn [negb]; wrun; right; by cbn|].
  wrun. apply wp_syscall. intros r4 w4 e4. wrun.
  assert (Hinv : forall m1 log1, tracing_state m1 = TRACING ->
    daemon_running (status_ m1) = false -> bal log1 = 1 -> monitor_inv m1 log1).
  { intros m1 log1 H1 H2 H3. split; [unfold daemon_ok; by rewrite H2|by rewrite H1]. }
  destruct (_ =? -1); [wrun; cbn [negb]; wrun; left; apply Hinv; cbn; auto; lia|]. wrun. cbn [negb]. do 2 wstep.
  match goal with |- wp ?x _ ?s1 => assert (Hsafe : safe x); [|
    eapply wp_mono; [apply (Hsafe s1)|]] end.
  - apply safe_bind; [apply safe_neutral; unfold RegisterHandler; neutral_tac|]. intros _.
    apply safe_bind.
    { apply safe_neutral. unfold SocketHandler_Init, do_. cbn zeta. neutral_tac. }
    intros ok. apply safe_if; [apply safe_neutral; neutral_tac|].
    apply safe_get_any. intros m. apply safe_bind; [|intros _; apply safe_loop].
    apply safe_neutral. unfold RegisterHandler. neutral_tac.
  - apply Hinv; cbn; auto; lia.
  - intros o' s1 [H _]. by left.
Qed.

(** C2. However the kernel, the daemon and the senders of commands behave, and
    wherever a run of the monitor is cut off: a daemon recorded as running has
    a pid and makes the ABI supported; and the number of granted seizes of init
    less granted detaches ([init_held]), together with the same number of
    refused requests ([init_missed]; the code does not look at these replies),
    is 1 while the monitor is tracing or stopping, 0 when it is stopped and 0
    or 1 when it is exiting. So if the kernel refuses no request on init, init
    is held exactly while the monitor traces or is stopping. The only other
    possibility is that initialisation gave up before init was asked for:
    nothing is held, although the state, never used, is still TRACING. *)
Theorem monitor_run_invariant n d (s s' : st W monitor) o :
  st_s s = AppMonitor d -> init_held (st_log s) = 0 -> init_missed (st_log s) = 0 ->
  run fuel module_dir sys_signame n s = (o, s') ->
  daemon_ok (st_s s')
  /\ ((expected (tracing_state (st_s s')) (init_held (st_log s') + init_missed (st_log s'))
       /\ (none_refused (st_log s') -> expected (tracing_state (st_s s')) (init_held (st_log s'))))
      \/ (init_held (st_log s') = 0 /\ init_missed (st_log s') = 0
          /\ tracing_state (st_s s') = TRACING /\ running (st_s s') = false)).
Proof.
  intros Hs Hh Hm E. pose proof (run_requests n d s Hs ltac:(rewrite bal_split; lia)) as Hw.
  apply (wp_elim _ _ _ _ _ Hw) in E as [[Hd He]|(Hd & Ht & Hr & E1 & E2)]; (split; [done|]).
  - left. rewrite bal_split in He. split; [done|]. intros Hn. by rewrite (none_missed _ Hn), Z.add_0_r in He.
  - right. by rewrite E1, E2.
Qed.

(** ** The state machine, stimulus by stimulus *)

(** What a command does to the tracing state. *)
Definition after_command (c : Command) (x y : TracingState) : Prop :=
  match c with
  | START => y = match x with STOPPING | STOPPED => TRACING | _ => x end
  | STOP => y = match x with TRACING => STOPPING | _ => x end
  | EXIT => y = EXITING
  | REARM => match x with EXITING => y = EXITING | _ => y = TRACING \/ y = STOPPING end
  | _ => y = x
  end.

(** What the event of a child does to it. *)
Definition after_child (pid status : Z) (x y : TracingState) : Prop :=
  if (pid =? 1) && stopped_with status SIGTRAP PTRACE_EVENT_STOP && bool_decide (x = STOPPING) then y = STOPPED
  else y = x \/ (x = TRACING /\ y = STOPPING /\ pid <> 1 /\ stopped_with status SIGTRAP PTRACE_EVENT_EXEC = true).

Lemma neutral_ts {A} (x : K A) : neutral core x -> neutral tracing_state x.
Proof. intros H s. eapply wp_mono; [apply H|]. intros o s' [E1 E2]. split; [done|]. by injection E2. Qed.

Lemma neutral_status f : neutral tracing_state (modify (upd_status f) : K _).
Proof. by apply neutral_modify. Qed.

Lemma wp_neutral_ts {A} (x : K A) (Q : TracingState -> Prop) s :
  neutral tracing_state x -> Q (tracing_state (st_s s)) -> wp x (fun _ s' => Q (tracing_state (st_s s'))) s.
Proof. intros H HQ. eapply wp_mono; [apply H|]. intros o s' [_ E]. by rewrite E. Qed.

Lemma ts_update : neutral tracing_state (update_status module_dir : K _).
Proof. apply neutral_ts, neutral_update_status. Qed.

Lemma ts_ensure : neutral tracing_state (ensure_daemon_created module_dir : K _).
Proof.
  pose proof (fun p a => neutral_ts _ (neutral_execl (W:=W) p a)). pose proof neutral_status.
  unfold ensure_daemon_created, do_. neutral_tac.
Qed.

Lemma ts_zygotes pids b : neutral tracing_state (attach_zygotes module_dir pids b : K _).
Proof.
  pose proof (fun p q => neutral_ts _ (neutral_mapped (W:=W) p q)).
  pose proof (fun p q => neutral_ts _ (neutral_attach (W:=W) module_dir p q)). pose proof neutral_status.
  revert b. induction pids as [|pid pids IH]; intros b; cbn [attach_zygotes]; neutral_tac.
Qed.

Lemma ts_rearm : neutral tracing_state (rearm fuel module_dir : K _).
Proof.
  pose proof ts_ensure. pose proof ts_zygotes. pose proof ts_update. pose proof neutral_status.
  pose proof (neutral_ts _ (neutral_RefreshModules (W:=W) fuel)).
  pose proof (neutral_ts _ (neutral_find (W:=W) PROGRAM_PATH)).
  pose proof (fun p q r => neutral_ts _ (neutral_classify (W:=W) p q r)).
  pose proof (fun p q => neutral_ts _ (neutral_attach (W:=W) module_dir p q)).
  unfold rearm. neutral_tac.
Qed.

Lemma start_exact (s : st W monitor) : wp (request_start module_dir)
  (fun _ s' => after_command START (tracing_state (st_s s)) (tracing_state (st_s s'))) s.
Proof.
  unfold request_start, set_state, do_. wrun. cbn [after_command].
  destruct (tracing_state (st_s s)) eqn:Es; wrun.
  3: apply wp_syscall; intros r w e; wrun.
  all: by apply (wp_neutral_ts (update_status module_dir) (fun y => y = _)); [apply ts_update|].
Qed.

Lemma stop_exact reason (s : st W monitor) : wp (request_stop module_dir reason)
  (fun _ s' => after_command STOP (tracing_state (st_s s)) (tracing_state (st_s s'))) s.
Proof.
  unfold request_stop, set_state, do_. wrun. cbn [after_command].
  destruct (tracing_state (st_s s)) eqn:Es; wrun; try done.
  apply wp_syscall. intros r w e. wrun.
  by apply (wp_neutral_ts (update_status module_dir) (fun y => y = _)); [apply ts_update|].
Qed.

Lemma exit_exact (s : st W monitor) : wp (request_exit module_dir)
  (fun _ s' => tracing_state (st_s s') = EXITING) s.
Proof.
  unfold request_exit, set_state. wrun.
  eapply wp_mono; [by apply (wp_neutral_ts (update_status module_dir) (fun y => y = EXITING)); [apply ts_update|]|].
  intros [[]| | |] s1 E; cbn [wp_cont]; try exact E; by wrun.
Qed.
Lemma rearm_exact (s : st W monitor) : wp (request_rearm fuel module_dir)
  (on_ret (fun _ s' => after_command REARM (tracing_state (st_s s)) (tracing_state (st_s s')))) s.
Proof.
  unfold request_rearm. do 3 wstep.
  eapply (wp_mono _ (fun _ s1 => tracing_state (st_s s1)
    = match tracing_state (st_s s) with EXITING => EXITING | _ => TRACING end)).
  { destruct (decide _) as [E|E]; [wrun; by rewrite E|]. eapply wp_mono; [apply start_exact|].
    intros o s1 ->. by destruct (tracing_state (st_s s)). }
  intros [[]| | |] s1 E1; cbn [wp_cont on_ret]; try done. wstep.
  eapply wp_mono; [apply (wp_neutral_ts _ (fun y => y = tracing_state (st_s s1))); [apply ts_rearm|done]|].
  intros [ok| | |] s2 E2; cbn [wp_cont on_ret]; try done. destruct (negb ok).
  - eapply wp_mono; [apply stop_exact|]. intros [[]| | |] s3 E3; cbn [on_ret]; try done.
    cbn [after_command] in E3. rewrite E3, E2, E1. destruct (tracing_state (st_s s)); cbn; auto.
  - eapply wp_mono; [apply (wp_neutral_ts _ (fun y => y = tracing_state (st_s s2))); [apply ts_update|done]|].
    intros [[]| | |] s3 E3; cbn [on_ret]; try done. rewrite E3, E2, E1. destruct (tracing_state (st_s s)); cbn; auto.
Qed.

Lemma dispatch_exact (s : st W monitor) : wp (dispatch fuel module_dir)
  (on_ret (fun _ s' => after_command (command_of (msg_cmd (st_s s)))
                         (tracing_state (st_s s)) (tracing_state (st_s s')))) s.
Proof.
  pose proof ts_update. pose proof neutral_status. pose proof (neutral_ts _ (neutral_payload (W:=W))).
  unfold dispatch. wrun. destruct (_ <? _); [by wrun|].
  assert (Hk : forall x : K unit, neutral tracing_state x ->
    wp x (on_ret (fun _ s' => tracing_state (st_s s') = tracing_state (st_s s))) s).
  { intros x Hx. eapply wp_mono; [apply (wp_neutral_ts x (fun y => y = _) s Hx eq_refl)|]. by intros [[]| | |]. }
  destruct (command_of (msg_cmd (st_s s)));
    try (apply Hk; unfold notify_injected, set_daemon_info, set_daemon_crashed; neutral_tac).
  - eapply wp_mono; [apply start_exact|]. by intros [[]| | |].
  - eapply wp_mono; [apply stop_exact|]. by intros [[]| | |].
  - eapply wp_mono; [apply exit_exact|]. by intros [[]| | |].
  - apply rearm_exact.
Qed.

(** Unchanged, or a stop of the tracing monitor. *)
Definition may_stop {A} (x : K A) : Prop := forall s, wp x (fun _ s' =>
  tracing_state (st_s s') = tracing_state (st_s s)
  \/ (tracing_state (st_s s) = TRACING /\ tracing_state (st_s s') = STOPPING)) s.

Lemma may_stop_bind {A C} (x : K A) (f : A -> K C) :
  may_stop x -> (forall a, may_stop (f a)) -> may_stop (x ≫= f).
Proof.
  intros Hx Hf s. wstep. eapply wp_mono; [apply Hx|]. intros [a| | |] s1 H1; cbn; auto.
  eapply wp_mono; [apply Hf|]. intros o s2 H2. destruct H1 as [E1|[E1 E1']], H2 as [E2|[E2 E2']]; try congruence.
  - left. congruence.
  - right. split; congruence.
  - right. split; congruence.
Qed.

Lemma may_stop_neutral {A} (x : K A) : neutral tracing_state x -> may_stop x.
Proof. intros H s. eapply wp_mono; [apply H|]. intros o s' [_ E]. by left. Qed.

Lemma may_stop_stop reason : may_stop (request_stop module_dir reason).
Proof.
  intros s. eapply wp_mono; [apply stop_exact|]. intros o s' ->.
  destruct (tracing_state (st_s s)); auto.
Qed.

Lemma may_stop_check : may_stop (check_and_prepare_injection module_dir).
Proof.
  pose proof may_stop_stop. pose proof neutral_status. unfold check_and_prepare_injection.
  apply may_stop_bind; [apply may_stop_neutral, neutral_ts, neutral_crash_loop|]. intros [|].
  { apply may_stop_bind; [done|]. intros _. apply may_stop_neutral. neutral_tac. }
  apply may_stop_bind; [by apply may_stop_neutral|]. intros _.
  apply may_stop_bind; [apply may_stop_neutral, ts_ensure|]. intros [ok ?]. destruct (negb ok).
  - apply may_stop_bind; [done|]. intros _. apply may_stop_neutral. neutral_tac.
  - apply may_stop_neutral. neutral_tac.
Qed.

Lemma may_stop_exec pid status : pid <> 1 -> may_stop (handleExecEvent module_dir pid status).
Proof.
  intros Hp. pose proof ts_update. assert (Ht := fun req a d => ptrace_other req pid a d Hp).
  unfold handleExecEvent. apply may_stop_bind; [apply may_stop_neutral, neutral_ts, neutral_program|]. intros program.
  apply may_stop_bind; [|intros; apply may_stop_neutral; neutral_tac].
  destruct (contains _ _).
  { apply may_stop_neutral. unfold do_. neutral_tac; apply neutral_syscall; auto. }
  apply may_stop_bind; [apply may_stop_neutral; neutral_tac|]. intros m.
  destruct (negb (bool_decide _)); [apply may_stop_neutral; neutral_tac|].
  cbn zeta. destruct (negb _ && negb _); [apply may_stop_neutral; neutral_tac|].
  apply may_stop_bind.
  { destruct (_ || _); [|apply may_stop_check]. apply may_stop_neutral.
    pose proof ts_ensure. unfold prepare_aux_injection. neutral_tac. }
  intros [t|]; apply may_stop_neutral; [by apply neutral_ts, neutral_hand_over|neutral_tac].
Qed.

Lemma stop_is_not_fork status :
  stopped_with status SIGTRAP PTRACE_EVENT_FORK = true -> stopped_with status SIGTRAP PTRACE_EVENT_STOP = false.
Proof.
  unfold stopped_with. rewrite andb_true_iff, andb_false_iff. intros [_ E].
  right. apply Z.eqb_eq in E. rewrite E. done.
Qed.

Lemma parent_exact pid status (s : st W monitor) : wp (handleParentEvent pid status)
  (fun _ s' => after_child pid status (tracing_state (st_s s)) (tracing_state (st_s s'))) s.
Proof.
  assert (Hc : forall req p d, req <> PTRACE_SEIZE -> req <> PTRACE_DETACH ->
    neutral tracing_state (do_ (CPtrace req p 0 d) : K _)) by (intros; by apply neutral_ts, neutral_cont).
  assert (Hk : forall x : K unit, neutral tracing_state x ->
    wp x (fun _ s' => tracing_state (st_s s') = tracing_state (st_s s)
      \/ (tracing_state (st_s s) = TRACING /\ tracing_state (st_s s') = STOPPING /\ pid <> 1
          /\ stopped_with status SIGTRAP PTRACE_EVENT_EXEC = true)) s).
  { intros x Hx. apply (wp_neutral_ts x (fun y => y = _ \/ _) s Hx). by left. }
  unfold handleParentEvent, after_child. do 2 wstep.
  pose proof (stop_is_not_fork status) as Hf.
  destruct (stopped_with status SIGTRAP PTRACE_EVENT_FORK).
  { rewrite (Hf eq_refl), andb_false_r. cbn [andb]. apply Hk. neutral_tac; by apply Hc. }
  destruct ((pid =? 1) && _ && _) eqn:E.
  - unfold notify_init_detached, set_state, do_. wrun. apply wp_syscall. intros r w e. by wrun.
  - apply Hk. neutral_tac; by apply Hc.
Qed.

Lemma child_exact pid status (s : st W monitor) : wp (handleChildEvent module_dir sys_signame pid status)
  (fun _ s' => after_child pid status (tracing_state (st_s s)) (tracing_state (st_s s'))) s.
Proof.
  unfold handleChildEvent. wrun. destruct ((pid =? 1) || _) eqn:Ep; [apply parent_exact|].
  apply orb_false_iff in Ep as [Ep _]. unfold after_child. rewrite Ep. cbn [andb]. apply Z.eqb_neq in Ep.
  assert (Hd : neutral tracing_state (handle_daemon_exit_if_match module_dir sys_signame pid status : K _)).
  { pose proof ts_update. pose proof neutral_status. unfold handle_daemon_exit_if_match. neutral_tac. }
  wstep. eapply wp_mono; [apply (wp_neutral_ts _ (fun y => y = tracing_state (st_s s)) s Hd eq_refl)|].
  intros [[|]| | |] s1 E1; cbn [wp_cont]; try (by left). wrun.
  assert (Ht := fun req a d => ptrace_other req pid a d Ep).
  assert (Hk : forall x : K unit, neutral tracing_state x -> wp x (fun _ s' =>
    tracing_state (st_s s') = tracing_state (st_s s)
    \/ (tracing_state (st_s s) = TRACING /\ tracing_state (st_s s') = STOPPING /\ pid <> 1
        /\ stopped_with status SIGTRAP PTRACE_EVENT_EXEC = true)) s1).
  { intros x Hx. apply (wp_neutral_ts x (fun y => y = _ \/ _) s1 Hx). by left. }
  destruct (bool_decide _).
  - destruct (stopped_with status SIGTRAP PTRACE_EVENT_EXEC) eqn:Ex.
    + assert (Hm : may_stop (handleTracedProcess module_dir pid status)).
      { unfold handleTracedProcess. rewrite Ex. apply may_stop_bind; [by apply may_stop_exec|]. intros [k st].
        apply may_stop_neutral. unfold do_. neutral_tac; apply neutral_syscall; auto. }
      eapply wp_mono; [apply Hm|]. intros o s2 [E2|[E2 E3]]; rewrite E1 in *; auto.
    + apply Hk. unfold handleTracedProcess. rewrite Ex. unfold do_. neutral_tac; apply neutral_syscall; auto.
  - apply Hk. unfold handleNewProcess, do_. neutral_tac; apply neutral_syscall; auto.
Qed.

(** C20. The state machine, stimulus by stimulus. A command moves the tracing
    state as [after_command] says: START resumes from STOPPING and STOPPED,
    STOP turns TRACING into STOPPING, EXIT leads to EXITING, REARM ends in
    TRACING or STOPPING unless the monitor is exiting, every other command
    leaves the state alone. The event of a child turns STOPPING into STOPPED
    exactly if init reports that it stopped, may turn TRACING into STOPPING
    only at the exec of another process, and otherwise leaves it alone. And
    whatever one wake-up of a handler processes, EXITING is never left. *)
Theorem monitor_transitions (s s' : st W monitor) :
  (dispatch fuel module_dir s = (Ret tt, s') ->
     after_command (command_of (msg_cmd (st_s s))) (tracing_state (st_s s)) (tracing_state (st_s s')))
  /\ (forall pid status o, handleChildEvent module_dir sys_signame pid status s = (o, s') ->
        after_child pid status (tracing_state (st_s s)) (tracing_state (st_s s')))
  /\ (forall h o, monitor_inv (st_s s) (st_log s) -> HandleEvent fuel module_dir sys_signame h s = (o, s') ->
        tracing_state (st_s s) = EXITING -> tracing_state (st_s s') = EXITING).
Proof.
  split_and!.
  - apply (wp_on_ret _ (fun _ s' => after_command _ _ (tracing_state (st_s s')))), dispatch_exact.
  - intros pid status o E. exact (wp_elim _ _ _ _ _ (child_exact pid status s) E).
  - intros h o Hi E. exact (proj2 (wp_elim _ _ _ _ _ (safe_handle fuel module_dir sys_signame h s Hi) E)).
Qed.

(** ** No child is left stopped *)

(** A request that lets [pid] go on. *)
Definition lets_go (pid : Z) (ev : event) : Prop :=
  exists sig, ev.1 = CPtrace PTRACE_CONT pid 0 sig \/ ev.1 = CPtrace PTRACE_DETACH pid 0 sig.

Definition released (pid : Z) (log log' : list event) : Prop :=
  exists evs, log' = evs ++ log /\ Exists (lets_go pid) evs.

Lemma released_later pid evs log log' :
  released pid log log' -> released pid log (evs ++ log').
Proof.
  intros (l & -> & H). exists (evs ++ l). split; [by rewrite app_assoc|]. apply Exists_app. by right.
Qed.

Lemma released_earlier pid evs log log' :
  released pid (evs ++ log) log' -> released pid log log'.
Proof.
  intros (l & -> & H). exists (l ++ evs). split; [by rewrite app_assoc|]. apply Exists_app. by left.
Qed.

Lemma released_now pid req sig r log :
  req = PTRACE_CONT \/ req = PTRACE_DETACH -> released pid log ((CPtrace req pid 0 sig, r) :: log).
Proof.
  intros H. exists [(CPtrace req pid 0 sig, r)]. split; [done|]. constructor. exists sig.
  destruct H as [-> | ->]; [by left|by right].
Qed.

Lemma extends_atomic path data : extends (atomic_write_file path data : K _).
Proof. unfold atomic_write_file, do_. extends_tac. Qed.

Lemma extends_update : extends (update_status module_dir : K _).
Proof. pose proof extends_atomic. unfold update_status. cbn zeta. extends_tac. Qed.

Lemma extends_fork : extends (fork_dont_care : K _).
Proof. unfold fork_dont_care, do_. cbn zeta. extends_tac. Qed.

Lemma extends_stop reason : extends (request_stop module_dir reason : K _).
Proof. pose proof extends_update. unfold request_stop, set_state, do_. extends_tac. Qed.

Lemma extends_ensure : extends (ensure_daemon_created module_dir : K _).
Proof. unfold ensure_daemon_created, execl, do_. cbn zeta. extends_tac. Qed.

Lemma extends_check : extends (check_and_prepare_injection module_dir : K _).
Proof.
  pose proof extends_stop. pose proof extends_ensure.
  unfold check_and_prepare_injection, is_in_crash_loop. extends_tac.
Qed.

Lemma extends_aux : extends (prepare_aux_injection module_dir : K _).
Proof. pose proof extends_ensure. unfold prepare_aux_injection. extends_tac. Qed.

(** Going on after the release. *)
Lemma wp_released {A} (x : K A) pid log (s : st W monitor) :
  extends x -> released pid log (st_log s) -> wp x (on_ret (fun _ s' => released pid log (st_log s'))) s.
Proof.
  intros Hx Hr. eapply wp_mono; [apply Hx|]. intros [a| | |] s' [evs E]; cbn; try done.
  rewrite E. by apply released_later.
Qed.

Lemma hand_over_releases pid status h t (s : st W monitor) :
  wp (hand_over pid status h t) (on_ret (fun _ s' => released pid (st_log s) (st_log s'))) s.
Proof.
  unfold hand_over, do_. wrun. apply wp_syscall. intros r1 w1 e1. wrun.
  apply wp_syscall. intros r2 w2 e2. do 2 wstep. apply wp_released.
  - pose proof extends_fork. unfold execl. cbn zeta. extends_tac.
  - cbn. apply (released_earlier _ [(CKill pid SIGSTOP, r1)]), released_now. by left.
Qed.

(** A process that was not released keeps its status. *)
Lemma exec_event_releases pid status (s : st W monitor) :
  wp (handleExecEvent module_dir pid status)
     (on_ret (fun x s' => (exists evs, st_log s' = evs ++ st_log s)
        /\ (released pid (st_log s) (st_log s') \/ x = (false, status)))) s.
Proof.
  set (Q := fun x (s' : st W monitor) => (exists evs, st_log s' = evs ++ st_log s)
        /\ (released pid (st_log s) (st_log s') \/ x = (false, status))).
  assert (Hend : forall x s1, Q x s1 ->
    wp (update_status module_dir;; mret x) (on_ret Q) s1).
  { intros x s1 [[evs E] H]. wstep. eapply wp_mono; [apply extends_update|].
    intros [a| | |] s2 [evs' E']; cbn; try done. wrun. split.
    - exists (evs' ++ evs). by rewrite E', E, app_assoc.
    - destruct H as [H|H]; [left; rewrite E'; by apply released_later|by right]. }
  unfold handleExecEvent. wstep.
  eapply wp_mono; [apply (extends_bind (syscall _)); [apply extends_syscall|intros; extends_tac]|].
  intros [program| | |] s1 [evs1 E1]; cbn [wp_cont]; try done. wstep.
  assert (Hkeep : forall s2 : st W monitor, (exists evs, st_log s2 = evs ++ st_log s) ->
     wp (update_status module_dir;; mret (false, status)) (on_ret Q) s2).
  { intros s2 H. apply Hend. split; [done|by right]. }
  destruct (contains _ _).
  { unfold do_. wrun. apply wp_syscall. intros r2 w2 e2. wrun. apply wp_syscall. intros r3 w3 e3.
    do 3 wstep. apply Hend. cbn. split; [rewrite E1; by eexists (_ :: _ :: evs1)|]. left.
    rewrite E1. eapply (released_earlier _ (_ :: evs1)), released_now. by left. }
  do 2 wstep. destruct (negb (bool_decide _)); [wstep; apply Hkeep; eauto|]. cbn zeta.
  destruct (negb _ && negb _); [wstep; apply Hkeep; eauto|]. wstep.
  assert (Hprep : forall b : bool, extends (if b then prepare_aux_injection module_dir
                                            else check_and_prepare_injection module_dir : K _))
    by (intros [|]; [apply extends_aux|apply extends_check]).
  eapply wp_mono; [apply Hprep|]. intros [o| | |] s2 [evs2 E2]; cbn [wp_cont]; try done.
  destruct o as [t|]; [|wstep; apply Hkeep; rewrite E2, E1, app_assoc; eauto].
  eapply wp_mono; [apply hand_over_releases|]. intros [x| | |] s3 Hr; cbn [wp_cont]; try done.
  apply Hend. cbn in Hr. rewrite E2, E1, app_assoc in Hr. apply released_earlier in Hr.
  split; [destruct Hr as (l & -> & _); eauto|by left].
Qed.

Lemma traced_releases pid status (s : st W monitor) :
  WIFSTOPPED status = true ->
  wp (handleTracedProcess module_dir pid status)
     (on_ret (fun _ s' => released pid (st_log s) (st_log s'))) s.
Proof.
  intros Hst. unfold handleTracedProcess. wstep.
  eapply (wp_mono _ (on_ret (fun x s' => (exists evs, st_log s' = evs ++ st_log s)
            /\ (released pid (st_log s) (st_log s') \/ x = (false, status))))).
  - destruct (stopped_with status SIGTRAP PTRACE_EVENT_EXEC); [apply exec_event_releases|].
    destruct (stopped_with status SIGTRAP PTRACE_EVENT_STOP).
    + unfold do_. wrun. apply wp_syscall. intros r w e. wrun. apply wp_syscall. intros r2 w2 e2.
      wrun. split; [by eexists [_; _]|]. left.
      eapply (released_earlier _ [_]), released_now. by left.
    + wrun. split; [by exists []|by right].
  - intros [[keep st']| | |] s1 H; cbn [wp_cont]; try done. destruct H as [[evs E] [Hr|Hx]].
    + apply wp_released; [|done]. unfold do_. extends_tac.
    + injection Hx as -> ->. rewrite Hst. unfold do_. wrun. apply wp_syscall. intros r w e. wrun.
      rewrite E. eapply (released_earlier _ evs), released_now. by right.
Qed.

Lemma parent_releases pid status (s : st W monitor) :
  WIFSTOPPED status = true ->
  wp (handleParentEvent pid status) (on_ret (fun _ s' => released pid (st_log s) (st_log s'))) s.
Proof.
  intros Hst. assert (Hne : WIFEXITED status || WIFSIGNALED status = false).
  { unfold WIFSTOPPED, WIFEXITED, WIFSIGNALED, WTERMSIG in *. apply Z.eqb_eq in Hst.
    rewrite Hst. cbn [Z.eqb orb]. apply Z.leb_gt.
    change 0x7f with (Z.ones 7) in *. rewrite Z.land_ones in * by lia.
    rewrite <- Z.add_mod_idemp_l, Hst by lia. by vm_compute. }
  unfold handleParentEvent, notify_init_detached, set_state, do_. wrun. rewrite Hst, Hne.
  assert (Hend : forall (s1 : st W monitor) sig, (exists evs, st_log s1 = evs ++ st_log s) ->
    wp (r ← syscall (CPtrace PTRACE_CONT pid 0 sig); mret tt)
       (on_ret (fun _ s' => released pid (st_log s) (st_log s'))) s1).
  { intros s1 sig [evs E]. wrun. apply wp_syscall. intros. wrun. rewrite E.
    eapply (released_earlier _ evs), released_now. by left. }
  destruct (stopped_with status SIGTRAP PTRACE_EVENT_FORK).
  { wrun. apply wp_syscall. intros r w e. wrun. cbn zeta.
    match goal with |- wp (if ?b then _ else _) _ _ => destruct b end; apply Hend; by eexists [_]. }
  destruct ((pid =? 1) && _ && _) eqn:E1.
  { apply andb_true_iff in E1 as [E1 _]. apply andb_true_iff in E1 as [E1 _]. apply Z.eqb_eq in E1.
    subst pid. wrun. apply wp_syscall. intros r w e. wrun. apply released_now. by right. }
  rewrite andb_false_r. wrun.
  match goal with |- wp (if ?b then _ else _) _ _ => destruct b end; apply Hend; by exists [].
Qed.

(** C5. No child is left hanging: whenever a traced process is reported as
    stopped (init, a stub, a candidate or a new process, in any state and
    with any pending signal or event) and the handler returns, it has asked
    the kernel to continue or to detach that process. Only a stop of the
    monitor's own daemon, which is not traced, is not answered. *)
Theorem stopped_child_released pid status (s s' : st W monitor) :
  WIFSTOPPED status = true ->
  pid = 1 \/ pid ∈ stub_processes (st_s s) \/ pid <> daemon_pid (status_ (st_s s)) ->
  handleChildEvent module_dir sys_signame pid status s = (Ret tt, s') ->
  released pid (st_log s) (st_log s').
Proof.
  intros Hst Hpid E.
  refine (wp_on_ret _ (fun _ s' => released pid (st_log s) (st_log s')) s tt s' _ E). clear E.
  unfold handleChildEvent. wrun.
  destruct ((pid =? 1) || bool_decide (pid ∈ stub_processes (st_s s))) eqn:Ep;
    [by apply parent_releases|].
  apply orb_false_iff in Ep as [E1 E2]. apply Z.eqb_neq in E1. apply bool_decide_eq_false in E2.
  destruct Hpid as [|[|Hd]]; [done|done|].
  unfold handle_daemon_exit_if_match. wrun.
  rewrite (proj2 (Z.eqb_neq _ _) Hd), andb_false_r. wrun.
  destruct (bool_decide (pid ∈ process_ (st_s s))); [by apply traced_releases|].
  unfold handleNewProcess, do_. wrun. apply wp_syscall. intros r w e. wrun.
  apply wp_syscall. intros r2 w2 e2. wrun.
  eapply (released_earlier _ [_]), released_now. by left.
Qed.

(** ** Crash loops *)

(** The counter after zygote starts at the given seconds, oldest first. *)
Definition counter_after (starts : list Z) : StartCounter :=
  fold_left (fun c t => bump t 0 c) starts (Counter 0 0 0).

(** How many of the latest starts followed each other within the window
    (newest first). *)
Fixpoint streak (starts : list Z) : nat :=
  match starts with
  | [] => 0%nat
  | t :: starts' =>
      match starts' with
      | [] => 1%nat
      | t' :: _ => if t - t' <? CRASH_LOOP_WINDOW_SECONDS then S (streak starts') else 1%nat
      end
  end.

Lemma streak_le starts : (streak starts <= length starts)%nat.
Proof.
  induction starts as [|t [|t' l] IH]; cbn [streak length] in *; [lia..|]. destruct (_ <? _); lia.
Qed.

Lemma counter_after_streak starts :
  Z.of_nat (length starts) < 2 ^ 31 ->
  last_start_sec (counter_after starts) = default 0 (last starts)
  /\ count (counter_after starts) = Z.of_nat (streak (rev starts)).
Proof.
  induction starts as [|t starts IH] using rev_ind; [done|].
  rewrite length_app, rev_app_distr, last_snoc. cbn [length rev app]. intros Hlen.
  destruct IH as [IH1 IH2]; [lia|].
  unfold counter_after. rewrite fold_left_app. cbn [fold_left]. fold (counter_after starts).
  split; [done|]. cbn [count bump streak]. rewrite IH1, IH2.
  pose proof (streak_le (rev starts)) as Hle. rewrite length_rev in Hle.
  assert (Hs : s32 (Z.of_nat (streak (rev starts)) + 1) = Z.of_nat (S (streak (rev starts)))).
  { apply swrap_eq_mod; [lia|unfold fits_s; lia|f_equal; lia]. }
  destruct (rev starts) as [|t' l] eqn:E.
  - apply (f_equal (@rev Z)) in E. rewrite rev_involutive in E. subst starts. cbn.
    by destruct (_ <? _).
  - apply (f_equal (@rev Z)) in E. rewrite rev_involutive in E. subst starts. cbn [rev] in *.
    rewrite last_snoc. cbn [default]. destruct (_ <? _); [by rewrite Hs|done].
Qed.

(** Five starts, newest first, each within the window of the previous one. *)
Definition five_quick (starts : list Z) : Prop :=
  exists a b c d e l, starts = a :: b :: c :: d :: e :: l
    /\ a - b < 30 /\ b - c < 30 /\ c - d < 30 /\ d - e < 30.

Lemma streak_five starts : (5 <= streak starts)%nat <-> five_quick starts.
Proof.
  unfold five_quick. split.
  - intros H.
    do 5 (destruct starts as [|? starts];
          [repeat (cbn [streak] in H; try destruct (_ <? _)); lia|]).
    cbn [streak] in H.
    repeat (match type of H with context [?x <? ?y] => destruct (Z.ltb_spec x y) end; [|lia]).
    unfold CRASH_LOOP_WINDOW_SECONDS in *. by repeat eexists.
  - intros (a & b & c & d & e & l & -> & H1 & H2 & H3 & H4). cbn [streak].
    unfold CRASH_LOOP_WINDOW_SECONDS.
    rewrite (proj2 (Z.ltb_lt _ _) H1), (proj2 (Z.ltb_lt _ _) H2), (proj2 (Z.ltb_lt _ _) H3),
      (proj2 (Z.ltb_lt _ _) H4).
    destruct l; [lia|]. destruct (_ <? _); lia.
Qed.

(** The crash guard: after zygote starts at the seconds [starts] and one
    more now, [is_in_crash_loop] answers yes exactly if the last five starts
    followed each other in less than thirty seconds each. *)
Theorem crash_loop_exact starts now r w' (s : st W monitor) :
  Z.of_nat (length starts) < 2 ^ 31 - 1 ->
  counter (st_s s) = counter_after starts ->
  sys CClock (st_w s) = (r, w') -> r_aux r = [now; 0] ->
  exists s', is_in_crash_loop s = (Ret (bool_decide (5 <= streak (rev (starts ++ [now])))%nat), s')
    /\ counter (st_s s') = counter_after (starts ++ [now])
    /\ ((5 <= streak (rev (starts ++ [now])))%nat <-> five_quick (rev (starts ++ [now]))).
Proof.
  intros Hlen Hc Hsys Haux.
  assert (Hn : bump now 0 (counter (st_s s)) = counter_after (starts ++ [now])).
  { unfold counter_after. by rewrite fold_left_app, Hc. }
  destruct (counter_after_streak (starts ++ [now])) as [_ Hcount]; [rewrite length_app; cbn; lia|].
  eexists. split; [|split; [|apply streak_five]].
  - unfold is_in_crash_loop, mbind, M_bind, syscall. rewrite Hsys. cbn -[bump]. rewrite Haux.
    cbn -[bump]. rewrite Hn, Hcount. unfold mret, M_ret. f_equal. f_equal. unfold CRASH_LOOP_RETRY_COUNT.
    apply eq_bool_prop_intro. rewrite bool_decide_spec, Is_true_true, Z.leb_le. lia.
  - done.
Qed.

(** ** Two surprises *)

Lemma update_keeps_stubs : neutral stub_processes (update_status module_dir : K _).
Proof.
  pose proof (neutral_atomic_write (W:=W) stub_processes). unfold update_status. cbn zeta. neutral_tac.
Qed.

Lemma hand_over_status pid status h t (s : st W monitor) :
  wp (hand_over pid status h t)
     (on_ret (fun x _ => x.1 = true -> stopped_with x.2 SIGTRAP PTRACE_EVENT_EXEC = false)) s.
Proof.
  unfold hand_over, do_. wrun. apply wp_syscall. intros r1 w1 e1. wrun.
  apply wp_syscall. intros r2 w2 e2. wrun. apply wp_syscall. intros r3 w3 e3. wrun. cbn zeta.
  set (st' := if _ =? -1 then status else _).
  destruct (stopped_with st' SIGSTOP 0) eqn:Es; [|by wrun].
  assert (Hne : stopped_with st' SIGTRAP PTRACE_EVENT_EXEC = false).
  { unfold stopped_with in *. apply andb_true_iff in Es as [-> Es]. apply Z.eqb_eq in Es.
    by rewrite Es. }
  wrun. apply wp_syscall. intros r4 w4 e4. do 2 wstep. apply wp_bind.
  eapply (wp_mono _ (fun _ _ => True)); [done|]. intros [p| | |] s2 _; cbn [wp_cont]; try done.
  apply wp_bind.
  eapply (wp_mono _ (fun _ _ => True)); [done|]. intros [[]| | |] s3 _; cbn [wp_cont]; try done.
  wrun. by intros _.
Qed.

(** A target is kept attached only as a stub or with another status than the
    exec event it came with. *)
Lemma exec_event_keeps pid status (s : st W monitor) :
  wp (handleExecEvent module_dir pid status)
     (on_ret (fun x s' => x.1 = true -> pid ∈ stub_processes (st_s s')
                          \/ stopped_with x.2 SIGTRAP PTRACE_EVENT_EXEC = false)) s.
Proof.
  set (Q := fun (x : bool * Z) (s' : st W monitor) => x.1 = true ->
    pid ∈ stub_processes (st_s s') \/ stopped_with x.2 SIGTRAP PTRACE_EVENT_EXEC = false).
  assert (Hend : forall x s1, Q x s1 -> wp (update_status module_dir;; mret x) (on_ret Q) s1).
  { intros x s1 H. wstep. eapply wp_mono; [apply update_keeps_stubs|].
    intros [a| | |] s2 [_ E]; cbn; try done. wrun. intros Hx. rewrite E. by apply H. }
  unfold handleExecEvent. wstep.
  eapply wp_mono; [apply (extends_bind (syscall _)); [apply extends_syscall|intros; extends_tac]|].
  intros [program| | |] s1 _; cbn [wp_cont]; try done. wstep.
  assert (Hkeep : forall s2, wp (update_status module_dir;; mret (false, status)) (on_ret Q) s2)
    by (intros; by apply Hend).
  destruct (contains _ _).
  { unfold do_. wrun. apply wp_syscall. intros r2 w2 e2. wrun. apply wp_syscall. intros r3 w3 e3.
    do 3 wstep. apply Hend. intros _. left. cbn. set_solver. }
  do 2 wstep. destruct (negb (bool_decide _)); [wstep; apply Hkeep|]. cbn zeta.
  destruct (negb _ && negb _); [wstep; apply Hkeep|]. wstep.
  eapply (wp_mono _ (fun _ _ => True)); [done|]. intros [[t|]| | |] s2 _; cbn [wp_cont]; try done;
    [|wstep; apply Hkeep].
  eapply wp_mono; [apply hand_over_status|]. intros [x| | |] s3 Hr; cbn [wp_cont]; try done.
  apply Hend. intros Hx. right. by apply Hr.
Qed.

(** A target that was handed to the injector stays in the candidate set:
    the wait inside the hand-over has replaced the exec status, so the erase
    meant for it never runs. *)
Theorem handed_over_stays_candidate pid status st' (s s1 : st W monitor) :
  stopped_with status SIGTRAP PTRACE_EVENT_EXEC = true ->
  handleExecEvent module_dir pid status s = (Ret (true, st'), s1) ->
  pid ∉ stub_processes (st_s s1) ->
  handleTracedProcess module_dir pid status s = (Ret tt, s1).
Proof.
  intros Hst E Hstub.
  assert (Hne : stopped_with st' SIGTRAP PTRACE_EVENT_EXEC = false).
  { destruct (wp_on_ret _ _ s _ _ (exec_event_keeps pid status s) E); done. }
  unfold handleTracedProcess. rewrite Hst. unfold mbind at 1, M_bind at 1. rewrite E. cbn beta iota.
  by rewrite Hne.
Qed.

(** A head that arrives whole. *)
Lemma recv_head flags head e aux w' Q (s : st W monitor) :
  sys (CRecv (sock_fd (st_s s)) 8 flags) (st_w s) = (Reply 8 e head aux, w') -> length head = 8%nat ->
  Q (Ret 8) (St w' ((CRecv (sock_fd (st_s s)) 8 flags, Reply 8 e head aux) :: st_log s) (st_errno s)
               (set_buf_ (head ++ drop 8 (buf_ (st_s s))) (st_s s))) ->
  wp (recv_buf 8 flags) Q s.
Proof.
  intros Hsys Hlen HQ. unfold recv_buf. wrun. eapply wp_syscall_eq; [exact Hsys|].
  cbn -[set_buf_ take drop Pos.to_nat]. wrun.
  by rewrite take_ge, Hlen by (rewrite Hlen; reflexivity).
Qed.

(** A daemon message whose declared length is below -8 ends the monitor:
    the size of the receive buffer becomes negative. *)
Theorem negative_length_crashes cmd len e aux w' (s : st W monitor) :
  cmd = 5 \/ cmd = 6 -> - 2 ^ 31 <= len < -8 ->
  sys (CRecv (sock_fd (st_s s)) 8 MSG_PEEK_TRUNC) (st_w s)
  = (Reply 8 e (le_bytes 4 cmd ++ le_bytes 4 len) aux, w') ->
  exists s', receive_one fuel module_dir s = (Crash, s').
Proof.
  intros Hcmd Hlen Hsys.
  assert (H : wp (receive_one fuel module_dir) (fun o _ => o = Crash) s).
  { unfold receive_one. wstep. unfold resize at 1. change (sizeof_MsgHead <? 0) with false.
    cbn iota. wrun. eapply recv_head; [exact Hsys|by rewrite length_app, !length_le_bytes|].
    cbn [wp_cont]. change (8 =? -1) with false. cbn iota. wrun.
    unfold msg_cmd, msg_length. cbn [buf_ set_buf_].
    rewrite <- !app_assoc, (take_app_length' (le_bytes 4 cmd)) by (by rewrite length_le_bytes).
    rewrite (drop_app_length' (le_bytes 4 cmd)) by (by rewrite length_le_bytes).
    rewrite (take_app_length' (le_bytes 4 len)) by (by rewrite length_le_bytes).
    rewrite !le_Z_bytes. change (8 * Z.of_nat 4) with 32.
    rewrite (swrap_eq_mod 32 (len mod 2 ^ 32) len), (swrap_eq_mod 32 (cmd mod 2 ^ 32) cmd)
      by (first [lia | unfold fits_s; lia | apply Z.mod_mod; lia]).
    assert (Hbig : has_payload (command_of cmd) = true) by (by destruct Hcmd as [-> | ->]).
    rewrite Hbig. cbn iota. change (u64 8 <? sizeof_MsgHead) with false. cbn iota zeta. wrun.
    rewrite (swrap_eq_mod 64 (sizeof_MsgHead + len) (8 + len))
      by (first [lia | unfold fits_s; lia | done]).
    unfold resize. rewrite (proj2 (Z.ltb_lt (8 + len) 0)) by lia. by wrun. }
  unfold wp in H. destruct (receive_one fuel module_dir s) as [o s'] eqn:E. exists s'.
  cbn in H. by rewrite H.
Qed.
End Claims.

(** ** Witnesses *)

Definition dir0 : list Z := B "/m".
Definition names0 (sig : Z) : list Z := B "X".
Definition d0 : daemon_state := DaemonSt (B "/t") 0 false.

Lemma monitor_run_invariant_witness :
  let s' := (run 3 dir0 names0 2 (St ([] : script) [] 0 (AppMonitor d0))).2 in
  running (st_s s') = true /\ init_held (st_log s') = 1
  /\ daemon_ok (st_s s')
  /\ ((expected (tracing_state (st_s s')) (init_held (st_log s') + init_missed (st_log s'))
       /\ (none_refused (st_log s') -> expected (tracing_state (st_s s')) (init_held (st_log s'))))
      \/ (init_held (st_log s') = 0 /\ init_missed (st_log s') = 0
          /\ tracing_state (st_s s') = TRACING /\ running (st_s s') = false)).
Proof.
  split; [vm_compute; reflexivity|]. split; [vm_compute; reflexivity|].
  apply (monitor_run_invariant 3 dir0 names0 2 d0 (St ([] : script) [] 0 (AppMonitor d0)) _
           (run 3 dir0 names0 2 (St ([] : script) [] 0 (AppMonitor d0))).1);
    [reflexivity|reflexivity|reflexivity|apply surjective_pairing].
Defined.

(** Init is seized; an EXIT command arrives. *)
Definition exit_state : st script monitor :=
  St [Reply 4 0 [3; 0; 0; 0] []; Reply 4 0 [3; 0; 0; 0] []]
     [(CPtrace PTRACE_SEIZE 1 0 PTRACE_O_TRACEFORK, ans 0)] 0 (AppMonitor d0).

(** The monitor is stopping, and init stops. *)
Definition stopping_state : st script monitor :=
  St [] [(CPtrace PTRACE_SEIZE 1 0 PTRACE_O_TRACEFORK, ans 0)] 0 (set_tracing_state STOPPING (AppMonitor d0)).

Lemma monitor_transitions_witness :
  let s1 := (handleChildEvent dir0 names0 1 0x80057f stopping_state).2 in
  let s2 := (dispatch 3 dir0 (St [] [] 0 (set_buf_ [3; 0; 0; 0] (AppMonitor d0)))).2 in
  let s3 := (HandleEvent 3 dir0 names0 1 (St (st_w exit_state) (st_log exit_state) 0 (set_tracing_state EXITING (AppMonitor d0)))).2 in
  tracing_state (st_s s1) = STOPPED /\ tracing_state (st_s s2) = EXITING /\ tracing_state (st_s s3) = EXITING.
Proof.
  cbn zeta. split_and!.
  - exact (proj1 (proj2 (monitor_transitions 3 dir0 names0 stopping_state _)) 1 0x80057f _ (surjective_pairing _)).
  - refine (proj1 (monitor_transitions 3 dir0 names0 (St [] [] 0 (set_buf_ [3; 0; 0; 0] (AppMonitor d0))) _) _).
    vm_compute. reflexivity.
  - refine (proj2 (proj2 (monitor_transitions 3 dir0 names0 (St (st_w exit_state) (st_log exit_state) 0
       (set_tracing_state EXITING (AppMonitor d0))) _)) 1 _ _ (surjective_pairing _) eq_refl).
    split; [intros H; vm_compute in H; discriminate H|]. split; vm_compute; discriminate.
Defined.

Lemma stopped_child_released_witness :
  released 77 [] (st_log (handleChildEvent dir0 names0 77 0x857f (St ([] : script) [] 0 (AppMonitor d0))).2).
Proof.
  apply (stopped_child_released dir0 names0 77 0x857f (St ([] : script) [] 0 (AppMonitor d0)));
    [vm_compute; reflexivity|right; right; vm_compute; discriminate|vm_compute; reflexivity].
Defined.

Lemma crash_loop_exact_witness :
  exists s' : st script monitor,
    is_in_crash_loop (St [Reply 0 0 [] [50; 0]] [] 0
      (set_counter (counter_after [10; 20; 30; 40]) (AppMonitor d0))) = (Ret true, s').
Proof.
  destruct (crash_loop_exact [10; 20; 30; 40] 50 (Reply 0 0 [] [50; 0]) []
    (St [Reply 0 0 [] [50; 0]] [] 0
      (set_counter (counter_after [10; 20; 30; 40]) (AppMonitor d0))))
    as (s' & H & _); [reflexivity..|]. exists s'. exact H.
Defined.

(** A zygote's exec: the daemon is forked as 50, the target stops with
    SIGSTOP and the injector is forked as 60. *)
Definition exec_script : script :=
  [Reply 25 0 PROGRAM_PATH []; Reply 0 0 [] [100; 0]; ans 50; ans 0; ans 0;
   Reply 77 0 [] [0x137f]; ans 0; ans 60].
Definition exec_state : st script monitor :=
  St exec_script [] 0 (set_process_ {[77]} (AppMonitor d0)).

Lemma handed_over_stays_candidate_witness :
  exists s1, handleTracedProcess dir0 77 0x4057f exec_state = (Ret tt, s1)
             /\ 77 ∈ process_ (st_s s1).
Proof.
  eexists. split.
  - apply (handed_over_stays_candidate dir0 names0 77 0x4057f 0x137f exec_state
             (handleExecEvent dir0 77 0x4057f exec_state).2);
      [vm_compute; reflexivity|vm_compute; reflexivity|vm_decide].
  - vm_decide.
Defined.

Lemma negative_length_crashes_witness :
  exists s', receive_one 3 dir0 (St [Reply 8 0 (le_bytes 4 5 ++ le_bytes 4 (-100)) []] [] 0
                                   (AppMonitor d0)) = (Crash, s').
Proof.
  apply (negative_length_crashes 3 dir0 5 (-100) 0 [] [] (St [Reply 8 0 (le_bytes 4 5 ++ le_bytes 4 (-100)) []] [] 0 (AppMonitor d0)));
    [by left|lia|reflexivity].
Defined.
