(* ===== verification/Mem.v ===== *)
(** Memory of the process: bytes with the protection of their page, and the
    operations the loader performs on it (C loads and stores, mmap, munmap,
    mprotect, calls of foreign code).

    An access the protection does not allow ends the program. A successful
    mmap, munmap or mprotect has the effect the kernel documents; a failed
    mprotect may still have changed a prefix of its range. *)
From S2P Require Import Prelude Sys.
Open Scope Z_scope.

Definition PROT_NONE : Z := 0.
Definition PROT_READ : Z := 1.
Definition PROT_WRITE : Z := 2.
Definition PROT_EXEC : Z := 4.
Definition MAP_PRIVATE : Z := 2.
Definition MAP_FIXED : Z := 16.
Definition MAP_ANONYMOUS : Z := 32.

Record cell := Cell { c_byte : Z; c_prot : Z }.
Abbreviation mem := (gmap Z cell).

(** Applies [f] to the [n] addresses from [a]. *)
Fixpoint upd_range (f : option cell -> option cell) (n : nat) (a : Z) (m : mem) : mem :=
  match n with
  | O => m
  | S n' => upd_range f n' (a + 1) (partial_alter f a m)
  end.

(** Maps [n] fresh bytes: those given, then zeros. *)
Fixpoint map_range (prot : Z) (n : nat) (a : Z) (bytes : list Z) (m : mem) : mem :=
  match n with
  | O => m
  | S n' => map_range prot n' (a + 1) (tail bytes)
              (<[a := Cell (default 0 (head bytes)) prot]> m)
  end.

Definition unmap_range (n : nat) (a : Z) : mem -> mem := upd_range (fun _ => None) n a.
Definition protect_range (prot : Z) (n : nat) (a : Z) : mem -> mem :=
  upd_range (fmap (fun c => Cell (c_byte c) prot)) n a.

Fixpoint read_bytes (m : mem) (n : nat) (a : Z) : option (list Z) :=
  match n with
  | O => Some []
  | S n' =>
      c ← m !! a;
      if (c_prot c &? PROT_READ)
      then bs ← read_bytes m n' (u64 (a + 1)); Some (c_byte c :: bs)
      else None
  end.

Fixpoint write_bytes (m : mem) (a : Z) (bytes : list Z) : option mem :=
  match bytes with
  | [] => Some m
  | b :: bytes' =>
      c ← m !! a;
      if (c_prot c &? PROT_WRITE)
      then write_bytes (<[a := Cell b (c_prot c)]> m) (u64 (a + 1)) bytes'
      else None
  end.

(** Bytes overwritten by foreign code: only writable ones change. *)
Fixpoint poke (writes : list Z) (m : mem) : mem :=
  match writes with
  | a :: b :: writes' =>
      poke writes' (match m !! a with
                    | Some c => if (c_prot c &? PROT_WRITE)
                                then <[a := Cell b (c_prot c)]> m else m
                    | None => m
                    end)
  | _ => m
  end.

(** A component whose state contains the memory. *)
Class HasMem (S : Type) := {
  the_mem : S -> mem;
  put_mem : mem -> S -> S;
  mem_put m s : the_mem (put_mem m s) = m;
  put_put m m' s : put_mem m (put_mem m' s) = put_mem m s;
  put_mem_id s : put_mem (the_mem s) s = s }.

(** The memory itself. *)
#[export] Instance plain_mem : HasMem mem.
Proof. refine {| the_mem m := m; put_mem m _ := m |}; done. Defined.

Section Access.
Context {W : Type} `{!World W} {S : Type} `{!HasMem S}.
Abbreviation K := (M W S).

Definition load (n : nat) (a : Z) : K (list Z) :=
  s ← get;
  match read_bytes (the_mem s) n (u64 a) with Some bs => mret bs | None => crash end.

Definition load_u8 (a : Z) : K Z := bs ← load 1 a; mret (le_Z bs).
Definition load_u16 (a : Z) : K Z := bs ← load 2 a; mret (le_Z bs).
Definition load_u32 (a : Z) : K Z := bs ← load 4 a; mret (le_Z bs).
Definition load_u64 (a : Z) : K Z := bs ← load 8 a; mret (le_Z bs).

Definition store (a : Z) (bytes : list Z) : K unit :=
  s ← get;
  match write_bytes (the_mem s) (u64 a) bytes with
  | Some m => modify (put_mem m)
  | None => crash
  end.

Definition store_u64 (a x : Z) : K unit := store a (le_bytes 8 x).

(** [strcmp(a, name) == 0] for a [name] without NULs. *)
Fixpoint str_eq (a : Z) (name : list Z) : K bool :=
  b ← load_u8 a;
  match name with
  | [] => mret (b =? 0)
  | c :: name' => if b =? c then str_eq (a + 1) name' else mret false
  end.

(** The C string at [a]. *)
Fixpoint load_cstr (fuel : nat) (a : Z) : K (list Z) :=
  match fuel with
  | O => out_of_fuel
  | Datatypes.S fuel' =>
      b ← load_u8 a;
      if b =? 0 then mret [] else s ← load_cstr fuel' (a + 1); mret (b :: s)
  end.

(** [None] is MAP_FAILED; a fixed mapping lands at its address. *)
Definition mmap (addr len prot flags fd off : Z) : K (option Z) :=
  r ← syscall (CMmap addr len prot flags fd off);
  if r_ret r =? -1 then mret None
  else
    let a := if (flags &? MAP_FIXED) then addr else r_ret r in
    let bytes := if (flags &? MAP_ANONYMOUS) then [] else r_data r in
    modify (fun s => put_mem (map_range prot (Z.to_nat len) a bytes (the_mem s)) s);;
    mret (Some a).

Definition munmap (addr len : Z) : K unit :=
  r ← syscall (CMunmap addr len);
  if r_ret r =? 0 then modify (fun s => put_mem (unmap_range (Z.to_nat len) addr (the_mem s)) s)
  else mret tt.

Definition mprotect (addr len prot : Z) : K Z :=
  r ← syscall (CMprotect addr len prot);
  let n := if r_ret r =? 0 then len else Z.min len (nth 0 (r_aux r) 0) in
  modify (fun s => put_mem (protect_range prot (Z.to_nat n) addr (the_mem s)) s);;
  mret (r_ret r).

(** Runs foreign code at [addr]. *)
Definition call_code (addr : Z) (args : list Z) : K Z :=
  r ← syscall (CCall addr args);
  modify (fun s => put_mem (poke (r_aux r) (the_mem s)) s);;
  mret (u64 (r_ret r)).
End Access.

(** ** Lookups after the range operations *)

Lemma lookup_upd_range f n a m x :
  upd_range f n a m !! x = if (a <=? x) && (x <? a + Z.of_nat n) then f (m !! x) else m !! x.
Proof.
  revert a m. induction n as [|n IH]; intros a m; cbn [upd_range].
  - destruct (Z.leb_spec a x), (Z.ltb_spec x (a + Z.of_nat 0)); cbn; try lia; done.
  - rewrite IH. destruct (decide (a = x)) as [->|Hne].
    + rewrite lookup_partial_alter_eq.
      destruct (Z.leb_spec (x + 1) x), (Z.leb_spec x x), (Z.ltb_spec x (x + Z.of_nat (S n)));
        cbn; try lia; done.
    + rewrite lookup_partial_alter_ne by done.
      destruct (Z.leb_spec (a + 1) x), (Z.leb_spec a x), (Z.ltb_spec x (a + 1 + Z.of_nat n)),
        (Z.ltb_spec x (a + Z.of_nat (S n))); cbn; try lia; done.
Qed.

Lemma lookup_map_range prot n a bytes m x :
  map_range prot n a bytes m !! x
  = if (a <=? x) && (x <? a + Z.of_nat n)
    then Some (Cell (nth (Z.to_nat (x - a)) bytes 0) prot) else m !! x.
Proof.
  revert a bytes m. induction n as [|n IH]; intros a bytes m; cbn [map_range].
  - destruct (Z.leb_spec a x), (Z.ltb_spec x (a + Z.of_nat 0)); cbn; try lia; done.
  - rewrite IH. destruct (decide (a = x)) as [->|Hne].
    + rewrite lookup_insert_eq.
      destruct (Z.leb_spec (x + 1) x), (Z.leb_spec x x), (Z.ltb_spec x (x + Z.of_nat (S n)));
        cbn; try lia. replace (x - x) with 0 by lia. by destruct bytes.
    + rewrite lookup_insert_ne by done.
      destruct (Z.leb_spec (a + 1) x), (Z.leb_spec a x), (Z.ltb_spec x (a + 1 + Z.of_nat n)),
        (Z.ltb_spec x (a + Z.of_nat (S n))); cbn; try lia; try done.
      replace (Z.to_nat (x - a)) with (S (Z.to_nat (x - (a + 1)))) by lia. by destruct bytes, (Z.to_nat _).
Qed.

(** ** The address space: which addresses are mapped *)

Definition footprint (m : mem) : gset Z := dom m.

Lemma footprint_write m a bytes m' :
  write_bytes m a bytes = Some m' -> footprint m' = footprint m.
Proof.
  unfold footprint. revert m a. induction bytes as [|b bytes IH]; intros m a; cbn [write_bytes].
  - congruence.
  - destruct (m !! a) as [c|] eqn:E; [cbn|done]. destruct (_ &? _); [|done].
    intros H. apply IH in H. rewrite H. apply dom_insert_lookup_L. eauto.
Qed.

Lemma footprint_poke writes m : footprint (poke writes m) = footprint m.
Proof.
  unfold footprint. revert m. refine (_ writes). fix IH 1. intros [|a [|b writes']] m; [done|done|].
  cbn [poke]. rewrite IH. destruct (m !! a) as [c|] eqn:E; [|done].
  destruct (_ &? _); [|done]. apply dom_insert_lookup_L. eauto.
Qed.

Lemma footprint_protect prot n a m : footprint (protect_range prot n a m) = footprint m.
Proof.
  unfold footprint. apply set_eq. intros x. rewrite !elem_of_dom. unfold protect_range.
  rewrite lookup_upd_range. destruct (_ && _); [|done]. by rewrite fmap_is_Some.
Qed.

Lemma footprint_unmap n a m x :
  x ∈ footprint (unmap_range n a m) <-> x ∈ footprint m /\ ~ a <= x < a + Z.of_nat n.
Proof.
  unfold footprint, unmap_range. rewrite !elem_of_dom, lookup_upd_range.
  destruct (Z.leb_spec a x), (Z.ltb_spec x (a + Z.of_nat n)); cbn;
    split; intros H'; try (split; [done|lia]); try tauto; try (destruct H' as [_ H']; lia);
    by destruct H'.
Qed.

Lemma footprint_map prot n a bytes m x :
  x ∈ footprint (map_range prot n a bytes m) <-> x ∈ footprint m \/ a <= x < a + Z.of_nat n.
Proof.
  unfold footprint. rewrite !elem_of_dom, lookup_map_range.
  destruct (Z.leb_spec a x), (Z.ltb_spec x (a + Z.of_nat n)); cbn;
    split; intros H'; try (right; lia); try (by left); try done;
    by destruct H' as [|H']; [|lia].
Qed.

(** [m] and [m'] map the same addresses outside [lo, hi). *)
Definition same_outside (lo hi : Z) (m m' : mem) : Prop :=
  forall x, ~ lo <= x < hi -> x ∈ footprint m' <-> x ∈ footprint m.

#[export] Instance same_outside_preorder lo hi : PreOrder (same_outside lo hi).
Proof. split; [by intros m x Hx|]. intros m1 m2 m3 H1 H2 x Hx. rewrite (H2 x Hx). by apply H1. Qed.

Lemma same_outside_eq lo hi m m' : footprint m' = footprint m -> same_outside lo hi m m'.
Proof. intros E x _. by rewrite E. Qed.

Lemma same_outside_map lo hi prot n a bytes m :
  lo <= a -> a + Z.of_nat n <= hi -> same_outside lo hi m (map_range prot n a bytes m).
Proof. intros Ha Hn x Hx. rewrite footprint_map. split; [intros [|]; [done|lia]|by left]. Qed.

(** ** What memory holds *)

(** The readable bytes [bs] from address [p] on. *)
Definition holds (m : mem) (p : Z) (bs : list Z) : Prop :=
  forall i b, bs !! i = Some b ->
    exists c, m !! (p + Z.of_nat i) = Some c /\ c_byte c = b /\ (c_prot c &? PROT_READ) = true.

Lemma holds_app m p l1 l2 :
  holds m p (l1 ++ l2) <-> holds m p l1 /\ holds m (p + Z.of_nat (length l1)) l2.
Proof.
  split.
  - intros H. split; intros i b Hi.
    + apply H. by apply lookup_app_l_Some.
    + destruct (H (length l1 + i)%nat b) as (c & E & Hc).
      { rewrite lookup_app_r by lia. by replace (length l1 + i - length l1)%nat with i by lia. }
      exists c. split; [|done]. rewrite <- E. f_equal. lia.
  - intros [H1 H2] i b Hi. apply lookup_app_Some in Hi as [Hi|[Hl Hi]]; [by apply H1|].
    destruct (H2 _ _ Hi) as (c & E & Hc). exists c. split; [|done]. rewrite <- E. f_equal. lia.
Qed.

Lemma holds_cons m p b l :
  holds m p (b :: l) <->
  (exists c, m !! p = Some c /\ c_byte c = b /\ (c_prot c &? PROT_READ) = true)
  /\ holds m (p + 1) l.
Proof.
  change (b :: l) with ([b] ++ l). rewrite holds_app. cbn [length].
  split; (intros [H1 H2]; split; [|done]).
  - destruct (H1 O b eq_refl) as (c & E & Hc). exists c. by rewrite Z.add_0_r in E.
  - intros [|i] b' Hi; [|done]. cbn in Hi. injection Hi as <-. by rewrite Z.add_0_r.
Qed.

Lemma holds_at m p p' bs : holds m p bs -> p' = p -> holds m p' bs.
Proof. by intros H ->. Qed.

Lemma read_holds m p bs :
  0 <= p -> p + Z.of_nat (length bs) <= 2 ^ 64 -> holds m p bs ->
  read_bytes m (length bs) (u64 p) = Some bs.
Proof.
  revert p. induction bs as [|b bs IH]; intros p H0 H1 H; [done|].
  apply holds_cons in H as [(c & E & Eb & Ec) H]. cbn [length] in H1.
  cbn [length read_bytes]. rewrite (uwrap_id 64 p) by fits. rewrite E. cbn.
  rewrite Ec. cbn. rewrite IH by (try done; lia). cbn. by rewrite Eb.
Qed.

Lemma holds_read m p bs :
  0 <= p -> p + Z.of_nat (length bs) <= 2 ^ 64 -> read_bytes m (length bs) p = Some bs ->
  holds m p bs.
Proof.
  revert p. induction bs as [|b bs IH]; intros p H0 H1 H; [by intros i b Hi|].
  cbn [length read_bytes] in *. apply holds_cons.
  destruct (m !! p) as [c|] eqn:E; [cbn in H|done]. destruct (_ &? _) eqn:Er; [|done].
  destruct bs as [|b' bs].
  { cbn in H. injection H as <-. split; [eauto|by intros i b Hi]. }
  rewrite (uwrap_id 64 (p + 1)) in H by (unfold fits_u; cbn [length] in *; lia).
  destruct (read_bytes m _ (p + 1)) as [bs'|] eqn:Eb; [cbn in H|done]. injection H as <- ->.
  split; [eauto|]. apply IH; [lia|cbn [length] in *; lia|done].
Qed.

(** A load of bytes that memory holds. *)
Lemma wp_load {W : Type} `{!World W} {S : Type} `{!HasMem S} n p bs Q (s : st W S) :
  holds (the_mem (st_s s)) p bs -> n = length bs -> 0 <= p -> p + Z.of_nat n <= 2 ^ 64 ->
  Q (Ret bs) s -> wp (load n p) Q s.
Proof.
  intros H -> H0 H1 HQ. unfold load. wrun. rewrite read_holds by done. by wrun.
Qed.

Lemma wp_load_u32 {W : Type} `{!World W} {S : Type} `{!HasMem S} p x Q (s : st W S) :
  holds (the_mem (st_s s)) p (le_bytes 4 x) -> 0 <= p -> p + 4 <= 2 ^ 64 -> fits_u 32 x ->
  Q (Ret x) s -> wp (load_u32 p) Q s.
Proof.
  intros H H0 H1 Hx HQ. unfold load_u32. wstep.
  eapply wp_load; [exact H|by rewrite length_le_bytes|done|done|]. wrun.
  rewrite le_Z_bytes, Z.mod_small by exact Hx. done.
Qed.

Lemma wp_load_u64 {W : Type} `{!World W} {S : Type} `{!HasMem S} p x Q (s : st W S) :
  holds (the_mem (st_s s)) p (le_bytes 8 x) -> 0 <= p -> p + 8 <= 2 ^ 64 -> fits_u 64 x ->
  Q (Ret x) s -> wp (load_u64 p) Q s.
Proof.
  intros H H0 H1 Hx HQ. unfold load_u64. wstep.
  eapply wp_load; [exact H|by rewrite length_le_bytes|done|done|]. wrun.
  rewrite le_Z_bytes, Z.mod_small by exact Hx. done.
Qed.

Lemma wp_load_u8 {W : Type} `{!World W} {S : Type} `{!HasMem S} p b l Q (s : st W S) :
  holds (the_mem (st_s s)) p (b :: l) -> 0 <= p -> p + 1 <= 2 ^ 64 ->
  Q (Ret b) s -> wp (load_u8 p) Q s.
Proof.
  intros H H0 H1 HQ. unfold load_u8. wstep. change (b :: l) with ([b] ++ l) in H.
  apply holds_app in H as [H _].
  eapply wp_load; [exact H|done|done|done|]. wrun. cbn [le_Z]. by rewrite Z.mul_0_r, Z.add_0_r.
Qed.

(** Comparing with a C string in memory. *)
Lemma wp_str_eq {W : Type} `{!World W} {S : Type} `{!HasMem S} p str name Q (s : st W S) :
  holds (the_mem (st_s s)) p (str ++ [0]) -> 0 <= p -> p + Z.of_nat (length str) + 1 <= 2 ^ 64 ->
  Forall (fun c => c <> 0) str -> Forall (fun c => c <> 0) name ->
  Q (Ret (beq str name)) s -> wp (str_eq p name) Q s.
Proof.
  revert p str. induction name as [|c name IH]; intros p str H H0 H1 Hs Hn HQ; cbn [str_eq];
    destruct str as [|b str]; cbn [app length] in *; wstep;
    (eapply wp_load_u8; [exact H|lia|lia|]; wrun).
  - done.
  - apply Forall_cons in Hs as [Hb _]. by rewrite (proj2 (Z.eqb_neq b 0) Hb).
  - apply Forall_cons in Hn as [Hc _]. destruct (Z.eqb_spec 0 c); [by subst|]. by wrun.
  - apply Forall_cons in Hs as [_ Hs]. apply Forall_cons in Hn as [_ Hn].
    apply holds_cons in H as [_ H]. unfold beq in *. destruct (Z.eqb_spec b c) as [->|Hne].
    + apply (IH _ str); auto; [lia|lia|]. erewrite bool_decide_ext; [exact HQ|].
      split; [by intros ->|by intros [= ->]].
    + wrun. rewrite bool_decide_eq_false_2 in HQ by congruence. done.
Qed.

(** ** Contents *)

(** Memory contents without protections. *)
Definition contents (m : mem) : gmap Z Z := c_byte <$> m.

Fixpoint peek (bm : gmap Z Z) (n : nat) (p : Z) : option (list Z) :=
  match n with
  | O => Some []
  | S n' => b ← bm !! p; bs ← peek bm n' (u64 (p + 1)); Some (b :: bs)
  end.

Lemma peek_read m n p bs : read_bytes m n p = Some bs -> peek (contents m) n p = Some bs.
Proof.
  revert p bs. induction n as [|n IH]; intros p bs; cbn [read_bytes peek]; [done|].
  rewrite (lookup_fmap c_byte m p : contents m !! p = _). destruct (m !! p) as [c|]; [cbn|done].
  destruct (_ &? _); [|done]. destruct (read_bytes m n _) as [bs'|] eqn:E; [cbn|done].
  intros [= <-]. by rewrite (IH _ _ E).
Qed.

Lemma read_bytes_length m n p bs : read_bytes m n p = Some bs -> length bs = n.
Proof.
  revert p bs. induction n as [|n IH]; intros p bs; cbn [read_bytes]; [by intros [= <-]|].
  destruct (m !! p) as [c|]; [cbn|done]. destruct (_ &? _); [|done].
  destruct (read_bytes m n _) as [bs'|] eqn:E; [cbn|done]. intros [= <-]. cbn. f_equal. by eapply IH.
Qed.

Lemma contents_protect prot n p m : contents (protect_range prot n p m) = contents m.
Proof.
  apply map_eq. intros x. unfold contents, protect_range. rewrite !lookup_fmap, lookup_upd_range.
  destruct (_ && _); [|done]. by destruct (m !! x).
Qed.

(** What was written is read back, and nothing else changed. *)
Lemma contents_write m p bs m' :
  0 <= p -> p + Z.of_nat (length bs) <= 2 ^ 64 -> write_bytes m p bs = Some m' ->
  peek (contents m') (length bs) p = Some bs
  /\ forall x, ~ p <= x < p + Z.of_nat (length bs) -> contents m' !! x = contents m !! x.
Proof.
  revert m p. induction bs as [|b bs IH]; intros m p H0 H1 H; cbn [write_bytes length peek] in *.
  { injection H as <-. done. }
  destruct (m !! p) as [c|] eqn:E; [cbn in H|done]. destruct (_ &? _); [|done].
  destruct bs as [|b' bs].
  { cbn in H. injection H as <-. cbn [peek length]. unfold contents. split.
    - rewrite lookup_fmap, lookup_insert_eq. done.
    - intros x Hx. by rewrite !lookup_fmap, lookup_insert_ne by (cbn in Hx; lia). }
  rewrite (uwrap_id 64 (p + 1)) in * by (unfold fits_u; cbn [length] in *; lia).
  apply IH in H as [P1 P2]; [|lia|cbn [length] in *; lia]. rewrite P1.
  rewrite P2 by lia. unfold contents in *. split.
  - by rewrite lookup_fmap, lookup_insert_eq.
  - intros x Hx. rewrite P2 by (cbn [length] in *; lia).
    by rewrite !lookup_fmap, lookup_insert_ne by (cbn [length] in *; lia).
Qed.

(** Cells outside a write are untouched; a byte of what is read. *)
Lemma write_bytes_cells m p bs m' x :
  0 <= p -> p + Z.of_nat (length bs) <= 2 ^ 64 -> write_bytes m p bs = Some m' ->
  ~ p <= x < p + Z.of_nat (length bs) -> m' !! x = m !! x.
Proof.
  revert m p. induction bs as [|b bs IH]; intros m p H0 H1 H Hx; cbn [write_bytes length] in *.
  { by injection H as <-. }
  destruct (m !! p) as [c|] eqn:E; [cbn in H|done]. destruct (_ &? _); [|done].
  destruct bs as [|b' bs].
  { cbn in H. injection H as <-. rewrite lookup_insert_ne; [done|cbn in Hx; lia]. }
  cbn [length] in *. rewrite (uwrap_id 64 (p + 1)) in H by fits.
  apply IH in H; [|lia|cbn [length]; lia|cbn [length]; lia]. rewrite H. apply lookup_insert_ne. lia.
Qed.

Lemma peek_at bm n p bs i :
  0 <= p -> p + Z.of_nat n <= 2 ^ 64 -> peek bm n p = Some bs -> (i < n)%nat ->
  exists b, bs !! i = Some b /\ bm !! (p + Z.of_nat i) = Some b.
Proof.
  revert p bs i. induction n as [|n IH]; intros p bs i H0 H1 H Hi; [lia|]. cbn [peek] in H.
  destruct (bm !! p) as [b|] eqn:E; [cbn in H|done].
  destruct (peek bm n _) as [bs'|] eqn:E'; [cbn in H|done]. injection H as <-.
  destruct i as [|i]; [exists b; by rewrite Z.add_0_r|].
  destruct n as [|n]; [lia|]. rewrite (uwrap_id 64 (p + 1)) in E' by fits.
  destruct (IH (p + 1) bs' i) as (b' & P1 & P2); [lia|lia|done|lia|].
  exists b'. split; [done|]. rewrite <- P2. f_equal. lia.
Qed.

(** ** Code that only reads *)

Create HintDb reads.

Section Reads.
Context {W : Type} `{!World W} {S : Type} `{!HasMem S}.
Abbreviation K := (M W S).

Definition reads {A} (m : K A) : Prop := forall s, (m s).2 = s.

Lemma reads_bind {A B} (m : K A) (f : A -> K B) : reads m -> (forall a, reads (f a)) -> reads (m ≫= f).
Proof.
  intros Hm Hf s. specialize (Hm s). unfold mbind, M_bind.
  destruct (m s) as [[a| | |] s1]; cbn in *; subst; [apply Hf|done..].
Qed.

Lemma reads_load n p : reads (load n p : K (list Z)).
Proof. intros s. unfold load, mbind, M_bind, get. cbn [st_s]. by case_match. Qed.

Lemma wp_reads {A} (m : K A) (Q : outcome A -> st W S -> Prop) s :
  reads m -> (forall o, m s = (o, s) -> Q o s) -> wp m Q s.
Proof. intros Hr HQ. unfold wp. specialize (Hr s). destruct (m s) as [o s1]. cbn in *. subst. by apply HQ. Qed.
End Reads.

#[export] Hint Resolve reads_load : reads.

Ltac reads_tac :=
  repeat match goal with
  | |- reads (mbind _ _) => apply reads_bind; [|intros ?]
  | |- reads (if ?b then _ else _) => destruct b
  | |- reads (match ?x with _ => _ end) => destruct x
  | |- reads _ => first [done | solve [eauto with reads]]
  end.

Section ReadsMore.
Context {W : Type} `{!World W} {S : Type} `{!HasMem S}.
Abbreviation K := (M W S).

Lemma reads_u8 p : reads (load_u8 p : K Z).
Proof. unfold load_u8. reads_tac. Qed.

Lemma reads_u32 p : reads (load_u32 p : K Z).
Proof. unfold load_u32. reads_tac. Qed.

Lemma reads_u64 p : reads (load_u64 p : K Z).
Proof. unfold load_u64. reads_tac. Qed.
End ReadsMore.

#[export] Hint Resolve reads_u8 reads_u32 reads_u64 : reads.

Section ReadsStrings.
Context {W : Type} `{!World W} {S : Type} `{!HasMem S}.
Abbreviation K := (M W S).

Lemma reads_str_eq name : forall p, reads (str_eq p name : K bool).
Proof. induction name as [|c name IH]; intros p; cbn [str_eq]; reads_tac. Qed.

Lemma reads_cstr n : forall p, reads (load_cstr n p : K (list Z)).
Proof. induction n as [|n IH]; intros p; cbn [load_cstr]; reads_tac. Qed.

(** The C string [str] is at [p]. *)
Definition cstr_at (s : st W S) (p : Z) (str : list Z) : Prop :=
  forall i c, (str ++ [0]) !! i = Some c -> load_u8 (p + Z.of_nat i) s = (Ret c, s).

Lemma cstr_at_cons s p c str :
  load_u8 p s = (Ret c, s) -> cstr_at s (p + 1) str -> cstr_at s p (c :: str).
Proof.
  intros H1 H2 [|i] d Hd; cbn in Hd; [injection Hd as <-; by rewrite Z.add_0_r|].
  replace (p + Z.of_nat (Datatypes.S i)) with (p + 1 + Z.of_nat i) by lia. by apply H2.
Qed.

Lemma cstr_at_nil s p : load_u8 p s = (Ret 0, s) -> cstr_at s p [].
Proof. intros H [|i] d Hd; [|done]. injection Hd as <-. by rewrite Z.add_0_r. Qed.

(** A comparison that succeeds has read the string. *)
Lemma str_eq_at name : forall p s, str_eq p name s = (Ret true, s) -> cstr_at s p name.
Proof.
  induction name as [|c name IH]; intros p s; cbn [str_eq];
    pose proof (reads_u8 p s) as Hr; unfold mbind, M_bind; destruct (load_u8 p s) as [[b| | |] s1] eqn:E; try done;
    cbn in Hr; subst s1.
  - intros [= ->%Z.eqb_eq]. by apply cstr_at_nil.
  - destruct (Z.eqb_spec b c) as [->|]; [|done]. intros H. apply cstr_at_cons; [done|]. by apply IH.
Qed.

Lemma load_cstr_at n : forall p s str, load_cstr n p s = (Ret str, s) -> cstr_at s p str.
Proof.
  induction n as [|n IH]; intros p s str; cbn [load_cstr]; [done|].
  pose proof (reads_u8 p s) as Hr. unfold mbind, M_bind. destruct (load_u8 p s) as [[b| | |] s1] eqn:E; try done.
  cbn in Hr; subst s1. destruct (Z.eqb_spec b 0) as [->|].
  - intros [= <-]. by apply cstr_at_nil.
  - pose proof (reads_cstr n (p + 1) s) as Hr. destruct (load_cstr n (p + 1) s) as [[l| | |] s1] eqn:El; try done.
    cbn in Hr; subst s1. intros [= <-]. apply cstr_at_cons; [done|]. by apply IH.
Qed.
End ReadsStrings.

#[export] Hint Resolve reads_str_eq reads_cstr : reads.
