(* ===== verification/Linker.v ===== *)
(** The module loader (loader/src/linker/linker.cpp, linker.hpp, interpose.cpp,
    reloc_arch.hpp, elf_compat.hpp), which maps, relocates and initialises a
    shared object without the system linker.

    A method of [Image] is a program over [ld]: the process memory, the cached
    page size, the caller's [*err] and the object's own fields. The registry
    of images and the object heap around them are in [lk]. The LP64 build is
    modelled; pointers are addresses, null is 0. Foreign code (constructors,
    ifunc resolvers) may answer anything and overwrite any writable byte, but
    does not map, unmap or call back into the loader. [bind_now_] and
    [android_is_rela_] are set and never read, and left out. *)
From S2P Require Import Prelude Sys Text Relocate ProcUtils Mem.
Open Scope Z_scope.

(** ** Data *)

Inductive LoadError := kNone | kUnsupported | kError.

#[export] Instance LoadError_eq_dec : EqDecision LoadError.
Proof. solve_decision. Defined.

Record Phdr := Phdr_mk {
  p_type : Z; p_flags : Z; p_offset : Z; p_vaddr : Z; p_filesz : Z; p_memsz : Z; p_align : Z }.

Record Sym := Sym_mk { st_name : Z; st_info : Z; st_shndx : Z; st_value : Z }.

Definition field (n off : nat) (bs : list Z) : Z := le_Z (take n (drop off bs)).

Definition sizeof_Phdr : Z := 56.
Definition sizeof_Sym : Z := 24.
Definition sizeof_Rela : Z := 24.
Definition sizeof_Rel : Z := 16.
Definition sizeof_Dyn : Z := 16.
Definition sizeof_Ehdr : Z := 64.

Definition decode_phdr (bs : list Z) : Phdr :=
  Phdr_mk (field 4 0 bs) (field 4 4 bs) (field 8 8 bs) (field 8 16 bs) (field 8 32 bs)
    (field 8 40 bs) (field 8 48 bs).

Definition decode_sym (bs : list Z) : Sym :=
  Sym_mk (field 4 0 bs) (field 1 4 bs) (field 2 6 bs) (field 8 8 bs).

Definition PT_LOAD : Z := 1.
Definition PT_DYNAMIC : Z := 2.
Definition PT_PHDR : Z := 6.
Definition PT_TLS : Z := 7.
Definition PT_GNU_RELRO : Z := 0x6474e552.
Definition PT_GNU_PROPERTY : Z := 0x6474e553.
Definition PF_X : Z := 1.
Definition PF_W : Z := 2.
Definition PF_R : Z := 4.
Definition PROT_BTI : Z := 0x10.
Definition SHN_UNDEF : Z := 0.
Definition STB_WEAK : Z := 2.
Definition STT_OBJECT : Z := 1.
Definition STT_FUNC : Z := 2.
Definition STT_GNU_IFUNC : Z := 10.
Definition UINTPTR_MAX : Z := 2 ^ 64 - 1.

Definition ELF_ST_TYPE (info : Z) : Z := Z.land info 0xf.
Definition ELF_ST_BIND (info : Z) : Z := Z.shiftr info 4.
Definition RELOC_R_TYPE (info : Z) : Z := Z.land info 0xffffffff.
Definition RELOC_R_SYM (info : Z) : Z := u32 (Z.shiftr info 32).

(** The relocation types of each architecture. *)
Definition RELOC_RELATIVE (a : arch) : Z :=
  match a with AArch64 => 1027 | X86_64 => 8 | RiscV64 => 3 end.
Definition RELOC_GLOB_DAT (a : arch) : Z :=
  match a with AArch64 => 1025 | X86_64 => 6 | RiscV64 => 2 end.
Definition RELOC_JUMP_SLOT (a : arch) : Z :=
  match a with AArch64 => 1026 | X86_64 => 7 | RiscV64 => 5 end.
Definition RELOC_ABS (a : arch) : Z :=
  match a with AArch64 => 257 | X86_64 => 1 | RiscV64 => 2 end.
Definition RELOC_IRELATIVE (a : arch) : Z :=
  match a with AArch64 => 1032 | X86_64 => 37 | RiscV64 => 58 end.
Definition tls_relocs (a : arch) : list Z :=
  match a with
  | AArch64 => [1028; 1029; 1030; 1031]
  | X86_64 => [16; 17; 18; 36]
  | RiscV64 => [7; 9; 11; 12]
  end.
Definition IsTlsReloc (a : arch) (type : Z) : bool := bool_decide (type ∈ tls_relocs a).

Record gnu_hash := Gnu {
  gnu_bucket_ : Z; gnu_chain_ : Z; gnu_nbucket_ : Z; gnu_symndx_ : Z; gnu_maskwords_ : Z;
  gnu_shift2_ : Z; gnu_bloom_ : Z }.
Record sysv_hash := Sysv {
  sysv_bucket_ : Z; sysv_chain_ : Z; sysv_nbucket_ : Z; sysv_nchain_ : Z }.

(** What the dynamic section yields; a missing hash table is [None]. *)
Record dyninfo := Dyninfo {
  strtab_ : Z; symtab_ : Z; gnu_hash_ : option gnu_hash; sysv_hash_ : option sysv_hash; rela_ :
  Z; rela_count_ : Z; rel_ : Z; rel_count_ : Z; plt_rel_ : Z; plt_rel_size_ : Z; plt_is_rela_ :
  bool; android_rel_ : Z; android_rel_size_ : Z; relr_ : Z; relr_count_ : Z; init_func_ : Z;
  fini_func_ : Z; init_array_ : Z; init_array_count_ : Z; fini_array_ : Z; fini_array_count_ : Z }.

Definition set_strtab_ (x : Z) (i : dyninfo) : dyninfo :=
  Dyninfo x (symtab_ i) (gnu_hash_ i) (sysv_hash_ i) (rela_ i) (rela_count_ i) (rel_ i)
    (rel_count_ i) (plt_rel_ i) (plt_rel_size_ i) (plt_is_rela_ i) (android_rel_ i)
    (android_rel_size_ i) (relr_ i) (relr_count_ i) (init_func_ i) (fini_func_ i) (init_array_
    i) (init_array_count_ i) (fini_array_ i) (fini_array_count_ i).
Definition set_symtab_ (x : Z) (i : dyninfo) : dyninfo :=
  Dyninfo (strtab_ i) x (gnu_hash_ i) (sysv_hash_ i) (rela_ i) (rela_count_ i) (rel_ i)
    (rel_count_ i) (plt_rel_ i) (plt_rel_size_ i) (plt_is_rela_ i) (android_rel_ i)
    (android_rel_size_ i) (relr_ i) (relr_count_ i) (init_func_ i) (fini_func_ i) (init_array_
    i) (init_array_count_ i) (fini_array_ i) (fini_array_count_ i).
Definition set_gnu_hash_ (x : option gnu_hash) (i : dyninfo) : dyninfo :=
  Dyninfo (strtab_ i) (symtab_ i) x (sysv_hash_ i) (rela_ i) (rela_count_ i) (rel_ i)
    (rel_count_ i) (plt_rel_ i) (plt_rel_size_ i) (plt_is_rela_ i) (android_rel_ i)
    (android_rel_size_ i) (relr_ i) (relr_count_ i) (init_func_ i) (fini_func_ i) (init_array_
    i) (init_array_count_ i) (fini_array_ i) (fini_array_count_ i).
Definition set_sysv_hash_ (x : option sysv_hash) (i : dyninfo) : dyninfo :=
  Dyninfo (strtab_ i) (symtab_ i) (gnu_hash_ i) x (rela_ i) (rela_count_ i) (rel_ i) (rel_count_
    i) (plt_rel_ i) (plt_rel_size_ i) (plt_is_rela_ i) (android_rel_ i) (android_rel_size_ i)
    (relr_ i) (relr_count_ i) (init_func_ i) (fini_func_ i) (init_array_ i) (init_array_count_
    i) (fini_array_ i) (fini_array_count_ i).
Definition set_rela_ (x : Z) (i : dyninfo) : dyninfo :=
  Dyninfo (strtab_ i) (symtab_ i) (gnu_hash_ i) (sysv_hash_ i) x (rela_count_ i) (rel_ i)
    (rel_count_ i) (plt_rel_ i) (plt_rel_size_ i) (plt_is_rela_ i) (android_rel_ i)
    (android_rel_size_ i) (relr_ i) (relr_count_ i) (init_func_ i) (fini_func_ i) (init_array_
    i) (init_array_count_ i) (fini_array_ i) (fini_array_count_ i).
Definition set_rela_count_ (x : Z) (i : dyninfo) : dyninfo :=
  Dyninfo (strtab_ i) (symtab_ i) (gnu_hash_ i) (sysv_hash_ i) (rela_ i) x (rel_ i) (rel_count_
    i) (plt_rel_ i) (plt_rel_size_ i) (plt_is_rela_ i) (android_rel_ i) (android_rel_size_ i)
    (relr_ i) (relr_count_ i) (init_func_ i) (fini_func_ i) (init_array_ i) (init_array_count_
    i) (fini_array_ i) (fini_array_count_ i).
Definition set_rel_ (x : Z) (i : dyninfo) : dyninfo :=
  Dyninfo (strtab_ i) (symtab_ i) (gnu_hash_ i) (sysv_hash_ i) (rela_ i) (rela_count_ i) x
    (rel_count_ i) (plt_rel_ i) (plt_rel_size_ i) (plt_is_rela_ i) (android_rel_ i)
    (android_rel_size_ i) (relr_ i) (relr_count_ i) (init_func_ i) (fini_func_ i) (init_array_
    i) (init_array_count_ i) (fini_array_ i) (fini_array_count_ i).
Definition set_rel_count_ (x : Z) (i : dyninfo) : dyninfo :=
  Dyninfo (strtab_ i) (symtab_ i) (gnu_hash_ i) (sysv_hash_ i) (rela_ i) (rela_count_ i) (rel_
    i) x (plt_rel_ i) (plt_rel_size_ i) (plt_is_rela_ i) (android_rel_ i) (android_rel_size_ i)
    (relr_ i) (relr_count_ i) (init_func_ i) (fini_func_ i) (init_array_ i) (init_array_count_
    i) (fini_array_ i) (fini_array_count_ i).
Definition set_plt_rel_ (x : Z) (i : dyninfo) : dyninfo :=
  Dyninfo (strtab_ i) (symtab_ i) (gnu_hash_ i) (sysv_hash_ i) (rela_ i) (rela_count_ i) (rel_
    i) (rel_count_ i) x (plt_rel_size_ i) (plt_is_rela_ i) (android_rel_ i) (android_rel_size_
    i) (relr_ i) (relr_count_ i) (init_func_ i) (fini_func_ i) (init_array_ i)
    (init_array_count_ i) (fini_array_ i) (fini_array_count_ i).
Definition set_plt_rel_size_ (x : Z) (i : dyninfo) : dyninfo :=
  Dyninfo (strtab_ i) (symtab_ i) (gnu_hash_ i) (sysv_hash_ i) (rela_ i) (rela_count_ i) (rel_
    i) (rel_count_ i) (plt_rel_ i) x (plt_is_rela_ i) (android_rel_ i) (android_rel_size_ i)
    (relr_ i) (relr_count_ i) (init_func_ i) (fini_func_ i) (init_array_ i) (init_array_count_
    i) (fini_array_ i) (fini_array_count_ i).
Definition set_plt_is_rela_ (x : bool) (i : dyninfo) : dyninfo :=
  Dyninfo (strtab_ i) (symtab_ i) (gnu_hash_ i) (sysv_hash_ i) (rela_ i) (rela_count_ i) (rel_
    i) (rel_count_ i) (plt_rel_ i) (plt_rel_size_ i) x (android_rel_ i) (android_rel_size_ i)
    (relr_ i) (relr_count_ i) (init_func_ i) (fini_func_ i) (init_array_ i) (init_array_count_
    i) (fini_array_ i) (fini_array_count_ i).
Definition set_android_rel_ (x : Z) (i : dyninfo) : dyninfo :=
  Dyninfo (strtab_ i) (symtab_ i) (gnu_hash_ i) (sysv_hash_ i) (rela_ i) (rela_count_ i) (rel_
    i) (rel_count_ i) (plt_rel_ i) (plt_rel_size_ i) (plt_is_rela_ i) x (android_rel_size_ i)
    (relr_ i) (relr_count_ i) (init_func_ i) (fini_func_ i) (init_array_ i) (init_array_count_
    i) (fini_array_ i) (fini_array_count_ i).
Definition set_android_rel_size_ (x : Z) (i : dyninfo) : dyninfo :=
  Dyninfo (strtab_ i) (symtab_ i) (gnu_hash_ i) (sysv_hash_ i) (rela_ i) (rela_count_ i) (rel_
    i) (rel_count_ i) (plt_rel_ i) (plt_rel_size_ i) (plt_is_rela_ i) (android_rel_ i) x (relr_
    i) (relr_count_ i) (init_func_ i) (fini_func_ i) (init_array_ i) (init_array_count_ i)
    (fini_array_ i) (fini_array_count_ i).
Definition set_relr_ (x : Z) (i : dyninfo) : dyninfo :=
  Dyninfo (strtab_ i) (symtab_ i) (gnu_hash_ i) (sysv_hash_ i) (rela_ i) (rela_count_ i) (rel_
    i) (rel_count_ i) (plt_rel_ i) (plt_rel_size_ i) (plt_is_rela_ i) (android_rel_ i)
    (android_rel_size_ i) x (relr_count_ i) (init_func_ i) (fini_func_ i) (init_array_ i)
    (init_array_count_ i) (fini_array_ i) (fini_array_count_ i).
Definition set_relr_count_ (x : Z) (i : dyninfo) : dyninfo :=
  Dyninfo (strtab_ i) (symtab_ i) (gnu_hash_ i) (sysv_hash_ i) (rela_ i) (rela_count_ i) (rel_
    i) (rel_count_ i) (plt_rel_ i) (plt_rel_size_ i) (plt_is_rela_ i) (android_rel_ i)
    (android_rel_size_ i) (relr_ i) x (init_func_ i) (fini_func_ i) (init_array_ i)
    (init_array_count_ i) (fini_array_ i) (fini_array_count_ i).
Definition set_init_func_ (x : Z) (i : dyninfo) : dyninfo :=
  Dyninfo (strtab_ i) (symtab_ i) (gnu_hash_ i) (sysv_hash_ i) (rela_ i) (rela_count_ i) (rel_
    i) (rel_count_ i) (plt_rel_ i) (plt_rel_size_ i) (plt_is_rela_ i) (android_rel_ i)
    (android_rel_size_ i) (relr_ i) (relr_count_ i) x (fini_func_ i) (init_array_ i)
    (init_array_count_ i) (fini_array_ i) (fini_array_count_ i).
Definition set_fini_func_ (x : Z) (i : dyninfo) : dyninfo :=
  Dyninfo (strtab_ i) (symtab_ i) (gnu_hash_ i) (sysv_hash_ i) (rela_ i) (rela_count_ i) (rel_
    i) (rel_count_ i) (plt_rel_ i) (plt_rel_size_ i) (plt_is_rela_ i) (android_rel_ i)
    (android_rel_size_ i) (relr_ i) (relr_count_ i) (init_func_ i) x (init_array_ i)
    (init_array_count_ i) (fini_array_ i) (fini_array_count_ i).
Definition set_init_array_ (x : Z) (i : dyninfo) : dyninfo :=
  Dyninfo (strtab_ i) (symtab_ i) (gnu_hash_ i) (sysv_hash_ i) (rela_ i) (rela_count_ i) (rel_
    i) (rel_count_ i) (plt_rel_ i) (plt_rel_size_ i) (plt_is_rela_ i) (android_rel_ i)
    (android_rel_size_ i) (relr_ i) (relr_count_ i) (init_func_ i) (fini_func_ i) x
    (init_array_count_ i) (fini_array_ i) (fini_array_count_ i).
Definition set_init_array_count_ (x : Z) (i : dyninfo) : dyninfo :=
  Dyninfo (strtab_ i) (symtab_ i) (gnu_hash_ i) (sysv_hash_ i) (rela_ i) (rela_count_ i) (rel_
    i) (rel_count_ i) (plt_rel_ i) (plt_rel_size_ i) (plt_is_rela_ i) (android_rel_ i)
    (android_rel_size_ i) (relr_ i) (relr_count_ i) (init_func_ i) (fini_func_ i) (init_array_
    i) x (fini_array_ i) (fini_array_count_ i).
Definition set_fini_array_ (x : Z) (i : dyninfo) : dyninfo :=
  Dyninfo (strtab_ i) (symtab_ i) (gnu_hash_ i) (sysv_hash_ i) (rela_ i) (rela_count_ i) (rel_
    i) (rel_count_ i) (plt_rel_ i) (plt_rel_size_ i) (plt_is_rela_ i) (android_rel_ i)
    (android_rel_size_ i) (relr_ i) (relr_count_ i) (init_func_ i) (fini_func_ i) (init_array_
    i) (init_array_count_ i) x (fini_array_count_ i).
Definition set_fini_array_count_ (x : Z) (i : dyninfo) : dyninfo :=
  Dyninfo (strtab_ i) (symtab_ i) (gnu_hash_ i) (sysv_hash_ i) (rela_ i) (rela_count_ i) (rel_
    i) (rel_count_ i) (plt_rel_ i) (plt_rel_size_ i) (plt_is_rela_ i) (android_rel_ i)
    (android_rel_size_ i) (relr_ i) (relr_count_ i) (init_func_ i) (fini_func_ i) (init_array_
    i) (init_array_count_ i) (fini_array_ i) x.

Definition dyninfo0 : dyninfo :=
  Dyninfo 0 0 None None 0 0 0 0 0 0 true 0 0 0 0 0 0 0 0 0 0.

Record image := Image {
  name_ : list Z; map_start_ : Z; map_size_ : Z; load_bias_ : Z; phdr_ : Z; phnum_ : Z; dynamic_
  : Z; dyn : dyninfo; dynsym_count_ : Z; constructors_called_ : bool; wants_bti_ : bool;
  needed_names_ : list (list Z); needed_handles_ : list Z }.

Definition set_name_ (x : list Z) (i : image) : image :=
  Image x (map_start_ i) (map_size_ i) (load_bias_ i) (phdr_ i) (phnum_ i) (dynamic_ i) (dyn i)
    (dynsym_count_ i) (constructors_called_ i) (wants_bti_ i) (needed_names_ i) (needed_handles_
    i).
Definition set_map_start_ (x : Z) (i : image) : image :=
  Image (name_ i) x (map_size_ i) (load_bias_ i) (phdr_ i) (phnum_ i) (dynamic_ i) (dyn i)
    (dynsym_count_ i) (constructors_called_ i) (wants_bti_ i) (needed_names_ i) (needed_handles_
    i).
Definition set_map_size_ (x : Z) (i : image) : image :=
  Image (name_ i) (map_start_ i) x (load_bias_ i) (phdr_ i) (phnum_ i) (dynamic_ i) (dyn i)
    (dynsym_count_ i) (constructors_called_ i) (wants_bti_ i) (needed_names_ i) (needed_handles_
    i).
Definition set_load_bias_ (x : Z) (i : image) : image :=
  Image (name_ i) (map_start_ i) (map_size_ i) x (phdr_ i) (phnum_ i) (dynamic_ i) (dyn i)
    (dynsym_count_ i) (constructors_called_ i) (wants_bti_ i) (needed_names_ i) (needed_handles_
    i).
Definition set_phdr_ (x : Z) (i : image) : image :=
  Image (name_ i) (map_start_ i) (map_size_ i) (load_bias_ i) x (phnum_ i) (dynamic_ i) (dyn i)
    (dynsym_count_ i) (constructors_called_ i) (wants_bti_ i) (needed_names_ i) (needed_handles_
    i).
Definition set_phnum_ (x : Z) (i : image) : image :=
  Image (name_ i) (map_start_ i) (map_size_ i) (load_bias_ i) (phdr_ i) x (dynamic_ i) (dyn i)
    (dynsym_count_ i) (constructors_called_ i) (wants_bti_ i) (needed_names_ i) (needed_handles_
    i).
Definition set_dynamic_ (x : Z) (i : image) : image :=
  Image (name_ i) (map_start_ i) (map_size_ i) (load_bias_ i) (phdr_ i) (phnum_ i) x (dyn i)
    (dynsym_count_ i) (constructors_called_ i) (wants_bti_ i) (needed_names_ i) (needed_handles_
    i).
Definition set_dyn (x : dyninfo) (i : image) : image :=
  Image (name_ i) (map_start_ i) (map_size_ i) (load_bias_ i) (phdr_ i) (phnum_ i) (dynamic_ i)
    x (dynsym_count_ i) (constructors_called_ i) (wants_bti_ i) (needed_names_ i)
    (needed_handles_ i).
Definition set_dynsym_count_ (x : Z) (i : image) : image :=
  Image (name_ i) (map_start_ i) (map_size_ i) (load_bias_ i) (phdr_ i) (phnum_ i) (dynamic_ i)
    (dyn i) x (constructors_called_ i) (wants_bti_ i) (needed_names_ i) (needed_handles_ i).
Definition set_constructors_called_ (x : bool) (i : image) : image :=
  Image (name_ i) (map_start_ i) (map_size_ i) (load_bias_ i) (phdr_ i) (phnum_ i) (dynamic_ i)
    (dyn i) (dynsym_count_ i) x (wants_bti_ i) (needed_names_ i) (needed_handles_ i).
Definition set_wants_bti_ (x : bool) (i : image) : image :=
  Image (name_ i) (map_start_ i) (map_size_ i) (load_bias_ i) (phdr_ i) (phnum_ i) (dynamic_ i)
    (dyn i) (dynsym_count_ i) (constructors_called_ i) x (needed_names_ i) (needed_handles_ i).
Definition set_needed_names_ (x : list (list Z)) (i : image) : image :=
  Image (name_ i) (map_start_ i) (map_size_ i) (load_bias_ i) (phdr_ i) (phnum_ i) (dynamic_ i)
    (dyn i) (dynsym_count_ i) (constructors_called_ i) (wants_bti_ i) x (needed_handles_ i).
Definition set_needed_handles_ (x : list Z) (i : image) : image :=
  Image (name_ i) (map_start_ i) (map_size_ i) (load_bias_ i) (phdr_ i) (phnum_ i) (dynamic_ i)
    (dyn i) (dynsym_count_ i) (constructors_called_ i) (wants_bti_ i) (needed_names_ i) x.

Definition image0 (name : list Z) : image :=
  Image name 0 0 0 0 0 0 dyninfo0 0 false false [] [].

Record ld := LD { d_mem : mem; d_pg : Z; d_err : LoadError; d_img : image }.

#[export] Instance ld_mem : HasMem ld.
Proof.
  refine {| the_mem := d_mem; put_mem m s := LD m (d_pg s) (d_err s) (d_img s) |};
    [done|done|by intros []].
Defined.

Definition set_pg (x : Z) (s : ld) : ld := LD (d_mem s) x (d_err s) (d_img s).
Definition set_err (x : LoadError) (s : ld) : ld := LD (d_mem s) (d_pg s) x (d_img s).
Definition set_img (x : image) (s : ld) : ld := LD (d_mem s) (d_pg s) (d_err s) x.

(** ** Helpers *)

Definition PageStart (addr pg : Z) : Z := Z.ldiff addr (u64 (pg - 1)).
Definition PageEnd (addr pg : Z) : Z := PageStart (u64 (addr + pg - 1)) pg.
Definition AlignUp (v a : Z) : Z := Z.ldiff (u64 (v + a - 1)) (u64 (a - 1)).

Definition ToProt (flags : Z) : Z :=
  let prot := if (flags &? PF_R) then PROT_READ else 0 in
  let prot := if (flags &? PF_W) then Z.lor prot PROT_WRITE else prot in
  if (flags &? PF_X) then Z.lor prot PROT_EXEC else prot.

(** Step of [GnuHash]: [h += (h << 5) + c] in 32 bits. *)
Definition gnu_step (h c : Z) : Z := u32 (h + u32 (u32 (Z.shiftl h 5) + c)).
Definition GnuHash (name : list Z) : Z := fold_left gnu_step name 5381.

Definition sysv_step (h c : Z) : Z :=
  let h := u32 (u32 (Z.shiftl h 4) + c) in
  let g := Z.land h 0xf0000000 in
  Z.lxor (Z.lxor h g) (Z.shiftr g 24).
Definition SysvHash (name : list Z) : Z := fold_left sysv_step name 0.

(** [max_align], [min_vaddr] and [max_vaddr] over the loadable segments. *)
Record extent := Extent { e_align : Z; e_min : Z; e_max : Z }.

Definition extent_step (e : extent) (ph : Phdr) : extent :=
  if negb (p_type ph =? PT_LOAD) then e
  else
    let fin := u64 (p_vaddr ph + p_memsz ph) in
    Extent (if e_align e <? p_align ph then p_align ph else e_align e)
      (if p_vaddr ph <? e_min e then p_vaddr ph else e_min e)
      (if e_max e <? fin then fin else e_max e).

Definition extent_of (pg : Z) (phdrs : list Phdr) : extent :=
  fold_left extent_step phdrs (Extent pg UINTPTR_MAX 0).

(** The first element that satisfies [p], mapped by [f]. *)
Fixpoint find_map {A C} (p : A -> bool) (f : A -> C) (l : list A) : option C :=
  match l with
  | [] => None
  | x :: l' => if p x then Some (f x) else find_map p f l'
  end.

(** The ELF header's fields that are used. *)
Record Ehdr := Ehdr_mk { e_ident : list Z; e_type : Z; e_phoff : Z; e_phnum : Z }.

Definition decode_ehdr (bs : list Z) : Ehdr :=
  Ehdr_mk (take 16 bs) (field 2 16 bs) (field 8 32 bs) (field 2 56 bs).

Section Loader.
Context {W : Type} `{!World W} (fuel : nat) (a : arch).
Abbreviation K := (M W ld).

Definition this : K image := s ← get; mret (d_img s).
Definition upd_img (f : image -> image) : K unit := modify (fun s => set_img (f (d_img s)) s).
Definition upd_dyn (f : dyninfo -> dyninfo) : K unit := upd_img (fun i => set_dyn (f (dyn i)) i).

(** [*err = e; return false]. *)
Definition fail (e : LoadError) : K bool := modify (set_err e);; mret false.

Definition PageSize : K Z :=
  s ← get;
  if d_pg s =? 0 then
    r ← syscall (CSysconf 39);
    let v := if 0 <? r_ret r then r_ret r else 4096 in
    modify (set_pg v);; mret v
  else mret (d_pg s).

Definition CallIfuncResolver (addr : Z) : K Z := call_code addr [].

(** [pread] into memory: a buffer that cannot be written makes it fail. *)
Fixpoint PreadFull (n : nat) (fd dst len off : Z) : K bool :=
  if len <=? 0 then mret true
  else
    match n with
    | O => out_of_fuel
    | S n' =>
        r ← syscall (CPread fd len off);
        if r_ret r <? 0 then
          errno ← get_errno;
          if errno =? EINTR then PreadFull n' fd dst len off else mret false
        else if r_ret r =? 0 then mret false
        else
          let got := Z.min (r_ret r) len in
          s ← get;
          match write_bytes (d_mem s) dst (take (Z.to_nat got) (r_data r)) with
          | None => mret false
          | Some m =>
              modify (put_mem m);;
              PreadFull n' fd (u64 (dst + got)) (len - got) (off + got)
          end
    end.

(** ** The BTI note *)

Definition NT_GNU_PROPERTY_TYPE_0 : Z := 5.
Definition GNU_PROPERTY_AARCH64_FEATURE_1_AND : Z := 0xc0000000.
Definition GNU_PROPERTY_AARCH64_FEATURE_1_BTI : Z := 1.

(** The properties of one note from [pp] to [pend]. *)
Fixpoint bti_props (n : nat) (pp pend : Z) : K bool :=
  if pp + 8 <=? pend then
    match n with
    | O => out_of_fuel
    | S n' =>
        pr_type ← load_u32 pp;
        pr_datasz ← load_u32 (pp + 4);
        let pr_data := pp + 8 in
        if pend <? pr_data + pr_datasz then mret false
        else
          hit ← (if (pr_type =? GNU_PROPERTY_AARCH64_FEATURE_1_AND) && (4 <=? pr_datasz) then
                   v ← load_u32 pr_data;
                   mret (v &? GNU_PROPERTY_AARCH64_FEATURE_1_BTI)
                 else mret false);
          if hit : bool then mret true
          else bti_props n' (pr_data + AlignUp pr_datasz 8) pend
    end
  else mret false.

Fixpoint bti_notes (n : nat) (p end_ : Z) : K bool :=
  if p + 12 <=? end_ then
    match n with
    | O => out_of_fuel
    | S n' =>
        namesz ← load_u32 p;
        descsz ← load_u32 (p + 4);
        ntype ← load_u32 (p + 8);
        let name := p + 12 in
        let desc := name + AlignUp namesz 4 in
        if end_ <? desc then mret false
        else
          hit ← (if (ntype =? NT_GNU_PROPERTY_TYPE_0) && (namesz =? 4) then
                   owner ← load 4 name;
                   if beq owner (B "GNU" ++ [0])
                   then bti_props n' desc (Z.min (desc + descsz) end_)
                   else mret false
                 else mret false);
          if hit : bool then mret true
          else bti_notes n' (desc + AlignUp descsz 4) end_
    end
  else mret false.

Definition GnuPropertyNoteHasBti (note size : Z) : K bool := bti_notes fuel note (note + size).

(** ** Mapping *)

(** The reservation: mapped, aligned, and trimmed on both sides. [None] if
    mmap failed. *)
Definition reserve_span (max_align span : Z) : K (option Z) :=
  let reserve := u64 (span + max_align) in
  raw ← mmap 0 reserve PROT_NONE (Z.lor MAP_PRIVATE MAP_ANONYMOUS) (-1) 0;
  match raw with
  | None => mret None
  | Some raw_addr =>
      let aligned := AlignUp raw_addr max_align in
      (if negb (aligned =? raw_addr) then munmap raw_addr (u64 (aligned - raw_addr)) else mret tt);;
      let tail := u64 (aligned + span) in
      let raw_end := u64 (raw_addr + reserve) in
      (if tail <? raw_end then munmap tail (raw_end - tail) else mret tt);;
      mret (Some aligned)
  end.

(** One loadable segment; [false] is a failure. *)
Definition fill_segment (fd : Z) (anonymous : bool) (pg : Z) (ph : Phdr) : K bool :=
  i ← this;
  let bias := load_bias_ i in
  let seg_start := u64 (bias + PageStart (p_vaddr ph) pg) in
  let seg_file_end := u64 (bias + p_vaddr ph + p_filesz ph) in
  let seg_mem_end := u64 (bias + PageEnd (u64 (p_vaddr ph + p_memsz ph)) pg) in
  if anonymous then
    rc ← mprotect seg_start (u64 (seg_mem_end - seg_start)) (Z.lor PROT_READ PROT_WRITE);
    if negb (rc =? 0) then fail kError
    else
      ok ← (if 0 <? p_filesz ph
            then PreadFull fuel fd (u64 (bias + p_vaddr ph)) (p_filesz ph) (p_offset ph)
            else mret true);
      if ok : bool then mret true else fail kError
  else
    let file_page_end := PageEnd seg_file_end pg in
    ok ← (if 0 <? p_filesz ph then
            m ← mmap seg_start (u64 (file_page_end - seg_start)) (Z.lor PROT_READ PROT_WRITE)
                  (Z.lor MAP_PRIVATE MAP_FIXED) fd (PageStart (p_offset ph) pg);
            match m with
            | None => mret false
            | Some _ =>
                (if (p_filesz ph <? p_memsz ph) && (seg_file_end <? file_page_end)
                 then store seg_file_end (replicate (Z.to_nat (file_page_end - seg_file_end)) 0)
                 else mret tt);;
                mret true
            end
          else mret true);
    if negb ok then fail kError
    else if file_page_end <? seg_mem_end then
      m ← mmap file_page_end (seg_mem_end - file_page_end) (Z.lor PROT_READ PROT_WRITE)
            (Z.lor (Z.lor MAP_PRIVATE MAP_ANONYMOUS) MAP_FIXED) (-1) 0;
      match m with None => fail kError | Some _ => mret true end
    else mret true.

Fixpoint fill_segments (fd : Z) (anonymous : bool) (pg : Z) (phdrs : list Phdr) : K bool :=
  match phdrs with
  | [] => mret true
  | ph :: phdrs' =>
      if negb (p_type ph =? PT_LOAD) then fill_segments fd anonymous pg phdrs'
      else
        ok ← fill_segment fd anonymous pg ph;
        if ok : bool then fill_segments fd anonymous pg phdrs' else mret false
  end.

(** Where the program headers are in the mapped image; 0 if nowhere. *)
Definition find_phdrs (bias : Z) (ehdr : Ehdr) (phdrs : list Phdr) : Z :=
  let p := default 0 (find_map (fun ph => p_type ph =? PT_PHDR)
                        (fun ph => u64 (bias + p_vaddr ph)) phdrs) in
  if p =? 0 then
    default 0
      (find_map (fun ph => (p_type ph =? PT_LOAD) && (p_offset ph <=? e_phoff ehdr)
                           && (e_phoff ehdr <? u64 (p_offset ph + p_filesz ph)))
         (fun ph => u64 (bias + p_vaddr ph + (e_phoff ehdr - p_offset ph))) phdrs)
  else p.

Definition MapSegments (fd : Z) (ehdr : Ehdr) (phdrs : list Phdr) (anonymous : bool) : K bool :=
  pg ← PageSize;
  let e := extent_of pg phdrs in
  if e_min e =? UINTPTR_MAX then fail kError
  else
    let min_vaddr := PageStart (e_min e) pg in
    let max_vaddr := PageEnd (e_max e) pg in
    let span := u64 (max_vaddr - min_vaddr) in
    base ← reserve_span (e_align e) span;
    match base with
    | None => fail kError
    | Some aligned =>
        upd_img (set_map_start_ aligned);;
        upd_img (set_map_size_ span);;
        let bias := u64 (aligned - min_vaddr) in
        upd_img (set_load_bias_ bias);;
        ok ← fill_segments fd anonymous pg phdrs;
        if negb ok then mret false
        else
          upd_img (set_phnum_ (e_phnum ehdr));;
          upd_img (set_phdr_ (find_phdrs bias ehdr phdrs));;
          match find_map (fun ph => p_type ph =? PT_GNU_PROPERTY) id phdrs with
          | None => mret true
          | Some ph =>
              bti ← GnuPropertyNoteHasBti (u64 (bias + p_vaddr ph)) (p_memsz ph);
              upd_img (set_wants_bti_ bti);;
              mret true
          end
    end.
(** ** The dynamic section *)

Definition load_phdr (i : Z) : K Phdr :=
  img ← this;
  bs ← load 56 (phdr_ img + i * sizeof_Phdr);
  mret (decode_phdr bs).

(** [body] for each program header from the [i]th on. *)
Fixpoint for_phdrs (n : nat) (i : Z) (body : Phdr -> K bool) : K bool :=
  match n with
  | O => mret true
  | S n' =>
      ph ← load_phdr i;
      ok ← body ph;
      if ok : bool then for_phdrs n' (i + 1) body else mret false
  end.

Definition each_phdr (body : Phdr -> K bool) : K bool :=
  img ← this; for_phdrs (Z.to_nat (phnum_ img)) 0 body.

Definition DT_NULL : Z := 0.
Definition DT_NEEDED : Z := 1.
Definition DT_HASH : Z := 4.
Definition DT_STRTAB : Z := 5.
Definition DT_SYMTAB : Z := 6.
Definition DT_RELA : Z := 7.
Definition DT_RELASZ : Z := 8.
Definition DT_INIT : Z := 12.
Definition DT_FINI : Z := 13.
Definition DT_REL : Z := 17.
Definition DT_RELSZ : Z := 18.
Definition DT_PLTRELSZ : Z := 2.
Definition DT_PLTREL : Z := 20.
Definition DT_TEXTREL : Z := 22.
Definition DT_JMPREL : Z := 23.
Definition DT_INIT_ARRAY : Z := 25.
Definition DT_FINI_ARRAY : Z := 26.
Definition DT_INIT_ARRAYSZ : Z := 27.
Definition DT_FINI_ARRAYSZ : Z := 28.
Definition DT_FLAGS : Z := 30.
Definition DT_RELRSZ : Z := 0x23.
Definition DT_RELR : Z := 0x24.
Definition DT_ANDROID_REL : Z := 0x6000000f.
Definition DT_ANDROID_RELSZ : Z := 0x60000010.
Definition DT_ANDROID_RELA : Z := 0x60000011.
Definition DT_ANDROID_RELASZ : Z := 0x60000012.
Definition DT_ANDROID_RELR : Z := 0x6fffe000.
Definition DT_ANDROID_RELRSZ : Z := 0x6fffe001.
Definition DT_GNU_HASH : Z := 0x6ffffef5.
Definition DF_TEXTREL : Z := 4.

(** One entry of the dynamic section; [None] is the refusal of text
    relocations, otherwise [plt_rel_type] afterwards. *)
Definition dyn_entry (tag val plt_rel_type : Z) : K (option Z) :=
  img ← this;
  let at_ := u64 (load_bias_ img + val) in
  let set f := (upd_dyn f;; mret (Some plt_rel_type)) in
  if tag =? DT_STRTAB then set (set_strtab_ at_)
  else if tag =? DT_SYMTAB then set (set_symtab_ at_)
  else if tag =? DT_GNU_HASH then
    nbucket ← load_u32 at_;
    symndx ← load_u32 (at_ + 4);
    maskwords ← load_u32 (at_ + 8);
    shift2 ← load_u32 (at_ + 12);
    let bloom := at_ + 16 in
    let bucket := bloom + 8 * maskwords in
    set (set_gnu_hash_ (Some (Gnu bucket (bucket + 4 * nbucket - 4 * symndx) nbucket symndx
                                maskwords shift2 bloom)))
  else if tag =? DT_HASH then
    nbucket ← load_u32 at_;
    nchain ← load_u32 (at_ + 4);
    set (set_sysv_hash_ (Some (Sysv (at_ + 8) (at_ + 8 + 4 * nbucket) nbucket nchain)))
  else if tag =? DT_RELA then set (set_rela_ at_)
  else if tag =? DT_RELASZ then set (set_rela_count_ (val / sizeof_Rela))
  else if tag =? DT_REL then set (set_rel_ at_)
  else if tag =? DT_RELSZ then set (set_rel_count_ (val / sizeof_Rel))
  else if tag =? DT_JMPREL then set (set_plt_rel_ at_)
  else if tag =? DT_PLTRELSZ then set (set_plt_rel_size_ val)
  else if tag =? DT_PLTREL then mret (Some val)
  else if (tag =? DT_ANDROID_RELA) || (tag =? DT_ANDROID_REL) then set (set_android_rel_ at_)
  else if (tag =? DT_ANDROID_RELASZ) || (tag =? DT_ANDROID_RELSZ) then set (set_android_rel_size_ val)
  else if (tag =? DT_RELR) || (tag =? DT_ANDROID_RELR) then set (set_relr_ at_)
  else if (tag =? DT_RELRSZ) || (tag =? DT_ANDROID_RELRSZ) then set (set_relr_count_ (val / 8))
  else if tag =? DT_INIT then set (set_init_func_ at_)
  else if tag =? DT_FINI then set (set_fini_func_ at_)
  else if tag =? DT_INIT_ARRAY then set (set_init_array_ at_)
  else if tag =? DT_INIT_ARRAYSZ then set (set_init_array_count_ (val / 8))
  else if tag =? DT_FINI_ARRAY then set (set_fini_array_ at_)
  else if tag =? DT_FINI_ARRAYSZ then set (set_fini_array_count_ (val / 8))
  else if tag =? DT_FLAGS then
    if (val &? DF_TEXTREL) then modify (set_err kUnsupported);; mret None
    else mret (Some plt_rel_type)
  else if tag =? DT_TEXTREL then modify (set_err kUnsupported);; mret None
  else mret (Some plt_rel_type).

Fixpoint dyn_entries (n : nat) (d plt_rel_type : Z) : K (option Z) :=
  match n with
  | O => out_of_fuel
  | S n' =>
      tag ← load_u64 d;
      if tag =? DT_NULL then mret (Some plt_rel_type)
      else
        val ← load_u64 (d + 8);
        r ← dyn_entry tag val plt_rel_type;
        match r with
        | None => mret None
        | Some t => dyn_entries n' (d + sizeof_Dyn) t
        end
  end.

(** The largest symbol index in the buckets from the [i]th on. *)
Fixpoint max_bucket (n : nat) (bucket i max_idx : Z) : K Z :=
  match n with
  | O => mret max_idx
  | S n' =>
      b ← load_u32 (bucket + 4 * i);
      max_bucket n' bucket (i + 1) (if max_idx <? b then b else max_idx)
  end.

(** The end of the chain that starts at [idx]. *)
Fixpoint chain_end (n : nat) (chain idx : Z) : K Z :=
  match n with
  | O => out_of_fuel
  | S n' =>
      c ← load_u32 (chain + 4 * idx);
      if Z.land c 1 =? 0 then chain_end n' chain (u32 (idx + 1)) else mret idx
  end.

Definition count_dynsyms : K unit :=
  img ← this;
  match sysv_hash_ (dyn img), gnu_hash_ (dyn img) with
  | Some h, _ => upd_img (set_dynsym_count_ (sysv_nchain_ h))
  | None, Some g =>
      if 0 <? gnu_nbucket_ g then
        max_idx ← max_bucket (Z.to_nat (gnu_nbucket_ g)) (gnu_bucket_ g) 0 (gnu_symndx_ g);
        if gnu_symndx_ g <=? max_idx then
          idx ← chain_end fuel (gnu_chain_ g) max_idx;
          upd_img (set_dynsym_count_ (u32 (idx + 1)))
        else upd_img (set_dynsym_count_ (gnu_symndx_ g))
      else mret tt
  | None, None => mret tt
  end.

Fixpoint read_needed (n : nat) (d : Z) : K unit :=
  match n with
  | O => out_of_fuel
  | S n' =>
      tag ← load_u64 d;
      if tag =? DT_NULL then mret tt
      else
        (if tag =? DT_NEEDED then
           val ← load_u64 (d + 8);
           img ← this;
           name ← load_cstr fuel (strtab_ (dyn img) + val);
           upd_img (fun i => set_needed_names_ (needed_names_ i ++ [name]) i)
         else mret tt);;
        read_needed n' (d + sizeof_Dyn)
  end.

Definition ParseDynamic : K bool :=
  each_phdr (fun ph =>
    (if p_type ph =? PT_DYNAMIC
     then upd_img (fun i => set_dynamic_ (u64 (load_bias_ i + p_vaddr ph)) i) else mret tt);;
    mret true);;
  img ← this;
  if dynamic_ img =? 0 then fail kError
  else
    r ← dyn_entries fuel (dynamic_ img) 0;
    match r with
    | None => mret false
    | Some plt_rel_type =>
        img ← this;
        if (strtab_ (dyn img) =? 0) || (symtab_ (dyn img) =? 0) then fail kError
        else
          upd_dyn (set_plt_is_rela_ (plt_rel_type =? DT_RELA));;
          count_dynsyms;;
          read_needed fuel (dynamic_ img);;
          mret true
    end.

(** ** Symbols *)

Definition load_sym (symtab n : Z) : K Sym :=
  bs ← load 24 (symtab + n * sizeof_Sym);
  mret (decode_sym bs).

Definition sym_matches (strtab : Z) (s : Sym) (name : list Z) : K bool :=
  if st_shndx s =? SHN_UNDEF then mret false else str_eq (strtab + st_name s) name.

Fixpoint gnu_walk (n : nat) (symtab strtab chain hash idx : Z) (name : list Z) : K (option Sym) :=
  match n with
  | O => out_of_fuel
  | S n' =>
      c ← load_u32 (chain + 4 * idx);
      found ← (if Z.lor c 1 =? Z.lor hash 1 then
                 s ← load_sym symtab idx;
                 same ← sym_matches strtab s name;
                 mret (if same : bool then Some s else None)
               else mret None);
      match found with
      | Some s => mret (Some s)
      | None =>
          if Z.land c 1 =? 0 then gnu_walk n' symtab strtab chain hash (u32 (idx + 1)) name
          else mret None
      end
  end.

Fixpoint sysv_walk (n : nat) (symtab strtab chain idx : Z) (name : list Z) : K (option Sym) :=
  if idx =? 0 then mret None
  else
    match n with
    | O => out_of_fuel
    | S n' =>
        s ← load_sym symtab idx;
        same ← sym_matches strtab s name;
        if same : bool then mret (Some s)
        else
          idx ← load_u32 (chain + 4 * idx);
          sysv_walk n' symtab strtab chain idx name
    end.

Definition LookupInImage (d : dyninfo) (name : list Z) : K (option Sym) :=
  match gnu_hash_ d with
  | Some g =>
      let hash := GnuHash name in
      if (gnu_maskwords_ g =? 0) || (32 <=? gnu_shift2_ g) then crash
      else
        word ← load_u64 (gnu_bloom_ g + 8 * ((hash / 64) mod gnu_maskwords_ g));
        let mask := Z.lor (Z.shiftl 1 (hash mod 64))
                      (Z.shiftl 1 ((Z.shiftr hash (gnu_shift2_ g)) mod 64)) in
        if negb (Z.land word mask =? mask) then mret None
        else if gnu_nbucket_ g =? 0 then crash
        else
          n ← load_u32 (gnu_bucket_ g + 4 * (hash mod gnu_nbucket_ g));
          if n <? gnu_symndx_ g then mret None
          else gnu_walk fuel (symtab_ d) (strtab_ d) (gnu_chain_ g) hash n name
  | None =>
      match sysv_hash_ d with
      | Some h =>
          if sysv_nbucket_ h =? 0 then crash
          else
            n ← load_u32 (sysv_bucket_ h + 4 * (SysvHash name mod sysv_nbucket_ h));
            sysv_walk fuel (symtab_ d) (strtab_ d) (sysv_chain_ h) n name
      | None => mret None
      end
  end.

(** [Image::Symbol]; 0 is null. *)
Definition Symbol (name : list Z) : K Z :=
  img ← this;
  s ← LookupInImage (dyn img) name;
  match s with
  | None => mret 0
  | Some s =>
      let addr := u64 (load_bias_ img + st_value s) in
      if ELF_ST_TYPE (st_info s) =? STT_GNU_IFUNC then CallIfuncResolver addr else mret addr
  end.

(** The candidate so far: name offset and value. *)
Fixpoint nearest_sym (n : nat) (symtab i target : Z) (best : option (Z * Z)) : K (option (Z * Z)) :=
  match n with
  | O => mret best
  | S n' =>
      s ← load_sym symtab i;
      let t := ELF_ST_TYPE (st_info s) in
      let skip :=
        (st_shndx s =? SHN_UNDEF) || (st_name s =? 0)
        || negb ((t =? STT_FUNC) || (t =? STT_OBJECT) || (t =? STT_GNU_IFUNC))
        || (target <? st_value s)
        || match best with Some (_, v) => st_value s <? v | None => false end in
      nearest_sym n' symtab (i + 1) target (if skip then best else Some (st_name s, st_value s))
  end.

(** The symbol's name (an address) and its own address. *)
Definition AddrToSym (addr : Z) : K (option (Z * Z)) :=
  img ← this;
  if (addr <? map_start_ img) || (u64 (map_start_ img + map_size_ img) <=? addr)
     || (dynsym_count_ img =? 0)
  then mret None
  else
    best ← nearest_sym (Z.to_nat (dynsym_count_ img)) (symtab_ (dyn img)) 0
             (u64 (addr - load_bias_ img)) None;
    mret (match best with
          | None => None
          | Some (name, val) => Some (strtab_ (dyn img) + name, u64 (load_bias_ img + val))
          end).

(** ** Relocation

    [interposed] holds the addresses of the four interposed functions, in the
    order of [kTable]. *)
Context (interposed : list Z).

Definition kTable : list (list Z * Z) :=
  zip [B "dl_iterate_phdr"; B "dladdr"; B "dlsym"; B "dlclose"] interposed.

Definition InterposeLookup (name : list Z) : Z :=
  default 0 (find_map (fun e => beq e.1 name) snd kTable).

Definition RTLD_DEFAULT : Z := 0.

(** [dlsym] through each handle in turn, then through the default scope. *)
Fixpoint dlsym_in (handles : list Z) (name : list Z) : K Z :=
  match handles with
  | [] => r ← syscall (CDlsym RTLD_DEFAULT name); mret (r_ret r)
  | h :: handles' =>
      if h =? 0 then dlsym_in handles' name
      else
        r ← syscall (CDlsym h name);
        if r_ret r =? 0 then dlsym_in handles' name else mret (r_ret r)
  end.

(** 0 is an undefined symbol. *)
Definition ResolveSymbol (name : list Z) : K Z :=
  let ov := InterposeLookup name in
  if negb (ov =? 0) then mret ov
  else
    self ← Symbol name;
    if negb (self =? 0) then mret self
    else img ← this; dlsym_in (needed_handles_ img) name.

(** The value a symbol-based relocation uses; [None] if it has none. *)
Definition symbol_value (sym : Z) : K (option Z) :=
  img ← this;
  s ← load_sym (symtab_ (dyn img)) sym;
  if negb (st_shndx s =? SHN_UNDEF) then
    let value := u64 (load_bias_ img + st_value s) in
    if ELF_ST_TYPE (st_info s) =? STT_GNU_IFUNC
    then v ← CallIfuncResolver value; mret (Some v)
    else mret (Some value)
  else
    name ← load_cstr fuel (strtab_ (dyn img) + st_name s);
    resolved ← ResolveSymbol name;
    if resolved =? 0 then
      mret (if ELF_ST_BIND (st_info s) =? STB_WEAK then Some 0 else None)
    else mret (Some resolved).

(** One relocation; [false] sets [ok = false]. *)
Definition apply (offset info addend : Z) : K bool :=
  img ← this;
  let type := RELOC_R_TYPE info in
  let where_ := u64 (load_bias_ img + offset) in
  if (where_ <? map_start_ img) || (u64 (map_start_ img + map_size_ img) <=? where_)
  then fail kError
  else if type =? 0 then mret true
  else if IsTlsReloc a type then fail kUnsupported
  else if type =? RELOC_RELATIVE a then
    store_u64 where_ (u64 (load_bias_ img + addend));; mret true
  else if type =? RELOC_IRELATIVE a then
    v ← CallIfuncResolver (u64 (load_bias_ img + addend));
    store_u64 where_ v;; mret true
  else
    value ← symbol_value (RELOC_R_SYM info);
    match value with
    | None => fail kError
    | Some value =>
        if type =? RELOC_JUMP_SLOT a then store_u64 where_ value;; mret true
        else if type =? RELOC_GLOB_DAT a then
          store_u64 where_ (if RELOC_ABS a =? RELOC_GLOB_DAT a
                            then u64 (value + addend) else value);;
          mret true
        else if type =? RELOC_ABS a then store_u64 where_ (u64 (value + addend));; mret true
        else fail kUnsupported
    end.

Definition load_s64 (addr : Z) : K Z := v ← load_u64 addr; mret (s64 v).

(** A table of [n] RELA entries from [r] on, up to the first failure. *)
Fixpoint rela_loop (n : nat) (r : Z) : K bool :=
  match n with
  | O => mret true
  | S n' =>
      offset ← load_u64 r;
      info ← load_u64 (r + 8);
      addend ← load_s64 (r + 16);
      ok ← apply offset info addend;
      if ok : bool then rela_loop n' (r + sizeof_Rela) else mret false
  end.

(** The same for REL entries: the addend is what the target holds. *)
Fixpoint rel_loop (n : nat) (r : Z) : K bool :=
  match n with
  | O => mret true
  | S n' =>
      img ← this;
      offset ← load_u64 r;
      addend ← load_s64 (u64 (load_bias_ img + offset));
      info ← load_u64 (r + 8);
      ok ← apply offset info addend;
      if ok : bool then rel_loop n' (r + sizeof_Rel) else mret false
  end.

(** The decoded relocations of a packed table: all are tried. *)
Fixpoint packed_loop (rs : list reloc) (ok : bool) : K bool :=
  match rs with
  | [] => mret ok
  | r :: rs' =>
      ok' ← apply (rl_offset r) (rl_info r) (rl_addend r);
      packed_loop rs' (ok && ok')
  end.

Fixpoint relr_loop (addrs : list Z) (bias : Z) : K unit :=
  match addrs with
  | [] => mret tt
  | w :: addrs' =>
      v ← load_u64 w;
      store_u64 w (u64 (v + bias));;
      relr_loop addrs' bias
  end.

(** [n] 64-bit words from [p] on. *)
Fixpoint load_words (n : nat) (p : Z) : K (list Z) :=
  match n with
  | O => mret []
  | S n' => w ← load_u64 p; ws ← load_words n' (p + 8); mret (w :: ws)
  end.

Definition RTLD_NOW : Z := 2.
Definition RTLD_NOLOAD : Z := 4.

Fixpoint open_needed (names : list (list Z)) : K unit :=
  match names with
  | [] => mret tt
  | n :: names' =>
      r ← syscall (CDlopen n (Z.lor RTLD_NOW RTLD_NOLOAD));
      h ← (if r_ret r =? 0 then r ← syscall (CDlopen n RTLD_NOW); mret (r_ret r)
           else mret (r_ret r));
      upd_img (fun i => set_needed_handles_ (needed_handles_ i ++ [h]) i);;
      open_needed names'
  end.

(** The tables are decoded from memory before they are applied. *)
Definition Relocate : K bool :=
  img ← this;
  open_needed (needed_names_ img);;
  let d := dyn img in
  (if negb (relr_ d =? 0) && (0 <? relr_count_ d) then
     table ← load_words (Z.to_nat (relr_count_ d)) (relr_ d);
     relr_loop (ForEachRelr table (Z.to_nat (relr_count_ d)) (load_bias_ img)) (load_bias_ img)
   else mret tt);;
  packed ← (if negb (android_rel_ d =? 0) && (0 <? android_rel_size_ d) then
              stream ← load (Z.to_nat (android_rel_size_ d)) (android_rel_ d);
              rs ← lift (ForEachPackedReloc fuel stream);
              match rs with
              | None => fail kError
              | Some rs => packed_loop rs true
              end
            else mret true);
  if negb packed then mret false
  else
    ok ← rela_loop (Z.to_nat (rela_count_ d)) (rela_ d);
    ok ← (if ok : bool then rel_loop (Z.to_nat (rel_count_ d)) (rel_ d) else mret false);
    if negb (plt_rel_ d =? 0) && (0 <? plt_rel_size_ d) && ok then
      if plt_is_rela_ d then rela_loop (Z.to_nat (plt_rel_size_ d / sizeof_Rela)) (plt_rel_ d)
      else rel_loop (Z.to_nat (plt_rel_size_ d / sizeof_Rel)) (plt_rel_ d)
    else mret ok.

(** ** Protections, constructors, destructors *)

Definition segment_prot (wants_bti : bool) (flags : Z) : Z :=
  let prot := ToProt flags in
  match a with
  | AArch64 => if wants_bti && (prot &? PROT_EXEC) then Z.lor prot PROT_BTI else prot
  | _ => prot
  end.

(** [mprotect], once more without BTI where the kernel rejects that. *)
Definition protect_segment (start len prot : Z) : K bool :=
  rc ← mprotect start len prot;
  if rc =? 0 then mret true
  else
    match a with
    | AArch64 =>
        if (prot &? PROT_BTI) then
          rc ← mprotect start len (Z.ldiff prot PROT_BTI);
          mret (rc =? 0)
        else mret false
    | _ => mret false
    end.

Definition seg_range (bias pg : Z) (ph : Phdr) : Z * Z :=
  let start := u64 (bias + PageStart (p_vaddr ph) pg) in
  let end_ := u64 (bias + PageEnd (u64 (p_vaddr ph + p_memsz ph)) pg) in
  (start, u64 (end_ - start)).

Definition SetSegmentProtections : K bool :=
  pg ← PageSize;
  each_phdr (fun ph =>
    if negb (p_type ph =? PT_LOAD) then mret true
    else
      img ← this;
      let '(start, len) := seg_range (load_bias_ img) pg ph in
      protect_segment start len (segment_prot (wants_bti_ img) (p_flags ph))).

(** Flushing the instruction cache has no effect on the model. *)
Definition ApplyRelro : K unit :=
  pg ← PageSize;
  each_phdr (fun ph =>
    if negb (p_type ph =? PT_GNU_RELRO) then mret true
    else
      img ← this;
      let '(start, len) := seg_range (load_bias_ img) pg ph in
      mprotect start len PROT_READ;; mret true);;
  each_phdr (fun _ => mret true);;
  mret tt.

Definition callable (fn : Z) : bool := negb (fn =? 0) && negb (fn =? UINTPTR_MAX).

(** Calls the functions of an array, at the given indices in turn. *)
Fixpoint call_array (array : Z) (idxs : list Z) : K unit :=
  match idxs with
  | [] => mret tt
  | i :: idxs' =>
      fn ← load_u64 (array + 8 * i);
      (if callable fn then call_code fn [];; mret tt else mret tt);;
      call_array array idxs'
  end.

Definition CallConstructors : K unit :=
  img ← this;
  if constructors_called_ img then mret tt
  else
    upd_img (set_constructors_called_ true);;
    (if negb (init_func_ (dyn img) =? 0) then call_code (init_func_ (dyn img)) [];; mret tt
     else mret tt);;
    call_array (init_array_ (dyn img)) (seqZ 0 (init_array_count_ (dyn img))).

Definition CallDestructors : K unit :=
  img ← this;
  if negb (constructors_called_ img) then mret tt
  else
    call_array (fini_array_ (dyn img)) (rev (seqZ 0 (fini_array_count_ (dyn img))));;
    if negb (fini_func_ (dyn img) =? 0) then call_code (fini_func_ (dyn img)) [];; mret tt
    else mret tt.

Fixpoint close_handles (hs : list Z) : K unit :=
  match hs with
  | [] => mret tt
  | h :: hs' => (if negb (h =? 0) then do_ (CDlclose h) else mret tt);; close_handles hs'
  end.

(** [~Image]. *)
Definition destroy : K unit :=
  CallDestructors;;
  img ← this;
  close_handles (needed_handles_ img);;
  if negb (map_start_ img =? 0) && negb (map_size_ img =? 0)
  then munmap (map_start_ img) (map_size_ img)
  else mret tt.

(** Everything [Load] does on the new object; [false] once it was deleted. *)
Definition load_image (fd : Z) (ehdr : Ehdr) (phdrs : list Phdr) (anonymous : bool) : K bool :=
  ok ← MapSegments fd ehdr phdrs anonymous;
  ok ← (if ok : bool then ParseDynamic else mret false);
  if negb ok then destroy;; mret false
  else
    ok ← SetSegmentProtections;
    if negb ok then modify (set_err kError);; destroy;; mret false
    else
      ok ← Relocate;
      if negb ok then destroy;; mret false
      else ApplyRelro;; CallConstructors;; mret true.
End Loader.

(** ** The registry *)

(** The process: memory, page size, live objects by address, [g_images]. *)
Record lk := LK { k_mem : mem; k_pg : Z; heap : gmap Z image; g_images : list Z }.

#[export] Instance lk_mem : HasMem lk.
Proof.
  refine {| the_mem := k_mem; put_mem m s := LK m (k_pg s) (heap s) (g_images s) |};
    [done|done|by intros []].
Defined.

Definition set_heap (h : gmap Z image) (s : lk) : lk := LK (k_mem s) (k_pg s) h (g_images s).
Definition set_g_images (l : list Z) (s : lk) : lk := LK (k_mem s) (k_pg s) (heap s) l.

Definition sizeof_Image : Z := 512.

Section Registry.
Context {W : Type} `{!World W} (fuel : nat) (a : arch) (interposed : list Z).
Abbreviation K := (M W lk).

(** A method on the object at [p]; a dead object is undefined behaviour. *)
Definition on_image {A} (p : Z) (e : LoadError) (x : M W ld A) : K (A * LoadError) := fun s =>
  match heap (st_s s) !! p with
  | None => (Crash, s)
  | Some img =>
      let '(o, s') := x (St (st_w s) (st_log s) (st_errno s)
                            (LD (k_mem (st_s s)) (k_pg (st_s s)) e img)) in
      let d := st_s s' in
      (match o with
       | Ret r => Ret (r, d_err d)
       | Crash => Crash
       | Exit c => Exit c
       | OutOfFuel => OutOfFuel
       end,
       St (st_w s') (st_log s') (st_errno s')
          (LK (d_mem d) (d_pg d) (<[p := d_img d]> (heap (st_s s))) (g_images (st_s s))))
  end.

Definition free_image (p : Z) : K unit := modify (fun s => set_heap (delete p (heap s)) s).

Fixpoint decode_phdrs (n : nat) (bs : list Z) : list Phdr :=
  match n with
  | O => []
  | S n' => decode_phdr (take 56 bs) :: decode_phdrs n' (drop 56 bs)
  end.

Definition is_native_dyn (e : Ehdr) : bool :=
  beq (take 4 (e_ident e)) [127; 69; 76; 70] && (nth 4 (e_ident e) 0 =? 2) && (e_type e =? 3).

(** The object's address (0 is null) and the error. *)
Definition Load (fd : Z) (name : list Z) (anonymous : bool) : K (Z * LoadError) :=
  r ← syscall (CPread fd sizeof_Ehdr 0);
  if negb (r_ret r =? sizeof_Ehdr) then mret (0, kError)
  else
    let ehdr := decode_ehdr (r_data r) in
    if negb (is_native_dyn ehdr) then mret (0, kError)
    else
      r ← syscall (CPread fd (e_phnum ehdr * sizeof_Phdr) (e_phoff ehdr));
      if negb (r_ret r =? e_phnum ehdr * sizeof_Phdr) then mret (0, kError)
      else
        let phdrs := decode_phdrs (Z.to_nat (e_phnum ehdr)) (r_data r) in
        if existsb (fun ph => (p_type ph =? PT_TLS) && (0 <? p_memsz ph)) phdrs
        then mret (0, kUnsupported)
        else
          r ← syscall (CNew sizeof_Image);
          let img := r_ret r in
          modify (fun s => set_heap (<[img := image0 name]> (heap s)) s);;
          '(ok, err) ← on_image img kNone (load_image fuel a interposed fd ehdr phdrs anonymous);
          if ok : bool then
            modify (fun s => set_g_images (g_images s ++ [img]) s);;
            mret (img, err)
          else free_image img;; mret (0, err).

Definition Dlopen (fd : Z) (name : list Z) (anonymous : bool) : K (Z * LoadError) :=
  Load fd name anonymous.

Definition IsOurHandle (handle : Z) : K bool :=
  s ← get; mret (bool_decide (handle ∈ g_images s)).

Definition Dlsym (handle : Z) (name : list Z) : K Z :=
  if handle =? 0 then mret 0
  else
    known ← IsOurHandle handle;
    if negb known then mret 0
    else '(v, _) ← on_image handle kNone (Symbol fuel name); mret v.

(** Removes the first occurrence. *)
Fixpoint erase_one (p : Z) (l : list Z) : list Z :=
  match l with
  | [] => []
  | x :: l' => if x =? p then l' else x :: erase_one p l'
  end.

Definition Dlclose (handle : Z) : K bool :=
  known ← IsOurHandle handle;
  if negb known then mret false
  else
    modify (fun s => set_g_images (erase_one handle (g_images s)) s);;
    '(_, _) ← on_image handle kNone destroy;
    free_image handle;;
    mret true.

Definition Contains (img : image) (addr : Z) : bool :=
  (map_start_ img <=? addr) && (addr <? u64 (map_start_ img + map_size_ img)).

(** The first image that contains [addr]. *)
Fixpoint find_image (h : gmap Z image) (l : list Z) (addr : Z) : outcome (option Z) :=
  match l with
  | [] => Ret None
  | p :: l' =>
      match h !! p with
      | None => Crash
      | Some img => if Contains img addr then Ret (Some p) else find_image h l' addr
      end
  end.

Definition FindImageByAddress (addr : Z) : K (option Z) :=
  s ← get; lift (find_image (heap s) (g_images s) addr).

(** ** The interposed functions *)

(** Calls back for each image until one answers; the answer, 0 if none.
    The arguments stand for the [dl_phdr_info]. *)
Fixpoint emit_images (l : list Z) (cb data : Z) : K Z :=
  match l with
  | [] => mret 0
  | p :: l' =>
      s ← get;
      match heap s !! p with
      | None => crash
      | Some img =>
          r ← call_code cb ([load_bias_ img; phdr_ img; u16 (phnum_ img)] ++ name_ img ++ [data]);
          if negb (s32 r =? 0) then mret (s32 r) else emit_images l' cb data
      end
  end.

Definition MyIteratePhdr (cb data : Z) : K Z :=
  s ← get;
  result ← emit_images (g_images s) cb data;
  if negb (result =? 0) then mret result
  else r ← syscall (CDlIterate cb data); mret (r_ret r).

(** What dladdr fills in: file name, base, symbol name and address. *)
Record Dl_info := DlInfo { dli_fname : list Z; dli_fbase : Z; dli_sname : Z; dli_saddr : Z }.

(** The result, and the information synthesised for an address of ours. *)
Definition MyDladdr (addr : Z) : K (Z * option Dl_info) :=
  p ← FindImageByAddress addr;
  match p with
  | None => r ← syscall (CDladdr addr); mret (r_ret r, None)
  | Some p =>
      s ← get;
      let img := default (image0 []) (heap s !! p) in
      '(sym, _) ← on_image p kNone (AddrToSym addr);
      mret (1, Some (match sym with
                     | Some (sname, saddr) => DlInfo (name_ img) (load_bias_ img) sname saddr
                     | None => DlInfo (name_ img) (load_bias_ img) 0 0
                     end))
  end.

Definition MyDlsym (handle : Z) (symbol : list Z) : K Z :=
  ours ← IsOurHandle handle;
  if ours : bool then Dlsym handle symbol
  else r ← syscall (CDlsym handle symbol); mret (r_ret r).

Definition MyDlclose (handle : Z) : K Z :=
  ours ← IsOurHandle handle;
  if ours : bool then ok ← Dlclose handle; mret (if ok : bool then 0 else -1)
  else r ← syscall (CDlclose handle); mret (r_ret r).
End Registry.
