(* ===== verification/LinkerSpec.v ===== *)
(** What the module loader of [Linker] guarantees: the address space and the
    library handles are restored when a load fails or is undone, notes are
    read within their bounds, hash lookup agrees with a linear search, and
    segment protections are as the file asks. *)
From S2P Require Import Prelude Sys Text Relocate ProcUtils Mem Linker.
Open Scope Z_scope.

(** ** Programs that map nothing and keep the handles balanced *)

(** How often the library handle [h] was opened less how often it was closed. *)
Definition one (h x : Z) : Z := if x =? 0 then 0 else if x =? h then 1 else 0.

Fixpoint handle_balance (h : Z) (log : list event) : Z :=
  match log with
  | [] => 0
  | (CDlopen _ _, r) :: log' => handle_balance h log' + one h (r_ret r)
  | (CDlclose x, _) :: log' => handle_balance h log' - one h x
  | _ :: log' => handle_balance h log'
  end.

(** How often [h] is among the recorded handles. *)
Fixpoint recorded (h : Z) (l : list Z) : Z :=
  match l with [] => 0 | x :: l' => one h x + recorded h l' end.

Lemma recorded_app h l1 l2 : recorded h (l1 ++ l2) = recorded h l1 + recorded h l2.
Proof. induction l1 as [|x l1 IH]; cbn; lia. Qed.

(** The handle the lemmas below follow. *)
Class Tracked := tracked : Z.
Abbreviation open_handles := (handle_balance tracked).
Abbreviation live_handles := (recorded tracked).

Definition geometry (i : image) : Z * Z * Z := (map_start_ i, map_size_ i, load_bias_ i).

Section Steady.
Context {W : Type} `{!World W} {T : Tracked} (fuel : nat) (a : arch) (interposed : list Z).
Abbreviation K := (M W ld).

(** Handles that are open and not recorded in the image. *)
Definition stray (s : st W ld) : Z :=
  open_handles (st_log s) - live_handles (needed_handles_ (d_img (st_s s))).

Definition steady {A} (x : K A) : Prop :=
  forall s, wp x (fun _ s' =>
    footprint (d_mem (st_s s')) = footprint (d_mem (st_s s))
    /\ geometry (d_img (st_s s')) = geometry (d_img (st_s s))
    /\ stray s' = stray s
    /\ exists evs, st_log s' = evs ++ st_log s) s.

Lemma steady_bind {A C} (x : K A) (f : A -> K C) :
  steady x -> (forall v, steady (f v)) -> steady (x ≫= f).
Proof.
  intros Hx Hf s. wstep. eapply wp_mono; [apply Hx|].
  intros [v| | |] s1 (E1 & E2 & E3 & evs & E4); cbn; eauto.
  eapply wp_mono; [apply Hf|]. intros o s2 (F1 & F2 & F3 & evs' & F4).
  rewrite F1, F2, F3. repeat (split; [done|]). exists (evs' ++ evs). by rewrite F4, E4, app_assoc.
Qed.

Lemma steady_stay {A} (x : K A) : (forall s, (x s).2 = s) -> steady x.
Proof. intros H s. unfold wp. rewrite H. repeat (split; [done|]). by exists []. Qed.

Definition plain (c : call) : bool :=
  match c with CDlopen _ _ | CDlclose _ => false | _ => true end.

Lemma steady_syscall c : plain c = true -> steady (syscall c).
Proof.
  intros Hc s. apply wp_syscall. intros r w e. cbn. repeat (split; [done|]).
  split; [|by eexists [_]]. unfold stray. cbn [st_log st_s]. by destruct c.
Qed.

Lemma steady_modify f :
  (forall s, footprint (d_mem (f s)) = footprint (d_mem s)
     /\ geometry (d_img (f s)) = geometry (d_img s)
     /\ needed_handles_ (d_img (f s)) = needed_handles_ (d_img s)) -> steady (modify f).
Proof.
  intros Hf s. wrun. destruct (Hf (st_s s)) as (E1 & E2 & E3). cbn. repeat (split; [done|]).
  unfold stray. cbn. rewrite E3. split; [done|by exists []].
Qed.

Lemma steady_upd_img f :
  (forall i, geometry (f i) = geometry i /\ needed_handles_ (f i) = needed_handles_ i) ->
  steady (upd_img f).
Proof. intros Hf. apply steady_modify. intros s. cbn. by destruct (Hf (d_img s)) as [-> ->]. Qed.

Lemma steady_upd_dyn f : steady (upd_dyn f).
Proof. by apply steady_upd_img. Qed.

Lemma steady_fail e : steady (fail e).
Proof. apply steady_bind; [by apply steady_modify|]. intros. by apply steady_stay. Qed.

Lemma steady_this : steady this.
Proof. by apply steady_stay. Qed.

Lemma steady_load n p : steady (load n p).
Proof.
  unfold load. apply steady_bind; [by apply steady_stay|]. intros s.
  destruct (read_bytes _ _ _); by apply steady_stay.
Qed.

Lemma steady_store p bs : steady (store p bs).
Proof.
  intros s. unfold store. wrun. destruct (write_bytes _ _ _) as [m|] eqn:E; wrun.
  - split; [exact (footprint_write _ _ _ _ E)|]. repeat (split; [done|]). by exists [].
  - repeat (split; [done|]). by exists [].
Qed.

Lemma steady_mprotect p len prot : steady (mprotect p len prot).
Proof.
  unfold mprotect. apply steady_bind; [by apply steady_syscall|]. intros r. cbn zeta.
  apply steady_bind; [|intros; by apply steady_stay].
  apply steady_modify. intros s. split; [apply footprint_protect|done].
Qed.

Lemma steady_call p args : steady (call_code p args).
Proof.
  unfold call_code. apply steady_bind; [by apply steady_syscall|]. intros r.
  apply steady_bind; [|intros; by apply steady_stay].
  apply steady_modify. intros s. split; [apply footprint_poke|done].
Qed.
End Steady.

Create HintDb steady.
#[export] Hint Resolve steady_upd_dyn steady_fail steady_this steady_load steady_store
  steady_mprotect steady_call : steady.

(** Closes [steady] goals structurally, with the lemmas of the data base. *)
Ltac steady_tac :=
  repeat match goal with
  | |- steady (let _ := _ in _) => cbn zeta
  | |- steady (mbind _ _) => apply steady_bind; [|intros ?]
  | |- steady (syscall _) => by apply steady_syscall
  | |- steady (upd_img _) => by apply steady_upd_img
  | |- steady (modify _) => by apply steady_modify
  | |- steady (if ?b then _ else _) => destruct b
  | |- steady (match ?x with _ => _ end) => destruct x
  | |- steady _ => first [by apply steady_stay | solve [eauto with steady]]
  end.

Section SteadyParts.
Context {W : Type} `{!World W} {T : Tracked} (fuel : nat) (a : arch) (interposed : list Z).
Abbreviation K := (M W ld).

Lemma steady_u32 p : steady (load_u32 p : K _).
Proof. unfold load_u32. steady_tac. Qed.
Lemma steady_u64 p : steady (load_u64 p : K _).
Proof. unfold load_u64. steady_tac. Qed.
Lemma steady_u8 p : steady (load_u8 p : K _).
Proof. unfold load_u8. steady_tac. Qed.
#[local] Hint Resolve steady_u32 steady_u64 steady_u8 : steady.

Lemma steady_PageSize : steady (PageSize : K _).
Proof. unfold PageSize. steady_tac. Qed.

Lemma steady_str_eq p name : steady (str_eq p name : K _).
Proof. revert p. induction name; intros; cbn [str_eq]; steady_tac. Qed.

Lemma steady_cstr n p : steady (load_cstr n p : K _).
Proof. revert p. induction n; intros; cbn [load_cstr]; steady_tac. Qed.

Lemma steady_Pread n fd dst len off : steady (PreadFull n fd dst len off : K _).
Proof.
  revert dst len off. induction n as [|n IH]; intros; cbn [PreadFull]; [steady_tac|].
  destruct (len <=? 0); [steady_tac|]. apply steady_bind; [by apply steady_syscall|]. intros r.
  destruct (_ <? 0); [steady_tac|]. destruct (_ =? 0); [steady_tac|]. cbn zeta. intros s. wrun.
  destruct (write_bytes _ _ _) as [m|] eqn:E; wrun.
  - eapply wp_mono; [apply IH|]. cbn. intros o s' (E1 & E2 & E3 & E4).
    split; [by rewrite E1; apply (footprint_write _ _ _ _ E)|done].
  - repeat (split; [done|]). by exists [].
Qed.

Lemma steady_props n p e : steady (bti_props n p e : K _).
Proof. revert p. induction n; intros; cbn [bti_props]; steady_tac. Qed.
#[local] Hint Resolve steady_PageSize steady_str_eq steady_cstr steady_Pread steady_props : steady.

Lemma steady_notes n p e : steady (bti_notes n p e : K _).
Proof. revert p. induction n; intros; cbn [bti_notes]; steady_tac. Qed.

Lemma steady_each body : (forall ph, steady (body ph)) -> steady (each_phdr body : K _).
Proof.
  intros H. unfold each_phdr. apply steady_bind; [apply steady_this|]. intros img.
  generalize 0. generalize (Z.to_nat (phnum_ img)). intros n. induction n; intros; cbn [for_phdrs];
    unfold load_phdr; steady_tac.
Qed.

Lemma steady_dyn_entry t v p : steady (dyn_entry t v p : K _).
Proof. unfold dyn_entry. steady_tac. Qed.
#[local] Hint Resolve steady_dyn_entry : steady.

Lemma steady_dyn_entries n d p : steady (dyn_entries n d p : K _).
Proof. revert d p. induction n; intros; cbn [dyn_entries]; steady_tac. Qed.

Lemma steady_count : steady (count_dynsyms fuel : K _).
Proof.
  assert (H1 : forall n b i m, steady (max_bucket n b i m : K _)).
  { intros n. induction n; intros; cbn [max_bucket]; steady_tac. }
  assert (H2 : forall n c i, steady (chain_end n c i : K _)).
  { intros n. induction n; intros; cbn [chain_end]; steady_tac. }
  unfold count_dynsyms. steady_tac.
Qed.

Lemma steady_needed n d : steady (read_needed fuel n d : K _).
Proof. revert d. induction n; intros; cbn [read_needed]; steady_tac. Qed.
#[local] Hint Resolve steady_dyn_entries steady_count steady_needed : steady.

Lemma steady_ParseDynamic : steady (ParseDynamic fuel : K _).
Proof.
  unfold ParseDynamic. apply steady_bind; [apply steady_each; intros; steady_tac|]. intros _.
  steady_tac.
Qed.

Lemma steady_Symbol name : steady (Symbol fuel name : K _).
Proof.
  assert (Hs : forall t n, steady (load_sym t n : K _)) by (intros; unfold load_sym; steady_tac).
  assert (Hm : forall t s n, steady (sym_matches t s n : K _))
    by (intros; unfold sym_matches; steady_tac).
  assert (H1 : forall n t u c h i, steady (gnu_walk n t u c h i name : K _)).
  { intros n. induction n; intros; cbn [gnu_walk]; steady_tac. }
  assert (H2 : forall n t u c i, steady (sysv_walk n t u c i name : K _)).
  { intros n. induction n; intros; cbn [sysv_walk]; steady_tac. }
  unfold Symbol, LookupInImage, CallIfuncResolver. steady_tac.
Qed.
#[local] Hint Resolve steady_Symbol : steady.

Lemma steady_apply off info add : steady (apply fuel a interposed off info add : K _).
Proof.
  assert (Hs : forall t n, steady (load_sym t n : K _)) by (intros; unfold load_sym; steady_tac).
  assert (Hd : forall hs n, steady (dlsym_in hs n : K _)).
  { intros hs n. induction hs; cbn [dlsym_in]; steady_tac. }
  unfold apply, symbol_value, ResolveSymbol, CallIfuncResolver, store_u64. steady_tac.
Qed.
#[local] Hint Resolve steady_apply : steady.

Lemma steady_tables n r :
  steady (rela_loop fuel a interposed n r : K _) /\ steady (rel_loop fuel a interposed n r : K _).
Proof.
  split; revert r; induction n; intros; cbn [rela_loop rel_loop]; unfold load_s64; steady_tac.
Qed.

Lemma steady_packed rs ok : steady (packed_loop fuel a interposed rs ok : K _).
Proof. revert ok. induction rs; intros; cbn [packed_loop]; steady_tac. Qed.

Lemma steady_relr ws bias : steady (relr_loop ws bias : K _).
Proof. induction ws; cbn [relr_loop]; unfold store_u64; steady_tac. Qed.

Lemma steady_words n p : steady (load_words n p : K _).
Proof. revert p. induction n; intros; cbn [load_words]; steady_tac. Qed.

(** Opened libraries are recorded. *)
Lemma steady_open names : steady (open_needed names : K _).
Proof.
  induction names as [|n names IH]; cbn [open_needed]; [steady_tac|]. intros s.
  assert (Hrec : forall h s1, footprint (d_mem (st_s s1)) = footprint (d_mem (st_s s)) ->
     geometry (d_img (st_s s1)) = geometry (d_img (st_s s)) ->
     stray s1 = stray s + one tracked h ->
     (exists evs, st_log s1 = evs ++ st_log s) ->
     wp (upd_img (fun i => set_needed_handles_ (needed_handles_ i ++ [h]) i);; open_needed names)
       (fun _ s' => footprint (d_mem (st_s s')) = footprint (d_mem (st_s s))
          /\ geometry (d_img (st_s s')) = geometry (d_img (st_s s))
          /\ stray s' = stray s /\ exists evs, st_log s' = evs ++ st_log s) s1).
  { intros h s1 E1 E2 E3 [evs E4]. unfold upd_img. wrun. eapply wp_mono; [apply IH|].
    intros o s2 (F1 & F2 & F3 & evs' & F4). split; [etrans; [exact F1|exact E1]|]. split; [etrans; [exact F2|exact E2]|].
    split; [|exists (evs' ++ evs); rewrite F4; cbn; by rewrite E4, app_assoc].
    rewrite F3. unfold stray in *. cbn in *. rewrite recorded_app. cbn. lia. }
  wrun. apply wp_syscall. intros r w e. wrun. destruct (r_ret r =? 0) eqn:Er; wrun.
  - apply wp_syscall. intros r2 w2 e2. wrun. apply Hrec; try done; [|by eexists [_; _]].
    apply Z.eqb_eq in Er. unfold stray. cbn. rewrite Er. cbn. lia.
  - apply Hrec; try done; [|by eexists [_]]. unfold stray. cbn. lia.
Qed.
#[local] Hint Resolve steady_packed steady_relr steady_words steady_open : steady.

Lemma steady_Relocate : steady (Relocate fuel a interposed : K _).
Proof.
  pose proof (fun n r => proj1 (steady_tables n r)). pose proof (fun n r => proj2 (steady_tables n r)).
  unfold Relocate. steady_tac.
Qed.

Lemma steady_protections : steady (SetSegmentProtections a : K _).
Proof.
  unfold SetSegmentProtections. apply steady_bind; [steady_tac|]. intros pg. apply steady_each.
  intros ph. unfold protect_segment. steady_tac.
Qed.

Lemma steady_relro : steady (ApplyRelro : K _).
Proof.
  unfold ApplyRelro. apply steady_bind; [steady_tac|]. intros pg.
  apply steady_bind; [apply steady_each; intros; steady_tac|]. intros _.
  apply steady_bind; [apply steady_each; intros; steady_tac|]. intros. steady_tac.
Qed.

Lemma steady_array arr idxs : steady (call_array arr idxs : K _).
Proof. induction idxs; cbn [call_array]; steady_tac. Qed.
#[local] Hint Resolve steady_array : steady.

Lemma steady_constructors : steady (CallConstructors : K _).
Proof. unfold CallConstructors. steady_tac. Qed.

Lemma steady_destructors : steady (CallDestructors : K _).
Proof. unfold CallDestructors. steady_tac. Qed.
End SteadyParts.

(** ** Page arithmetic *)

Definition pow2 (x : Z) : Prop := exists k, 0 <= k <= 62 /\ x = 2 ^ k.

Lemma pow2_pos x : pow2 x -> 0 < x <= 2 ^ 62.
Proof.
  intros (k & Hk & ->). split; [apply Z.pow_pos_nonneg; lia|apply Z.pow_le_mono_r; lia].
Qed.

Lemma pow2_divide x y : pow2 x -> pow2 y -> x <= y -> (x | y).
Proof.
  intros (k & Hk & ->) (l & Hl & ->) H. assert (Hkl : k <= l).
  { destruct (Z.le_gt_cases k l); [done|].
    assert (2 ^ l < 2 ^ k) by (apply Z.pow_lt_mono_r; lia). lia. }
  exists (2 ^ (l - k)). rewrite <- Z.pow_add_r by lia. f_equal. lia.
Qed.

Lemma u64_small x : 0 <= x < 2 ^ 64 -> u64 x = x.
Proof. apply uwrap_id. Qed.

(** Masking off the low bits. *)
Lemma ldiff_pow2 x pg : pow2 pg -> Z.ldiff x (u64 (pg - 1)) = x - x mod pg.
Proof.
  intros Hp. pose proof (pow2_pos _ Hp). rewrite u64_small by lia. destruct Hp as (k & Hk & ->).
  replace (2 ^ k - 1) with (Z.ones k) by (rewrite Z.ones_equiv; lia).
  rewrite Z.ldiff_ones_r, Z.shiftl_mul_pow2, Z.shiftr_div_pow2 by lia.
  pose proof (Z.div_mod x (2 ^ k)). lia.
Qed.

Lemma PageStart_spec x pg : pow2 pg -> PageStart x pg <= x < PageStart x pg + pg
  /\ (pg | PageStart x pg).
Proof.
  intros Hp. unfold PageStart. rewrite ldiff_pow2 by done. pose proof (pow2_pos _ Hp).
  pose proof (Z.mod_pos_bound x pg). split; [lia|].
  exists (x / pg). pose proof (Z.div_mod x pg). lia.
Qed.

Lemma PageEnd_spec x pg : pow2 pg -> 0 <= x -> x + pg <= 2 ^ 64 ->
  x <= PageEnd x pg < x + pg /\ (pg | PageEnd x pg).
Proof.
  intros Hp Hx Hb. pose proof (pow2_pos _ Hp). unfold PageEnd. rewrite u64_small by lia.
  destruct (PageStart_spec (x + pg - 1) pg Hp) as [H1 H2]. split; [lia|done].
Qed.

Lemma AlignUp_spec x al : pow2 al -> 0 <= x -> x + al <= 2 ^ 64 ->
  x <= AlignUp x al < x + al /\ (al | AlignUp x al).
Proof. apply PageEnd_spec. Qed.

(** Multiples that enclose each other: rounding is monotone. *)
Lemma multiple_le pg x y : (pg | x) -> (pg | y) -> 0 < pg -> x < y + pg -> x <= y.
Proof. intros [p ->] [q ->] Hp H. destruct (Z.le_gt_cases p q); nia. Qed.

(** ** The extent of a file *)

(** What the ELF specification asks of loadable segments, and pages that are
    powers of two. *)
Definition segment_ok (pg : Z) (ph : Phdr) : Prop :=
  p_type ph = PT_LOAD ->
  0 <= p_vaddr ph /\ 0 <= p_filesz ph <= p_memsz ph /\ p_vaddr ph + p_memsz ph <= 2 ^ 62
  /\ (p_align ph <= pg \/ pow2 (p_align ph)).

Definition segments_ok (pg : Z) (phdrs : list Phdr) : Prop :=
  pow2 pg /\ Forall (segment_ok pg) phdrs.

Definition covers (e : extent) (ph : Phdr) : Prop :=
  p_type ph = PT_LOAD -> e_min e <= p_vaddr ph /\ p_vaddr ph + p_memsz ph <= e_max e.

Definition extent_ok (pg : Z) (e : extent) : Prop :=
  pow2 (e_align e) /\ pg <= e_align e /\ 0 <= e_min e /\ 0 <= e_max e <= 2 ^ 62
  /\ (e_min e = UINTPTR_MAX \/ e_min e <= e_max e).

Lemma extent_step_ok pg e ph :
  pow2 pg -> segment_ok pg ph -> extent_ok pg e ->
  extent_ok pg (extent_step e ph) /\ covers (extent_step e ph) ph
  /\ e_min (extent_step e ph) <= e_min e /\ e_max e <= e_max (extent_step e ph).
Proof.
  intros Hpg Hs (H1 & H2 & H3 & H4 & H5). unfold extent_step, covers.
  destruct (Z.eqb_spec (p_type ph) PT_LOAD) as [Ht|Ht]; cbn [negb];
    [|split; [unfold extent_ok; tauto|]; split; [by intros|lia]].
  destruct (Hs Ht) as (S1 & S2 & S3 & S4). rewrite u64_small by lia. cbn [e_align e_min e_max].
  assert (HU : 2 ^ 62 < UINTPTR_MAX) by (unfold UINTPTR_MAX; lia).
  split; [split; cbn [e_align e_min e_max]|].
  - destruct (Z.ltb_spec (e_align e) (p_align ph)); [|done]. destruct S4; [lia|done].
  - destruct (Z.ltb_spec (e_align e) (p_align ph)), (Z.ltb_spec (p_vaddr ph) (e_min e)),
      (Z.ltb_spec (e_max e) (p_vaddr ph + p_memsz ph)); lia.
  - destruct (Z.ltb_spec (p_vaddr ph) (e_min e)),
      (Z.ltb_spec (e_max e) (p_vaddr ph + p_memsz ph)); lia.
Qed.

Lemma extent_of_ok pg phdrs :
  segments_ok pg phdrs ->
  extent_ok pg (extent_of pg phdrs) /\ Forall (covers (extent_of pg phdrs)) phdrs.
Proof.
  intros [Hpg Hs]. unfold extent_of.
  assert (H0 : extent_ok pg (Extent pg UINTPTR_MAX 0)).
  { split; [done|]. cbn. unfold UINTPTR_MAX. lia. }
  revert H0. generalize (Extent pg UINTPTR_MAX 0).
  assert (Hmono : forall l e, Forall (segment_ok pg) l -> extent_ok pg e ->
    extent_ok pg (fold_left extent_step l e) /\ Forall (covers (fold_left extent_step l e)) l
    /\ e_min (fold_left extent_step l e) <= e_min e
    /\ e_max e <= e_max (fold_left extent_step l e)); [|intros e He; by destruct (Hmono phdrs e Hs He) as (? & ? & _)].
  intros l. induction l as [|ph l IH]; intros e Hl He; cbn [fold_left].
  { split; [done|]. split; [constructor|lia]. }
  apply Forall_cons in Hl as [Hph Hl].
  destruct (extent_step_ok pg e ph Hpg Hph He) as (E1 & E2 & E3 & E4).
  destruct (IH _ Hl E1) as (F1 & F2 & F3 & F4). split; [done|]. split; [|lia].
  constructor; [|done]. intros Ht. specialize (E2 Ht). lia.
Qed.

(** ** Mapping stays inside the reservation *)

(** How the kernel answers: unmapping succeeds, and a mapping without a fixed
    address lands on addresses that were free in [D]. *)
Definition kernel_ok (D : gset Z) (ev : event) : Prop :=
  match ev.1 with
  | CMunmap _ _ => r_ret ev.2 = 0
  | CMmap _ len _ flags _ _ =>
      (flags &? MAP_FIXED) = true \/ r_ret ev.2 = -1
      \/ (0 < r_ret ev.2 /\ r_ret ev.2 + len < 2 ^ 64
          /\ forall x, r_ret ev.2 <= x < r_ret ev.2 + len -> x ∉ D)
  | _ => True
  end.

Section Mapping.
Context {W : Type} `{!World W} {T : Tracked} (fuel : nat) (a : arch) (interposed : list Z).
Abbreviation K := (M W ld).

(** [s'] follows [s] with the same handles and a longer log. *)
Definition follows (s s' : st W ld) : Prop :=
  stray s' = stray s /\ exists evs, st_log s' = evs ++ st_log s.

Definition within (lo hi : Z) (s s' : st W ld) : Prop :=
  same_outside lo hi (d_mem (st_s s)) (d_mem (st_s s'))
  /\ geometry (d_img (st_s s')) = geometry (d_img (st_s s)) /\ follows s s'.

#[export] Instance within_preorder lo hi : PreOrder (within lo hi).
Proof.
  split; [intros s; repeat split; [done|done|by exists []]|].
  intros s1 s2 s3 (A1 & A2 & A3 & e1 & A4) (B1 & B2 & B3 & e2 & B4).
  split; [by etrans|]. split; [by rewrite B2|]. split; [by rewrite B3|].
  exists (e2 ++ e1). by rewrite B4, A4, app_assoc.
Qed.

Lemma steady_within {A} (x : K A) lo hi s :
  steady x -> wp x (fun _ s' => within lo hi s s') s.
Proof.
  intros H. eapply wp_mono; [apply H|]. intros o s' (E1 & E2 & E3 & E4).
  split; [by apply same_outside_eq|done].
Qed.

(** Composing programs confined to a range. *)
Lemma within_bind {A C} (x : K A) (f : A -> K C) lo hi (s0 s : st W ld) :
  within lo hi s0 s ->
  wp x (fun _ s' => within lo hi s s') s ->
  (forall v s1, within lo hi s0 s1 -> wp (f v) (fun _ s' => within lo hi s0 s') s1) ->
  wp (x ≫= f) (fun _ s' => within lo hi s0 s') s.
Proof.
  intros H0 Hx Hf. wstep. eapply wp_mono; [exact Hx|].
  intros [v| | |] s1 H1; cbn; try (by etrans). apply Hf. by etrans.
Qed.

(** A fixed mapping inside the range. *)
Lemma within_mmap addr len prot flags fd off lo hi (s : st W ld) :
  (flags &? MAP_FIXED) = true -> lo <= addr -> addr + len <= hi -> 0 <= len ->
  wp (mmap addr len prot flags fd off) (fun _ s' => within lo hi s s') s.
Proof.
  intros Hf H1 H2 H3. unfold mmap. wrun. apply wp_syscall. intros r w e. wrun. rewrite Hf.
  assert (Hfol : forall d, geometry (d_img d) = geometry (d_img (st_s s)) ->
    needed_handles_ (d_img d) = needed_handles_ (d_img (st_s s)) ->
    same_outside lo hi (d_mem (st_s s)) (d_mem d) ->
    within lo hi s (St w ((CMmap addr len prot flags fd off, r) :: st_log s) e d)).
  { intros d E1 E2 E3. split; [done|]. split; [done|]. split; [|by eexists [_]].
    unfold stray. cbn. by rewrite E2. }
  destruct (_ =? -1); wrun; [by apply Hfol|]. apply Hfol; [done|done|].
  apply same_outside_map; [lia|]. rewrite Z2Nat.id; lia.
Qed.

(** The addresses of one segment, without wrap-around. *)
Lemma segment_addresses pg ph lo span mn :
  pow2 pg -> segment_ok pg ph -> p_type ph = PT_LOAD ->
  (pg | lo) -> (pg | mn) -> (pg | span) -> 0 < lo -> lo + span < 2 ^ 64 -> 0 <= mn <= p_vaddr ph ->
  PageEnd (p_vaddr ph + p_memsz ph) pg - mn <= span ->
  let bias := u64 (lo - mn) in
  let seg_start := u64 (bias + PageStart (p_vaddr ph) pg) in
  let seg_file_end := u64 (bias + p_vaddr ph + p_filesz ph) in
  let seg_mem_end := u64 (bias + PageEnd (u64 (p_vaddr ph + p_memsz ph)) pg) in
  lo <= seg_start <= seg_file_end /\ seg_file_end <= PageEnd seg_file_end pg <= lo + span
  /\ seg_mem_end <= lo + span.
Proof.
  intros Hpg Hs Ht Hlo Hmn Hsp H1 H2 H3 H4. destruct (Hs Ht) as (S1 & S2 & S3 & _).
  pose proof (pow2_pos _ Hpg) as Hp.
  destruct (PageStart_spec (p_vaddr ph) pg Hpg) as [A1 A2].
  destruct (PageEnd_spec (p_vaddr ph + p_memsz ph) pg Hpg) as [B1 B2]; [lia..|].
  assert (C1 : mn <= PageStart (p_vaddr ph) pg) by (apply (multiple_le pg); auto; lia).
  assert (Hw : forall y, 0 <= lo - mn + y < 2 ^ 64 -> u64 (u64 (lo - mn) + y) = lo - mn + y).
  { intros y Hy. unfold u64. rewrite Zplus_mod_idemp_l. by apply Z.mod_small. }
  cbn zeta. rewrite (u64_small (p_vaddr ph + _)) by lia. rewrite <- !Z.add_assoc, !Hw by lia.
  assert (D1 : lo + span + pg <= 2 ^ 64).
  { destruct (Z.le_gt_cases (lo + span + pg) (2 ^ 64)); [done|].
    assert (Hm : (pg | 2 ^ 64)).
    { destruct Hpg as (k & Hk & ->). exists (2 ^ (64 - k)). rewrite <- Z.pow_add_r by lia.
      f_equal. lia. }
    assert (2 ^ 64 <= lo + span); [|lia].
    apply (multiple_le pg); auto with lia. by apply Z.divide_add_r. }
  destruct (PageEnd_spec (lo - mn + (p_vaddr ph + p_filesz ph)) pg Hpg) as [F1 F2]; [lia..|].
  repeat split; try lia.
  apply (multiple_le pg); auto with lia. by apply Z.divide_add_r.
Qed.

(** One segment of a mapped image. *)
Lemma within_segment fd anon pg ph lo span mn (s : st W ld) :
  pow2 pg -> segment_ok pg ph -> p_type ph = PT_LOAD ->
  geometry (d_img (st_s s)) = (lo, span, u64 (lo - mn)) ->
  (pg | lo) -> (pg | mn) -> (pg | span) -> 0 < lo -> lo + span < 2 ^ 64 -> 0 <= mn <= p_vaddr ph ->
  PageEnd (p_vaddr ph + p_memsz ph) pg - mn <= span ->
  wp (fill_segment fuel fd anon pg ph) (fun _ s' => within lo (lo + span) s s') s.
Proof.
  intros Hpg Hs Ht Hg Hlo Hmn Hsp H1 H2 H3 H4.
  destruct (segment_addresses pg ph lo span mn Hpg Hs Ht Hlo Hmn Hsp H1 H2 H3 H4) as (A & B & C).
  injection Hg as _ _ Hb. unfold fill_segment, this. wrun. cbn zeta. rewrite Hb.
  set (bias := u64 (lo - mn)) in *. set (ss := u64 (bias + PageStart _ _)) in *.
  set (fe := u64 (bias + p_vaddr ph + p_filesz ph)) in *. set (fp := PageEnd fe pg) in *.
  destruct anon.
  { apply steady_within. pose proof (steady_Pread (W:=W)). steady_tac. }
  assert (Hfail : forall s0 s1, within lo (lo + span) s0 s1 ->
    wp (fail kError) (fun _ s' => within lo (lo + span) s0 s') s1).
  { intros s0 s1 H. eapply wp_mono; [apply (steady_within _ lo (lo + span)), steady_fail|].
    intros o s2 H'. by etrans. }
  apply within_bind; [done| |].
  - destruct (0 <? p_filesz ph); [|wrun; done]. apply within_bind; [done| |].
    { apply within_mmap; [done|lia| |]; rewrite u64_small; lia. }
    intros [m|] s1 Hs1; [|wrun; done]. apply within_bind; [done| |].
    { apply steady_within. steady_tac. }
    intros _ s2 Hs2. by wrun.
  - intros ok s1 Hs1. destruct ok; cbn [negb]; [|by apply Hfail].
    destruct (Z.ltb_spec fp (u64 (bias + PageEnd (u64 (p_vaddr ph + p_memsz ph)) pg))); [|by wrun].
    apply within_bind; [done| |].
    { apply within_mmap; [done|lia|lia|lia]. }
    intros [m|] s2 Hs2; [by wrun|by apply Hfail].
Qed.

(** All segments. *)
Lemma within_segments fd anon pg phdrs lo span mn mx (s : st W ld) :
  pow2 pg -> Forall (segment_ok pg) phdrs ->
  Forall (fun ph => p_type ph = PT_LOAD -> mn <= p_vaddr ph
                    /\ PageEnd (p_vaddr ph + p_memsz ph) pg <= mx) phdrs ->
  geometry (d_img (st_s s)) = (lo, span, u64 (lo - mn)) ->
  (pg | lo) -> (pg | mn) -> (pg | span) -> 0 < lo -> lo + span < 2 ^ 64 -> 0 <= mn ->
  mx - mn <= span ->
  wp (fill_segments fuel fd anon pg phdrs) (fun _ s' => within lo (lo + span) s s') s.
Proof.
  intros Hpg Hs Hc Hg Hlo Hmn Hsp H1 H2 H3 H4.
  assert (H0 : within lo (lo + span) s s) by done. revert H0 Hg. generalize s at 2 3 5. 
  induction phdrs as [|ph phdrs IH]; intros s1 H0 Hg; cbn [fill_segments]; [by wrun|].
  apply Forall_cons in Hs as [Hs Hss]. apply Forall_cons in Hc as [Hc Hcc].
  destruct (Z.eqb_spec (p_type ph) PT_LOAD) as [Ht|Ht]; cbn [negb]; [|by apply IH].
  destruct (Hc Ht) as [C1 C2]. apply within_bind; [done| |].
  { apply (within_segment _ _ pg ph lo span mn); auto; lia. }
  intros ok s2 H0'. destruct ok; [|by wrun].
  apply IH; auto. destruct H0' as (_ & -> & _). destruct H0 as (_ & <- & _). done.
Qed.

(** A successful unmapping; the object's fields stay. *)
Lemma munmap_spec D p len (s : st W ld) :
  0 <= len ->
  wp (munmap p len) (fun o s' =>
    o = Ret tt /\ d_img (st_s s') = d_img (st_s s) /\ follows s s'
    /\ (Forall (kernel_ok D) (st_log s') ->
        forall x, x ∈ footprint (d_mem (st_s s')) <->
                  x ∈ footprint (d_mem (st_s s)) /\ ~ p <= x < p + len)) s.
Proof.
  intros Hl. unfold munmap. wrun. apply wp_syscall. intros r w e. wrun.
  destruct (Z.eqb_spec (r_ret r) 0) as [E|E]; wrun; (split; [done|]; split; [done|]);
    (split; [split; [done|by eexists [_]]|]); intros H x.
  - cbn [st_s d_mem put_mem the_mem ld_mem]. rewrite footprint_unmap, Z2Nat.id by done. done.
  - apply Forall_cons in H as [H _]. done.
Qed.

(** A conditional trim. *)
Lemma trim_spec D (c : bool) p len (s : st W ld) :
  (c = true -> 0 <= len) ->
  wp (if c then munmap p len else mret tt) (fun o s' =>
    o = Ret tt /\ d_img (st_s s') = d_img (st_s s) /\ follows s s'
    /\ (Forall (kernel_ok D) (st_log s') ->
        forall x, x ∈ footprint (d_mem (st_s s')) <->
                  x ∈ footprint (d_mem (st_s s)) /\ ~ (c = true /\ p <= x < p + len))) s.
Proof.
  intros Hl. destruct c.
  - eapply wp_mono; [apply (munmap_spec D); auto|]. intros o s' (E1 & E2 & E3 & E4).
    split; [done|]. split; [done|]. split; [done|]. intros H x. rewrite (E4 H).
    split; (intros [? H']; split; [done|]); [by intros [_ ?]|by intros ?; apply H'].
  - wrun. split; [done|]. split; [done|]. split; [split; [done|by exists []]|]. intros _ x.
    split; [intros ?; split; [done|by intros [? _]]|by intros [? _]].
Qed.

(** The reservation is free memory, exactly [span] bytes of it stay mapped. *)
Lemma reserve_spec D al span (s : st W ld) :
  pow2 al -> 0 <= span <= 2 ^ 63 -> D = footprint (d_mem (st_s s)) ->
  wp (reserve_span al span) (on_ret (fun o s' =>
    d_img (st_s s') = d_img (st_s s) /\ follows s s'
    /\ (Forall (kernel_ok D) (st_log s') ->
        match o with
        | None => footprint (d_mem (st_s s')) = D
        | Some b => 0 < b /\ b + span < 2 ^ 64 /\ (al | b)
                    /\ (forall x, b <= x < b + span -> x ∉ D)
                    /\ same_outside b (b + span) (d_mem (st_s s)) (d_mem (st_s s'))
        end))) s.
Proof.
  intros Hal Hsp HD. pose proof (pow2_pos _ Hal) as Hp. unfold reserve_span, mmap. wrun.
  apply wp_syscall. intros r w e. wrun. change ((Z.lor _ _) &? MAP_FIXED) with false.
  change ((Z.lor _ _) &? MAP_ANONYMOUS) with true. cbn iota.
  destruct (Z.eqb_spec (r_ret r) (-1)) as [E|E]; wrun.
  { split; [done|]. split; [split; [done|by eexists [_]]|]. by intros _. }
  rewrite !(u64_small (span + al)) by lia. set (raw := r_ret r). set (b := AlignUp raw al).
  set (s1 := St w _ _ _).
  eapply wp_mono; [apply (trim_spec D); intros _; apply uwrap_fits; lia|].
  intros o1 s2 (-> & I2 & (F2 & evs2 & L2) & U2). cbn [wp_cont]. apply wp_bind.
  eapply wp_mono; [apply (trim_spec D)|].
  { intros Hlt. apply Z.ltb_lt in Hlt. lia. }
  intros o2 s3 (-> & I3 & (F3 & evs3 & L3) & U3). cbn [wp_cont]. wrun.
  split; [by rewrite I3, I2|]. split.
  { split; [by rewrite F3, F2|]. rewrite L3, L2. eexists (evs3 ++ evs2 ++ [_]).
    by rewrite <- !app_assoc. }
  intros Hk. assert (Hk2 : Forall (kernel_ok D) (st_log s2)).
  { rewrite L3 in Hk. by apply Forall_app in Hk as [_ Hk]. }
  assert (Hk1 := Hk2). rewrite L2 in Hk1. apply Forall_app in Hk1 as [_ Hk1].
  apply Forall_cons in Hk1 as [[Hk1|[Hk1|(R1 & R2 & R3)]] _]; [done|done|]. cbn [snd] in R1, R2, R3.
  fold raw in R1, R2, R3.
  destruct (AlignUp_spec raw al Hal) as [B1 B2]; [lia..|]. fold b in B1, B2.
  split; [lia|]. split; [lia|]. split; [done|]. split; [intros x Hx; apply R3; lia|].
  intros x Hx. rewrite (U3 Hk), (U2 Hk2). cbn [s1 st_s d_mem put_mem the_mem ld_mem].
  rewrite footprint_map, <- HD, !Z2Nat.id by lia. rewrite !(u64_small (_ + _)) by lia.
  rewrite u64_small by lia. specialize (R3 x).
  destruct (decide (x ∈ D)) as [Hin|Hin].
  - split; [done|]. intros _. assert (~ raw <= x < raw + (span + al)) by (intros ?; by apply R3).
    split; [split; [by left|]|]; intros [_ ?]; lia.
  - split; [|done]. intros [[[?|Hr] H1] H2]; [done|]. exfalso.
    destruct (Z.eqb_spec b raw), (Z.ltb_spec (b + span) (raw + (span + al))); cbn [negb] in *;
      try lia; (destruct (Z.le_gt_cases b x); [apply H2; split; [done|lia]|]); lia.
Qed.

(** An object that maps nothing yet, or whose range was free in [D] and is
    all that is mapped besides [D]. *)
Definition placed (D : gset Z) (s : st W ld) : Prop :=
  let i := d_img (st_s s) in
  (map_start_ i = 0 /\ footprint (d_mem (st_s s)) = D)
  \/ (0 <= map_size_ i /\ (forall x, map_start_ i <= x < map_start_ i + map_size_ i -> x ∉ D)
      /\ forall x, ~ map_start_ i <= x < map_start_ i + map_size_ i ->
           x ∈ footprint (d_mem (st_s s)) <-> x ∈ D)
     /\ map_start_ i <> 0.

(** [D]'s object, in a run from [s0]. *)
Definition held (D : gset Z) (s0 s : st W ld) : Prop :=
  (exists evs, st_log s = evs ++ st_log s0)
  /\ (Forall (kernel_ok D) (st_log s) -> stray s = stray s0 /\ placed D s).

Lemma held_steady {A} D (x : K A) (s0 s : st W ld) :
  steady x -> held D s0 s -> wp x (fun _ s' => held D s0 s') s.
Proof.
  intros Hx [[evs H1] H2]. eapply wp_mono; [apply Hx|]. intros o s' (E1 & E2 & E3 & evs' & E4).
  split; [exists (evs' ++ evs); by rewrite E4, H1, app_assoc|].
  rewrite E3, E4. intros Hk. apply Forall_app in Hk as [_ Hk]. destruct (H2 Hk) as [G1 G2].
  split; [done|]. injection E2 as G3 G4 _. unfold placed in *. by rewrite G3, G4, E1.
Qed.

Lemma held_bind {A C} D (x : K A) (f : A -> K C) (Q : outcome C -> st W ld -> Prop) (s0 s : st W ld) :
  steady x -> held D s0 s -> (forall o s', o = Crash \/ o = OutOfFuel \/ (exists c, o = Exit c) -> Q o s') ->
  (forall v s1, held D s0 s1 -> wp (f v) Q s1) -> wp (x ≫= f) Q s.
Proof.
  intros Hx Hs HQ Hf. wstep. eapply wp_mono; [by apply (held_steady D _ s0)|].
  intros [v| | |] s1 H1; cbn; [by apply Hf|apply HQ; eauto..].
Qed.

(** What happens later may be assumed to have gone well. *)
Lemma wp_under {A} D (x : K A) (Q : outcome A -> st W ld -> Prop) (s : st W ld) :
  extends x -> (Forall (kernel_ok D) (st_log s) -> wp x Q s) ->
  wp x (fun o s' => Forall (kernel_ok D) (st_log s') -> Q o s') s.
Proof.
  intros Hx H. pose proof (Hx s) as [evs E]. unfold wp in *. rewrite E.
  intros Hk. apply Forall_app in Hk as [_ Hk]. by apply H.
Qed.

Lemma steady_extends {A} (x : K A) : steady x -> extends x.
Proof. intros H s. eapply wp_mono; [apply H|]. by intros o s' (_ & _ & _ & E). Qed.

Lemma extends_modify f : extends (modify f : K _).
Proof. intros s. wrun. by exists []. Qed.

Lemma extends_segments fd anon pg phdrs : extends (fill_segments fuel fd anon pg phdrs : K _).
Proof.
  pose proof (fun n fd dst len off => steady_extends _ (steady_Pread (W:=W) n fd dst len off)).
  pose proof (fun p bs => steady_extends _ (steady_store (W:=W) p bs)). pose proof extends_modify.
  induction phdrs as [|ph phdrs IH]; cbn [fill_segments];
    unfold fill_segment, this, fail, mprotect, mmap; cbn zeta; extends_tac.
Qed.

(** The rest of [MapSegments] once the image is placed. *)
Lemma steady_map_rest bias ehdr phdrs :
  steady (upd_img (set_phnum_ (e_phnum ehdr));;
          upd_img (set_phdr_ (find_phdrs bias ehdr phdrs));;
          match find_map (fun ph => p_type ph =? PT_GNU_PROPERTY) id phdrs with
          | None => mret true
          | Some ph =>
              bti ← GnuPropertyNoteHasBti fuel (u64 (bias + p_vaddr ph)) (p_memsz ph);
              upd_img (set_wants_bti_ bti);; mret true
          end : K bool).
Proof. pose proof (steady_notes (W:=W)). unfold GnuPropertyNoteHasBti. steady_tac. Qed.

Lemma MapSegments_held fd ehdr phdrs anon name D (s : st W ld) :
  segments_ok (d_pg (st_s s)) phdrs -> D = footprint (d_mem (st_s s)) ->
  d_img (st_s s) = image0 name ->
  wp (MapSegments fuel fd ehdr phdrs anon) (on_ret (fun _ s' => held D s s')) s.
Proof.
  intros Hok HD Hi. set (pg := d_pg (st_s s)) in *. pose proof Hok as [Hpg Hs].
  pose proof (pow2_pos _ Hpg) as Hp.
  destruct (extent_of_ok pg phdrs Hok) as [(A1 & A2 & A3 & A4 & A5) Hc].
  assert (H0 : held D s s).
  { split; [by exists []|]. intros _. split; [done|]. left. by rewrite Hi. }
  unfold MapSegments, PageSize. wrun. fold pg.
  destruct (Z.eqb_spec pg 0); [lia|]. wrun. cbn zeta. set (e := extent_of pg phdrs) in *.
  destruct (Z.eqb_spec (e_min e) UINTPTR_MAX) as [|Hne].
  { eapply wp_mono; [apply (held_steady D _ s), H0; apply steady_fail|]. by intros [| | |] s'. }
  destruct A5 as [|A5]; [done|].
  destruct (PageStart_spec (e_min e) pg Hpg) as [M1 M2].
  destruct (PageEnd_spec (e_max e) pg Hpg) as [X1 X2]; [lia..|].
  set (mn := PageStart (e_min e) pg) in *. set (mx := PageEnd (e_max e) pg) in *.
  assert (Hmn : 0 <= mn).
  { unfold mn, PageStart. rewrite ldiff_pow2 by done. pose proof (Z.mod_le (e_min e) pg). lia. }
  rewrite (u64_small (mx - mn)) by lia. wstep.
  eapply wp_mono; [apply (reserve_spec D); [done|lia|done]|].
  intros [o| | |] s1 H1; cbn [wp_cont on_ret]; try done. destruct H1 as (I1 & F1 & R1).
  destruct o as [b|].
  2: { eapply wp_mono; [apply (held_steady D _ s); [apply steady_fail|]|by intros [| | |] s'].
       destruct F1 as [F1 F1']. split; [done|]. intros Hk. split; [done|]. left. rewrite I1, Hi.
       split; [done|by apply R1]. }
  unfold upd_img. wrun. set (s2 := St _ _ _ _).
  assert (Hg : geometry (d_img (st_s s2)) = (b, mx - mn, u64 (b - mn))) by done.
  assert (Hfill : wp (fill_segments fuel fd anon pg phdrs) (fun _ s' =>
    Forall (kernel_ok D) (st_log s') -> within b (b + (mx - mn)) s2 s') s2).
  { apply (wp_under D _ (fun _ s' => within b (b + (mx - mn)) s2 s')); [apply extends_segments|].
    intros Hk. destruct (R1 Hk) as (B1 & B2 & B3 & _).
    apply (within_segments _ _ _ _ b (mx - mn) mn mx); auto; try lia.
    - eapply Forall_impl2; [exact Hs|exact Hc|]. intros ph P1 P2 Ht. destruct (P2 Ht) as [Q1 Q2].
      destruct (P1 Ht) as (S1 & S2 & S3 & _). split; [lia|].
      destruct (PageEnd_spec (p_vaddr ph + p_memsz ph) pg Hpg) as [E1 E2]; [lia..|].
      apply (multiple_le pg); auto; lia.
    - etrans; [|exact B3]. by apply pow2_divide.
    - by apply Z.divide_sub_r. }
  eapply wp_mono; [exact (wp_and _ _ _ _ (extends_segments fd anon pg phdrs s2) Hfill)|].
  intros [ok| | |] s3 [[evs3 L3] H3]; cbn [wp_cont on_ret]; try done.
  assert (H4 : held D s s3).
  { destruct F1 as (F1 & evs1 & L1). split; [exists (evs3 ++ evs1); rewrite L3; cbn; by rewrite L1, app_assoc|].
    intros Hk. destruct (H3 Hk) as (W1 & W2 & W3 & _).
    rewrite L3 in Hk. apply Forall_app in Hk as [_ Hk]. destruct (R1 Hk) as (B1 & B2 & _ & B4 & B5).
    split; [rewrite W3, <- F1; unfold stray; cbn; by rewrite I1|]. right.
    unfold placed. injection W2 as -> -> _. split; [|lia]. split; [lia|]. split; [done|].
    intros x Hx. etrans; [exact (W1 x Hx)|]. etrans; [exact (B5 x Hx)|]. by rewrite HD. }
  destruct ok; cbn [negb]; [|by wrun].
  eapply wp_mono; [apply (held_steady D _ s), H4; apply steady_map_rest|]. by intros [| | |] s'.
Qed.

(** Closing the recorded handles. *)
Lemma close_handles_spec hs (s : st W ld) :
  wp (close_handles hs) (fun o s' =>
    o = Ret tt /\ st_s s' = st_s s /\ (exists evs, st_log s' = evs ++ st_log s)
    /\ open_handles (st_log s') = open_handles (st_log s) - live_handles hs) s.
Proof.
  revert s. induction hs as [|h hs IH]; intros s; cbn [close_handles].
  { wrun. split; [done|]. split; [done|]. split; [by exists []|]. cbn. lia. }
  destruct (Z.eqb_spec h 0) as [->|Hh]; cbn [negb].
  - wrun. eapply wp_mono; [apply IH|]. intros o s' (E1 & E2 & E3 & E4). done.
  - unfold do_. wrun. apply wp_syscall. intros r w e. wrun. eapply wp_mono; [apply IH|].
    intros o s' (E1 & E2 & [evs E3] & E4). cbn [st_log st_s handle_balance recorded] in *.
    split; [done|]. split; [done|]. split; [rewrite E3; by eexists (evs ++ [_]); rewrite <- app_assoc|].
    rewrite E4. lia.
Qed.

(** Destroying an object gives everything back. *)
Lemma destroy_restores D (s0 s : st W ld) :
  held D s0 s ->
  wp destroy (on_ret (fun _ s' => Forall (kernel_ok D) (st_log s') ->
    footprint (d_mem (st_s s')) = D /\ open_handles (st_log s') = stray s0)) s.
Proof.
  intros Hs. unfold destroy. wstep.
  eapply wp_mono; [apply (held_steady D _ s0 s (steady_destructors (W:=W)) Hs)|].
  intros [[]| | |] s1 [_ H1]; cbn [wp_cont on_ret]; try done. unfold this. wrun.
  eapply wp_mono; [apply close_handles_spec|]. intros o s2 (-> & E2 & [evs L2] & E3).
  cbn [wp_cont]. unfold stray in H1 at 1.
  assert (Hdone : forall s3 : st W ld, Forall (kernel_ok D) (st_log s3) ->
    (exists evs, st_log s3 = evs ++ st_log s2) ->
    open_handles (st_log s3) = open_handles (st_log s2) ->
    open_handles (st_log s3) = stray s0 /\ placed D s1).
  { intros s3 Hk [evs' L3] E. rewrite L3, L2 in Hk.
    apply Forall_app in Hk as [_ Hk]. apply Forall_app in Hk as [_ Hk].
    destruct (H1 Hk) as [H2 H3]. rewrite E, E3. split; [lia|done]. }
  destruct (Z.eqb_spec (map_start_ (d_img (st_s s1))) 0) as [Z0|Z0]; cbn [negb andb].
  { wrun. intros Hk. destruct (Hdone s2 Hk) as [G1 G2]; [by exists []|done|]. split; [|done].
    destruct G2 as [[_ G2]|[_ G2]]; [by rewrite E2|done]. }
  destruct (Z.eqb_spec (map_size_ (d_img (st_s s1))) 0) as [Y0|Y0]; cbn [negb].
  { wrun. intros Hk. destruct (Hdone s2 Hk) as [G1 G2]; [by exists []|done|]. split; [|done].
    destruct G2 as [[? _]|[(_ & _ & G2) _]]; [done|]. rewrite E2. apply set_eq. intros x.
    apply G2. lia. }
  eapply (wp_mono _ (fun o (s3 : st W ld) => (exists evs, st_log s3 = evs ++ st_log s2)
     /\ open_handles (st_log s3) = open_handles (st_log s2)
     /\ (Forall (kernel_ok D) (st_log s3) -> 0 <= map_size_ (d_img (st_s s1)) ->
         forall x, x ∈ footprint (d_mem (st_s s3)) <-> x ∈ footprint (d_mem (st_s s2))
           /\ ~ map_start_ (d_img (st_s s1)) <= x
                < map_start_ (d_img (st_s s1)) + map_size_ (d_img (st_s s1))))).
  { unfold munmap. wrun. apply wp_syscall. intros r w e. wrun.
    destruct (Z.eqb_spec (r_ret r) 0) as [E|E]; wrun; (split; [by eexists [_]|]; split; [done|]);
      intros Hk Hsz x.
    - cbn [st_s d_mem put_mem the_mem ld_mem]. by rewrite footprint_unmap, Z2Nat.id by done.
    - apply Forall_cons in Hk as [Hk _]. done. }
  intros [[]| | |] s3 (L3 & O3 & U3); cbn [on_ret]; try done. intros Hk.
  destruct (Hdone s3 Hk L3 O3) as [G1 G2]. split; [|done].
  destruct G2 as [[? _]|[(G3 & G4 & G5) _]]; [done|]. apply set_eq. intros x.
  rewrite (U3 Hk G3 x), E2. specialize (G4 x). specialize (G5 x). clear -G4 G5.
  set (ms := map_start_ _) in *. set (sz := map_size_ _) in *.
  assert (ms <= x < ms + sz \/ ~ ms <= x < ms + sz) by lia. tauto.
Qed.

(** One handle. *)
Lemma load_unload_handle fd ehdr phdrs anonymous name (s s' : st W ld) :
  segments_ok (d_pg (st_s s)) phdrs ->
  d_img (st_s s) = image0 name ->
  (ok ← load_image fuel a interposed fd ehdr phdrs anonymous;
   if ok : bool then destroy else mret tt) s = (Ret tt, s') ->
  Forall (kernel_ok (footprint (d_mem (st_s s)))) (st_log s') ->
  footprint (d_mem (st_s s')) = footprint (d_mem (st_s s))
  /\ open_handles (st_log s') = open_handles (st_log s).
Proof.
  intros Hok Hi E. set (D := footprint (d_mem (st_s s))).
  set (P := fun s' : st W ld => Forall (kernel_ok D) (st_log s') ->
    footprint (d_mem (st_s s')) = D /\ open_handles (st_log s') = open_handles (st_log s)).
  refine (wp_on_ret _ (fun _ => P) s tt s' _ E). clear E.
  assert (Hs0 : stray s = open_handles (st_log s)).
  { unfold stray. rewrite Hi. cbn. lia. }
  assert (Hload : wp (load_image fuel a interposed fd ehdr phdrs anonymous)
    (on_ret (fun (ok : bool) s' => if ok then held D s s' else P s')) s);
    [|wstep; eapply wp_mono; [exact Hload|]; intros [[|]| | |] s1 H1; cbn [wp_cont on_ret]; try done;
      unfold P; rewrite <- Hs0; by apply destroy_restores].
  assert (Hkill : forall s1, held D s s1 -> wp (destroy;; mret false)
    (on_ret (fun (ok : bool) s' => if ok then held D s s' else P s')) s1).
  { intros s1 H. wstep. eapply wp_mono; [by apply (destroy_restores D s)|].
    intros [[]| | |] s2 H2; cbn [wp_cont on_ret]; try done. wrun. unfold P. by rewrite <- Hs0. }
  assert (Hstep : forall A C (x : K A) (f : A -> K C) Q s1, steady x -> held D s s1 ->
    (forall v s2, held D s s2 -> wp (f v) (on_ret Q) s2) -> wp (x ≫= f) (on_ret Q) s1).
  { intros A C x f Q s1 Hx H1 Hf. wstep. eapply wp_mono; [by apply (held_steady D x s s1)|].
    intros [v| | |] s2 H2; cbn [wp_cont on_ret]; [by apply Hf|done..]. }
  unfold load_image. wstep.
  eapply wp_mono; [by apply (MapSegments_held _ _ _ _ name D)|].
  intros [ok| | |] s1 H1; cbn [wp_cont on_ret]; try done.
  apply Hstep; [destruct ok; [apply steady_ParseDynamic|by apply steady_stay]|done|].
  intros ok2 s2 H2. destruct ok2; cbn [negb]; [|by apply Hkill].
  apply Hstep; [apply steady_protections|done|]. intros ok3 s3 H3.
  destruct ok3; cbn [negb]; [|apply Hstep; [by apply steady_modify|done|]; intros _; apply Hkill].
  apply Hstep; [apply steady_Relocate|done|]. intros ok4 s4 H4.
  destruct ok4; cbn [negb]; [|by apply Hkill].
  apply Hstep; [apply steady_relro|done|]. intros _ s5 H5.
  apply Hstep; [apply steady_constructors|done|]. intros _ s6 H6. by wrun.
Qed.
End Mapping.

(** C3. Nothing is leaked, whatever goes wrong on the way: loading a module
    whose segments are well formed ([segments_ok]: each within its memory size
    and below 2^62, and the page size known), and closing it again if the load
    succeeded, leaves exactly the same addresses mapped as before, and every
    library handle closed as often as it was opened, handle by handle. Every
    failure in between (mapping, protection, dynamic section, relocation) is
    covered, provided the kernel grants every unmapping and places a new
    reservation on free addresses ([kernel_ok]). A module with a segment that
    is larger in the file than in memory is not covered: there the load writes
    past its reservation. *)
Theorem load_unload_restores {W : Type} `{!World W} fuel a interposed fd ehdr phdrs anonymous name
    (s s' : st W ld) :
  segments_ok (d_pg (st_s s)) phdrs ->
  d_img (st_s s) = image0 name ->
  (ok ← load_image fuel a interposed fd ehdr phdrs anonymous;
   if ok : bool then destroy else mret tt) s = (Ret tt, s') ->
  Forall (kernel_ok (footprint (d_mem (st_s s)))) (st_log s') ->
  footprint (d_mem (st_s s')) = footprint (d_mem (st_s s))
  /\ (forall h, handle_balance h (st_log s') = handle_balance h (st_log s)).
Proof.
  intros Hok Hi E Hk. split; [exact (proj1 (load_unload_handle (T := 0) _ _ _ _ _ _ _ _ s s' Hok Hi E Hk))|].
  intros h. exact (proj2 (load_unload_handle (T := h) _ _ _ _ _ _ _ _ s s' Hok Hi E Hk)).
Qed.

(** ** A module that loads

    One segment of 160 bytes on 16-byte pages: two program headers and a
    dynamic section with a string and a symbol table. *)
Definition enc_phdr (type flags vaddr size align : Z) : list Z :=
  le_bytes 4 type ++ le_bytes 4 flags ++ le_bytes 8 vaddr ++ le_bytes 8 vaddr ++ le_bytes 8 vaddr
  ++ le_bytes 8 size ++ le_bytes 8 size ++ le_bytes 8 align.
Definition enc_dyn (tag val : Z) : list Z := le_bytes 8 tag ++ le_bytes 8 val.

Definition demo_file : list Z :=
  enc_phdr PT_LOAD 6 0 160 16 ++ enc_phdr PT_DYNAMIC 6 112 48 8
  ++ enc_dyn DT_STRTAB 16 ++ enc_dyn DT_SYMTAB 32 ++ enc_dyn DT_NULL 0.
Definition demo_phdrs : list Phdr := decode_phdrs 2 demo_file.
Definition demo_ehdr : Ehdr := Ehdr_mk [] 3 0 2.

(** The reservation lands at 0x1008; the segment is read in one piece. *)
Definition demo_script : script :=
  [ans 0x1008; ans 0; ans 0; ans 0; Reply 160 0 demo_file []].
Definition demo_state : st script ld := St demo_script [] 0 (LD ∅ 16 kNone (image0 [])).

Definition demo_load : M script ld bool := load_image 10 AArch64 [] 3 demo_ehdr demo_phdrs true.
Definition demo_run : outcome unit * st script ld :=
  (ok ← demo_load; if ok : bool then destroy else mret tt) demo_state.

Example demo_loads :
  (demo_load demo_state).1 = Ret true
  /\ footprint (d_mem (st_s (demo_load demo_state).2)) = list_to_set (seqZ 0x1010 160).
Proof. split; [vm_compute; reflexivity|vm_decide]. Qed.

(** [kernel_ok] for an empty address space, as a test. *)
Definition kernel_okb (ev : event) : bool :=
  match ev.1 with
  | CMunmap _ _ => r_ret ev.2 =? 0
  | CMmap _ len _ _ _ _ => (0 <? r_ret ev.2) && (r_ret ev.2 + len <? 2 ^ 64)
  | _ => true
  end.

Lemma kernel_okb_ok log : forallb kernel_okb log = true -> Forall (kernel_ok ∅) log.
Proof.
  intros H. apply Forall_forall. intros [c r] Hin. rewrite forallb_forall in H.
  apply list_elem_of_In in Hin. specialize (H _ Hin). destruct c; cbn in *; try done.
  - apply andb_true_iff in H as [H1 H2]. apply Z.ltb_lt in H1, H2. right; right.
    split; [done|]. split; [done|]. intros x _. apply not_elem_of_empty.
  - by apply Z.eqb_eq in H.
Qed.

Lemma demo_segments_ok : segments_ok 16 demo_phdrs.
Proof.
  split; [by exists 4|]. unfold demo_phdrs.
  assert (E : decode_phdrs 2 demo_file
              = [Phdr_mk PT_LOAD 6 0 0 160 160 16; Phdr_mk PT_DYNAMIC 6 112 112 48 48 8])
    by (vm_compute; reflexivity).
  rewrite E. repeat (apply Forall_cons; split; [intros _; cbn; lia|]). by apply Forall_nil.
Qed.

Lemma load_unload_restores_witness :
  (demo_load demo_state).1 = Ret true /\ footprint (d_mem (st_s demo_run.2)) = ∅.
Proof.
  split; [vm_compute; reflexivity|].
  refine (proj1 (load_unload_restores 10 AArch64 [] 3 demo_ehdr demo_phdrs true [] demo_state
    demo_run.2 demo_segments_ok eq_refl _ (kernel_okb_ok _ _))); vm_compute; reflexivity.
Defined.
