(* ===== verification/LinkerTables.v ===== *)
(** What the module loader reads from a mapped image: the BTI note is parsed
    within its bounds, symbol lookup through the GNU hash table agrees with a
    linear search of the symbol table, the reverse lookup finds the nearest
    symbol. *)
From S2P Require Import Prelude Sys Mem Linker LinkerSpec.
Open Scope Z_scope.

(** ** The BTI note *)

Section Note.
Context {W : Type} `{!World W}.
Abbreviation K := (M W ld).

(** Every byte of [lo, hi) can be read. *)
Definition readable (m : mem) (lo hi : Z) : Prop :=
  forall x, lo <= x < hi ->
    exists c, m !! x = Some c /\ (c_prot c &? PROT_READ) = true /\ is_byte (c_byte c).

Lemma readable_holds m lo hi p n :
  readable m lo hi -> lo <= p -> p + Z.of_nat n <= hi ->
  exists bs, length bs = n /\ holds m p bs /\ Forall is_byte bs.
Proof.
  intros H. revert p. induction n as [|n IH]; intros p H1 H2.
  { exists []. split; [done|]. split; [|done]. by intros i b Hi. }
  destruct (IH (p + 1)) as (bs & E & Hb & Hf); [lia..|].
  destruct (H p) as (c & Hc & Hr & Hbyte); [lia|]. exists (c_byte c :: bs).
  split; [cbn; lia|]. split; [|by constructor]. apply holds_cons. eauto.
Qed.

Lemma load_in_bounds n p lo hi (Q : outcome (list Z) -> st W ld -> Prop) s :
  readable (d_mem (st_s s)) lo hi -> 0 <= lo -> hi <= 2 ^ 64 -> lo <= p -> p + Z.of_nat n <= hi ->
  (forall bs, Q (Ret bs) s) -> wp (load n p) Q s.
Proof.
  intros H H0 H1 H2 H3 HQ. destruct (readable_holds _ _ _ p n H) as (bs & E & Hb & _); [lia..|].
  eapply wp_load; [exact Hb|done|lia|lia|]. apply HQ.
Qed.

Lemma u32_in_bounds p lo hi (Q : outcome Z -> st W ld -> Prop) s :
  readable (d_mem (st_s s)) lo hi -> 0 <= lo -> hi <= 2 ^ 64 -> lo <= p -> p + 4 <= hi ->
  (forall x, fits_u 32 x -> Q (Ret x) s) -> wp (load_u32 p) Q s.
Proof.
  intros H H0 H1 H2 H3 HQ. destruct (readable_holds _ _ _ p 4 H) as (bs & E & Hb & Hf); [lia..|].
  unfold load_u32. wstep. eapply wp_load; [exact Hb|done|lia|lia|]. wrun. apply HQ.
  pose proof (le_Z_range bs Hf). by rewrite E in H4.
Qed.

Lemma AlignUp_ge x al : pow2 al -> fits_u 32 x -> al <= 8 -> x <= AlignUp x al.
Proof. intros Ha [H1 H2] H3. destruct (AlignUp_spec x al Ha) as [[? _] _]; lia. Qed.

Definition stays (s : st W ld) (o : outcome bool) (s' : st W ld) : Prop := s' = s /\ returns o.

Lemma bti_props_total n pp pend lo hi s :
  readable (d_mem (st_s s)) lo hi -> 0 <= lo -> hi <= 2 ^ 64 -> lo <= pp -> pend <= hi ->
  pend - pp <= Z.of_nat n -> wp (bti_props n pp pend) (stays s) s.
Proof.
  intros Hr H0 H1. revert pp. induction n as [|n IH]; intros pp H2 H3 H4; cbn [bti_props];
    destruct (Z.leb_spec (pp + 8) pend); try lia; try (wrun; split; [done|by eexists]).
  wstep. apply (u32_in_bounds _ lo hi); auto; [lia|]. intros ty _. cbn [wp_cont]. wstep.
  apply (u32_in_bounds _ lo hi); auto; [lia|lia|]. intros sz Hsz. cbn [wp_cont]. cbn zeta.
  destruct (Z.ltb_spec pend (pp + 8 + sz)); [wrun; split; [done|by eexists]|]. wstep.
  assert (Hnext : forall hit : bool, wp (if hit then mret true
     else bti_props n (pp + 8 + AlignUp sz 8) pend) (stays s) s).
  { intros [|]; [wrun; split; [done|by eexists]|]. pose proof (AlignUp_ge sz 8) as Hal.
    destruct Hsz. apply IH; [|lia|]; specialize (Hal ltac:(by exists 3) ltac:(done)); lia. }
  destruct (_ && (4 <=? sz)) eqn:Ec; wrun; [|apply (Hnext false)].
  apply andb_true_iff in Ec as [_ Ec]. apply Z.leb_le in Ec.
  apply (u32_in_bounds _ lo hi); auto; [lia|lia|]. intros v _. cbn [wp_cont]. wrun. apply Hnext.
Qed.

Lemma bti_notes_total n p lo hi s :
  readable (d_mem (st_s s)) lo hi -> 0 <= lo -> hi <= 2 ^ 64 -> lo <= p ->
  hi - p <= Z.of_nat n -> wp (bti_notes n p hi) (stays s) s.
Proof.
  intros Hr H0 H1. revert p. induction n as [|n IH]; intros p H2 H3; cbn [bti_notes];
    destruct (Z.leb_spec (p + 12) hi); try lia; try (wrun; split; [done|by eexists]).
  wstep. apply (u32_in_bounds _ lo hi); auto; [lia|]. intros nsz Hnsz. cbn [wp_cont]. wstep.
  apply (u32_in_bounds _ lo hi); auto; [lia|lia|]. intros dsz Hdsz. cbn [wp_cont]. wstep.
  apply (u32_in_bounds _ lo hi); auto; [lia|lia|]. intros ty _. cbn [wp_cont]. cbn zeta.
  pose proof (AlignUp_ge nsz 4 ltac:(by exists 2) Hnsz ltac:(lia)) as A1.
  pose proof (AlignUp_ge dsz 4 ltac:(by exists 2) Hdsz ltac:(lia)) as A2.
  destruct Hnsz as [N1 N2], Hdsz as [D1 D2].
  destruct (Z.ltb_spec hi (p + 12 + AlignUp nsz 4)); [wrun; split; [done|by eexists]|]. wstep.
  assert (Hnext : forall hit : bool, wp (if hit then mret true
     else bti_notes n (p + 12 + AlignUp nsz 4 + AlignUp dsz 4) hi) (stays s) s).
  { intros [|]; [wrun; split; [done|by eexists]|]. apply IH; lia. }
  destruct (_ && (nsz =? 4)) eqn:Ec; [|wrun; apply (Hnext false)].
  apply andb_true_iff in Ec as [_ Ec]. apply Z.eqb_eq in Ec. wstep.
  apply (load_in_bounds _ _ lo hi); auto; [lia|lia|]. intros owner. cbn [wp_cont].
  destruct (beq _ _); [|wrun; apply (Hnext false)].
  eapply wp_mono; [apply (bti_props_total _ _ _ lo hi); auto; lia|].
  intros o s' [-> [hit ->]]. cbn [wp_cont]. apply Hnext.
Qed.

(** The note parser is safe on hostile input: whatever bytes a property
    note holds, the parser returns an answer, reads only bytes of the note,
    and changes nothing; a fuel of the note's size is enough, so its loops
    end. *)
Theorem note_parser_in_bounds fuel note size (s : st W ld) :
  0 <= note -> 0 <= size -> note + size <= 2 ^ 64 -> size <= Z.of_nat fuel ->
  readable (d_mem (st_s s)) note (note + size) ->
  exists b, GnuPropertyNoteHasBti fuel note size s = (Ret b, s).
Proof.
  intros H1 H2 H3 H4 Hr.
  pose proof (bti_notes_total fuel note note (note + size) s Hr H1 H3 ltac:(lia) ltac:(lia)) as H.
  unfold wp in H. unfold GnuPropertyNoteHasBti.
  destruct (bti_notes fuel note (note + size) s) as [o s'] eqn:E. destruct H as [H [b Hb]].
  cbn in H, Hb. subst. by exists b.
Qed.

(** A property note, as the linker emits it. *)
Record property := Property { pr_type : Z; pr_data : list Z }.

Definition property_ok (p : property) : Prop :=
  fits_u 32 (pr_type p) /\ Z.of_nat (length (pr_data p)) < 2 ^ 31 /\ Forall is_byte (pr_data p).

Definition enc_property (p : property) : list Z :=
  let len := Z.of_nat (length (pr_data p)) in
  le_bytes 4 (pr_type p) ++ le_bytes 4 len ++ pr_data p
  ++ replicate (Z.to_nat (AlignUp len 8 - len)) 0.

Definition enc_properties (ps : list property) : list Z := concat (enc_property <$> ps).

Definition enc_note (ps : list property) : list Z :=
  le_bytes 4 4 ++ le_bytes 4 (Z.of_nat (length (enc_properties ps)))
  ++ le_bytes 4 NT_GNU_PROPERTY_TYPE_0 ++ (B "GNU" ++ [0]) ++ enc_properties ps.

Definition advertises_bti (p : property) : bool :=
  (pr_type p =? GNU_PROPERTY_AARCH64_FEATURE_1_AND) && (4 <=? Z.of_nat (length (pr_data p)))
  && has_bits (le_Z (take 4 (pr_data p))) GNU_PROPERTY_AARCH64_FEATURE_1_BTI.

Lemma enc_property_length p :
  property_ok p ->
  Z.of_nat (length (enc_property p)) = 8 + AlignUp (Z.of_nat (length (pr_data p))) 8.
Proof.
  intros (_ & Hl & _). unfold enc_property. rewrite !length_app, !length_le_bytes, length_replicate.
  destruct (AlignUp_spec (Z.of_nat (length (pr_data p))) 8) as [[H _] _]; [by exists 3|lia..|]. lia.
Qed.

Lemma bti_props_exact n pp ps (s : st W ld) :
  Forall property_ok ps -> holds (d_mem (st_s s)) pp (enc_properties ps) -> 0 <= pp ->
  pp + Z.of_nat (length (enc_properties ps)) <= 2 ^ 64 ->
  Z.of_nat (length (enc_properties ps)) <= Z.of_nat n ->
  wp (bti_props n pp (pp + Z.of_nat (length (enc_properties ps))))
     (fun o s' => o = Ret (existsb advertises_bti ps) /\ s' = s) s.
Proof.
  intros Hok. revert n pp. induction Hok as [|p ps Hp Hps IH]; intros n pp Hh H0 H1 H2.
  { change (Z.of_nat (length (enc_properties []))) with 0.
    destruct n; cbn [bti_props]; destruct (Z.leb_spec (pp + 8) (pp + 0)); try lia; by wrun. }
  unfold enc_properties in *. cbn [fmap list_fmap concat] in *. fold (enc_properties ps) in *.
  rewrite length_app, Nat2Z.inj_add, (enc_property_length p Hp) in *.
  apply holds_app in Hh as [Hh Hr]. rewrite (enc_property_length p Hp) in Hr.
  set (len := Z.of_nat (length (pr_data p))) in *.
  destruct Hp as (P1 & P2 & P3). fold len in P2.
  destruct (AlignUp_spec len 8) as [[A1 _] _]; [by exists 3|lia..|].
  unfold enc_property in Hh. apply holds_app in Hh as [Ht Hh]. apply holds_app in Hh as [Hl Hh].
  apply holds_app in Hh as [Hd _]. rewrite !length_le_bytes in *. fold len in Hl.
  destruct n as [|n]; [lia|]. cbn [bti_props].
  destruct (Z.leb_spec (pp + 8) (pp + (8 + AlignUp len 8 + Z.of_nat (length (enc_properties ps)))));
    [|lia].
  wstep. eapply wp_load_u32; [exact Ht|lia|lia|done|]. cbn [wp_cont]. wstep.
  eapply wp_load_u32; [exact Hl|lia|lia|split; lia|]. cbn [wp_cont]. cbn zeta.
  destruct (Z.ltb_spec (pp + (8 + AlignUp len 8 + Z.of_nat (length (enc_properties ps)))) (pp + 8 + len));
    [lia|].
  wstep. cbn [existsb].
  assert (Hnext : forall hit : bool, hit = advertises_bti p ->
    wp (if hit then mret true else bti_props n (pp + 8 + AlignUp len 8)
          (pp + (8 + AlignUp len 8 + Z.of_nat (length (enc_properties ps)))))
       (fun o s' => o = Ret (advertises_bti p || existsb advertises_bti ps) /\ s' = s) s).
  { intros hit <-. destruct hit; [by wrun|]. cbn [orb].
    replace (pp + (8 + AlignUp len 8 + Z.of_nat (length (enc_properties ps))))
      with (pp + 8 + AlignUp len 8 + Z.of_nat (length (enc_properties ps))) by lia.
    apply IH; [|lia..]. by replace (pp + 8 + AlignUp len 8) with (pp + (8 + AlignUp len 8)) by lia. }
  unfold advertises_bti in Hnext at 1. fold len in Hnext.
  destruct (_ && (4 <=? len)) eqn:Ec; [|wrun; by apply (Hnext false)].
  apply andb_true_iff in Ec as [_ Ec]. apply Z.leb_le in Ec.
  wstep. unfold load_u32. wstep.
  rewrite <- (take_drop 4 (pr_data p)) in Hd. apply holds_app in Hd as [Hd _].
  eapply wp_load; [eapply holds_at; [exact Hd|lia]|rewrite length_take; lia|lia|lia|]. wrun.
  by apply Hnext.
Qed.

(** The note parser is exact: on the note a linker writes for a list of
    properties it answers yes exactly if one of them is the AArch64 feature
    property with the BTI bit set. *)
Theorem note_bti_exact fuel note ps (s : st W ld) :
  Forall property_ok ps -> holds (d_mem (st_s s)) note (enc_note ps) -> 0 <= note ->
  note + Z.of_nat (length (enc_note ps)) <= 2 ^ 64 -> Z.of_nat (length (enc_properties ps)) < 2 ^ 32 ->
  Z.of_nat (length (enc_note ps)) <= Z.of_nat fuel ->
  GnuPropertyNoteHasBti fuel note (Z.of_nat (length (enc_note ps))) s
  = (Ret (existsb advertises_bti ps), s).
Proof.
  intros Hok Hh H0 H1 H2 H3. set (dlen := Z.of_nat (length (enc_properties ps))) in *.
  assert (Hlen : Z.of_nat (length (enc_note ps)) = 16 + dlen).
  { unfold enc_note. rewrite !length_app, !length_le_bytes. cbn [length].
    change (length (B "GNU")) with 3%nat. unfold dlen. lia. }
  assert (Hwp : wp (bti_notes fuel note (note + Z.of_nat (length (enc_note ps))))
    (fun o s' => o = Ret (existsb advertises_bti ps) /\ s' = s) s);
    [|destruct (wp_returns _ _ _ _ Hwp) as (s' & E & ->); exact E].
  rewrite Hlen in *. unfold enc_note in Hh. fold dlen in Hh.
  destruct fuel as [|n]; [lia|]. cbn [bti_notes].
  destruct (Z.leb_spec (note + 12) (note + (16 + dlen))); [|lia].
  apply holds_app in Hh as [Hn Hh]. apply holds_app in Hh as [Hs Hh].
  apply holds_app in Hh as [Ht Hh]. apply holds_app in Hh as [Ho Hp].
  rewrite !length_le_bytes in *. change (length (B "GNU" ++ [0])) with 4%nat in Hp.
  wstep. eapply wp_load_u32; [exact Hn|lia|lia|split; lia|]. cbn [wp_cont]. wstep.
  eapply wp_load_u32; [exact Hs|lia|lia|split; lia|]. cbn [wp_cont]. wstep.
  eapply wp_load_u32; [eapply holds_at; [exact Ht|lia]|lia|lia
    |split; unfold NT_GNU_PROPERTY_TYPE_0; lia|].
  cbn [wp_cont]. cbn zeta. change (AlignUp 4 4) with 4.
  destruct (Z.ltb_spec (note + (16 + dlen)) (note + 12 + 4)); [lia|]. wstep. rewrite Z.eqb_refl.
  cbn [Z.eqb Pos.eqb andb].
  wstep. eapply wp_load; [eapply holds_at; [exact Ho|lia]|done|lia|lia|]. cbn [wp_cont].
  rewrite beq_refl, Z.min_l by lia.
  eapply wp_mono; [apply bti_props_exact; auto; [eapply holds_at; [exact Hp|lia]|lia..]|].
  intros o s' [-> ->]. cbn [wp_cont]. destruct (existsb advertises_bti ps); [by wrun|].
  pose proof (AlignUp_ge dlen 4 ltac:(by exists 2) ltac:(split; lia) ltac:(lia)).
  destruct n; cbn [bti_notes];
    (match goal with |- context [?x <=? ?y] => destruct (Z.leb_spec x y) end; [lia|by wrun]).
Qed.
End Note.

(** ** The GNU hash table *)

(** A symbol of the table with its name. *)
Abbreviation entry := (Sym * list Z)%type.

(** The reference: the first defined symbol of that name. *)
Definition linear_lookup (es : list entry) (name : list Z) : option Sym :=
  find_map (fun e => negb (st_shndx e.1 =? SHN_UNDEF) && beq e.2 name) fst es.

Section Hash.
Context (nbucket symndx maskwords shift2 : Z).

Definition bucket_of (name : list Z) : Z := GnuHash name mod nbucket.

(** The table a linker writes for symbols grouped by bucket, from index
    [symndx] on: chain words are hashes whose low bit marks a group's end. *)
Fixpoint gnu_chains (es : list entry) : list Z :=
  match es with
  | [] => []
  | e :: es' =>
      (GnuHash e.2 / 2 * 2
       + match es' with
         | [] => 1
         | e' :: _ => if bucket_of e.2 =? bucket_of e'.2 then 0 else 1
         end) :: gnu_chains es'
  end.

Fixpoint first_in (b idx : Z) (es : list entry) : Z :=
  match es with
  | [] => 0
  | e :: es' => if bucket_of e.2 =? b then idx else first_in b (idx + 1) es'
  end.

Definition gnu_buckets (es : list entry) : list Z :=
  (fun b => first_in b symndx es) <$> seqZ 0 nbucket.

Definition bloom_mask (hash : Z) : Z :=
  Z.lor (Z.shiftl 1 (hash mod 64)) (Z.shiftl 1 ((Z.shiftr hash shift2) mod 64)).

Fixpoint bloom_word (w : Z) (es : list entry) : Z :=
  match es with
  | [] => 0
  | e :: es' =>
      if (GnuHash e.2 / 64) mod maskwords =? w
      then Z.lor (bloom_mask (GnuHash e.2)) (bloom_word w es') else bloom_word w es'
  end.

Definition gnu_bloom (es : list entry) : list Z :=
  (fun w => bloom_word w es) <$> seqZ 0 maskwords.

(** Groups in ascending order of their bucket. *)
Definition grouped (es : list entry) : Prop :=
  StronglySorted (fun e e' => bucket_of e.2 <= bucket_of e'.2) es.

(** The symbols [es] from index [idx] on, in memory. *)
Fixpoint holds_syms (m : mem) (symtab strtab idx : Z) (es : list entry) : Prop :=
  match es with
  | [] => True
  | e :: es' =>
      (exists bs, length bs = 24%nat /\ decode_sym bs = e.1 /\ holds m (symtab + idx * sizeof_Sym) bs)
      /\ 0 <= symtab + idx * sizeof_Sym /\ symtab + idx * sizeof_Sym + 24 <= 2 ^ 64
      /\ holds m (strtab + st_name e.1) (e.2 ++ [0]) /\ 0 <= strtab + st_name e.1
      /\ strtab + st_name e.1 + Z.of_nat (length e.2) + 1 <= 2 ^ 64
      /\ Forall (fun c => c <> 0) e.2
      /\ holds_syms m symtab strtab (idx + 1) es'
  end.

Definition words (n : nat) (xs : list Z) : list Z := concat (le_bytes n <$> xs).

Lemma holds_word m p n xs k x :
  holds m p (words n xs) -> xs !! k = Some x -> holds m (p + Z.of_nat n * Z.of_nat k) (le_bytes n x).
Proof.
  unfold words. revert p k. induction xs as [|y xs IH]; intros p [|k] H Hk; try done;
    cbn [fmap list_fmap concat] in H; apply holds_app in H as [H1 H2].
  - injection Hk as ->. eapply holds_at; [exact H1|lia].
  - eapply holds_at; [apply (IH _ k H2 Hk)|]. rewrite length_le_bytes. lia.
Qed.

Lemma linear_none es name : (forall e, e ∈ es -> e.2 <> name) -> linear_lookup es name = None.
Proof.
  unfold linear_lookup. induction es as [|e es IH]; intros H; [done|]. cbn [find_map].
  unfold beq. rewrite (bool_decide_eq_false_2 (e.2 = name)), andb_false_r.
  - apply IH. intros e' He'. apply H. by right.
  - apply H. by left.
Qed.

Lemma other_bucket es name :
  (forall e, e ∈ es -> bucket_of e.2 <> bucket_of name) -> linear_lookup es name = None.
Proof. intros H. apply linear_none. intros e He E. apply (H e He). by rewrite E. Qed.

Lemma gnu_hash_range name : fits_u 32 (GnuHash name).
Proof.
  unfold GnuHash. assert (H : fits_u 32 5381) by (split; lia). revert H. generalize 5381.
  induction name as [|c name IH]; intros h H; cbn [fold_left]; [done|].
  apply IH. by apply uwrap_fits.
Qed.

(** Setting and testing the low bit. *)
Lemma lor_one x : Z.lor x 1 = 2 * (x / 2) + 1.
Proof.
  apply Z.bits_inj'. intros n Hn. rewrite Z.lor_spec.
  destruct (Z.eq_dec n 0) as [->|Hne].
  - by rewrite Z.testbit_odd_0, orb_true_r.
  - replace n with (Z.succ (n - 1)) by lia. rewrite Z.testbit_odd_succ by lia.
    rewrite <- Z.div2_div, Z.div2_spec, Z.shiftr_spec by lia.
    replace (n - 1 + 1) with (Z.succ (n - 1)) by lia.
    assert (Hb : Z.testbit 1 (Z.succ (n - 1)) = false) by (apply (testbit_lt 1 1); lia).
    by rewrite Hb, orb_false_r.
Qed.

Lemma land_one x : Z.land x 1 = x mod 2.
Proof. change 1 with (Z.ones 1). by rewrite Z.land_ones by lia. Qed.

Section Walk.
Context {W : Type} `{!World W}.

(** Walking the chain from the head of a group is a linear search. *)
Lemma gnu_walk_exact n symtab strtab chain idx name es (s : st W ld) :
  0 < nbucket -> es <> [] -> (length es <= n)%nat ->
  (forall e, head es = Some e -> bucket_of e.2 = bucket_of name) -> grouped es ->
  holds (d_mem (st_s s)) (chain + 4 * idx) (words 4 (gnu_chains es)) ->
  0 <= chain + 4 * idx -> chain + 4 * idx + 4 * Z.of_nat (length es) <= 2 ^ 64 ->
  0 <= idx -> idx + Z.of_nat (length es) < 2 ^ 32 ->
  holds_syms (d_mem (st_s s)) symtab strtab idx es -> Forall (fun c => c <> 0) name ->
  wp (gnu_walk n symtab strtab chain (GnuHash name) idx name)
     (fun o s' => o = Ret (linear_lookup es name) /\ s' = s) s.
Proof.
  intros Hnb. revert n idx. induction es as [|e es IH]; intros n idx Hne Hn Hhd Hg Hc C0 C1 I0 I1 Hs Hname;
    [done|].
  destruct n as [|n]; [cbn in Hn; lia|]. cbn [gnu_walk length] in *.
  assert (Hb := Hhd e eq_refl). apply StronglySorted_inv in Hg as [Hg Hall].
  destruct Hs as ((bs & B1 & B2 & B3) & S1 & S2 & T1 & T2 & T3 & T4 & Hs).
  unfold words in Hc. cbn [gnu_chains fmap list_fmap concat] in Hc.
  apply holds_app in Hc as [Hw Hc]. rewrite length_le_bytes in Hc.
  set (stop := match es with [] => 1 | e' :: _ => if bucket_of e.2 =? bucket_of e'.2 then 0 else 1 end) in *.
  assert (Hstop : stop = 0 \/ stop = 1) by (unfold stop; destruct es; [|destruct (_ =? _)]; lia).
  pose proof (gnu_hash_range e.2) as [R1 R2].
  pose proof (Z.div_mod (GnuHash e.2) 2) as Hdm. pose proof (Z.mod_pos_bound (GnuHash e.2) 2) as Hmb.
  wstep. eapply wp_load_u32; [exact Hw|lia|lia|split; lia|]. cbn [wp_cont]. wstep.
  assert (Hnext : forall found, found = (if negb (st_shndx e.1 =? SHN_UNDEF) && beq e.2 name
                                         then Some e.1 else None) ->
    wp (match found with
        | Some s => mret (Some s)
        | None => if Z.land (GnuHash e.2 / 2 * 2 + stop) 1 =? 0
                  then gnu_walk n symtab strtab chain (GnuHash name) (u32 (idx + 1)) name
                  else mret None
        end) (fun o s' => o = Ret (linear_lookup (e :: es) name) /\ s' = s) s).
  { intros found ->. unfold linear_lookup. cbn [find_map]. fold (linear_lookup es name).
    destruct (negb _ && beq _ _); [by wrun|].
    rewrite land_one, Z.add_comm, Z.mod_add, Z.mod_small by lia.
    destruct (Z.eqb_spec stop 0) as [E|E].
    - assert (Hes : exists e' es', es = e' :: es' /\ bucket_of e.2 = bucket_of e'.2).
      { unfold stop in E. destruct es as [|e' es']; [done|].
        destruct (Z.eqb_spec (bucket_of e.2) (bucket_of e'.2)); [eauto|done]. }
      destruct Hes as (e' & es' & -> & Hbe). rewrite (uwrap_id 32) by (split; cbn [length] in *; lia).
      apply IH; auto; try (cbn [length] in *; lia).
      + intros e0 [= <-]. by rewrite <- Hbe.
      + eapply holds_at; [exact Hc|lia].
    - wrun. split; [|done]. f_equal. symmetry. apply other_bucket. intros e0 He0.
      unfold stop in E. destruct es as [|e' es']; [by apply elem_of_nil in He0|].
      destruct (Z.eqb_spec (bucket_of e.2) (bucket_of e'.2)) as [|Hd]; [done|].
      apply Forall_cons in Hall as [Hle _]. apply StronglySorted_inv in Hg as [_ Hg].
      rewrite Forall_forall in Hg. rewrite <- Hb.
      apply elem_of_cons in He0 as [-> |He0]; [lia|]. specialize (Hg _ He0). lia. }
  rewrite !lor_one, Z.div_add_l by lia. rewrite (Z.div_small stop) by lia.
  destruct (Z.eqb_spec (2 * (GnuHash e.2 / 2 + 0) + 1) (2 * (GnuHash name / 2) + 1)) as [E|E].
  - wstep. unfold load_sym. wrun. eapply wp_load; [exact B3|done|lia|lia|]. cbn [wp_cont].
    wrun. rewrite B2. unfold sym_matches. destruct (st_shndx e.1 =? SHN_UNDEF); wrun.
    + by apply (Hnext None).
    + eapply wp_str_eq; [exact T1|lia|lia|done|done|]. cbn [wp_cont]. wrun. by apply Hnext.
  - wrun. apply (Hnext None). unfold beq. rewrite (bool_decide_eq_false_2 (e.2 = name)), andb_false_r;
      [done|]. intros <-. apply E. lia.
Qed.

Lemma lor_land_absorb x y : Z.lor x (Z.land y x) = x.
Proof.
  apply Z.bits_inj'. intros n _. rewrite Z.lor_spec, Z.land_spec.
  by destruct (Z.testbit x n), (Z.testbit y n).
Qed.

(** The bloom filter passes every name of the table. *)
Lemma bloom_passes es e :
  e ∈ es ->
  Z.land (bloom_word ((GnuHash e.2 / 64) mod maskwords) es) (bloom_mask (GnuHash e.2))
  = bloom_mask (GnuHash e.2).
Proof.
  induction es as [|e' es IH]; intros He; [by apply elem_of_nil in He|]. cbn [bloom_word].
  apply elem_of_cons in He as [->|He].
  - rewrite Z.eqb_refl, Z.land_lor_distr_l, Z.land_diag. apply lor_land_absorb.
  - destruct (_ =? _); [|by apply IH]. rewrite Z.land_lor_distr_l, IH by done.
    rewrite Z.lor_comm. apply lor_land_absorb.
Qed.

Lemma lor_fits x y : fits_u 64 x -> fits_u 64 y -> fits_u 64 (Z.lor x y).
Proof.
  intros [X1 X2] [Y1 Y2]. split; [by apply Z.lor_nonneg|].
  destruct (Z.eq_dec (Z.lor x y) 0) as [-> |Hne]; [done|].
  assert (0 <= Z.lor x y) by (by apply Z.lor_nonneg).
  assert (Hl : forall z, 0 <= z < 2 ^ 64 -> Z.log2 z < 64).
  { intros z Hz. destruct (Z.eq_dec z 0) as [-> |]; [done|]. apply Z.log2_lt_pow2; lia. }
  apply Z.log2_lt_pow2; [lia|]. rewrite Z.log2_lor by done.
  pose proof (Hl x). pose proof (Hl y). lia.
Qed.

Lemma bloom_range w es : fits_u 64 (bloom_word w es).
Proof.
  assert (Hbit : forall z, fits_u 64 (Z.shiftl 1 (z mod 64))).
  { intros z. pose proof (Z.mod_pos_bound z 64 ltac:(lia)). rewrite Z.shiftl_1_l.
    split; [apply Z.pow_nonneg; lia|apply Z.pow_lt_mono_r; lia]. }
  induction es as [|e es IH]; cbn [bloom_word]; [split; lia|].
  destruct (_ =? w); [|done]. apply lor_fits; [|done]. by apply lor_fits.
Qed.

(** Going to the [k]th element. *)
Lemma chains_drop k es : drop k (gnu_chains es) = gnu_chains (drop k es).
Proof.
  revert k. induction es as [|e es IH]; intros [|k]; try done. cbn [gnu_chains drop]. apply IH.
Qed.

Lemma words_drop m p n k xs :
  holds m p (words n xs) -> (k <= length xs)%nat ->
  holds m (p + Z.of_nat n * Z.of_nat k) (words n (drop k xs)).
Proof.
  intros H Hk. rewrite <- (take_drop k xs) in H. unfold words in *.
  rewrite fmap_app, concat_app in H. apply holds_app in H as [_ H].
  eapply holds_at; [exact H|].
  assert (Hl : forall l, length (concat (le_bytes n <$> l)) = (n * length l)%nat).
  { intros l. induction l as [|x l IHl]; [cbn; lia|]. cbn [fmap list_fmap concat length].
    rewrite length_app, length_le_bytes, IHl. lia. }
  rewrite Hl, length_take, Nat.min_l by lia. lia.
Qed.

Lemma syms_drop m symtab strtab idx k es :
  holds_syms m symtab strtab idx es ->
  holds_syms m symtab strtab (idx + Z.of_nat k) (drop k es).
Proof.
  revert idx k. induction es as [|e es IH]; intros idx [|k] H; cbn [drop]; try done.
  - by rewrite Z.add_0_r.
  - destruct H as (_ & _ & _ & _ & _ & _ & _ & H).
    replace (idx + Z.of_nat (S k)) with (idx + 1 + Z.of_nat k) by lia. by apply IH.
Qed.

Lemma grouped_drop k es : grouped es -> grouped (drop k es).
Proof.
  unfold grouped. revert k. induction es as [|e es IH]; intros [|k] H; cbn [drop]; try done.
  apply StronglySorted_inv in H as [H _]. by apply IH.
Qed.

Lemma linear_skip k es name :
  (forall e, e ∈ take k es -> e.2 <> name) ->
  linear_lookup es name = linear_lookup (drop k es) name.
Proof.
  revert k. induction es as [|e es IH]; intros [|k] H; cbn [drop]; try done.
  unfold linear_lookup. cbn [find_map]. unfold beq at 1.
  rewrite (bool_decide_eq_false_2 (e.2 = name)), andb_false_r; [|apply H; by left].
  apply IH. intros e' He'. apply H. by right.
Qed.

(** Where the first symbol of a bucket is. *)
Lemma first_in_spec b idx es :
  0 < idx ->
  (first_in b idx es = 0 /\ forall e, e ∈ es -> bucket_of e.2 <> b)
  \/ exists k e es', es = take k es ++ e :: es' /\ (k < length es)%nat
       /\ first_in b idx es = idx + Z.of_nat k /\ bucket_of e.2 = b
       /\ forall e', e' ∈ take k es -> bucket_of e'.2 <> b.
Proof.
  revert idx. induction es as [|e es IH]; intros idx Hi; cbn [first_in].
  { left. split; [done|]. intros e He. by apply elem_of_nil in He. }
  destruct (Z.eqb_spec (bucket_of e.2) b) as [E|E].
  - right. exists 0%nat, e, es. cbn. split; [done|]. split; [lia|]. split; [lia|].
    split; [done|]. intros e' He. by apply elem_of_nil in He.
  - destruct (IH (idx + 1)) as [[H1 H2]|(k & e0 & es' & H1 & H2 & H3 & H4 & H5)]; [lia| |].
    + left. split; [done|]. intros e' He. apply elem_of_cons in He as [->|He]; auto.
    + right. exists (S k), e0, es'. cbn [take app length]. rewrite <- H1. split; [done|].
      split; [lia|]. split; [lia|]. split; [done|].
      intros e' He. apply elem_of_cons in He as [->|He]; auto.
Qed.

(** What memory holds when the table for [es] is mapped. *)
Record gnu_mapped (m : mem) (d : dyninfo) (g : gnu_hash) (es : list entry) : Prop := {
  gm_hash : gnu_hash_ d = Some g;
  gm_nbucket : gnu_nbucket_ g = nbucket;
  gm_symndx : gnu_symndx_ g = symndx;
  gm_maskwords : gnu_maskwords_ g = maskwords;
  gm_shift2 : gnu_shift2_ g = shift2;
  gm_chain : gnu_chain_ g = gnu_bucket_ g + 4 * nbucket - 4 * symndx;
  gm_range : 0 <= gnu_bloom_ g /\ gnu_bloom_ g + 8 * maskwords <= 2 ^ 64
             /\ 0 <= gnu_bucket_ g
             /\ gnu_bucket_ g + 4 * nbucket + 4 * Z.of_nat (length es) <= 2 ^ 64;
  gm_bloom : holds m (gnu_bloom_ g) (words 8 (gnu_bloom es));
  gm_bucket : holds m (gnu_bucket_ g) (words 4 (gnu_buckets es));
  gm_chains : holds m (gnu_bucket_ g + 4 * nbucket) (words 4 (gnu_chains es));
  gm_syms : holds_syms m (symtab_ d) (strtab_ d) symndx es }.

(** C4. Symbol lookup through the GNU hash table finds what a linear search
    of the symbol table would: for every table a linker writes for symbols
    grouped by bucket, and every name, [LookupInImage] returns the first
    defined symbol of that name, or none if there is none, and changes
    nothing. Bloom filter, buckets and hash chains only save time. *)
Theorem gnu_lookup_exact fuel d g es name (s : st W ld) :
  0 < nbucket < 2 ^ 32 -> 0 < maskwords < 2 ^ 32 -> 0 <= shift2 < 32 ->
  0 < symndx -> symndx + Z.of_nat (length es) < 2 ^ 32 -> (length es <= fuel)%nat ->
  grouped es -> Forall (fun c => c <> 0) name ->
  gnu_mapped (d_mem (st_s s)) d g es ->
  LookupInImage fuel d name s = (Ret (linear_lookup es name), s).
Proof.
  intros Hnb Hmw Hsh Hsx Hlen Hfuel Hg Hname [M1 M2 M3 M4 M5 M6 (R1 & R2 & R3 & R4) M7 M8 M9 M10].
  pose proof (gnu_hash_range name) as [G1 G2]. set (hash := GnuHash name) in *.
  assert (Hwp : wp (LookupInImage fuel d name)
    (fun o s' => o = Ret (linear_lookup es name) /\ s' = s) s);
    [|destruct (wp_returns _ _ _ _ Hwp) as (s' & E & ->); exact E].
  unfold LookupInImage. rewrite M1, M2, M3, M4, M5. cbn zeta. fold hash.
  destruct (Z.eqb_spec maskwords 0), (Z.leb_spec 32 shift2); try lia. cbn [orb].
  pose proof (Z.mod_pos_bound (hash / 64) maskwords ltac:(lia)) as Hw.
  pose proof (Z.mod_pos_bound hash nbucket ltac:(lia)) as Hb.
  wstep. eapply (wp_load_u64 _ (bloom_word ((hash / 64) mod maskwords) es));
    [eapply holds_at; [eapply (holds_word _ _ _ _ (Z.to_nat ((hash / 64) mod maskwords)));
      [exact M7|]|]|lia|lia|apply bloom_range|].
  { unfold gnu_bloom. rewrite list_lookup_fmap, lookup_seqZ_lt by lia. cbn. f_equal. f_equal. lia. }
  { rewrite Z2Nat.id by lia. lia. }
  cbn [wp_cont]. fold (bloom_mask hash).
  destruct (Z.eqb_spec (Z.land (bloom_word ((hash / 64) mod maskwords) es) (bloom_mask hash))
              (bloom_mask hash)) as [_|Hbl]; cbn [negb].
  2: { wrun. split; [|done]. f_equal. symmetry. apply linear_none. intros e He Ee. apply Hbl.
       unfold hash. rewrite <- Ee. by apply bloom_passes. }
  destruct (Z.eqb_spec nbucket 0); [lia|]. wstep.
  eapply (wp_load_u32 _ (first_in (hash mod nbucket) symndx es));
    [eapply holds_at; [eapply (holds_word _ _ _ _ (Z.to_nat (hash mod nbucket))); [exact M8|]|]
    |lia|lia| |].
  { unfold gnu_buckets. rewrite list_lookup_fmap, lookup_seqZ_lt by lia. cbn. f_equal. f_equal. lia. }
  { rewrite Z2Nat.id by lia. lia. }
  { destruct (first_in_spec (hash mod nbucket) symndx es Hsx) as [[-> _]|(k & e & es' & _ & H2 & -> & _)];
      split; lia. }
  cbn [wp_cont].
  destruct (first_in_spec (hash mod nbucket) symndx es Hsx)
    as [[-> Hno]|(k & e & es' & H1 & H2 & -> & H4 & H5)].
  - rewrite (proj2 (Z.ltb_lt 0 symndx)) by lia. wrun. split; [|done]. f_equal. symmetry.
    by apply other_bucket.
  - rewrite (proj2 (Z.ltb_ge _ _)) by lia.
    assert (Hd : drop k es = e :: es').
    { rewrite H1 at 1. rewrite drop_app_length'; [done|]. rewrite length_take. lia. }
    rewrite (linear_skip k), M6 by (intros e' He' Ee; apply (H5 e' He'); by rewrite Ee).
    assert (Hchains : length (gnu_chains es) = length es).
    { clear. induction es; cbn [gnu_chains length]; congruence. }
    apply gnu_walk_exact; auto; rewrite ?length_drop; try lia.
    + by rewrite Hd.
    + intros e' He'. rewrite Hd in He'. by injection He' as <-.
    + by apply grouped_drop.
    + rewrite <- chains_drop. eapply holds_at; [apply (words_drop _ _ _ k _ M9)|]; lia.
    + by apply syms_drop.
Qed.
End Walk.
End Hash.

(** ** Reverse lookup *)

Section Nearest.
Context {W : Type} `{!World W}.

Definition eligible (y : Sym) : bool :=
  let t := ELF_ST_TYPE (st_info y) in
  negb (st_shndx y =? SHN_UNDEF) && negb (st_name y =? 0)
  && ((t =? STT_FUNC) || (t =? STT_OBJECT) || (t =? STT_GNU_IFUNC)).

(** The symbols from index [i] on, in memory. *)
Fixpoint symbols_at (m : mem) (symtab i : Z) (ys : list Sym) : Prop :=
  match ys with
  | [] => True
  | y :: ys' =>
      (exists bs, length bs = 24%nat /\ decode_sym bs = y /\ holds m (symtab + i * sizeof_Sym) bs)
      /\ 0 <= symtab + i * sizeof_Sym /\ symtab + i * sizeof_Sym + 24 <= 2 ^ 64
      /\ symbols_at m symtab (i + 1) ys'
  end.

(** [best] is a nearest one among [ys]. *)
Definition is_nearest (ys : list Sym) (target : Z) (best : option (Z * Z)) : Prop :=
  match best with
  | None => forall y, y ∈ ys -> eligible y = true -> target < st_value y
  | Some (name, value) =>
      (exists y, y ∈ ys /\ eligible y = true /\ st_name y = name /\ st_value y = value)
      /\ value <= target
      /\ forall y, y ∈ ys -> eligible y = true -> st_value y <= target -> st_value y <= value
  end.

Lemma nearest_sym_spec symtab target ys i best done_ (s : st W ld) :
  symbols_at (d_mem (st_s s)) symtab i ys -> is_nearest done_ target best ->
  wp (nearest_sym (length ys) symtab i target best)
     (fun o s' => exists b, o = Ret b /\ s' = s /\ is_nearest (done_ ++ ys) target b) s.
Proof.
  revert i best done_. induction ys as [|y ys IH]; intros i best done_ Hs Hb; cbn [length nearest_sym].
  { wrun. exists best. by rewrite app_nil_r. }
  destruct Hs as ((bs & B1 & B2 & B3) & S1 & S2 & Hs). unfold load_sym. wrun.
  eapply wp_load; [exact B3|done|lia|lia|]. cbn [wp_cont]. wrun. rewrite B2. cbn zeta.
  replace (done_ ++ y :: ys) with ((done_ ++ [y]) ++ ys) by (by rewrite <- app_assoc).
  apply IH; [done|].
  assert (Hskip : (st_shndx y =? SHN_UNDEF) || (st_name y =? 0)
      || negb ((ELF_ST_TYPE (st_info y) =? STT_FUNC) || (ELF_ST_TYPE (st_info y) =? STT_OBJECT)
               || (ELF_ST_TYPE (st_info y) =? STT_GNU_IFUNC)) = negb (eligible y)).
  { unfold eligible. by rewrite !negb_andb, !negb_involutive. }
  rewrite Hskip. clear Hskip. unfold is_nearest in *.
  destruct (eligible y) eqn:Ey; cbn [negb orb]; destruct (Z.ltb_spec target (st_value y)) as [Hlt|Hge];
    cbn [orb]; destruct best as [[nm v]|];
    try (destruct (Z.ltb_spec (st_value y) v)); cbn [orb];
    try (destruct Hb as ((y0 & Y1 & Y2 & Y3 & Y4) & Hv & Hmax));
    try (split; [first [exists y0; split; [set_solver|done] | exists y; split; [set_solver|done]]
                |split; [lia|]]);
    intros z Hz Ez; try intros Hzt; apply elem_of_app in Hz as [Hz|Hz];
    try (apply list_elem_of_singleton in Hz; subst z); try congruence; try lia;
    try (specialize (Hmax z Hz Ez Hzt); lia); try (specialize (Hb z Hz Ez); lia).
Qed.

(** The reverse lookup behind [dladdr] names the nearest symbol: for an
    address inside the image, [AddrToSym] returns a defined function or
    object symbol that starts at or before the address such that none other
    starts later but still before it, with its name in the string table and
    its runtime address; it returns none only if no such symbol exists. *)
Theorem addr_to_sym_nearest addr ys (s : st W ld) :
  let img := d_img (st_s s) in
  let target := u64 (addr - load_bias_ img) in
  map_start_ img <= addr < u64 (map_start_ img + map_size_ img) ->
  dynsym_count_ img = Z.of_nat (length ys) -> ys <> [] ->
  symbols_at (d_mem (st_s s)) (symtab_ (dyn img)) 0 ys ->
  exists best, is_nearest ys target best
    /\ AddrToSym addr s
       = (Ret (match best with
               | None => None
               | Some (name, value) =>
                   Some (strtab_ (dyn img) + name, u64 (load_bias_ img + value))
               end), s).
Proof.
  intros img target Ha Hc Hne Hs.
  pose proof (nearest_sym_spec (symtab_ (dyn img)) target ys 0 None [] s Hs) as H.
  assert (H0 : is_nearest [] target None) by (intros y Hy; by apply elem_of_nil in Hy).
  specialize (H H0). unfold wp in H.
  destruct (nearest_sym _ _ _ _ _ s) as [o s'] eqn:E. destruct H as (b & Ho & Hs' & Hb).
  cbn in Ho, Hs', Hb. subst o s'. exists b. split; [done|].
  unfold AddrToSym, this, mbind, M_bind, get, mret, M_ret. fold img.
  destruct (Z.ltb_spec addr (map_start_ img)), (Z.leb_spec (u64 (map_start_ img + map_size_ img)) addr);
    try lia. cbn [orb]. rewrite Hc.
  destruct (Z.eqb_spec (Z.of_nat (length ys)) 0); [destruct ys; [done|cbn in *; lia]|].
  rewrite Nat2Z.id. fold target. by rewrite E.
Qed.
End Nearest.

(** ** Witnesses *)

(** A read-only image of [bs] at [p]. *)
Definition rom (p : Z) (bs : list Z) : st script ld :=
  St [] [] 0 (LD (map_range PROT_READ (length bs) p bs ∅) 16 kNone (image0 [])).

Lemma rom_readable p bs :
  Forall is_byte bs -> readable (d_mem (st_s (rom p bs))) p (p + Z.of_nat (length bs)).
Proof.
  intros Hb x Hx. cbn [rom st_s d_mem]. rewrite lookup_map_range.
  rewrite (proj2 (Z.leb_le p x)), (proj2 (Z.ltb_lt x _)) by lia. cbn [andb].
  eexists. split; [done|]. split; [done|]. cbn.
  rewrite Forall_forall in Hb. apply Hb. apply list_elem_of_In, nth_In. lia.
Qed.

Lemma rom_holds p bs : holds (d_mem (st_s (rom p bs))) p bs.
Proof.
  intros i b Hi. cbn [rom st_s d_mem]. rewrite lookup_map_range.
  pose proof (lookup_lt_Some _ _ _ Hi).
  rewrite (proj2 (Z.leb_le _ _)), (proj2 (Z.ltb_lt _ _)) by lia. cbn [andb].
  eexists. split; [done|]. split; [|done]. cbn. replace (p + Z.of_nat i - p) with (Z.of_nat i) by lia.
  rewrite Nat2Z.id. by apply nth_lookup_Some.
Qed.

(** A truncated note full of 0xff. *)
Definition hostile : list Z := replicate 40 255.

Lemma note_parser_in_bounds_witness :
  exists b, GnuPropertyNoteHasBti 40 0x1000 40 (rom 0x1000 hostile) = (Ret b, rom 0x1000 hostile).
Proof.
  apply (note_parser_in_bounds 40 0x1000 40 (rom 0x1000 hostile)); try lia.
  apply (rom_readable 0x1000 hostile). unfold hostile. apply Forall_replicate. split; lia.
Defined.

Definition demo_props : list property :=
  [Property 5 [1; 2; 3]; Property GNU_PROPERTY_AARCH64_FEATURE_1_AND [3; 0; 0; 0]].

Lemma note_bti_exact_witness :
  GnuPropertyNoteHasBti 48 0x1000 (Z.of_nat (length (enc_note demo_props)))
    (rom 0x1000 (enc_note demo_props))
  = (Ret true, rom 0x1000 (enc_note demo_props)).
Proof.
  apply (note_bti_exact 48 0x1000 demo_props (rom 0x1000 (enc_note demo_props)));
    [|apply rom_holds|vm_compute; congruence..|vm_compute; reflexivity|vm_compute; congruence].
  repeat constructor; vm_compute; congruence.
Defined.

(** Two symbols, foo and bar, in one bucket. *)
Definition enc_sym (y : Sym) : list Z :=
  le_bytes 4 (st_name y) ++ [st_info y; 0] ++ le_bytes 2 (st_shndx y) ++ le_bytes 8 (st_value y)
  ++ le_bytes 8 0.
Definition sym_foo : Sym := Sym_mk 1 0x12 7 0x500.
Definition sym_bar : Sym := Sym_mk 5 0x12 7 0x600.
Definition demo_syms : list entry := [(sym_foo, B "foo"); (sym_bar, B "bar")].
Definition demo_table : list Z :=
  words 8 (gnu_bloom 1 6 demo_syms) ++ words 4 (gnu_buckets 1 1 demo_syms)
  ++ words 4 (gnu_chains 1 demo_syms)
  ++ [0; 0; 0; 0] ++ replicate 24 0 ++ enc_sym sym_foo ++ enc_sym sym_bar
  ++ [0] ++ B "foo" ++ [0] ++ B "bar" ++ [0].
Definition demo_gnu : gnu_hash := Gnu 0x1008 0x1008 1 1 1 6 0x1000.
Definition demo_dyn : dyninfo :=
  set_gnu_hash_ (Some demo_gnu) (set_strtab_ 0x1060 (set_symtab_ 0x1018 dyninfo0)).

(** Part of what the image holds. *)
Ltac rom_part :=
  apply holds_read; [vm_compute; congruence|vm_compute; congruence|vm_compute; reflexivity].

Lemma demo_mapped : gnu_mapped 1 1 1 6 (d_mem (st_s (rom 0x1000 demo_table))) demo_dyn demo_gnu demo_syms.
Proof.
  constructor; try reflexivity; try (vm_compute; intuition congruence); try rom_part.
  repeat split; try (vm_compute; congruence); try rom_part;
    try (repeat constructor; discriminate).
  - exists (enc_sym sym_foo). split; [done|]. split; [vm_compute; reflexivity|rom_part].
  - exists (enc_sym sym_bar). split; [done|]. split; [vm_compute; reflexivity|rom_part].
Qed.

Lemma gnu_lookup_exact_witness :
  LookupInImage 5 demo_dyn (B "bar") (rom 0x1000 demo_table)
  = (Ret (Some sym_bar), rom 0x1000 demo_table).
Proof.
  apply (gnu_lookup_exact 1 1 1 6 5 demo_dyn demo_gnu demo_syms (B "bar") (rom 0x1000 demo_table));
    try lia; [vm_compute; reflexivity|cbn; lia| | |exact demo_mapped].
  - repeat constructor; vm_compute; congruence.
  - repeat constructor; discriminate.
Defined.

(** The same image with its size and symbol count recorded. *)
Definition demo_image : image :=
  set_dynsym_count_ 3 (set_dyn demo_dyn (set_load_bias_ 0x1000 (set_map_size_ 0x800
    (set_map_start_ 0x1000 (image0 []))))).
Definition demo_rom : st script ld :=
  St [] [] 0 (set_img demo_image (st_s (rom 0x1000 demo_table))).

Lemma addr_to_sym_nearest_witness :
  exists best, is_nearest [Sym_mk 0 0 0 0; sym_foo; sym_bar] 0x5ff best
    /\ AddrToSym 0x15ff demo_rom
       = (Ret (match best with
               | None => None
               | Some (name, value) => Some (0x1060 + name, u64 (0x1000 + value))
               end), demo_rom).
Proof.
  apply (addr_to_sym_nearest 0x15ff [Sym_mk 0 0 0 0; sym_foo; sym_bar] demo_rom);
    [vm_compute; intuition congruence|reflexivity|discriminate|].
  repeat split; try (vm_compute; congruence).
  - exists (replicate 24 0). split; [done|]. split; [vm_compute; reflexivity|rom_part].
  - exists (enc_sym sym_foo). split; [done|]. split; [vm_compute; reflexivity|rom_part].
  - exists (enc_sym sym_bar). split; [done|]. split; [vm_compute; reflexivity|rom_part].
Defined.
