(* ===== verification/LinkerLife.v ===== *)
(** The life of a loaded module: the protections its segments get, what a
    malformed segment does, and the registry of handles. *)
From S2P Require Import Prelude Sys ProcUtils Mem Linker LinkerSpec.
Open Scope Z_scope.

(** ** Protections *)

(** The program headers at [p], from index [i] on. *)
Fixpoint phdrs_in (bm : gmap Z Z) (p i : Z) (phs : list Phdr) : Prop :=
  match phs with
  | [] => True
  | ph :: phs' =>
      (exists bs, peek bm 56 (u64 (p + i * sizeof_Phdr)) = Some bs /\ decode_phdr bs = ph)
      /\ phdrs_in bm p (i + 1) phs'
  end.

(** The protections the kernel granted, oldest first. *)
Fixpoint granted (log : list event) : list (Z * Z * Z) :=
  match log with
  | [] => []
  | (CMprotect p len prot, r) :: log' =>
      granted log' ++ (if r_ret r =? 0 then [(p, len, prot)] else [])
  | _ :: log' => granted log'
  end.

Lemma granted_app l1 l2 : granted (l1 ++ l2) = granted l2 ++ granted l1.
Proof.
  induction l1 as [|[c r] l1 IH]; cbn [app granted]; [by rewrite app_nil_r|].
  rewrite IH. destruct c; try done. by rewrite app_assoc.
Qed.

(** The rights a segment asks for, and no others; BTI only on executable
    segments of an AArch64 module that advertises it. *)
Definition fair (a : arch) (wants_bti : bool) (bias pg : Z) (ph : Phdr) (g : Z * Z * Z) : Prop :=
  g.1 = seg_range bias pg ph
  /\ (g.2 &? PROT_READ) = (p_flags ph &? PF_R)
  /\ (g.2 &? PROT_WRITE) = (p_flags ph &? PF_W)
  /\ (g.2 &? PROT_EXEC) = (p_flags ph &? PF_X)
  /\ (has_bits g.2 PROT_BTI = true ->
      a = AArch64 /\ wants_bti = true /\ (p_flags ph &? PF_X) = true).

Lemma fair_prot a wants bias pg ph prot :
  prot = segment_prot a wants (p_flags ph)
  \/ prot = Z.ldiff (segment_prot a wants (p_flags ph)) PROT_BTI ->
  fair a wants bias pg ph (seg_range bias pg ph, prot).
Proof.
  intros H. unfold fair, segment_prot, ToProt in *. cbn [fst snd].
  destruct (p_flags ph &? PF_R), (p_flags ph &? PF_W),
    (p_flags ph &? PF_X), a, wants; destruct H as [-> | ->];
    (split; [done|]); vm_compute; intuition congruence.
Qed.

Section Protections.
Context {W : Type} `{!World W} (a : arch).
Abbreviation K := (M W ld).

(** [s'] follows [s] with the same object, page size and memory contents. *)
Definition still (s s' : st W ld) : Prop :=
  d_img (st_s s') = d_img (st_s s) /\ d_pg (st_s s') = d_pg (st_s s)
  /\ contents (d_mem (st_s s')) = contents (d_mem (st_s s)).

Lemma mprotect_spec p len prot (s : st W ld) :
  wp (mprotect p len prot) (fun o s' => exists r, o = Ret (r_ret r)
    /\ st_log s' = (CMprotect p len prot, r) :: st_log s /\ still s s') s.
Proof.
  unfold mprotect. wrun. apply wp_syscall. intros r w e. wrun. exists r. split; [done|].
  split; [done|]. split; [done|]. split; [done|]. apply contents_protect.
Qed.

Lemma protect_segment_spec p len prot (s : st W ld) :
  wp (protect_segment a p len prot) (fun o s' => still s s' /\ exists ok evs, o = Ret ok
    /\ st_log s' = evs ++ st_log s
    /\ (ok = true -> exists prot', granted evs = [(p, len, prot')]
                     /\ (prot' = prot \/ prot' = Z.ldiff prot PROT_BTI))) s.
Proof.
  unfold protect_segment. wstep. eapply wp_mono; [apply mprotect_spec|].
  intros o s1 (r & -> & L1 & S1). cbn [wp_cont]. destruct (r_ret r =? 0) eqn:Er.
  { wrun. split; [done|]. exists true. eexists [_]. split; [done|]. split; [exact L1|].
    intros _. exists prot. cbn. rewrite Er. by split; [|left]. }
  assert (Hno : still s s1 /\ exists ok evs, Ret false = Ret ok /\ st_log s1 = evs ++ st_log s
    /\ (ok = true -> exists prot', granted evs = [(p, len, prot')]
                     /\ (prot' = prot \/ prot' = Z.ldiff prot PROT_BTI))).
  { split; [done|]. exists false. eexists [_]. by split; [|split; [exact L1|]]. }
  destruct a; try by wrun. destruct (prot &? PROT_BTI); [|by wrun].
  wstep. eapply wp_mono; [apply mprotect_spec|]. intros o s2 (r2 & -> & L2 & S2).
  cbn [wp_cont]. wrun. split.
  { destruct S1 as (A1 & A2 & A3), S2 as (B1 & B2 & B3). split; [by rewrite B1|].
    split; [by rewrite B2|by rewrite B3]. }
  exists (r_ret r2 =? 0). eexists [_; _]. split; [done|]. split; [rewrite L2, L1; done|].
  intros E2. exists (Z.ldiff prot PROT_BTI). cbn. rewrite Er, E2. by split; [|right].
Qed.

(** The loop over the program headers, after those in [done_]. *)
Lemma protect_loop phs i done_ (s0 s : st W ld) :
  let img := d_img (st_s s0) in
  let pg := d_pg (st_s s0) in
  let spec l evs := Forall2 (fair a (wants_bti_ img) (load_bias_ img) pg)
                      (filter (fun ph => p_type ph = PT_LOAD) l) (granted evs) in
  still s0 s -> (exists evs, st_log s = evs ++ st_log s0 /\ spec done_ evs) ->
  phdrs_in (contents (d_mem (st_s s0))) (phdr_ img) i phs ->
  wp (for_phdrs (length phs) i (fun ph =>
        if negb (p_type ph =? PT_LOAD) then mret true
        else
          img ← this;
          let '(start, len) := seg_range (load_bias_ img) pg ph in
          protect_segment a start len (segment_prot a (wants_bti_ img) (p_flags ph))))
     (on_ret (fun ok s' => ok = true ->
        exists evs, st_log s' = evs ++ st_log s0 /\ spec (done_ ++ phs) evs)) s.
Proof.
  intros img pg spec. revert i done_ s.
  induction phs as [|ph phs IH]; intros i done_ s (I & P & C) (evs & L & F) Hp; cbn [length for_phdrs].
  { wrun. intros _. exists evs. by rewrite app_nil_r. }
  destruct Hp as [(bs & B1 & B2) Hp]. unfold load_phdr, this, load. wrun.
  destruct (read_bytes _ _ _) as [bs'|] eqn:Er; [|by wrun]. wrun.
  assert (decode_phdr bs' = ph) as ->.
  { apply peek_read in Er. change (the_mem (st_s s)) with (d_mem (st_s s)) in Er. rewrite C, I in Er. fold img in Er. rewrite B1 in Er. by injection Er as <-. }
  replace (done_ ++ ph :: phs) with ((done_ ++ [ph]) ++ phs) by (by rewrite <- app_assoc).
  assert (Hstep : forall s1 evs1, still s s1 -> st_log s1 = evs1 ++ st_log s ->
    Forall2 (fair a (wants_bti_ img) (load_bias_ img) pg)
      (filter (fun ph => p_type ph = PT_LOAD) [ph]) (granted evs1) ->
    still s0 s1 /\ exists evs, st_log s1 = evs ++ st_log s0 /\ spec (done_ ++ [ph]) evs).
  { intros s1 evs1 (I1 & P1 & C1) L1 F1. split; [split; [by rewrite I1|split; [by rewrite P1|by rewrite C1]]|].
    exists (evs1 ++ evs). split; [by rewrite L1, L, app_assoc|]. unfold spec.
    rewrite granted_app, filter_app. by apply Forall2_app. }
  destruct (Z.eqb_spec (p_type ph) PT_LOAD) as [Ht|Ht]; cbn [negb]; wrun.
  - rewrite I. fold img. destruct (seg_range (load_bias_ img) pg ph) as [start len] eqn:Es.
    eapply wp_mono; [apply protect_segment_spec|]. intros o s1 (S1 & ok & evs1 & -> & L1 & G1).
    cbn [wp_cont]. destruct ok; [|by wrun]. destruct (G1 eq_refl) as (prot' & G2 & G3).
    destruct (Hstep s1 evs1 S1 L1) as [S2 H2]; [|by apply IH].
    rewrite filter_cons_True, G2 by done. constructor; [|by constructor].
    rewrite <- Es. by apply fair_prot.
  - destruct (Hstep s [] ltac:(done) eq_refl) as [S2 H2]; [|by apply IH].
    by rewrite filter_cons_False.
Qed.

(** The loader grants each segment exactly the rights its program header
    asks for: when [SetSegmentProtections] reports success, the kernel has
    granted, for every loadable segment in order, one protection of its whole
    page range that is readable, writable and executable exactly as the
    header's flags say, so text and data stay separate; branch target
    enforcement is added only on AArch64, to executable segments, and only
    if the module advertises it. *)
Theorem protections_fair phs (s s' : st W ld) :
  let img := d_img (st_s s) in
  d_pg (st_s s) <> 0 -> phnum_ img = Z.of_nat (length phs) ->
  phdrs_in (contents (d_mem (st_s s))) (phdr_ img) 0 phs ->
  SetSegmentProtections a s = (Ret true, s') ->
  exists evs, st_log s' = evs ++ st_log s
    /\ Forall2 (fair a (wants_bti_ img) (load_bias_ img) (d_pg (st_s s)))
         (filter (fun ph => p_type ph = PT_LOAD) phs) (granted evs).
Proof.
  intros img Hpg Hn Hp E.
  refine (wp_on_ret _ (fun ok s' => ok = true -> exists evs, st_log s' = evs ++ st_log s
    /\ Forall2 (fair a (wants_bti_ img) (load_bias_ img) (d_pg (st_s s)))
         (filter (fun ph => p_type ph = PT_LOAD) phs) (granted evs)) s true s' _ E eq_refl). clear E.
  unfold SetSegmentProtections, PageSize. wrun.
  destruct (Z.eqb_spec (d_pg (st_s s)) 0); [done|]. unfold each_phdr, this. wrun. fold img.
  rewrite Hn, Nat2Z.id. clear Hn.
  eapply wp_mono; [apply (protect_loop phs 0 [] s s); [done|by exists []|done]|].
  by intros [ok| | |] s1 H.
Qed.

(** The log shows a successful fixed mapping that ends past [hi]. *)
Definition maps_past (hi : Z) (log : list event) : Prop :=
  exists addr len prot flags fd off r, (CMmap addr len prot flags fd off, r) ∈ log
    /\ (flags &? MAP_FIXED) = true /\ r_ret r <> -1 /\ hi < addr + len.

Lemma maps_past_later {A} (x : K A) hi (s : st W ld) :
  extends x -> maps_past hi (st_log s) -> wp x (fun _ s' => maps_past hi (st_log s')) s.
Proof.
  intros Hx (addr & len & prot & flags & fd & off & r & Hin & H).
  eapply wp_mono; [apply Hx|]. intros o s' [evs E]. exists addr, len, prot, flags, fd, off, r.
  split; [|done]. rewrite E. apply elem_of_app. by right.
Qed.

(** Nothing checks that a segment's file size is at most its memory size:
    when the file part reaches past the reservation, a file-backed load maps
    the file over whatever lies behind the reservation. *)
Theorem oversized_segment_escapes fuel fd pg ph lo span mn (s s' : st W ld) :
  pow2 pg -> p_type ph = PT_LOAD -> geometry (d_img (st_s s)) = (lo, span, u64 (lo - mn)) ->
  (pg | lo) -> (pg | mn) -> 0 < lo -> 0 <= mn <= p_vaddr ph -> 0 < p_filesz ph ->
  p_vaddr ph + p_filesz ph <= 2 ^ 62 -> lo - mn + p_vaddr ph + p_filesz ph + pg <= 2 ^ 64 ->
  span < PageEnd (p_vaddr ph + p_filesz ph) pg - mn ->
  fill_segment fuel fd false pg ph s = (Ret true, s') ->
  maps_past (lo + span) (st_log s').
Proof.
  intros Hpg Ht Hg Hlo Hmn H0 H1 H2 H5 H3 H4. pose proof (pow2_pos _ Hpg) as Hp.
  injection Hg as _ _ Hb.
  destruct (PageStart_spec (p_vaddr ph) pg Hpg) as [A1 _].
  destruct (PageEnd_spec (p_vaddr ph + p_filesz ph) pg Hpg) as [B1 B2]; [lia..|].
  destruct (PageEnd_spec (lo - mn + (p_vaddr ph + p_filesz ph)) pg Hpg) as [C1 C2]; [lia..|].
  assert (Hw : forall y, 0 <= lo - mn + y < 2 ^ 64 -> u64 (u64 (lo - mn) + y) = lo - mn + y).
  { intros y Hy. unfold u64. rewrite Zplus_mod_idemp_l. by apply Z.mod_small. }
  assert (D1 : mn <= PageStart (p_vaddr ph) pg).
  { apply (multiple_le pg); auto; [apply PageStart_spec, Hpg|lia|lia]. }
  assert (D2 : lo - mn + PageEnd (p_vaddr ph + p_filesz ph) pg
               <= PageEnd (lo - mn + (p_vaddr ph + p_filesz ph)) pg).
  { apply (multiple_le pg); auto; [|lia|lia]. apply Z.divide_add_r; [by apply Z.divide_sub_r|done]. }
  intros E. refine (wp_on_ret _ (fun ok s' => ok = true -> maps_past (lo + span) (st_log s'))
    s true s' _ E eq_refl). clear E.
  unfold fill_segment, this. wrun. cbn zeta. rewrite Hb, <- (Z.add_assoc _ (p_vaddr ph) (p_filesz ph)).
  rewrite (Hw (PageStart (p_vaddr ph) pg)), (Hw (p_vaddr ph + p_filesz ph)) by lia.
  set (fpe := PageEnd (lo - mn + (p_vaddr ph + p_filesz ph)) pg) in *.
  set (ss := lo - mn + PageStart (p_vaddr ph) pg). rewrite (proj2 (Z.ltb_lt 0 _)) by lia.
  wrun. unfold mmap at 1. wrun. apply wp_syscall. intros r w e. wrun.
  destruct (Z.eqb_spec (r_ret r) (-1)) as [Er|Er].
  { wrun. cbn [negb]. unfold fail. by wrun. }
  wrun. repeat apply wp_bind_inv.
  eapply wp_mono; [apply (maps_past_later _ (lo + span))|].
  - unfold store, fail, mmap. pose proof (extends_modify (W:=W)). extends_tac.
  - do 7 eexists. split; [by left|]. split; [done|]. split; [done|]. rewrite u64_small by lia. lia.
  - by intros [ok| | |] s1 H; [intros _|..].
Qed.
End Protections.

(** ** The registry *)

Section Close.
Context {W : Type} `{!World W} (fuel : nat).

(** Registered handles are distinct and name live objects. *)
Definition registry_ok (s : lk) : Prop :=
  NoDup (g_images s) /\ forall p, p ∈ g_images s -> is_Some (heap s !! p).

Lemma elem_of_erase p x l : NoDup l -> x ∈ erase_one p l <-> x ∈ l /\ x <> p.
Proof.
  induction 1 as [|y l Hy Hl IH]; cbn [erase_one]; [rewrite elem_of_nil; tauto|].
  destruct (Z.eqb_spec y p) as [->|Hne]; rewrite !elem_of_cons.
  - split; [|tauto]. intros Hx. split; [by right|]. by intros ->.
  - rewrite IH. split; [intros [->|[? ?]]|]; tauto.
Qed.

Lemma NoDup_erase p l : NoDup l -> NoDup (erase_one p l).
Proof.
  induction 1 as [|y l Hy Hl IH]; cbn [erase_one]; [constructor|].
  destruct (Z.eqb_spec y p); [done|]. constructor; [|done]. rewrite elem_of_erase by done. by intros [? _].
Qed.

(** Closing is safe and happens once: [Dlclose] answers yes exactly for a
    registered handle; then the handle is gone from the registry, its object
    is freed and no other handle or object is affected, and closing it again
    answers no and changes nothing. Registered handles keep naming live
    objects. *)
Theorem close_once h b (s s' : st W lk) :
  registry_ok (st_s s) -> Dlclose h s = (Ret b, s') ->
  registry_ok (st_s s')
  /\ b = bool_decide (h ∈ g_images (st_s s))
  /\ (b = true -> heap (st_s s') !! h = None)
  /\ (forall p, p ∈ g_images (st_s s') <-> p ∈ g_images (st_s s) /\ p <> h)
  /\ (forall p, p <> h -> heap (st_s s') !! p = heap (st_s s) !! p)
  /\ Dlclose h s' = (Ret false, s').
Proof.
  intros [Hnd Hlive] E.
  assert (Hno : forall t : st W lk, h ∉ g_images (st_s t) -> Dlclose h t = (Ret false, t)).
  { intros t Ht. unfold Dlclose, IsOurHandle, mbind, M_bind, get, mret, M_ret.
    by rewrite bool_decide_eq_false_2. }
  destruct (decide (h ∈ g_images (st_s s))) as [Hin|Hout].
  2: { rewrite (Hno s Hout) in E. injection E as <- <-. rewrite bool_decide_eq_false_2 by done.
       split; [done|]. split; [done|]. split; [done|]. split; [|by split; [|apply Hno]].
       intros p. split; [|tauto]. intros Hp. split; [done|]. by intros ->. }
  rewrite bool_decide_eq_true_2 by done.
  unfold Dlclose, IsOurHandle, on_image, free_image, mbind, M_bind, get, mret, M_ret, modify in E.
  rewrite bool_decide_eq_true_2 in E by done. cbn -[destroy erase_one] in E.
  destruct (heap (st_s s) !! h) as [img|] eqn:Eh; [|done].
  destruct (destroy _) as [o s1] eqn:Ed. destruct o as [[]| | |]; try done.
  injection E as <- <-. unfold registry_ok. cbn -[erase_one].
  assert (Hg : forall p, p ∈ erase_one h (g_images (st_s s)) <-> p ∈ g_images (st_s s) /\ p <> h)
    by (intros; by apply elem_of_erase).
  assert (Hh : forall p, p <> h ->
     delete h (<[h := d_img (st_s s1)]> (heap (st_s s))) !! p = heap (st_s s) !! p).
  { intros p Hp. by rewrite lookup_delete_ne, lookup_insert_ne by done. }
  split; [split; [by apply NoDup_erase|]|].
  { intros p Hp. apply Hg in Hp as [Hp Hne]. rewrite Hh by done. by apply Hlive. }
  split; [done|]. split; [intros _; apply lookup_delete_eq|]. split; [done|]. split; [done|].
  apply Hno. cbn -[erase_one]. rewrite Hg. by intros [_ ?].
Qed.
End Close.

(** ** Witnesses *)

(** The demo module after mapping and parsing, on AArch64. *)
Definition demo_parsed : st script ld :=
  ((ok ← MapSegments 10 3 demo_ehdr demo_phdrs true; if ok : bool then ParseDynamic 10 else mret false)
     demo_state).2.

Lemma demo_phdrs_mapped :
  phdrs_in (contents (d_mem (st_s demo_parsed))) (phdr_ (d_img (st_s demo_parsed))) 0 demo_phdrs.
Proof.
  split; [|split; [|done]]; (eexists; split; [vm_compute; reflexivity|vm_compute; reflexivity]).
Qed.

Lemma protections_fair_witness :
  exists evs, st_log (SetSegmentProtections AArch64 demo_parsed).2 = evs ++ st_log demo_parsed
    /\ Forall2 (fair AArch64 false 0x1010 16)
         (filter (fun ph => p_type ph = PT_LOAD) demo_phdrs) (granted evs).
Proof.
  apply (protections_fair AArch64 demo_phdrs demo_parsed);
    [vm_compute; discriminate|vm_compute; reflexivity|exact demo_phdrs_mapped
    |vm_compute; reflexivity].
Defined.

(** A segment of 16 bytes of memory with 64 bytes of file, on 16-byte pages,
    in a reservation of 16 bytes. *)
Definition big_phdr : Phdr := Phdr_mk PT_LOAD 6 0 0 64 16 16.
Definition big_image : image := set_load_bias_ 0x1010 (set_map_size_ 16 (set_map_start_ 0x1010 (image0 []))).
Definition big_state : st script ld :=
  St [Reply 0x1010 0 (replicate 64 7) []] [] 0 (LD ∅ 16 kNone big_image).

Lemma oversized_segment_escapes_witness :
  maps_past 0x1020 (st_log (fill_segment 10 3 false 16 big_phdr big_state).2).
Proof.
  apply (oversized_segment_escapes 10 3 16 big_phdr 0x1010 16 0 big_state);
    [by exists 4|reflexivity|reflexivity|by exists 0x101|by exists 0|lia|cbn; lia|cbn; lia|cbn; lia
    |cbn; lia|vm_compute; reflexivity|vm_compute; reflexivity].
Defined.

(** Two registered objects. *)
Definition two_images : st script lk :=
  St [] [] 0 (LK ∅ 16 {[0x100 := image0 []; 0x200 := image0 []]} [0x100; 0x200]).

Lemma two_images_ok : registry_ok (st_s two_images).
Proof.
  split; [vm_decide|]. intros p Hp. cbn in Hp.
  apply elem_of_cons in Hp as [->|Hp]; [eexists; vm_compute; reflexivity|].
  apply list_elem_of_singleton in Hp as ->. eexists. vm_compute. reflexivity.
Qed.

Lemma close_once_witness :
  let s' := (Dlclose 0x100 two_images).2 in
  registry_ok (st_s s') /\ Dlclose 0x100 s' = (Ret false, s').
Proof.
  destruct (close_once 0x100 true two_images (Dlclose 0x100 two_images).2 two_images_ok)
    as (H1 & _ & _ & _ & _ & H2); [vm_compute; reflexivity|]. exact (conj H1 H2).
Defined.
