(* ===== verification/ModLoader.v ===== *)
(** Choosing a loader for a module (injector/module_loader.cpp, common/dl.cpp),
    the configuration switches it consults and the CFI shadow it keeps up to
    date (injector/clean.cpp, linker/cfi.cpp, cfi.hpp).

    The shadow is ordinary memory: one 16-bit slot per 256 KiB of address
    space, at the place the process's memory map names. *)
From S2P Require Import Prelude Sys Text ProcUtils Mem Linker.
Open Scope Z_scope.

(** ** Configuration *)

Definition kConfigPath : list Z := B "/data/adb/nyazygisk/config.prop".

Definition is_line_end (c : Z) : bool := (c =? 10) || (c =? 13) || (c =? 32) || (c =? 9).

(** One [fgets] buffer without its trailing white space, as a C string. *)
Definition config_chunk (line : list Z) : list Z := drop_while_end is_line_end (c_str line).

Definition has_config_line (text key value : list Z) : bool :=
  existsb (fun line => beq (config_chunk line) (take 63 (key ++ B "=" ++ value)))
    (fgets_chunks 128 text).

(** ** The shadow's place *)

Record CfiShadowRange := Shadow { sh_start : Z; sh_end : Z; sh_prot : Z }.

Definition kCfiShadowGranularity : Z := 18.
Definition kCfiShadowEntrySize : Z := 2.
Definition kCfiInvalidShadow : Z := 0.
Definition kCfiUncheckedShadow : Z := 1.

Definition CfiShadowByteOffset (addr : Z) : Z :=
  u64 (Z.shiftl (Z.shiftr addr kCfiShadowGranularity) 1).
Definition cfi_shadow_offset (addr : Z) : Z := CfiShadowByteOffset addr.

(** One line of the memory map: the run of adjacent shadow mappings that ends
    here, and the longest run so far. *)
Definition shadow_line (st : (Z * Z) * (Z * Z)) (line : list Z) : (Z * Z) * (Z * Z) :=
  let '(run, best) := st in
  if negb (contains (c_str line) (B "[anon:cfi shadow]")) then st
  else
    match scan_lx (c_str line) with
    | None => st
    | Some (start, rest) =>
        match scan_char 45 rest with
        | None => st
        | Some rest =>
            match scan_lx rest with
            | None => st
            | Some (end_, _) =>
                let run := if negb (run.2 =? 0) && (run.2 =? start)
                           then (run.1, end_) else (start, end_) in
                (run, if u64 (best.2 - best.1) <? u64 (run.2 - run.1) then run else best)
            end
        end
    end.

Definition shadow_of_maps (text : list Z) : option CfiShadowRange :=
  let '(_, best) := fold_left shadow_line (fgets_chunks 512 text) ((0, 0), (0, 0)) in
  if best.2 =? 0 then None else Some (Shadow best.1 best.2 PROT_READ).

Definition page_down (addr pg : Z) : Z := PageStart addr pg.
Definition page_up (addr pg : Z) : Z := PageEnd addr pg.

Record SavedCfiShadow := Saved { dst_addr : Z; shadow_data : list Z }.

Section Cfi.
Context {W : Type} `{!World W} {S : Type} `{!HasMem S}.
Abbreviation K := (M W S).

Definition config_line_present (key value : list Z) : K bool :=
  r ← syscall (CFile kConfigPath);
  mret (if r_ret r =? 0 then false else has_config_line (r_data r) key value).

Definition is_anonymous_memory_enabled : K bool := config_line_present (B "anonymous_memory") (B "1").
Definition is_custom_linker_enabled : K bool := config_line_present (B "custom_linker") (B "1").

Definition page_size : K Z :=
  r ← syscall (CSysconf 39); mret (if 0 <? r_ret r then r_ret r else 4096).

Definition find_cfi_shadow : K (option CfiShadowRange) :=
  r ← syscall (CFile (B "/proc/self/maps"));
  mret (if r_ret r =? 0 then None else shadow_of_maps (r_data r)).

(** The slots of [n] granules from [p] on; the number changed. *)
Fixpoint mark_slots (n : nat) (p : Z) (changed : Z) : K Z :=
  match n with
  | O => mret changed
  | Datatypes.S n' =>
      v ← load_u16 p;
      if v =? kCfiInvalidShadow then
        store p (le_bytes 2 kCfiUncheckedShadow);;
        mark_slots n' (p + 2) (changed + 1)
      else mark_slots n' (p + 2) changed
  end.

(** Where the slots of [base, base + size) are in the shadow. *)
Definition slot_range (shadow_start base size : Z) : Z * Z :=
  let end_ := u64 (base + size - 1) in
  (u64 (shadow_start + CfiShadowByteOffset base),
   u64 (shadow_start + CfiShadowByteOffset end_ + kCfiShadowEntrySize)).

Definition CfiMarkUncheckedRange (shadow_start shadow_end base size : Z) : K Z :=
  if size =? 0 then mret 0
  else
    let '(dst, dst_end) := slot_range shadow_start base size in
    if (dst <? shadow_start) || (shadow_end <? dst_end) || (dst_end <=? dst) then mret 0
    else mark_slots (Z.to_nat ((dst_end - dst + 1) / 2)) dst 0.

(** Runs [body] with the pages of [dst, dst_end) writable; [false] if the
    kernel refuses, before or after. *)
Definition with_writable (shadow : CfiShadowRange) (dst dst_end : Z) (body : K unit) : K bool :=
  pg ← page_size;
  let prot_start := page_down dst pg in
  let len := u64 (page_up dst_end pg - prot_start) in
  let reprotect := negb (sh_prot shadow &? PROT_WRITE) in
  ok ← (if reprotect
        then rc ← mprotect prot_start len (Z.lor (sh_prot shadow) PROT_WRITE); mret (rc =? 0)
        else mret true);
  if negb ok then mret false
  else
    body;;
    if reprotect then rc ← mprotect prot_start len (sh_prot shadow); mret (rc =? 0) else mret true.

Definition sync_cfi_shadow (old_start new_start size : Z) : K bool :=
  if (old_start =? new_start) || (size =? 0) then mret true
  else
    shadow ← find_cfi_shadow;
    match shadow with
    | None => mret true
    | Some sh =>
        let '(src, src_end) := slot_range (sh_start sh) old_start size in
        let '(dst, dst_end) := slot_range (sh_start sh) new_start size in
        if (src <? sh_start sh) || (sh_end sh <? src_end) || (dst <? sh_start sh)
           || (sh_end sh <? dst_end) || (src_end <? src) || (dst_end <? dst)
        then mret false
        else
          with_writable sh dst dst_end
            (bs ← load (Z.to_nat (dst_end - dst)) src; store dst bs)
    end.

Definition backup_cfi_shadow (base size : Z) : K SavedCfiShadow :=
  if (base =? 0) || (size =? 0) then mret (Saved 0 [])
  else
    shadow ← find_cfi_shadow;
    match shadow with
    | None => mret (Saved 0 [])
    | Some sh =>
        let '(src, src_end) := slot_range (sh_start sh) base size in
        if (src <? sh_start sh) || (sh_end sh <? src_end) || (src_end <=? src)
        then mret (Saved 0 [])
        else bs ← load (Z.to_nat (src_end - src)) src; mret (Saved src bs)
    end.

Definition restore_cfi_shadow (saved : SavedCfiShadow) : K bool :=
  if (dst_addr saved =? 0) || bool_decide (shadow_data saved = []) then mret true
  else
    shadow ← find_cfi_shadow;
    match shadow with
    | None => mret false
    | Some sh =>
        let dst := dst_addr saved in
        let dst_end := u64 (dst + Z.of_nat (length (shadow_data saved))) in
        if (dst <? sh_start sh) || (sh_end sh <? dst_end) then mret false
        else with_writable sh dst dst_end (store dst (shadow_data saved))
    end.

Definition register_cfi_unchecked (base size : Z) : K unit :=
  if (base =? 0) || (size =? 0) then mret tt
  else
    shadow ← find_cfi_shadow;
    match shadow with
    | None => mret tt
    | Some sh =>
        let '(dst, dst_end) := slot_range (sh_start sh) base size in
        if (dst <? sh_start sh) || (sh_end sh <? dst_end) || (dst_end <=? dst) then mret tt
        else
          with_writable sh dst dst_end
            (CfiMarkUncheckedRange (sh_start sh) (sh_end sh) base size;; mret tt);;
          mret tt
    end.
End Cfi.

(** ** Loading *)

Section Facade.
Context {W : Type} `{!World W} (fuel : nat) (a : arch) (interposed : list Z).
Abbreviation K := (M W lk).

Definition DlopenMem (fd flags : Z) (name : list Z) : K Z :=
  let display_name := match name with [] => B "/jit-cache-zygisk" | _ => name end in
  r ← syscall (CDlopenExt display_name flags fd); mret (r_ret r).

(** The handle (0 if none), and [*via_system]. *)
Definition open_module (memfd : Z) (name : list Z) : K (Z * bool) :=
  enabled ← is_custom_linker_enabled;
  h ← (if enabled : bool then
         anonymous ← is_anonymous_memory_enabled;
         '(h, _) ← Dlopen fuel a interposed memfd name anonymous;
         mret h
       else mret 0);
  if negb (h =? 0) then
    s ← get;
    match heap s !! h with
    | None => crash
    | Some img => register_cfi_unchecked (map_start_ img) (map_size_ img);; mret (h, false)
    end
  else h ← DlopenMem memfd RTLD_NOW name; mret (h, true).

Definition module_symbol (handle : Z) (name : list Z) : K Z :=
  ours ← IsOurHandle handle;
  if ours : bool then Dlsym fuel handle name
  else r ← syscall (CDlsym handle name); mret (r_ret r).

Definition close_module (handle : Z) : K bool :=
  ours ← IsOurHandle handle;
  if ours : bool then Dlclose handle
  else r ← syscall (CDlclose handle); mret (r_ret r =? 0).

Definition IsCustom (handle : Z) : K bool := IsOurHandle handle.
End Facade.

(** ** The shadow after marking *)

Section Marking.
Context {W : Type} `{!World W} {S : Type} `{!HasMem S}.
Abbreviation K := (M W S).

(** Every byte of [lo, hi) can be read and written. *)
Definition rw (m : mem) (lo hi : Z) : Prop :=
  forall x, lo <= x < hi -> exists c, m !! x = Some c /\ (c_prot c &? PROT_READ) = true
    /\ (c_prot c &? PROT_WRITE) = true /\ is_byte (c_byte c).

(** The 16-bit slot at [p]. *)
Definition slot (m : mem) (p : Z) : option Z :=
  c0 ← m !! p; c1 ← m !! (p + 1); Some (c_byte c0 + 256 * c_byte c1).

Definition marked (v : option Z) : option Z := if decide (v = Some 0) then Some 1 else v.

(** How many of the [n] slots from [p] are free. *)
Fixpoint free_slots (m : mem) (n : nat) (p : Z) : Z :=
  match n with
  | O => 0
  | Datatypes.S n' => (if decide (slot m p = Some 0) then 1 else 0) + free_slots m n' (p + 2)
  end.

Definition at_mem (m : mem) (s : st W S) : st W S :=
  St (st_w s) (st_log s) (st_errno s) (put_mem m (st_s s)).

Lemma free_slots_ext m m' n p :
  (forall x, p <= x < p + 2 * Z.of_nat n -> m' !! x = m !! x) -> free_slots m' n p = free_slots m n p.
Proof.
  revert p. induction n as [|n IH]; intros p H; cbn [free_slots]; [done|].
  unfold slot. rewrite (H p), (H (p + 1)), IH by (try lia; intros; apply H; lia). done.
Qed.

Lemma slot_ext m m' p : m' !! p = m !! p -> m' !! (p + 1) = m !! (p + 1) -> slot m' p = slot m p.
Proof. intros E1 E2. unfold slot. by rewrite E1, E2. Qed.

Lemma mark_slots_spec n p changed (s : st W S) :
  let m := the_mem (st_s s) in
  rw m p (p + 2 * Z.of_nat n) -> 0 <= p -> p + 2 * Z.of_nat n <= 2 ^ 64 ->
  wp (mark_slots n p changed) (fun o s' => exists m', s' = at_mem m' s
    /\ o = Ret (changed + free_slots m n p)
    /\ (forall x, ~ p <= x < p + 2 * Z.of_nat n -> m' !! x = m !! x)
    /\ forall k, 0 <= k < Z.of_nat n -> slot m' (p + 2 * k) = marked (slot m (p + 2 * k))) s.
Proof.
  revert p changed s. induction n as [|n IH]; intros p changed s m Hrw H0 H1.
  { cbn [mark_slots]. wrun. exists m. split; [unfold at_mem, m; rewrite put_mem_id; by destruct s|].
    split; [by rewrite Z.add_0_r|]. split; [done|]. lia. }
  cbn [mark_slots free_slots].
  destruct (Hrw p) as (c0 & E0 & R0 & W0 & B0); [lia|].
  destruct (Hrw (p + 1)) as (c1 & E1 & R1 & W1 & B1); [lia|].
  assert (Hslot : slot m p = Some (c_byte c0 + 256 * c_byte c1)) by (unfold slot; by rewrite E0; cbn; rewrite E1).
  unfold load_u16. wrun. eapply (wp_load _ _ [c_byte c0; c_byte c1]); [|done|lia|lia|].
  { apply holds_cons. split; [eauto|]. apply holds_cons. split; [eauto|by intros ? ? ?]. }
  wrun. replace (le_Z [c_byte c0; c_byte c1]) with (c_byte c0 + 256 * c_byte c1) by (cbn; lia).
  assert (Hgo : forall m1 ch, (forall x, x <> p -> x <> p + 1 -> m1 !! x = m !! x) ->
    slot m1 p = marked (slot m p) ->
    ch = changed + (if decide (slot m p = Some 0) then 1 else 0) ->
    wp (mark_slots n (p + 2) ch) (fun o s' => exists m', s' = at_mem m' s
      /\ o = Ret (changed + ((if decide (slot m p = Some 0) then 1 else 0) + free_slots m n (p + 2)))
      /\ (forall x, ~ p <= x < p + 2 * Z.of_nat (Datatypes.S n) -> m' !! x = m !! x)
      /\ forall k, 0 <= k < Z.of_nat (Datatypes.S n) -> slot m' (p + 2 * k) = marked (slot m (p + 2 * k)))
      (at_mem m1 s)).
  { intros m1 ch Hm1 Hs1 ->. assert (Em : the_mem (st_s (at_mem m1 s)) = m1) by apply mem_put.
    eapply wp_mono; [apply IH; rewrite ?Em|].
    - intros x Hx. rewrite Hm1 by lia. apply Hrw. lia.
    - lia.
    - lia.
    - rewrite Em. intros o s' (m' & -> & -> & Hout & Hin). exists m'.
      split; [unfold at_mem; cbn [st_w st_log st_errno st_s]; by rewrite put_put|].
      split; [rewrite (free_slots_ext m m1) by (intros; apply Hm1; lia); f_equal; lia|].
      split; [intros x Hx; rewrite Hout, Hm1 by lia; done|].
      intros k Hk. destruct (Z.eq_dec k 0) as [->|Hk0].
      + rewrite Z.mul_0_r, Z.add_0_r, <- Hs1. apply slot_ext; apply Hout; lia.
      + replace (p + 2 * k) with (p + 2 + 2 * (k - 1)) by lia. rewrite Hin by lia. f_equal.
        apply slot_ext; apply Hm1; lia. }
  destruct (Z.eqb_spec (c_byte c0 + 256 * c_byte c1) kCfiInvalidShadow) as [Ev|Ev].
  - unfold store. wrun. rewrite (uwrap_id 64 p) by fits.
    change (le_bytes 2 kCfiUncheckedShadow) with [1; 0]. cbn [write_bytes].
    fold m. rewrite E0. cbn [mbind option_bind]. rewrite W0, (uwrap_id 64 (p + 1)) by fits.
    rewrite lookup_insert_ne, E1 by lia. cbn [mbind option_bind]. rewrite W1. wrun. apply Hgo.
    + intros x Hx Hx'. by rewrite !lookup_insert_ne by done.
    + rewrite Hslot, Ev. unfold slot, marked.
      rewrite (lookup_insert_ne _ (p + 1) p) by lia. by rewrite !lookup_insert_eq.
    + rewrite Hslot, Ev. by rewrite decide_True.
  - assert (Hne : slot m p <> Some 0) by (rewrite Hslot; intros [= ?]; by apply Ev).
    assert (Es : at_mem m s = s) by (unfold at_mem, m; rewrite put_mem_id; by destruct s).
    pose proof (Hgo m changed) as H. rewrite Es in H. apply H;
      [done|unfold marked; by rewrite decide_False|rewrite decide_False by done; lia].
Qed.

(** Marking a module in the CFI shadow changes exactly the free slots of
    its granules: every granule of 256 KiB that [base, base + size) touches
    and whose slot is free (0) becomes unchecked (1), the slots of other
    libraries and all other memory stay as they are, and the result counts
    the slots changed. *)
Theorem mark_unchecked_exact shadow_start shadow_end base size (s : st W S) :
  let m := the_mem (st_s s) in
  let first := base / 2 ^ 18 in
  let n := (base + size - 1) / 2 ^ 18 - first + 1 in
  let dst := shadow_start + 2 * first in
  0 <= base -> 0 < size -> base + size <= 2 ^ 64 -> 0 <= shadow_start ->
  dst + 2 * n <= shadow_end -> shadow_end < 2 ^ 64 -> rw m shadow_start shadow_end ->
  exists m', CfiMarkUncheckedRange shadow_start shadow_end base size s
             = (Ret (free_slots m (Z.to_nat n) dst), at_mem m' s)
    /\ (forall x, ~ dst <= x < dst + 2 * n -> m' !! x = m !! x)
    /\ forall g, first <= g < first + n ->
        slot m' (shadow_start + 2 * g) = marked (slot m (shadow_start + 2 * g)).
Proof.
  intros m first n dst H0 H1 H2 H3 H4 H5 Hrw.
  assert (Hoff : forall x, 0 <= x < 2 ^ 64 -> CfiShadowByteOffset x = 2 * (x / 2 ^ 18)).
  { intros x Hx. unfold CfiShadowByteOffset, kCfiShadowGranularity.
    rewrite Z.shiftl_mul_pow2, Z.shiftr_div_pow2 by lia.
    assert (0 <= x / 2 ^ 18 < 2 ^ 46) by
      (split; [apply Z.div_pos; lia|apply Z.div_lt_upper_bound; lia]).
    rewrite (uwrap_id 64) by fits. lia. }
  assert (Hf : 0 <= first <= (base + size - 1) / 2 ^ 18).
  { unfold first. split; [apply Z.div_pos; lia|apply Z.div_le_mono; lia]. }
  assert (Hr : slot_range shadow_start base size = (dst, dst + 2 * n)).
  { unfold slot_range, kCfiShadowEntrySize. rewrite (uwrap_id 64 (base + size - 1)) by fits.
    rewrite !Hoff by lia. fold first. rewrite !(uwrap_id 64) by (unfold fits_u, dst, n in *; lia).
    f_equal. unfold dst, n. lia. }
  pose proof (mark_slots_spec (Z.to_nat n) dst 0 s) as H. cbn zeta in H. fold m in H.
  rewrite Z2Nat.id in H by (unfold n; lia). unfold wp in H.
  destruct (mark_slots (Z.to_nat n) dst 0 s) as [o s'] eqn:E.
  destruct H as (m' & Hs' & Ho & Hout & Hin); [intros x Hx; apply Hrw; unfold dst in *; lia|unfold dst; lia|lia|].
  exists m'. cbn in Hs', Ho. split; [|split; [done|]].
  - unfold CfiMarkUncheckedRange. destruct (Z.eqb_spec size 0); [lia|]. rewrite Hr.
    destruct (Z.ltb_spec dst shadow_start), (Z.ltb_spec shadow_end (dst + 2 * n)),
      (Z.leb_spec (dst + 2 * n) dst); try (unfold dst, n in *; lia). cbn [orb].
    replace ((dst + 2 * n - dst + 1) / 2) with n
      by (replace (dst + 2 * n - dst + 1) with (1 + n * 2) by lia; rewrite Z.div_add by lia; done).
    rewrite E. by subst.
  - intros g Hg. replace (shadow_start + 2 * g) with (dst + 2 * (g - first)) by (unfold dst; lia).
    apply Hin. lia.
Qed.

(** ** Saving and restoring the shadow *)

Lemma mprotect_contents p len prot (s : st W S) :
  wp (mprotect p len prot) (fun _ s' => contents (the_mem (st_s s')) = contents (the_mem (st_s s))) s.
Proof.
  unfold mprotect. wrun. apply wp_syscall. intros r w e. wrun. cbn [st_s].
  rewrite mem_put. apply contents_protect.
Qed.

(** A store between two changes of protection. *)
Lemma with_writable_store sh dst dst_end bs (s : st W S) :
  0 <= dst -> dst + Z.of_nat (length bs) < 2 ^ 64 ->
  wp (with_writable sh dst dst_end (store dst bs)) (on_ret (fun ok s' => ok = true ->
    peek (contents (the_mem (st_s s'))) (length bs) dst = Some bs
    /\ forall x, ~ dst <= x < dst + Z.of_nat (length bs) ->
         contents (the_mem (st_s s')) !! x = contents (the_mem (st_s s)) !! x)) s.
Proof.
  intros H0 H1. unfold with_writable, page_size. wrun. apply wp_syscall. intros r w e. wrun. cbn zeta.
  set (s1 := St w _ e _). set (Q := fun (ok : bool) (s' : st W S) => _).
  assert (Hbody : forall s2 : st W S, contents (the_mem (st_s s2)) = contents (the_mem (st_s s)) ->
    wp (store dst bs;;
        if negb (sh_prot sh &? PROT_WRITE)
        then rc ← mprotect (page_down dst (if 0 <? r_ret r then r_ret r else 4096))
                    (u64 (page_up dst_end (if 0 <? r_ret r then r_ret r else 4096)
                          - page_down dst (if 0 <? r_ret r then r_ret r else 4096))) (sh_prot sh);
             mret (rc =? 0)
        else mret true) (on_ret Q) s2).
  { intros s2 E2. unfold store. wrun. rewrite (uwrap_id 64 dst) by fits.
    destruct (write_bytes _ _ _) as [m|] eqn:Ew; [|by wrun]. wrun.
    apply contents_write in Ew as [P1 P2]; [|lia|lia].
    assert (HQ : forall ok s3, contents (the_mem (st_s s3)) = contents m -> Q ok s3).
    { intros ok s3 E3 _. rewrite E3. split; [done|]. intros x Hx. by rewrite P2, E2. }
    destruct (negb _); wrun; [|apply HQ; cbn [st_s]; by rewrite mem_put].
    eapply wp_mono; [apply mprotect_contents|]. intros [rc| | |] s3 E3; cbn [wp_cont on_ret]; try done.
    wrun. apply HQ. rewrite E3. cbn [st_s]. by rewrite mem_put. }
  destruct (negb _) eqn:En; wrun.
  - eapply wp_mono; [apply mprotect_contents|]. intros [rc| | |] s3 E3; cbn [wp_cont on_ret]; try done.
    wrun. destruct (rc =? 0); cbn [negb]; [by apply Hbody|by wrun].
  - cbn [negb]. by apply Hbody.
Qed.

(** Restoring undoes whatever happened to the saved part of the shadow:
    if a backup of a library's slots succeeded and a later restore reports
    success, the slots hold again the bytes they held when they were saved,
    and no other byte of memory was changed by the restore. *)
Theorem shadow_restored base size saved (s1 s1' s2 s2' : st W S) :
  backup_cfi_shadow base size s1 = (Ret saved, s1') ->
  restore_cfi_shadow saved s2 = (Ret true, s2') -> shadow_data saved <> [] ->
  let n := length (shadow_data saved) in
  let p := dst_addr saved in
  p <> 0 ->
  peek (contents (the_mem (st_s s2'))) n p = peek (contents (the_mem (st_s s1))) n p
  /\ peek (contents (the_mem (st_s s1))) n p = Some (shadow_data saved)
  /\ forall x, ~ p <= x < p + Z.of_nat n ->
       contents (the_mem (st_s s2')) !! x = contents (the_mem (st_s s2)) !! x.
Proof.
  intros Eb Er Hne n p Hp.
  assert (Hb : peek (contents (the_mem (st_s s1))) n p = Some (shadow_data saved)
               /\ 0 <= p /\ p + Z.of_nat n < 2 ^ 64).
  { revert Hne Hp. unfold n, p.
    refine (wp_on_ret _ (fun saved _ => shadow_data saved <> [] -> dst_addr saved <> 0 ->
      peek (contents (the_mem (st_s s1))) (length (shadow_data saved)) (dst_addr saved)
        = Some (shadow_data saved)
      /\ 0 <= dst_addr saved /\ dst_addr saved + Z.of_nat (length (shadow_data saved)) < 2 ^ 64)
      s1 saved s1' _ Eb). clear.
    unfold backup_cfi_shadow, find_cfi_shadow. destruct (_ || _); [by wrun|]. wrun.
    apply wp_syscall. intros r w e. wrun.
    match goal with |- wp (match ?x with _ => _ end) _ _ => destruct x as [sh|] end; [|by wrun].
    destruct (slot_range _ _ _) as [src src_end] eqn:Es.
    assert (Hs : 0 <= src < 2 ^ 64 /\ 0 <= src_end < 2 ^ 64).
    { unfold slot_range in Es. injection Es as <- <-. split; apply uwrap_fits; lia. }
    destruct (_ || _ || _) eqn:Ec; [by wrun|]. apply orb_false_iff in Ec as [_ Ec].
    apply Z.leb_gt in Ec. unfold load. wrun. rewrite (uwrap_id 64 src) by fits.
    destruct (read_bytes _ _ _) as [bs|] eqn:Eb; [|by wrun]. wrun. intros _ _. cbn [shadow_data dst_addr].
    assert (Hl : length bs = Z.to_nat (src_end - src)) by (by eapply read_bytes_length).
    rewrite Hl. split; [by apply peek_read|]. lia. }
  destruct Hb as (Hb & H0 & H1). rewrite Hb.
  refine (wp_on_ret _ (fun ok s2' => ok = true ->
    peek (contents (the_mem (st_s s2'))) n p = Some (shadow_data saved)
    /\ Some (shadow_data saved) = Some (shadow_data saved)
    /\ forall x, ~ p <= x < p + Z.of_nat n ->
       contents (the_mem (st_s s2')) !! x = contents (the_mem (st_s s2)) !! x) s2 true s2' _ Er eq_refl).
  unfold restore_cfi_shadow, find_cfi_shadow. fold p.
  destruct (Z.eqb_spec p 0); [done|]. rewrite bool_decide_eq_false_2 by done. cbn [orb]. wrun.
  apply wp_syscall. intros r w e. wrun.
  match goal with |- wp (match ?x with _ => _ end) _ _ => destruct x as [sh|] end; [|by wrun].
  cbn zeta. destruct (_ || _); [by wrun|].
  eapply wp_mono; [by apply with_writable_store|]. intros [ok| | |] s3 H3; cbn [on_ret] in *; try done.
  intros Hok. destruct (H3 Hok) as [P1 P2]. done.
Qed.
End Marking.

(** ** Configuration files *)

Lemma fgets_line n left l rest cur :
  (length l < left)%nat -> NL ∉ l ->
  fgets_aux n left (l ++ NL :: rest) cur = (cur ++ l ++ [NL]) :: fgets_aux n n rest [].
Proof.
  revert left cur. induction l as [|c l IH]; intros left cur Hl Hn; cbn [app fgets_aux]; [done|].
  cbn [length] in Hl. apply not_elem_of_cons in Hn as [Hc Hn].
  destruct (Z.eqb_spec c NL); [done|]. destruct (Nat.eqb_spec left 1); [lia|]. cbn [orb].
  rewrite IH by (try done; lia). by rewrite <- app_assoc.
Qed.

Lemma fgets_lines n ls :
  (1 < n)%nat -> Forall (fun l => (length l < n - 1)%nat /\ NL ∉ l) ls ->
  fgets_chunks n (concat ((fun l => l ++ [NL]) <$> ls)) = (fun l => l ++ [NL]) <$> ls.
Proof.
  intros Hn. unfold fgets_chunks. induction 1 as [|l ls [H1 H2] _ IH]; [done|].
  cbn [fmap list_fmap concat]. rewrite <- app_assoc. cbn [app].
  by rewrite fgets_line, IH.
Qed.

(** A configuration switch is on exactly if the file has its line: for a
    file of lines shorter than the read buffer, [config_line_present] answers
    whether some line, without trailing white space, is [key=value]; a
    missing file means off. *)
Theorem config_line_exact {W : Type} `{!World W} {S : Type} key value ls r w' (s : st W S) :
  (length (key ++ B "=" ++ value) <= 63)%nat ->
  Forall (fun l => (length l < 127)%nat /\ (NL ∉ l) /\ 0 ∉ l) ls ->
  sys (CFile kConfigPath) (st_w s) = (r, w') ->
  (r_ret r <> 0 -> r_data r = concat ((fun l => l ++ [NL]) <$> ls)) ->
  exists s', config_line_present key value s
    = (Ret (negb (r_ret r =? 0)
            && existsb (fun l => beq (drop_while_end is_line_end l) (key ++ B "=" ++ value)) ls), s').
Proof.
  intros Hk Hls Hsys Hdata. unfold config_line_present, mbind, M_bind, syscall, mret, M_ret.
  rewrite Hsys. eexists. f_equal. f_equal.
  destruct (Z.eqb_spec (r_ret r) 0) as [E|E]; cbn [negb andb]; [done|].
  unfold has_config_line. rewrite (Hdata E), fgets_lines, take_ge by (first [done | lia |
    eapply Forall_impl; [exact Hls|]; intros l (? & ? & _); split; [cbn; lia|done]]).
  clear Hsys Hdata. induction Hls as [|l ls (H1 & H2 & H3) _ IH]; [done|].
  cbn [fmap list_fmap existsb]. rewrite IH. f_equal. f_equal. unfold config_chunk.
  rewrite c_str_id.
  - unfold drop_while_end. rewrite rev_app_distr. done.
  - intros H. apply elem_of_app in H as [H|H]; [done|]. by apply list_elem_of_singleton in H.
Qed.

(** ** Witnesses *)

Definition demo_config : list (list Z) := [B "anonymous_memory=0"; B "custom_linker=1 "].

Lemma config_line_exact_witness :
  exists s', is_custom_linker_enabled
    (St [Reply 1 0 (concat ((fun l => l ++ [NL]) <$> demo_config)) []] [] 0 tt) = (Ret true, s').
Proof.
  apply (config_line_exact (B "custom_linker") (B "1") demo_config
    (Reply 1 0 (concat ((fun l => l ++ [NL]) <$> demo_config)) []) [] (St _ [] 0 tt));
    [vm_compute; lia| |reflexivity|reflexivity].
  repeat constructor; try (vm_compute; lia); vm_decide.
Defined.

(** Four slots at 0x100, writable; the second belongs to a library. *)
Definition demo_shadow : st script mem :=
  St [] [] 0 (map_range 3 8 0x100 [0; 0; 9; 0; 0; 0; 0; 0] ∅).

Lemma demo_shadow_rw : rw (st_s demo_shadow) 0x100 0x108.
Proof.
  intros x Hx. cbn [demo_shadow st_s]. rewrite lookup_map_range.
  rewrite (proj2 (Z.leb_le _ _)), (proj2 (Z.ltb_lt _ _)) by lia. cbn [andb].
  eexists. split; [done|]. split; [done|]. split; [done|]. cbn [c_byte].
  assert (Hk : (Z.to_nat (x - 0x100) < 8)%nat) by lia. revert Hk. generalize (Z.to_nat (x - 0x100)).
  intros n Hn. do 8 (destruct n as [|n]; [cbn; split; lia|]). lia.
Qed.

Lemma mark_unchecked_exact_witness :
  exists m', CfiMarkUncheckedRange 0x100 0x108 (2 ^ 18) (2 * 2 ^ 18) demo_shadow
             = (Ret 1, at_mem m' demo_shadow)
    /\ slot m' 0x102 = Some 9 /\ slot m' 0x104 = Some 1.
Proof.
  destruct (mark_unchecked_exact 0x100 0x108 (2 ^ 18) (2 * 2 ^ 18) demo_shadow)
    as (m' & H1 & _ & H3); [lia..|vm_compute; congruence|lia|exact demo_shadow_rw|].
  exists m'. split; [exact H1|]. split; [exact (H3 1 ltac:(vm_compute; intuition congruence))|].
  exact (H3 2 ltac:(vm_compute; intuition congruence)).
Defined.

(** The memory map names the shadow; its pages are made writable for the
    restore. *)
Definition shadow_maps : list Z := B "100-108 r--p 00000000 00:00 0 [anon:cfi shadow]" ++ [NL].
Definition maps_reply : reply := Reply 1 0 shadow_maps [].
Definition saving : st script mem := St [maps_reply] [] 0 (st_s demo_shadow).
Definition damaged : st script mem :=
  St [maps_reply; ans 16; ans 0; ans 0] [] 0 (map_range 1 32 0xf8 [] ∅).
Definition demo_saved : SavedCfiShadow := Saved 0x102 [9; 0; 0; 0].

Lemma shadow_restored_witness :
  peek (contents (the_mem (st_s (restore_cfi_shadow demo_saved damaged).2)))
    (length (shadow_data demo_saved)) (dst_addr demo_saved)
  = peek (contents (the_mem (st_s saving))) (length (shadow_data demo_saved)) (dst_addr demo_saved).
Proof.
  refine (proj1 (shadow_restored (2 ^ 18) (2 * 2 ^ 18) demo_saved saving
           (backup_cfi_shadow (2 ^ 18) (2 * 2 ^ 18) saving).2 damaged
           (restore_cfi_shadow demo_saved damaged).2 _ _ _ _));
    [vm_compute; reflexivity|vm_compute; reflexivity|discriminate|discriminate].
Defined.
