(* ===== verification/TracerPid.v ===== *)
(** Hiding the tracer from /proc/self/status
    (loader/src/injector/tracer_pid.cpp and the hooks of open, openat, close
    and read in injector/hook.cpp).

    The pool of tracked descriptors is the array of its sixteen slots. A hook
    calls the function it replaced, or the C library's when there is none: in
    both cases the environment answers. *)
From S2P Require Import Prelude Sys Text.
Open Scope Z_scope.

(** ** The pool *)

Definition kMaxTrackedFds : nat := 16.
Definition g_tracked_fds0 : list Z := replicate kMaxTrackedFds (-1).

(** [compare_exchange_strong] on each slot until one succeeds. *)
Fixpoint exchange_first (expected desired : Z) (slots : list Z) : list Z :=
  match slots with
  | [] => []
  | s :: slots' =>
      if s =? expected then desired :: slots' else s :: exchange_first expected desired slots'
  end.

Definition track_fd (fd : Z) (slots : list Z) : list Z :=
  if fd <? 0 then slots else exchange_first (-1) fd slots.

Definition untrack_fd (fd : Z) (slots : list Z) : list Z :=
  if fd <? 0 then slots else exchange_first fd (-1) slots.

Definition is_tracked_fd (fd : Z) (slots : list Z) : bool :=
  if fd <? 0 then false else existsb (fun s => s =? fd) slots.

(** ** The text *)

Definition kKey : list Z := B "TracerPid:".
Definition TAB : Z := 9.
Definition is_blank (c : Z) : bool := (c =? TAB) || (c =? 32).
(** What may follow the number. *)
Definition ends_field (c : Z) : bool := (c =? 10) || (c =? 13) || (c =? 32) || (c =? TAB).

(** The body of the loop of [sanitize_tracer_pid] at position [i]: where the
    number starts and its length, or [None] when the loop continues. *)
Definition field_at (buf : list Z) (i : nat) : option (nat * nat) :=
  if (0 <? i)%nat && negb (nth (i - 1) buf 0 =? NL) then None
  else if negb (beq (take (length kKey) (drop i buf)) kKey) then None
  else
    let pos := (i + length kKey)%nat in
    if (length buf <=? pos)%nat || negb (is_blank (nth pos buf 0)) then None
    else
      let pos := (pos + length (take_while is_blank (drop pos buf)))%nat in
      if (length buf <=? pos)%nat || negb (is_digit (nth pos buf 0)) then None
      else
        let num_start := pos in
        let num_len := length (take_while is_digit (drop pos buf)) in
        let pos := (pos + num_len)%nat in
        if (pos <? length buf)%nat && negb (ends_field (nth pos buf 0)) then None
        else Some (num_start, num_len).

(** [n] bounds the positions still to look at. *)
Fixpoint sanitize_from (n i : nat) (buf : list Z) : list Z :=
  match n with
  | O => buf
  | S n' =>
      if (i + length kKey <=? length buf)%nat then
        match field_at buf i with
        | None => sanitize_from n' (S i) buf
        | Some (num_start, num_len) =>
            if (num_len =? 1)%nat && (nth num_start buf 0 =? 48) then buf
            else take num_start buf ++ 48 :: replicate (num_len - 1) 32
                 ++ drop (num_start + num_len) buf
        end
      else buf
  end.

Definition sanitize_tracer_pid (buf : list Z) : list Z := sanitize_from (length buf) 0 buf.

(** ** The hooks *)

Section Hooks.
Context {W : Type} `{!World W}.
(** The state is the pool. *)
Abbreviation K := (M W (list Z)).

Definition is_status_path (path : list Z) : K bool :=
  if negb (starts_with path (B "/proc/")) then mret false
  else
    let sub := drop 6 path in
    if beq sub (B "self/status") || beq sub (B "thread-self/status") then mret true
    else
      match sub with
      | c :: _ =>
          if is_digit c then
            let '(target_id, range_error, endptr) := strtol sub in
            if negb range_error && beq endptr (B "/status") then
              pid ← syscall CGetpid;
              tid ← syscall CGettid;
              mret ((target_id =? r_ret pid) || (target_id =? r_ret tid))
            else mret false
          else mret false
      | [] => mret false
      end.

Definition O_CREAT : Z := 0x40.
Definition O_TMPFILE : Z := 0x404000.

(** The mode passed on: the third argument only where it is one. *)
Definition open_mode (flags mode : Z) : Z :=
  if (flags &? O_CREAT) || (Z.land flags O_TMPFILE =? O_TMPFILE) then mode else 0.

Definition note_open (pathname : list Z) (fd : Z) : K Z :=
  (if 0 <=? fd then
     status ← is_status_path pathname;
     if status : bool then modify (track_fd fd) else mret tt
   else mret tt);;
  mret fd.

Definition new_open (pathname : list Z) (flags mode : Z) : K Z :=
  r ← syscall (COpen pathname flags (open_mode flags mode));
  note_open pathname (r_ret r).

Definition new_openat (dirfd : Z) (pathname : list Z) (flags mode : Z) : K Z :=
  r ← syscall (COpenat dirfd pathname flags (open_mode flags mode));
  note_open pathname (r_ret r).

Definition new_close (fd : Z) : K Z :=
  (if 0 <=? fd then modify (untrack_fd fd) else mret tt);;
  r ← syscall (CClose fd);
  mret (r_ret r).

(** The result and the bytes left in a non-null buffer. *)
Definition new_read (fd count : Z) : K (Z * list Z) :=
  r ← syscall (CRead fd count);
  slots ← get;
  let ret := r_ret r in
  mret (ret, if (0 <? ret) && is_tracked_fd fd slots
             then sanitize_tracer_pid (take (Z.to_nat ret) (r_data r))
                  ++ drop (Z.to_nat ret) (r_data r)
             else r_data r).
End Hooks.

(** ** The reference: a text filter that works line by line *)

(** The line with its number replaced by 0 and blanks, if it is a field
    "TracerPid:" with blanks and a number. *)
Definition hide_line (l : list Z) : option (list Z) :=
  if starts_with l kKey then
    let r := drop (length kKey) l in
    let ws := take_while is_blank r in
    let r := drop_while is_blank r in
    let ds := take_while is_digit r in
    let r := drop_while is_digit r in
    if bool_decide (ws = []) || bool_decide (ds = [])
       || (match r with c :: _ => negb (ends_field c) | [] => false end)
    then None
    else Some (kKey ++ ws ++ 48 :: replicate (length ds - 1) 32 ++ r)
  else None.

(** The first such line of a text. *)
Fixpoint hide_lines (ls : list (list Z)) : list (list Z) :=
  match ls with
  | [] => []
  | l :: ls' => match hide_line l with Some l' => l' :: ls' | None => l :: hide_lines ls' end
  end.

(** The tracer a reader of the file finds: the number of the first field. *)
Fixpoint shown_tracer (ls : list (list Z)) : option Z :=
  match ls with
  | [] => None
  | l :: ls' =>
      match hide_line l with
      | Some _ => Some (digits_val 10 (take_while is_digit (drop_while is_blank (drop (length kKey) l))))
      | None => shown_tracer ls'
      end
  end.

(** ** The scan of the buffer is the line filter *)

Lemma take_while_length_split p s :
  take (length (take_while p s)) s = take_while p s
  /\ drop (length (take_while p s)) s = drop_while p s.
Proof.
  induction s as [|c s IH]; cbn; [done|]. destruct (p c); cbn; [|done].
  destruct IH as [-> ->]. done.
Qed.

Lemma nth_length_app (pre s : list Z) d : nth (length pre) (pre ++ s) d = hd d s.
Proof. rewrite app_nth2, Nat.sub_diag by lia. by destruct s. Qed.

Lemma hd_take_while p s : p (hd 0 s) = true -> p 0 = false -> take_while p s <> [].
Proof. destruct s as [|c s]; cbn; [congruence|]. by intros ->. Qed.

Lemma starts_with_take s pre : starts_with s pre = beq (take (length pre) s) pre.
Proof.
  apply eq_bool_prop_intro. rewrite !Is_true_true, starts_with_spec, beq_true. split.
  - intros [t ->]. by rewrite take_app_length.
  - intros E. exists (drop (length pre) s). by rewrite <- E at 1; rewrite take_drop.
Qed.

(** Where a run of [p] in the buffer leads, with its first element. *)
Lemma run_at p (pre s : list Z) :
  drop (length pre) (pre ++ s) = s
  /\ nth (length pre) (pre ++ s) 0 = hd 0 s
  /\ (length (pre ++ s) <=? length pre)%nat = bool_decide (s = [])
  /\ (length pre + length (take_while p s))%nat = length (pre ++ take_while p s)
  /\ pre ++ s = (pre ++ take_while p s) ++ drop_while p s.
Proof.
  split; [apply drop_app_length|]. split; [apply nth_length_app|]. split; [|split].
  - apply eq_bool_prop_intro.
    rewrite !Is_true_true, Nat.leb_le, bool_decide_eq_true, <- length_zero_iff_nil, length_app. lia.
  - by rewrite length_app.
  - by rewrite <- app_assoc, take_drop_while.
Qed.

Lemma take_while_nil p s : take_while p s = [] <-> s = [] \/ p (hd 0 s) = false.
Proof.
  destruct s as [|c s]; cbn; [tauto|]. destruct (p c); split; try done; try tauto.
  intros [?|?]; done.
Qed.

Lemma take_while_nil_bool p s :
  bool_decide (s = []) || negb (p (hd 0 s)) = bool_decide (take_while p s = []).
Proof.
  apply eq_bool_prop_intro. rewrite !Is_true_true, orb_true_iff, !bool_decide_eq_true, take_while_nil.
  destruct (p (hd 0 s)); cbn; intuition congruence.
Qed.

Definition line_start (pre : list Z) : Prop := pre = [] \/ exists p, pre = p ++ [NL].

(** What the loop does at the start of a line: [None] to go on, else the
    whole buffer rewritten. *)
Lemma field_at_line pre s :
  line_start pre ->
  match field_at (pre ++ s) (length pre) with
  | None => hide_line s = None
  | Some (a, n) =>
      exists ws ds r, s = kKey ++ ws ++ ds ++ r /\ a = length (pre ++ kKey ++ ws)
        /\ n = length ds /\ Forall (fun c => is_digit c = true) ds /\ ds <> []
        /\ hide_line s = Some (kKey ++ ws ++ 48 :: replicate (length ds - 1) 32 ++ r)
  end.
Proof.
  intros Hls. unfold field_at.
  replace ((0 <? length pre)%nat && negb (nth (length pre - 1) (pre ++ s) 0 =? NL)) with false.
  2: { destruct Hls as [->|[p ->]]; [done|]. rewrite length_app, <- app_assoc. cbn [length].
       replace (length p + 1 - 1)%nat with (length p) by lia. rewrite nth_length_app. cbn.
       by rewrite andb_false_r. }
  rewrite drop_app_length. unfold hide_line. rewrite starts_with_take.
  destruct (beq _ kKey) eqn:Ek; cbn [negb]; [|done]. apply beq_true in Ek.
  rewrite <- (take_drop (length kKey) s), Ek. set (r := drop (length kKey) s).
  rewrite app_assoc, <- length_app. set (pre1 := pre ++ kKey).
  rewrite !drop_app_length.
  destruct (run_at is_blank pre1 r) as (_ & -> & -> & -> & ->). rewrite take_while_nil_bool.
  destruct (bool_decide (take_while is_blank r = [])) eqn:Ews; [done|]. cbn [orb].
  set (pre2 := pre1 ++ take_while is_blank r). set (r1 := drop_while is_blank r).
  destruct (run_at is_digit pre2 r1) as (-> & -> & -> & -> & ->). rewrite take_while_nil_bool.
  destruct (bool_decide (take_while is_digit r1 = [])) eqn:Eds; [done|]. cbn [orb].
  set (pre3 := pre2 ++ take_while is_digit r1). set (r2 := drop_while is_digit r1).
  rewrite Nat.ltb_antisym. destruct (run_at is_digit pre3 r2) as (_ & -> & -> & _).
  assert (Ht : negb (bool_decide (r2 = [])) && negb (ends_field (hd 0 r2))
               = match r2 with c :: _ => negb (ends_field c) | [] => false end) by by destruct r2.
  rewrite Ht. destruct (match r2 with c :: _ => _ | [] => _ end); [done|].
  exists (take_while is_blank r), (take_while is_digit r1), r2. rewrite !bool_decide_eq_false in *.
  unfold r2, r1, pre2, pre1. rewrite !take_drop_while, <- app_assoc.
  repeat split; auto. apply Forall_forall. intros c Hc.
  eapply forallb_forall; [apply take_while_forallb|]. by apply list_elem_of_In in Hc.
Qed.

Lemma starts_with_nl l t pre :
  NL ∉ pre -> starts_with (l ++ NL :: t) pre = starts_with l pre.
Proof.
  revert l. induction pre as [|p pre IH]; intros l H; [done|].
  apply not_elem_of_cons in H as [Hp H]. destruct l as [|c l]; cbn [starts_with app].
  - destruct (Z.eqb_spec p NL); [congruence|done].
  - by rewrite IH.
Qed.

Lemma while_nl p l t :
  p NL = false ->
  take_while p (l ++ NL :: t) = take_while p l
  /\ drop_while p (l ++ NL :: t) = drop_while p l ++ NL :: t.
Proof.
  intros Hp. induction l as [|c l [IH1 IH2]]; cbn [app take_while drop_while]; [by rewrite Hp|].
  destruct (p c); cbn; [|done]. by rewrite IH1, IH2.
Qed.

(** A field is settled by its own line. *)
Lemma hide_line_app l rest :
  hide_line (l ++ NL :: rest) = (fun l' => l' ++ rest) <$> hide_line (l ++ [NL]).
Proof.
  unfold hide_line. rewrite !starts_with_nl by (vm_decide).
  destruct (starts_with l kKey) eqn:E; [|done]. apply starts_with_spec in E as [l2 ->].
  rewrite <- !app_assoc, !drop_app_length.
  destruct (while_nl is_blank l2 rest eq_refl) as [-> ->].
  destruct (while_nl is_blank l2 [] eq_refl) as [-> ->].
  destruct (while_nl is_digit (drop_while is_blank l2) rest eq_refl) as [-> ->].
  destruct (while_nl is_digit (drop_while is_blank l2) [] eq_refl) as [-> ->].
  set (r := drop_while is_digit _).
  assert (forall t, match r ++ NL :: t with c :: _ => negb (ends_field c) | [] => false end
          = match r with c :: _ => negb (ends_field c) | [] => false end) as Hr by by destruct r.
  rewrite !Hr. destruct (_ || _); [done|]. cbn [fmap option_fmap option_map].
  rewrite <- !app_assoc. cbn [app]. by rewrite <- !app_assoc.
Qed.

Lemma sanitize_past n i buf :
  (length buf < i + length kKey)%nat -> sanitize_from n i buf = buf.
Proof. intros H. destruct n; cbn [sanitize_from]; [done|]. by rewrite (proj2 (Nat.leb_gt _ _) H). Qed.

(** The loop without its early end. *)
Lemma sanitize_step n i buf :
  sanitize_from (S n) i buf
  = match field_at buf i with
    | None => sanitize_from n (S i) buf
    | Some (a, k) =>
        if (k =? 1)%nat && (nth a buf 0 =? 48) then buf
        else take a buf ++ 48 :: replicate (k - 1) 32 ++ drop (a + k) buf
    end.
Proof.
  cbn [sanitize_from]. destruct (Nat.leb_spec (i + length kKey) (length buf)) as [H|H]; [done|].
  replace (field_at buf i) with (@None (nat * nat)); [symmetry; apply sanitize_past; lia|].
  unfold field_at. destruct (_ && _); [done|].
  replace (beq _ kKey) with false; [done|]. symmetry. apply bool_decide_eq_false. intros E.
  apply (f_equal length) in E. rewrite length_take, length_drop in E.
  change (length kKey) with 10%nat in *. lia.
Qed.

(** No field starts inside a line. *)
Lemma field_inside pre a b c :
  c <> NL -> field_at (pre ++ (a ++ [c]) ++ b) (length (pre ++ a ++ [c])) = None.
Proof.
  intros Hc. unfold field_at. rewrite !length_app. cbn [length].
  replace (0 <? _)%nat with true by (symmetry; apply Nat.ltb_lt; lia).
  replace (length pre + (length a + 1) - 1)%nat with (length (pre ++ a)) by (rewrite length_app; lia).
  rewrite <- app_assoc, app_assoc, nth_length_app. cbn.
  by destruct (Z.eqb_spec c NL).
Qed.

Lemma sanitize_skip l2 l1 pre b n :
  NL ∉ l2 ->
  sanitize_from (length l2 + n) (S (length (pre ++ l1))) (pre ++ l1 ++ l2 ++ b)
  = sanitize_from n (S (length (pre ++ l1 ++ l2))) (pre ++ l1 ++ l2 ++ b).
Proof.
  revert l1. induction l2 as [|c l2 IH]; intros l1 H; [by rewrite app_nil_r|].
  apply not_elem_of_cons in H as [Hc H]. cbn [length Nat.add]. rewrite sanitize_step.
  specialize (IH (l1 ++ [c]) H). rewrite <- !app_assoc in IH. cbn [app] in IH.
  replace (S (length (pre ++ l1))) with (length (pre ++ l1 ++ [c]))
    by (rewrite !length_app; cbn; lia).
  replace (pre ++ l1 ++ (c :: l2) ++ b) with (pre ++ (l1 ++ [c]) ++ l2 ++ b)
    by by rewrite <- app_assoc.
  rewrite field_inside by congruence. rewrite <- app_assoc. cbn [app]. exact IH.
Qed.

Lemma concat_getlines_aux s cur : concat (getlines_aux s cur) = cur ++ s.
Proof.
  revert cur. induction s as [|c s IH]; intros cur; cbn [getlines_aux].
  - destruct (bool_decide_reflect (cur = [])) as [->|]; cbn; by rewrite ?app_nil_r.
  - destruct (c =? NL); cbn [concat]; rewrite IH, <- ?app_assoc; done.
Qed.

Lemma concat_getlines s : concat (getlines s) = s.
Proof. apply concat_getlines_aux. Qed.

Lemma getlines_last s : NL ∉ s -> s <> [] -> getlines s = [s].
Proof.
  unfold getlines. cut (forall cur, NL ∉ s -> cur ++ s <> [] -> getlines_aux s cur = [cur ++ s]).
  { intros H. apply (H []). }
  induction s as [|c s IH]; intros cur Hn He; cbn [getlines_aux].
  - rewrite app_nil_r in *. by rewrite bool_decide_false.
  - apply not_elem_of_cons in Hn as [Hc Hn]. destruct (Z.eqb_spec c NL); [congruence|].
    rewrite IH; [by rewrite <- app_assoc|done|]. intros E. by destruct cur.
Qed.

(** What the loop leaves in the buffer when it finds a field. *)
Lemma rewrite_field pre ws ds r :
  Forall (fun c => is_digit c = true) ds -> ds <> [] ->
  let buf := pre ++ kKey ++ ws ++ ds ++ r in
  let a := length (pre ++ kKey ++ ws) in
  (if (length ds =? 1)%nat && (nth a buf 0 =? 48) then buf
   else take a buf ++ 48 :: replicate (length ds - 1) 32 ++ drop (a + length ds) buf)
  = pre ++ kKey ++ ws ++ 48 :: replicate (length ds - 1) 32 ++ r.
Proof.
  intros Hd Hne buf a.
  assert (Eb : buf = (pre ++ kKey ++ ws) ++ ds ++ r) by (unfold buf; by rewrite <- !app_assoc).
  rewrite Eb. unfold a. rewrite nth_length_app. destruct ((length ds =? 1)%nat && _) eqn:E.
  - apply andb_true_iff in E as [E1 E2]. apply Nat.eqb_eq in E1. destruct ds as [|d [|]]; try done.
    cbn in E2. apply Z.eqb_eq in E2 as ->. by rewrite <- !app_assoc.
  - rewrite take_app_length, drop_app_add', drop_app_length by done. by rewrite <- !app_assoc.
Qed.

(** The first line of a text, and the filter on it. *)
Lemma split_line (s : list Z) : NL ∈ s -> exists l rest, s = l ++ NL :: rest /\ NL ∉ l.
Proof.
  intros H. apply list_elem_of_split_l in H as (l & rest & -> & Hl). eauto.
Qed.

Lemma hide_first s :
  s <> [] ->
  match hide_line s with
  | Some x => concat (hide_lines (getlines s)) = x
  | None =>
      ((NL ∉ s) /\ concat (hide_lines (getlines s)) = s)
      \/ exists l rest, s = l ++ NL :: rest /\ (NL ∉ l)
           /\ concat (hide_lines (getlines s)) = l ++ NL :: concat (hide_lines (getlines rest))
  end.
Proof.
  intros Hs. destruct (decide (NL ∈ s)) as [Hn|Hn].
  - apply split_line in Hn as (l & rest & -> & Hl).
    assert (E : getlines (l ++ NL :: rest) = (l ++ [NL]) :: getlines rest)
      by exact (getlines_aux_line l [] rest Hl).
    rewrite E, hide_line_app. cbn [hide_lines].
    destruct (hide_line (l ++ [NL])) as [l'|]; cbn [fmap option_fmap option_map concat].
    + f_equal. apply concat_getlines.
    + right. exists l, rest. by rewrite <- app_assoc.
  - rewrite getlines_last by done. cbn [hide_lines].
    destruct (hide_line s); cbn; [by rewrite app_nil_r|]. left. by rewrite app_nil_r.
Qed.

Lemma sanitize_lines k s pre n :
  (length s <= k)%nat -> (length s <= n)%nat -> line_start pre ->
  sanitize_from n (length pre) (pre ++ s) = pre ++ concat (hide_lines (getlines s)).
Proof.
  revert s pre n. induction k as [|k IH]; intros s pre n Hk Hn Hls; (destruct (decide (s = [])) as [->|Hs];
    [rewrite app_nil_r; cbn; rewrite app_nil_r; apply sanitize_past; change (length kKey) with 10%nat; lia|]).
  { destruct s; [done|cbn in Hk; lia]. }
  destruct n as [|n]; [destruct s; cbn in Hn; [done|lia]|].
  rewrite sanitize_step. pose proof (field_at_line pre s Hls) as Hf. pose proof (hide_first s Hs) as Hh.
  destruct (field_at (pre ++ s) (length pre)) as [[a m]|].
  - destruct Hf as (ws & ds & r & Es & -> & -> & Hd & Hne & Hf). rewrite Hf in Hh. rewrite Hh, Es.
    by apply rewrite_field.
  - rewrite Hf in Hh. destruct Hh as [[Hnl ->]|(l & rest & -> & Hl & ->)].
    + destruct (exists_last Hs) as (l & c & ->). rewrite length_app in Hn. cbn in Hn.
      apply not_elem_of_app in Hnl as [Hl _].
      replace n with (length l + (n - length l))%nat by lia.
      replace (S (length pre)) with (S (length (pre ++ []))) by by rewrite app_nil_r.
      rewrite (sanitize_skip l [] pre [c]) by done. apply sanitize_past.
      cbn [app]. rewrite !length_app. change (length kKey) with 10%nat. cbn. lia.
    + rewrite length_app in Hn, Hk. cbn in Hn, Hk.
      replace n with (length l + (n - length l))%nat by lia.
      replace (S (length pre)) with (S (length (pre ++ []))) by by rewrite app_nil_r.
      rewrite (sanitize_skip l [] pre (NL :: rest)) by done. cbn [app].
      replace (S (length (pre ++ l))) with (length (pre ++ l ++ [NL])) by (rewrite !length_app; cbn; lia).
      replace (pre ++ l ++ NL :: rest) with ((pre ++ l ++ [NL]) ++ rest) by by rewrite <- !app_assoc.
      rewrite IH; [by rewrite <- !app_assoc|lia|lia|]. right. exists (pre ++ l). by rewrite <- app_assoc.
Qed.

(** ** What a reader sees *)

(** A field: the key, blanks, digits, and what may follow. *)
Definition is_field (ws ds r : list Z) : Prop :=
  Forall (fun c => is_blank c = true) ws /\ ws <> []
  /\ Forall (fun c => is_digit c = true) ds /\ ds <> []
  /\ match r with c :: _ => ends_field c = true | [] => True end.

Lemma Forall_take_while p s : Forall (fun c => p c = true) (take_while p s).
Proof.
  apply Forall_forall. intros c Hc. eapply forallb_forall; [apply take_while_forallb|].
  by apply list_elem_of_In in Hc.
Qed.

Lemma hide_line_inv l l' :
  hide_line l = Some l' ->
  exists ws ds r, is_field ws ds r /\ l = kKey ++ ws ++ ds ++ r
    /\ l' = kKey ++ ws ++ 48 :: replicate (length ds - 1) 32 ++ r.
Proof.
  unfold hide_line. destruct (starts_with l kKey) eqn:E; [|done].
  apply starts_with_spec in E as [t ->]. rewrite drop_app_length.
  destruct (_ || _ || _) eqn:Eo; [done|]. intros [= <-].
  apply orb_false_iff in Eo as [Eo Er]. apply orb_false_iff in Eo as [Ew Ed].
  rewrite !bool_decide_eq_false in *.
  exists (take_while is_blank t), (take_while is_digit (drop_while is_blank t)),
    (drop_while is_digit (drop_while is_blank t)).
  rewrite !take_drop_while. split; [|done]. repeat split; auto using Forall_take_while.
  destruct (drop_while is_digit _); [done|]. by apply negb_false_iff in Er.
Qed.

Lemma drop_while_app_stop p l rest :
  Forall (fun c => p c = true) l -> (match rest with c :: _ => p c = false | [] => True end) ->
  drop_while p (l ++ rest) = rest.
Proof.
  intros Hl Hr. induction Hl as [|c l Hc _ IH]; cbn; [|by rewrite Hc].
  by destruct rest; cbn; rewrite ?Hr.
Qed.

Lemma hide_line_intro ws ds r :
  is_field ws ds r ->
  hide_line (kKey ++ ws ++ ds ++ r) = Some (kKey ++ ws ++ 48 :: replicate (length ds - 1) 32 ++ r)
  /\ take_while is_digit (drop_while is_blank (drop (length kKey) (kKey ++ ws ++ ds ++ r))) = ds.
Proof.
  intros (Hw & Hw0 & Hd & Hd0 & Hr).
  assert (Hdr : match ds ++ r with c :: _ => is_blank c = false | [] => True end).
  { destruct ds as [|d ds]; [done|]. cbn. apply Forall_cons in Hd as [Hd _].
    unfold is_digit in Hd. unfold is_blank. apply andb_true_iff in Hd as [? ?].
    apply orb_false_iff; split; apply Z.eqb_neq; unfold TAB; lia. }
  assert (Hrr : match r with c :: _ => is_digit c = false | [] => True end).
  { destruct r as [|c r]; [done|]. unfold ends_field in Hr. unfold is_digit.
    apply andb_false_iff. left. apply Z.leb_gt. unfold TAB in Hr.
    repeat (apply orb_true_iff in Hr as [Hr|Hr]); apply Z.eqb_eq in Hr; lia. }
  unfold hide_line. rewrite starts_with_app, drop_app_length.
  rewrite (take_while_app_stop is_blank), (drop_while_app_stop is_blank) by done.
  rewrite (take_while_app_stop is_digit), (drop_while_app_stop is_digit) by done.
  rewrite !bool_decide_false by done. cbn [orb]. split; [|done].
  by destruct r; [|rewrite Hr].
Qed.

(** The hidden line is a field with the number 0. *)
Lemma hide_line_hidden l l' :
  hide_line l = Some l' ->
  hide_line l' = Some l'
  /\ digits_val 10 (take_while is_digit (drop_while is_blank (drop (length kKey) l'))) = 0
  /\ length l' = length l.
Proof.
  intros (ws & ds & r & Hf & -> & ->)%hide_line_inv.
  assert (Hf' : is_field ws [48] (replicate (length ds - 1) 32 ++ r)).
  { destruct Hf as (? & ? & ? & ? & Hr). repeat split; auto.
    destruct (length ds - 1)%nat; cbn; done. }
  destruct (hide_line_intro _ _ _ Hf') as [H1 H2]. cbn [app length Nat.sub replicate] in H1, H2.
  split; [exact H1|]. rewrite H2. split; [done|].
  destruct Hf as (_ & _ & _ & Hd & _). destruct ds; [done|].
  rewrite !length_app. cbn [length]. rewrite !length_app, length_replicate. cbn [length]. lia.
Qed.

Lemma hide_lines_length ls : length (concat (hide_lines ls)) = length (concat ls).
Proof.
  induction ls as [|l ls IH]; [done|]. cbn [hide_lines].
  destruct (hide_line l) eqn:E; cbn [concat]; rewrite !length_app; [|by rewrite IH].
  by destruct (hide_line_hidden _ _ E) as (_ & _ & ->).
Qed.

Lemma shown_tracer_hidden ls :
  shown_tracer (hide_lines ls) = (fun _ => 0) <$> shown_tracer ls.
Proof.
  induction ls as [|l ls IH]; [done|]. cbn [hide_lines shown_tracer].
  destruct (hide_line l) eqn:E; cbn [shown_tracer]; [|by rewrite E].
  destruct (hide_line_hidden _ _ E) as (-> & -> & _). done.
Qed.

(** The lines of the filtered text are the filtered lines. *)
Lemma hide_line_nl l l' :
  NL ∉ l -> hide_line (l ++ [NL]) = Some l' -> exists l2, l' = l2 ++ [NL] /\ NL ∉ l2.
Proof.
  intros Hl (ws & ds & r & (_ & _ & Hd & Hd0 & _) & E & ->)%hide_line_inv.
  destruct (decide (r = [])) as [->|Hr].
  - exfalso. destruct (exists_last Hd0) as (d & c & ->). rewrite app_nil_r, !app_assoc in E.
    apply app_inj_tail in E as [_ <-]. apply Forall_app in Hd as [_ Hd]. apply Forall_cons in Hd as [Hd _]. discriminate Hd.
  - destruct (exists_last Hr) as (r' & c & ->). rewrite !app_assoc in E.
    apply app_inj_tail in E as [-> <-]. exists (kKey ++ ws ++ 48 :: replicate (length ds - 1) 32 ++ r').
    rewrite !not_elem_of_app in Hl. destruct Hl as [[[Hk Hw] _] Hr'].
    split; [by rewrite <- !app_assoc; cbn [app]; rewrite <- app_assoc|].
    rewrite !not_elem_of_app, not_elem_of_cons, not_elem_of_app. repeat split; try done.
    intros [? _]%elem_of_replicate. done.
Qed.

Lemma hide_line_no_nl l l' : NL ∉ l -> hide_line l = Some l' -> (NL ∉ l') /\ l' <> [].
Proof.
  intros Hl (ws & ds & r & _ & -> & ->)%hide_line_inv.
  rewrite !not_elem_of_app in Hl. destruct Hl as (Hk & Hw & _ & Hr).
  rewrite !not_elem_of_app, not_elem_of_cons, not_elem_of_app. split; [|by destruct ws].
  repeat split; try done. intros [? _]%elem_of_replicate. done.
Qed.

Lemma getlines_hide k s :
  (length s <= k)%nat ->
  getlines (concat (hide_lines (getlines s))) = hide_lines (getlines s).
Proof.
  revert s. induction k as [|k IH]; intros s Hk; (destruct (decide (s = [])) as [->|Hs]; [done|]).
  { destruct s; [done|cbn in Hk; lia]. }
  destruct (decide (NL ∈ s)) as [Hn|Hn].
  - apply split_line in Hn as (l & rest & -> & Hl).
    assert (Hg : forall l rest, NL ∉ l -> getlines (l ++ NL :: rest) = (l ++ [NL]) :: getlines rest)
      by (intros ? ? H; exact (getlines_aux_line _ [] _ H)).
    rewrite Hg by done. rewrite length_app in Hk. cbn in Hk. cbn [hide_lines].
    destruct (hide_line (l ++ [NL])) as [l'|] eqn:E; cbn [concat].
    + destruct (hide_line_nl _ _ Hl E) as (l2 & -> & Hl2). rewrite <- app_assoc. cbn [app].
      rewrite Hg by done. f_equal. f_equal. apply concat_getlines.
    + rewrite <- app_assoc. cbn [app]. rewrite Hg by done. f_equal. apply IH. lia.
  - rewrite (getlines_last s) by done. cbn [hide_lines].
    destruct (hide_line s) as [l'|] eqn:E; cbn [concat]; rewrite app_nil_r.
    + destruct (hide_line_no_nl _ _ Hn E). by apply getlines_last.
    + by apply getlines_last.
Qed.

Lemma sanitize_spec buf :
  sanitize_tracer_pid buf = concat (hide_lines (getlines buf))
  /\ length (sanitize_tracer_pid buf) = length buf
  /\ shown_tracer (getlines (sanitize_tracer_pid buf)) = (fun _ => 0) <$> shown_tracer (getlines buf).
Proof.
  assert (E : sanitize_tracer_pid buf = concat (hide_lines (getlines buf))).
  { apply (sanitize_lines (length buf) buf [] (length buf)); [done..|by left]. }
  rewrite E, hide_lines_length, concat_getlines. split; [done|]. split; [done|].
  by rewrite (getlines_hide (length buf)), shown_tracer_hidden.
Qed.

(** ** Descriptors stay tracked *)

Lemma is_tracked_spec fd slots : is_tracked_fd fd slots = true <-> 0 <= fd /\ fd ∈ slots.
Proof.
  unfold is_tracked_fd. destruct (Z.ltb_spec fd 0); [split; [done|lia]|].
  rewrite existsb_exists. setoid_rewrite Z.eqb_eq. rewrite list_elem_of_In. split; [by intros (x & ? & ->)|]. intros [_ H']. by exists fd.
Qed.

Lemma exchange_keeps x old new slots : x <> old -> x ∈ slots -> x ∈ exchange_first old new slots.
Proof.
  intros Hx. induction slots as [|s slots IH]; [done|]. cbn [exchange_first].
  rewrite elem_of_cons. intros [->|H]; destruct (Z.eqb_spec s old); rewrite elem_of_cons; auto; congruence.
Qed.

Lemma exchange_puts old new slots : old ∈ slots -> new ∈ exchange_first old new slots.
Proof.
  induction slots as [|s slots IH]; [by intros ?%elem_of_nil|]. cbn [exchange_first].
  rewrite elem_of_cons. intros [<-|H].
  - rewrite Z.eqb_refl. apply elem_of_cons; auto.
  - destruct (s =? old); rewrite elem_of_cons; auto.
Qed.

Lemma track_keeps fd g slots : is_tracked_fd fd slots = true -> is_tracked_fd fd (track_fd g slots) = true.
Proof.
  rewrite !is_tracked_spec. intros [? ?]. split; [done|]. unfold track_fd.
  destruct (g <? 0); [done|]. apply exchange_keeps; [lia|done].
Qed.

Lemma untrack_keeps fd g slots :
  g <> fd -> is_tracked_fd fd slots = true -> is_tracked_fd fd (untrack_fd g slots) = true.
Proof.
  rewrite !is_tracked_spec. intros ? [? ?]. split; [done|]. unfold untrack_fd.
  destruct (g <? 0); [done|]. by apply exchange_keeps.
Qed.

(** Calls of the hooked functions. *)
Inductive hook_op :=
| HOpen (path : list Z) (flags mode : Z)
| HOpenat (dirfd : Z) (path : list Z) (flags mode : Z)
| HClose (fd : Z)
| HRead (fd count : Z).

Section Tracking.
Context {W : Type} `{!World W}.
Abbreviation K := (M W (list Z)).

Definition run_op (op : hook_op) : K unit :=
  match op with
  | HOpen path flags mode => new_open path flags mode;; mret tt
  | HOpenat dirfd path flags mode => new_openat dirfd path flags mode;; mret tt
  | HClose fd => new_close fd;; mret tt
  | HRead fd count => new_read fd count;; mret tt
  end.

Fixpoint run_ops (ops : list hook_op) : K unit :=
  match ops with [] => mret tt | op :: ops' => run_op op;; run_ops ops' end.

Lemma wp_is_status_path path (Q : outcome bool -> st W (list Z) -> Prop) s :
  (forall b w l e, Q (Ret b) (St w l e (st_s s))) -> wp (is_status_path path) Q s.
Proof.
  intros HQ. assert (HQ' : forall b, Q (Ret b) s) by (intros b; destruct s; apply HQ).
  unfold is_status_path. destruct (negb _); [wrun; apply HQ'|].
  destruct (_ || _); [wrun; apply HQ'|]. destruct (drop 6 path) as [|c sub]; [wrun; apply HQ'|].
  destruct (is_digit c); [|wrun; apply HQ'].
  destruct (strtol _) as [[t re] ep]. destruct (_ && _); [|wrun; apply HQ'].
  wrun. apply wp_syscall. intros. wrun. apply wp_syscall. intros. wrun. apply HQ.
Qed.

Lemma wp_note_open path fd g (Q : outcome Z -> st W (list Z) -> Prop) s :
  is_tracked_fd fd (st_s s) = true ->
  (forall w l e p, is_tracked_fd fd p = true -> Q (Ret g) (St w l e p)) ->
  wp (note_open path g) Q s.
Proof.
  intros Ht HQ. assert (HQ' : Q (Ret g) s) by (destruct s; by apply HQ).
  unfold note_open. wrun. wcase; wrun; [|exact HQ'].
  apply wp_is_status_path. intros b w l e. wrun. destruct b; wrun; apply HQ; [|done].
  by apply track_keeps.
Qed.

Lemma run_ops_tracked fd ops s :
  HClose fd ∉ ops -> is_tracked_fd fd (st_s s) = true ->
  wp (run_ops ops) (fun o s' => o = Ret tt /\ is_tracked_fd fd (st_s s') = true) s.
Proof.
  revert s. induction ops as [|op ops IH]; intros s Hops Ht; cbn [run_ops]; [by wrun|].
  apply not_elem_of_cons in Hops as [Hop Hops]. wrun.
  destruct op as [path flags mode|d path flags mode|g|g count]; cbn [run_op]; wrun.
  - unfold new_open. wrun. apply wp_syscall. intros. wrun. apply (wp_note_open path fd); [done|].
    intros. wrun. by apply IH.
  - unfold new_openat. wrun. apply wp_syscall. intros. wrun. apply (wp_note_open path fd); [done|].
    intros. wrun. by apply IH.
  - unfold new_close. wrun. assert (g <> fd) by congruence.
    wcase; wrun; apply wp_syscall; intros; wrun; apply IH; cbn [st_s]; auto using untrack_keeps.
  - unfold new_read. wrun. apply wp_syscall. intros. wrun. by apply IH.
Qed.

(** A read whose result [o] is the kernel's text, the last call in the log of
    [s'], passed through the line filter. *)
Definition hidden_read (fd count : Z) (o : outcome (Z * list Z)) (s' : st W (list Z)) : Prop :=
  exists r rest, st_log s' = (CRead fd count, r) :: rest
    /\ let n := Z.to_nat (r_ret r) in
       0 < r_ret r -> exists out, o = Ret (r_ret r, out) /\ length out = length (r_data r)
         /\ take n out = concat (hide_lines (getlines (take n (r_data r))))
         /\ shown_tracer (getlines (take n out))
            = (fun _ => 0) <$> shown_tracer (getlines (take n (r_data r))).

(** open, or openat with a directory. *)
Definition new_opener (dirfd : option Z) (path : list Z) (flags mode : Z) : K Z :=
  match dirfd with None => new_open path flags mode | Some d => new_openat d path flags mode end.

(** The path of the process's status file, where [evs] is what was asked since
    the call began: one of the two fixed paths, or /proc/<id>/status with the
    answer of getpid or gettid. *)
Definition names_status (path : list Z) (evs : list event) : Prop :=
  path = B "/proc/self/status" \/ path = B "/proc/thread-self/status"
  \/ exists ds r, path = B "/proc/" ++ ds ++ B "/status" /\ ds <> [] /\ Forall (fun c => is_digit c = true) ds
     /\ digits_val 10 ds < 2 ^ 63 /\ r_ret r = digits_val 10 ds /\ ((CGetpid, r) ∈ evs \/ (CGettid, r) ∈ evs).

Lemma digits_nonneg ds : Forall (fun c => is_digit c = true) ds -> 0 <= digits_val 10 ds.
Proof.
  induction ds as [|c ds IH] using rev_ind; [done|]. intros [Hd Hc]%Forall_app. apply Forall_cons in Hc as [Hc _].
  rewrite digits_val_snoc. specialize (IH Hd). unfold is_digit in Hc. unfold digit_val. rewrite Hc. cbn.
  apply andb_true_iff in Hc as [? ?]. lia.
Qed.

(** A number of digits is read as it stands. *)
Lemma strtol_digits ds rest : Forall (fun c => is_digit c = true) ds -> ds <> [] -> digits_val 10 ds < 2 ^ 63 -> stops 10 rest ->
  strtol (ds ++ rest) = (digits_val 10 ds, false, rest).
Proof.
  intros Hd Hne Hv Hr. unfold strtol. pose proof (digits_nonneg ds Hd). rewrite read_number_run; [|lia| |done|done].
  - destruct (Z.ltb_spec (digits_val 10 ds) (- 2 ^ 63)); [lia|]. destruct (Z.ltb_spec (2 ^ 63 - 1) (digits_val 10 ds)); [lia|done].
  - eapply Forall_impl; [exact Hd|]. intros c Hc. unfold is_digit_of, digit_val. unfold is_digit in Hc. rewrite Hc.
    apply andb_true_iff in Hc as [? ?]. apply Z.ltb_lt. lia.
Qed.

(** A path with an id is compared with the answers of getpid and gettid. *)
Lemma status_by_id ds (s : st W (list Z)) :
  Forall (fun c => is_digit c = true) ds -> ds <> [] -> digits_val 10 ds < 2 ^ 63 ->
  is_status_path (B "/proc/" ++ ds ++ B "/status") s
  = (pid ← syscall CGetpid; tid ← syscall CGettid;
     mret ((digits_val 10 ds =? r_ret pid) || (digits_val 10 ds =? r_ret tid)) : K bool) s.
Proof.
  intros Hd Hne Hv. unfold is_status_path. rewrite starts_with_app. cbn [negb].
  change 6%nat with (length (B "/proc/")). rewrite drop_app_length, strtol_digits by done.
  destruct ds as [|c ds]; [done|]. apply Forall_cons in Hd as [Hc Hd]. cbn [app].
  assert (Hn : forall u, is_digit (hd 0 u) = false -> beq (c :: ds ++ B "/status") u = false).
  { intros u Hu. apply bool_decide_eq_false. intros <-. cbn [hd] in Hu. congruence. }
  rewrite !Hn by done. cbn [orb]. by rewrite Hc.
Qed.

Lemma wp_same {A} (m m' : K A) Q s : m s = m' s -> wp m' Q s -> wp m Q s.
Proof. unfold wp. by intros ->. Qed.

(** What opening a status file does to the pool. *)
Definition pool_after (s : st W (list Z)) (fd : Z) (s1 : st W (list Z)) : Prop :=
  (-1 ∈ st_s s -> is_tracked_fd fd (st_s s1) = true) /\ (-1 ∉ st_s s -> st_s s1 = st_s s).

Lemma exchange_absent old new slots : old ∉ slots -> exchange_first old new slots = slots.
Proof.
  induction slots as [|x slots IH]; [done|]. cbn [exchange_first]. intros [Hx Hs]%not_elem_of_cons.
  destruct (Z.eqb_spec x old); [congruence|]. by rewrite IH.
Qed.

Lemma track_pool fd (s s1 : st W (list Z)) : 0 <= fd -> st_s s1 = track_fd fd (st_s s) -> pool_after s fd s1.
Proof.
  intros Hfd E. unfold pool_after. rewrite E. unfold track_fd. destruct (Z.ltb_spec fd 0); [lia|]. split; intros Hf.
  - apply is_tracked_spec. split; [done|]. by apply exchange_puts.
  - by apply exchange_absent.
Qed.

Lemma noted_pool path c r fd s0 evs (s s1 : st W (list Z)) : c <> CGetpid -> c <> CGettid -> 0 <= fd ->
  st_log s = (c, r) :: st_log s0 -> st_s s = st_s s0 ->
  note_open path fd s = (Ret fd, s1) -> st_log s1 = evs ++ st_log s0 -> names_status path evs -> pool_after s0 fd s1.
Proof.
  intros Hc1 Hc2 Hfd El Es Ho He Hp. unfold note_open in Ho. rewrite (proj2 (Z.leb_le _ _) Hfd) in Ho.
  assert (Hfix : is_status_path path s = (Ret true, s) -> pool_after s0 fd s1).
  { intros E. unfold mbind, M_bind in Ho. rewrite E in Ho. injection Ho as <-. apply track_pool; [done|]. cbn [st_s]. by rewrite Es. }
  destruct Hp as [->|[->|(ds & r0 & -> & Hne & Hd & Hv & Hr & Hin)]]; [by apply Hfix|by apply Hfix|].
  revert He. revert Ho. wp_of_run. wrun. eapply wp_same; [by apply status_by_id|]. wrun.
  apply wp_syscall. intros rp w e. wrun. apply wp_syscall. intros rt w' e'. wrun.
  destruct (_ || _) eqn:E; wrun; cbn [st_log st_s]; intros He.
  - apply track_pool; [done|]. cbn [st_s]. by rewrite Es.
  - exfalso. rewrite El in He. apply orb_false_iff in E as [E1%Z.eqb_neq E2%Z.eqb_neq].
    assert (evs = [(CGettid, rt); (CGetpid, rp); (c, r)]) as -> by (apply (app_inv_tail (st_log s0)); by rewrite <- He).
    rewrite !elem_of_cons, !elem_of_nil in Hin. 
    destruct Hin as [[Hin|[Hin|[Hin|[]]]]|[Hin|[Hin|[Hin|[]]]]]; try discriminate Hin; injection Hin; intros; congruence.
Qed.

Lemma note_returns path g (s : st W (list Z)) : wp (note_open path g) (on_ret (fun v _ => v = g)) s.
Proof. unfold note_open. wstep. apply (wp_mono _ (fun _ _ => True)); [done|]. intros [[]| | |] s1 _; cbn [wp_cont]; [by wrun|done..]. Qed.

Lemma opened_pool dirfd path flags mode fd evs (s s1 : st W (list Z)) :
  new_opener dirfd path flags mode s = (Ret fd, s1) -> st_log s1 = evs ++ st_log s -> names_status path evs -> 0 <= fd ->
  pool_after s fd s1.
Proof.
  intros Ho He Hp Hfd. assert (Hret : forall g s2, note_open path g s2 = (Ret fd, s1) -> g = fd).
  { intros g s2 E. symmetry. exact (wp_on_ret _ (fun v _ => v = g) _ _ _ (note_returns path g s2) E). }
  destruct dirfd as [d|]; cbn [new_opener] in Ho; unfold new_open, new_openat, mbind, M_bind, syscall in Ho; destruct (sys _ _) as [r w];
    cbn in Ho; pose proof (Hret _ _ Ho) as Er; rewrite Er in Ho.
  - by eapply (noted_pool path (COpenat d path flags (open_mode flags mode)) r); [| | | | |exact Ho|exact He|].
  - by eapply (noted_pool path (COpen path flags (open_mode flags mode)) r); [| | | | |exact Ho|exact He|].
Qed.

End Tracking.

(** A traced process reads its status. *)
Definition status_text : list Z :=
  B "Name:" ++ [TAB] ++ B "app" ++ [NL] ++ kKey ++ [TAB] ++ B "4711" ++ [NL] ++ B "Uid:" ++ [TAB; 48; NL].

(** Process 4711 opens its status file under its own id. *)
Definition traced : st script (list Z) :=
  St [ans 5; ans 4711; ans 4712; ans 0; Reply 32 0 status_text []] [] 0 g_tracked_fds0.

