(* ===== verification/Seccomp.v ===== *)
(** Clearing the ptrace message with a seccomp event
    (loader/src/injector/seccomp.cpp, and [kernel_keeps_ptrace_message] and
    [parse_int] of loader/src/common/misc.cpp).

    The program handed to the kernel is data: a list of instructions
    (code, jt, jf, k). [bpf_run] is the meaning the kernel documents for the
    instructions it uses. The state is the value [kernel_keeps_ptrace_message]
    remembers after its first call. *)
From S2P Require Import Prelude Sys Text.
Open Scope Z_scope.

(** ** misc.cpp *)

(** [std::from_chars] for an [int]: an optional minus sign and digits, all of
    the text, in range; [-1] otherwise. *)
Definition parse_int (s : list Z) : Z :=
  let '(neg, ds) := match s with c :: s' => if c =? 45 then (true, s') else (false, s) | [] => (false, s) end in
  if bool_decide (ds = []) || negb (forallb is_digit ds) then -1
  else
    let v := if neg : bool then - digits_val 10 ds else digits_val 10 ds in
    if (- 2 ^ 31 <=? v) && (v <? 2 ^ 31) then v else -1.

(** What "%d.%d" reads from a kernel release, and the verdict on it. *)
Definition release_before_5_3 (release : list Z) : bool :=
  match scan_d release with
  | None => false
  | Some (major, rest) =>
      match scan_char 46 rest with
      | None => false
      | Some rest =>
          match scan_d rest with
          | None => false
          | Some (minor, _) => (major <? 5) || ((major =? 5) && (minor <? 3))
          end
      end
  end.

(** ** The filter *)

Definition BPF_LD_W_ABS : Z := 0x20.
Definition BPF_JMP_JEQ_K : Z := 0x15.
Definition BPF_RET_K : Z := 0x06.
Definition SECCOMP_RET_TRACE : Z := 0x7ff00000.
Definition SECCOMP_RET_ALLOW : Z := 0x7fff0000.

Abbreviation instr := (Z * Z * Z * Z)%type.
Definition BPF_STMT (code k : Z) : instr := (code, 0, 0, k).
Definition BPF_JUMP (code k jt jf : Z) : instr := (code, jt, jf, k).

(** Offsets in [struct seccomp_data]. *)
Definition off_nr : Z := 0.
Definition off_arg (i : Z) : Z := 16 + 8 * i.

Definition filter_for (nr_exit_group : Z) (args : list Z) : list instr :=
  [BPF_STMT BPF_LD_W_ABS off_nr;
   BPF_JUMP BPF_JMP_JEQ_K nr_exit_group 0 9;
   BPF_STMT BPF_LD_W_ABS (off_arg 0);
   BPF_JUMP BPF_JMP_JEQ_K (nth 0 args 0) 0 7;
   BPF_STMT BPF_LD_W_ABS (off_arg 1);
   BPF_JUMP BPF_JMP_JEQ_K (nth 1 args 0) 0 5;
   BPF_STMT BPF_LD_W_ABS (off_arg 2);
   BPF_JUMP BPF_JMP_JEQ_K (nth 2 args 0) 0 3;
   BPF_STMT BPF_LD_W_ABS (off_arg 3);
   BPF_JUMP BPF_JMP_JEQ_K (nth 3 args 0) 0 1;
   BPF_STMT BPF_RET_K SECCOMP_RET_TRACE;
   BPF_STMT BPF_RET_K SECCOMP_RET_ALLOW].

(** The array of four words read from /dev/urandom, with the bit that no exit
    status has. *)
Definition signature (bytes : list Z) : list Z :=
  [Z.lor (le_Z (take 4 bytes)) 0x10000; le_Z (take 4 (drop 4 bytes));
   le_Z (take 4 (drop 8 bytes)); le_Z (take 4 (drop 12 bytes))].

Section Seccomp.
Context {W : Type} `{!World W} (nr_exit_group : Z).
Abbreviation K := (M W (option bool)).

Definition kernel_keeps_ptrace_message : K bool :=
  cached ← get;
  match cached with
  | Some keeps => mret keeps
  | None =>
      r ← syscall CUname;
      let keeps := if r_ret r =? -1 then false else release_before_5_3 (c_str (r_data r)) in
      put (Some keeps);; mret keeps
  end.

Definition send_seccomp_event_if_needed : K unit :=
  keeps ← kernel_keeps_ptrace_message;
  if negb keeps then mret tt
  else
    random_fd ← syscall (COpen (B "/dev/urandom") 0x80000 0);
    if r_ret random_fd <? 0 then mret tt
    else
      nread ← syscall (CRead (r_ret random_fd) 16);
      do_ (CClose (r_ret random_fd));;
      if negb (r_ret nread =? 16) then mret tt
      else
        let args := signature (r_data nread) in
        r ← syscall (CSetSeccomp (filter_for nr_exit_group args));
        if negb (r_ret r =? 0) then mret tt
        else do_ (CSyscall nr_exit_group args).
End Seccomp.

(** ** Running a filter *)

(** What the kernel passes to a filter: the system call's number and its
    64-bit arguments (the other fields are never looked at). *)
Record seccomp_data := SData { sd_nr : Z; sd_args : list Z }.

(** The 32-bit word at an offset of [struct seccomp_data], little endian. *)
Definition sd_word (d : seccomp_data) (off : Z) : Z :=
  if off =? off_nr then u32 (sd_nr d)
  else
    let a := nth (Z.to_nat ((off - 16) / 8)) (sd_args d) 0 in
    if (off - 16) mod 8 =? 0 then u32 a else u32 (Z.shiftr a 32).

(** [None]: an instruction that is not used here, or running off the end. *)
Fixpoint bpf_run (fuel : nat) (prog : list instr) (pc : nat) (acc : Z) (d : seccomp_data) : option Z :=
  match fuel with
  | O => None
  | S fuel' =>
      match prog !! pc with
      | None => None
      | Some (code, jt, jf, k) =>
          if code =? BPF_LD_W_ABS then bpf_run fuel' prog (S pc) (sd_word d k) d
          else if code =? BPF_JMP_JEQ_K then
            bpf_run fuel' prog (S pc + Z.to_nat (if acc =? k then jt else jf)) acc d
          else if code =? BPF_RET_K then Some k
          else None
      end
  end.

(** Jumps only go forward, so a program's length bounds its run. *)
Definition verdict (prog : list instr) (d : seccomp_data) : option Z :=
  bpf_run (length prog) prog 0 0 d.

(** The calls that carry the signature. *)
Definition signed (nr : Z) (args : list Z) (d : seccomp_data) : bool :=
  (u32 (sd_nr d) =? nr)
  && forallb (fun i => u32 (nth i (sd_args d) 0) =? nth i args 0) [0; 1; 2; 3]%nat.

(** One test of the filter: load a word, compare, jump on a difference. *)
Lemma bpf_test f prog pc acc d off k jf :
  prog !! pc = Some (BPF_STMT BPF_LD_W_ABS off) ->
  prog !! S pc = Some (BPF_JUMP BPF_JMP_JEQ_K k 0 jf) ->
  bpf_run (S (S f)) prog pc acc d
  = bpf_run f prog (if sd_word d off =? k then S (S pc) else (S (S pc) + Z.to_nat jf)%nat) (sd_word d off) d.
Proof.
  intros H1 H2. cbn [bpf_run]. rewrite H1. unfold BPF_STMT. cbn iota. rewrite Z.eqb_refl, H2.
  unfold BPF_JUMP. cbn iota. change (BPF_JMP_JEQ_K =? BPF_LD_W_ABS) with false. rewrite Z.eqb_refl.
  destruct (_ =? k); [|done]. by rewrite Nat.add_0_r.
Qed.

Lemma bpf_ret f prog pc acc d k :
  prog !! pc = Some (BPF_STMT BPF_RET_K k) -> bpf_run (S f) prog pc acc d = Some k.
Proof. intros H. cbn [bpf_run]. by rewrite H. Qed.

(** The filter traces the calls with the signature and allows all others. *)
Lemma filter_exact nr args d :
  verdict (filter_for nr args) d
  = Some (if signed nr args d then SECCOMP_RET_TRACE else SECCOMP_RET_ALLOW).
Proof.
  unfold signed, verdict. cbn [forallb]. rewrite andb_true_r. change (length _) with 12%nat.
  erewrite bpf_test by reflexivity. change (sd_word d off_nr) with (u32 (sd_nr d)).
  destruct (_ =? nr); [cbn [andb]|by apply bpf_ret].
  erewrite bpf_test by reflexivity. change (sd_word d (off_arg 0)) with (u32 (nth 0 (sd_args d) 0)).
  destruct (_ =? nth 0 args 0); [cbn [andb]|by apply bpf_ret].
  erewrite bpf_test by reflexivity. change (sd_word d (off_arg 1)) with (u32 (nth 1 (sd_args d) 0)).
  destruct (_ =? nth 1 args 0); [cbn [andb]|by apply bpf_ret].
  erewrite bpf_test by reflexivity. change (sd_word d (off_arg 2)) with (u32 (nth 2 (sd_args d) 0)).
  destruct (_ =? nth 2 args 0); [cbn [andb]|by apply bpf_ret].
  erewrite bpf_test by reflexivity. change (sd_word d (off_arg 3)) with (u32 (nth 3 (sd_args d) 0)).
  destruct (_ =? nth 3 args 0); by apply bpf_ret.
Qed.

Lemma signature_words bytes i :
  Forall is_byte bytes -> 0 <= nth i (signature bytes) 0 < 2 ^ 32.
Proof.
  intros Hb. assert (Hw : forall n, 0 <= le_Z (take 4 (drop n bytes)) < 2 ^ 32).
  { intros n. pose proof (le_Z_range (take 4 (drop n bytes)) ltac:(by apply Forall_take, Forall_drop)) as H.
    split; [lia|]. eapply Z.lt_le_trans; [apply H|]. apply Z.pow_le_mono_r; [lia|].
    rewrite length_take. lia. }
  unfold signature. destruct i as [|[|[|[|i]]]]; cbn [nth].
  1: { pose proof (Hw 0%nat) as H. change (drop 0 bytes) with bytes in H. split; [apply Z.lor_nonneg; lia|].
       destruct (Z.eq_dec (le_Z (take 4 bytes)) 0) as [->|]; [done|].
       apply Z.log2_lt_pow2; [|rewrite Z.log2_lor by lia; apply Z.max_lub_lt; [apply Z.log2_lt_pow2; lia|done]].
       pose proof (proj2 (Z.lor_nonneg (le_Z (take 4 bytes)) 65536) ltac:(lia)).
       destruct (Z.eq_dec (Z.lor (le_Z (take 4 bytes)) 65536) 0) as [E|]; [|lia].
       apply Z.lor_eq_0_iff in E as [? _]. lia. }
  1-3: apply Hw.
  destruct i; cbn; lia.
Qed.

(** No exit status has the bit of the signature's first word. *)
Lemma signed_not_status nr bytes d :
  u32 (nth 0 (sd_args d) 0) < 0x10000 -> signed nr (signature bytes) d = false.
Proof.
  intros H. unfold signed. cbn [forallb]. destruct (Z.eqb_spec (u32 (nth 0 (sd_args d) 0)) (nth 0 (signature bytes) 0))
    as [E|]; [exfalso|by rewrite andb_false_r].
  assert (Hbit : Z.testbit (nth 0 (signature bytes) 0) 16 = true)
    by (cbn [nth signature]; by rewrite Z.lor_spec, orb_true_r).
  rewrite <- E, (testbit_lt _ 16) in Hbit; [done| |lia].
  split; [apply uwrap_fits; lia|exact H].
Qed.

Section SeccompTheorems.
Context {W : Type} `{!World W} (nr : Z).

(** What a logged call says of a run that logged [evs]. *)
Definition event_ok (evs : list event) (c : call) : Prop :=
  match c with
  | CSetSeccomp prog =>
      exists args,
        (forall d, verdict prog d
           = Some (if signed nr args d then SECCOMP_RET_TRACE else SECCOMP_RET_ALLOW))
        /\ (forall d, u32 (nth 0 (sd_args d) 0) < 0x10000 -> verdict prog d = Some SECCOMP_RET_ALLOW)
  | CSyscall n args =>
      n = nr
      /\ exists prog r, (CSetSeccomp prog, r) ∈ evs /\ r_ret r = 0
         /\ ((forall f k r', (CRead f k, r') ∈ evs -> Forall is_byte (r_data r')) ->
             verdict prog (SData n args) = Some SECCOMP_RET_TRACE)
  | _ => True
  end.

(** The calls [evs] of one run that ends in [s']. *)
Definition sent (evs : list event) (s' : st W (option bool)) : Prop :=
  (length evs <= 6)%nat /\ Forall (fun ev => event_ok evs ev.1) evs
  /\ forall prog r, (CSetSeccomp prog, r) ∈ evs -> st_s s' = Some true.

Definition sends (log : list event) (o : outcome unit) (s' : st W (option bool)) : Prop :=
  o = Ret tt /\ exists evs, st_log s' = evs ++ log /\ sent evs s'.

Lemma keeps_spec (Q : outcome bool -> st W (option bool) -> Prop) s :
  (forall keeps w e (evs : list event), evs = [] \/ (exists r, evs = [(CUname, r)]) ->
     Q (Ret keeps) (St w (evs ++ st_log s) e (Some keeps))) ->
  wp kernel_keeps_ptrace_message Q s.
Proof.
  intros HQ. unfold kernel_keeps_ptrace_message. wrun. destruct (st_s s) as [keeps|] eqn:E; wrun.
  - specialize (HQ keeps (st_w s) (st_errno s) []). destruct s; cbn in *. subst. auto.
  - apply wp_syscall. intros r w e. wrun. apply (HQ _ w e [(CUname, r)]). eauto.
Qed.

Lemma set_seccomp_ok evs bytes : event_ok evs (CSetSeccomp (filter_for nr (signature bytes))).
Proof.
  exists (signature bytes). split; intros d; rewrite filter_exact; [done|].
  intros H. by rewrite signed_not_status.
Qed.

Lemma signature_signed bytes :
  0 <= nr < 2 ^ 32 -> Forall is_byte bytes -> signed nr (signature bytes) (SData nr (signature bytes)) = true.
Proof.
  intros Hnr Hb. unfold signed. cbn [sd_nr sd_args]. rewrite uwrap_id, Z.eqb_refl by done. cbn [andb].
  apply forallb_forall. intros i _. rewrite uwrap_id; [apply Z.eqb_refl|]. by apply signature_words.
Qed.

(** The event is sent at most once per call and only on kernels that keep
    the message. The filter it installs traces exactly the calls of
    exit_group that carry the random signature and allows every other system
    call, a real exit with any status included; the call made afterwards
    carries that signature, so the filter traces it. *)
Theorem seccomp_signature_only (s : st W (option bool)) :
  0 <= nr < 2 ^ 32 -> wp (send_seccomp_event_if_needed nr) (sends (st_log s)) s.
Proof.
  intros Hnr. unfold send_seccomp_event_if_needed. wrun. apply keeps_spec. intros keeps w e evs0 H0. cbn.
  assert (Hn : forall p r, (CSetSeccomp p, r) ∉ evs0).
  { intros p r H. destruct H0 as [->|[r0 ->]]; no_event H. }
  assert (Hok : forall evs, Forall (fun ev => event_ok evs ev.1) evs0)
    by (intros evs; destruct H0 as [->|[r0 ->]]; repeat constructor).
  assert (Hlen : (length evs0 <= 1)%nat) by (destruct H0 as [->|[r0 ->]]; cbn; lia). clear H0.
  destruct keeps; cbn [negb]; wrun.
  2: { split; [done|]. exists evs0. split; [done|]. split; [lia|]. split; [done|].
       intros p r H. by apply Hn in H. }
  apply wp_syscall. intros r1 w1 e1. wrun. wcase; wrun.
  { split; [done|]. eexists (_ :: evs0). split; [done|]. split; [cbn [length]; lia|].
    split; [by constructor|done]. }
  apply wp_syscall. intros r2 w2 e2. wrun. apply wp_do. intros r3 w3 e3. wrun. wcase; wrun.
  { split; [done|]. eexists (_ :: _ :: _ :: evs0). split; [done|]. split; [cbn [length]; lia|].
    split; [by repeat constructor|done]. }
  apply wp_syscall. intros r4 w4 e4. wrun. wcase; wrun.
  { split; [done|]. eexists (_ :: _ :: _ :: _ :: evs0). split; [done|]. split; [cbn [length]; lia|].
    split; [|done]. constructor; [apply set_seccomp_ok|by repeat constructor]. }
  apply wp_do. intros r5 w5 e5. split; [done|]. eexists (_ :: _ :: _ :: _ :: _ :: evs0).
  split; [done|]. split; [cbn [length]; lia|]. split; [|done].
  constructor; [|constructor; [apply set_seccomp_ok|by repeat constructor]].
  split; [done|]. do 2 eexists. split; [by apply list_elem_of_further, list_elem_of_here|].
  split; [apply negb_false_iff, Z.eqb_eq in Heqb1; done|]. intros Hbytes.
  rewrite filter_exact, signature_signed; [done|done|]. eapply Hbytes.
  do 3 (apply list_elem_of_further). apply list_elem_of_here.
Qed.
End SeccompTheorems.

Lemma seccomp_signature_only_witness :
  let s := St [Reply 0 0 (B "4.19.0" ++ [0]) []; ans 9; Reply 16 0 (le_bytes 16 12345) []; ans 0; ans 0; ans 0]
             [] 0 None : st script (option bool) in
  wp (send_seccomp_event_if_needed 94) (sends 94 []) s
  /\ (exists prog, (CSetSeccomp prog, ans 0) ∈ st_log (send_seccomp_event_if_needed 94 s).2).
Proof.
  split; [apply (seccomp_signature_only 94); lia|]. eexists. vm_compute. apply list_elem_of_further, list_elem_of_here.
Defined.
