(* ===== verification/Sort.v ===== *)
(** [std::sort]: what the standard promises, as an interface, and insertion
    sort as an implementation of it. The standard leaves the order of elements
    that compare equal open, so clients are verified against the interface. *)
From S2P Require Import Prelude.

(** A comparator [std::sort] accepts. *)
Definition strict_weak {A} (lt : A -> A -> bool) : Prop :=
  (forall x, lt x x = false)
  /\ (forall x y z, lt x y = true -> lt y z = true -> lt x z = true)
  /\ (forall x y z, lt x z = true -> lt x y = true \/ lt y z = true).

Class StdSort := {
  std_sort : forall {A}, (A -> A -> bool) -> list A -> list A;
  std_sort_perm : forall {A} (lt : A -> A -> bool) l, strict_weak lt -> Permutation (std_sort lt l) l;
  std_sort_sorted : forall {A} (lt : A -> A -> bool) l, strict_weak lt ->
    StronglySorted (fun x y => lt y x = false) (std_sort lt l) }.

Fixpoint insert_sorted {A} (lt : A -> A -> bool) (x : A) (l : list A) : list A :=
  match l with
  | [] => [x]
  | y :: l' => if lt y x then y :: insert_sorted lt x l' else x :: l
  end.

Definition insertion_sort {A} (lt : A -> A -> bool) (l : list A) : list A :=
  foldr (insert_sorted lt) [] l.

Lemma insert_sorted_perm {A} (lt : A -> A -> bool) x l : Permutation (insert_sorted lt x l) (x :: l).
Proof.
  induction l as [|y l IH]; cbn; [done|]. destruct (lt y x); [|done]. rewrite IH. apply perm_swap.
Qed.

Lemma insert_sorted_sorted {A} (lt : A -> A -> bool) x l :
  strict_weak lt -> StronglySorted (fun x y => lt y x = false) l ->
  StronglySorted (fun x y => lt y x = false) (insert_sorted lt x l).
Proof.
  intros (Hirr & Htr & Hco) Hs. induction Hs as [|y l Hs IH Hy]; cbn; [by repeat constructor|].
  destruct (lt y x) eqn:E.
  - constructor; [done|]. rewrite insert_sorted_perm. constructor; [|done].
    destruct (lt x y) eqn:E2; [|done]. pose proof (Htr y x y E E2) as H. by rewrite Hirr in H.
  - constructor; [by constructor|]. constructor; [done|]. eapply Forall_impl; [exact Hy|]. cbn.
    intros z Hz. destruct (lt z x) eqn:E2; [|done]. destruct (Hco z y x E2); congruence.
Qed.

#[export] Program Instance insertion_StdSort : StdSort :=
  {| std_sort A lt l := insertion_sort lt l |}.
Next Obligation.
  intros A lt l _. cbn. induction l as [|x l IH]; cbn; [done|]. by rewrite insert_sorted_perm, IH.
Qed.
Next Obligation.
  intros A lt l Hlt. cbn. induction l as [|x l IH]; cbn; [constructor|]. by apply insert_sorted_sorted.
Qed.

(** The usual comparators: by a key, upwards or downwards. *)
Lemma strict_weak_key {A} (f : A -> Z) : strict_weak (fun x y => f x <? f y).
Proof. repeat split; intros *; rewrite ?Z.ltb_irrefl, ?Z.ltb_lt; lia. Qed.

Lemma strict_weak_key_desc {A} (f : A -> Z) : strict_weak (fun x y => f y <? f x).
Proof. repeat split; intros *; rewrite ?Z.ltb_irrefl, ?Z.ltb_lt; lia. Qed.

Lemma StronglySorted_weaken {A} (P Q : A -> A -> Prop) l :
  (forall x y, P x y -> Q x y) -> StronglySorted P l -> StronglySorted Q l.
Proof.
  intros H. induction 1 as [|x l _ IH Hx]; constructor; [done|]. eapply Forall_impl; [exact Hx|]. eauto.
Qed.
