(* ===== verification/Unmount.v ===== *)
(** Finding the mounts that give the root implementation away
    (loader/src/injector/unmount.cpp, [mount_info] of injector/zygisk.hpp).

    A [string_view] is the text from its pointer to the end of the string it
    points into, and its length: the number parsers are given the pointer
    alone and read on past the view. *)
From S2P Require Import Prelude Sys Text Sort ProcUtils.
Open Scope Z_scope.

Record mount_info := MountInfo {
  id : Z; parent : Z; device : Z;
  root : list Z; target : list Z; vfs_options : list Z;
  type : list Z; source : list Z; fs_options : list Z; raw_info : list Z }.

Record view := View { v_data : list Z; v_len : nat }.
Definition text (v : view) : list Z := take (v_len v) (v_data v).

(** ** Parsing *)

Definition SPACE : Z := 32.

(** [val] is an [int]: a number that does not fit has no defined value. *)
Fixpoint atoi_loop (val : Z) (str : list Z) : outcome Z :=
  match str with
  | c :: str' =>
      if is_digit c then
        let val := val * 10 + (c - 48) in
        if val <? 2 ^ 31 then atoi_loop val str' else Crash
      else Ret val
  | [] => Ret val
  end.
Definition fast_atoi (str : list Z) : outcome Z := atoi_loop 0 str.

(** An [unsigned int] from digits, and what follows them. *)
Fixpoint read_uint (val : Z) (str : list Z) : Z * list Z :=
  match str with
  | c :: str' => if is_digit c then read_uint (u32 (val * 10 + (c - 48))) str' else (val, str)
  | [] => (val, [])
  end.

Definition parse_device (str : list Z) : option (Z * Z) :=
  let '(maj, str) := read_uint 0 str in
  match str with
  | c :: str' => if c =? 58 then Some (maj, (read_uint 0 str').1) else None
  | [] => None
  end.

(** The token, and the view moved behind the blanks that follow it. *)
Definition get_next_token (str : view) : view * view :=
  let s := text str in
  match find_char s SPACE with
  | None => (str, View [] 0)
  | Some pos =>
      let blanks := length (take_while (fun c => c =? SPACE) (drop pos s)) in
      let next_start := (pos + blanks)%nat in
      (View (v_data str) pos,
       if (next_start <? length s)%nat
       then View (drop next_start (v_data str)) (v_len str - next_start)
       else View [] 0)
  end.

(** One line without its newline; [None] if it is skipped. *)
Definition parse_mount_line (line : list Z) : outcome (option mount_info) :=
  match find_sub line (B " - ") with
  | None => Ret None
  | Some separator_pos =>
      let part1 := View (c_str line) separator_pos in
      let rest := c_str (drop (separator_pos + 3) line) in
      let part2 := View rest (length rest) in
      let '(id_sv, part1) := get_next_token part1 in
      let '(parent_sv, part1) := get_next_token part1 in
      let '(device_sv, part1) := get_next_token part1 in
      let '(root_sv, part1) := get_next_token part1 in
      let '(target_sv, part1) := get_next_token part1 in
      id_ ← fast_atoi (v_data id_sv);
      parent_ ← fast_atoi (v_data parent_sv);
      match parse_device (v_data device_sv) with
      | None => Ret None
      | Some (maj, min) =>
          let '(type_sv, part2) := get_next_token part2 in
          let '(source_sv, part2) := get_next_token part2 in
          Ret (Some (MountInfo id_ parent_ (makedev maj min) (text root_sv) (text target_sv)
                       (text part1) (text type_sv) (text source_sv) (text part2) line))
      end
  end.

Definition strip_nl (line : list Z) : list Z :=
  match rev line with c :: l => if c =? NL then rev l else line | [] => line end.

Fixpoint parse_mount_lines (lines : list (list Z)) : outcome (list mount_info) :=
  match lines with
  | [] => Ret []
  | line :: lines' =>
      info ← parse_mount_line (strip_nl line);
      result ← parse_mount_lines lines';
      Ret (match info with Some i => i :: result | None => result end)
  end.

(** ** Selecting *)

Definition PROCESS_ROOT_IS_APATCH : Z := 2 ^ 28.
Definition PROCESS_ROOT_IS_KSU : Z := 2 ^ 29.
Definition PROCESS_ROOT_IS_MAGISK : Z := 2 ^ 30.

(** The name the root implementation mounts under, and whether it is KernelSU. *)
Definition root_source (info_flags : Z) : option (list Z * bool) :=
  if (info_flags &? PROCESS_ROOT_IS_APATCH) then Some (B "APatch", false)
  else if (info_flags &? PROCESS_ROOT_IS_KSU) then Some (B "KSU", true)
  else if (info_flags &? PROCESS_ROOT_IS_MAGISK) then Some (B "magisk", false)
  else None.

(** The loop device KernelSU mounts its modules from, empty if there is none. *)
Fixpoint ksu_module_source (infos : list mount_info) : list Z :=
  match infos with
  | [] => []
  | info :: infos' =>
      if beq (target info) (B "/data/adb/modules") && starts_with (source info) (B "/dev/block/loop")
      then source info else ksu_module_source infos'
  end.

Definition should_unmount (mount_source_name ksu_source : list Z) (info : mount_info) : bool :=
  starts_with (root info) (B "/adb/modules")
  || starts_with (target info) (B "/data/adb/modules")
  || beq (source info) mount_source_name
  || (negb (bool_decide (ksu_source = [])) && beq (source info) ksu_source).

Section Traces.
Context {W : Type} `{!World W} {S : Type} `{!StdSort}.
Abbreviation K := (M W S).

Definition parse_mount_info (pid : list Z) : K (list mount_info) :=
  file ← syscall (CFile (B "/proc/" ++ pid ++ B "/mountinfo"));
  if r_ret file =? 0 then mret []
  else lift (parse_mount_lines (getlines (r_data file))).

Definition check_zygote_traces (info_flags : Z) : K (list mount_info) :=
  mount_infos ← parse_mount_info (B "self");
  if bool_decide (mount_infos = []) then mret []
  else
    match root_source info_flags with
    | None => mret []
    | Some (mount_source_name, is_kernelsu) =>
        let ksu := if is_kernelsu : bool then ksu_module_source mount_infos else [] in
        let traces := List.filter (should_unmount mount_source_name ksu) mount_infos in
        if bool_decide (traces = []) then mret []
        else mret (std_sort (fun a b => id b <? id a) traces)
    end.
End Traces.

(** ** The kernel's format *)

(** Words separated by single blanks. *)
Fixpoint join (ws : list (list Z)) : list Z :=
  match ws with
  | [] => []
  | [w] => w
  | w :: ws' => w ++ SPACE :: join ws'
  end.

(** A line of mountinfo as the kernel describes it: [k_opts] are the mount
    options and the optional fields, [k_super] the words of the super options. *)
Record kmount := KMount {
  k_id : Z; k_parent : Z; k_major : Z; k_minor : Z; k_root : list Z; k_target : list Z;
  k_opts : list (list Z); k_type : list Z; k_source : list Z; k_super : list (list Z) }.

Definition left_words (k : kmount) : list (list Z) :=
  to_string (k_id k) :: to_string (k_parent k)
  :: (to_string (k_major k) ++ 58 :: to_string (k_minor k)) :: k_root k :: k_target k :: k_opts k.
Definition right_words (k : kmount) : list (list Z) := k_type k :: k_source k :: k_super k.
Definition mount_line (k : kmount) : list Z :=
  join (left_words k) ++ B " - " ++ join (right_words k).
Definition mount_text (ms : list kmount) : list Z :=
  concat (map (fun l => l ++ [NL]) (map mount_line ms)).

(** A word as the kernel prints it: blanks, newlines and NULs are escaped. *)
Definition plain (w : list Z) : Prop := w <> [] /\ (SPACE ∉ w) /\ (NL ∉ w) /\ (0 ∉ w).

Record kmount_wf (k : kmount) : Prop := {
  wf_id : 0 <= k_id k < 2 ^ 31;
  wf_parent : 0 <= k_parent k < 2 ^ 31;
  wf_major : 0 <= k_major k < 2 ^ 32;
  wf_minor : 0 <= k_minor k < 2 ^ 32;
  wf_left : Forall (fun w => plain w /\ w <> B "-") (k_root k :: k_target k :: k_opts k);
  wf_opts : k_opts k <> [];
  wf_right : Forall plain (right_words k);
  wf_super : k_super k <> [] }.

Definition info_of (k : kmount) : mount_info :=
  MountInfo (k_id k) (k_parent k) (makedev (k_major k) (k_minor k)) (k_root k) (k_target k)
    (join (k_opts k)) (k_type k) (k_source k) (join (k_super k)) (mount_line k).

(** ** Words *)

Lemma join_cons w ws : ws <> [] -> join (w :: ws) = w ++ SPACE :: join ws.
Proof. by destruct ws. Qed.

Lemma join_head ws tail :
  ws <> [] -> Forall plain ws -> exists c rest, join ws ++ tail = c :: rest /\ c <> SPACE /\ (0 < length (join ws))%nat.
Proof.
  intros Hne Hp. destruct ws as [|w ws]; [done|]. apply Forall_cons in Hp as [(Hw & Hs & _) _].
  destruct w as [|c w]; [done|]. apply not_elem_of_cons in Hs as [Hc _].
  exists c. destruct ws; cbn; eexists; (split; [done|]); (split; [congruence|lia]).
Qed.

Lemma find_char_first w c rest : c ∉ w -> find_char (w ++ c :: rest) c = Some (length w).
Proof.
  induction w as [|x w IH]; intros H; cbn; [by rewrite Z.eqb_refl|].
  apply not_elem_of_cons in H as [Hx H]. destruct (Z.eqb_spec x c); [congruence|]. by rewrite IH.
Qed.

(** The first word of several, in a text that goes on with [tail]. *)
Lemma next_token_cons w ws tail :
  SPACE ∉ w -> ws <> [] -> Forall plain ws ->
  get_next_token (View (join (w :: ws) ++ tail) (length (join (w :: ws))))
  = (View (join (w :: ws) ++ tail) (length w), View (join ws ++ tail) (length (join ws))).
Proof.
  intros Hw Hne Hp. unfold get_next_token, text. cbn [v_data v_len]. rewrite take_app_length.
  rewrite join_cons, find_char_first by done. rewrite drop_app_length. cbn [take_while]. rewrite Z.eqb_refl.
  destruct (join_head ws [] Hne Hp) as (c & rest & E & Hc & Hl). rewrite app_nil_r in E.
  assert (Et : take_while (fun c => c =? SPACE) (join ws) = [])
    by (rewrite E; cbn; by destruct (Z.eqb_spec c SPACE)).
  rewrite Et. cbn [length]. rewrite length_app. cbn [length].
  rewrite (proj2 (Nat.ltb_lt _ _)) by lia. do 2 f_equal; [|lia].
  rewrite <- app_assoc, drop_app_add by done. done.
Qed.

Lemma next_token_last w tail :
  SPACE ∉ w -> get_next_token (View (w ++ tail) (length w)) = (View (w ++ tail) (length w), View [] 0).
Proof.
  intros Hw. unfold get_next_token, text. cbn [v_data v_len]. rewrite take_app_length.
  replace (find_char w SPACE) with (@None nat); [done|]. symmetry.
  induction w as [|x w IH]; [done|]. apply not_elem_of_cons in Hw as [Hx Hw]. cbn.
  destruct (Z.eqb_spec x SPACE); [congruence|]. by rewrite IH.
Qed.

(** ** The separator *)

Lemma find_sub_skip w s p :
  SPACE ∉ w -> find_sub (w ++ s) (SPACE :: p) = Nat.add (length w) <$> find_sub s (SPACE :: p).
Proof.
  induction w as [|c w IH]; intros H; cbn [app length].
  - by destruct (find_sub s _).
  - apply not_elem_of_cons in H as [Hc H]. cbn [find_sub starts_with].
    destruct (Z.eqb_spec SPACE c); [congruence|]. cbn [andb]. rewrite IH by done.
    by destruct (find_sub s _).
Qed.

(** A word that is not a dash, followed by a blank, is not the separator's. *)
Lemma no_separator w rest :
  plain w -> w <> B "-" -> starts_with (SPACE :: w ++ SPACE :: rest) (B " - ") = false.
Proof.
  intros (Hne & Hs & _) Hd. change (B " - ") with [32; 45; 32]. change (B "-") with [45] in Hd.
  destruct w as [|c [|d w]]; [done| |]; cbn [starts_with app]; rewrite Z.eqb_refl; cbn [andb].
  - destruct (Z.eqb_spec 45 c) as [<-|]; [|done]. by contradict Hd.
  - apply not_elem_of_cons in Hs as [_ Hs]. apply not_elem_of_cons in Hs as [Hd' _].
    destruct (Z.eqb_spec 32 d) as [<-|]; [by contradict Hd'|]. by rewrite andb_false_r.
Qed.

Lemma find_separator ws rest :
  ws <> [] -> Forall (fun w => plain w /\ w <> B "-") ws ->
  find_sub (join ws ++ B " - " ++ rest) (B " - ") = Some (length (join ws)).
Proof.
  intros Hne Hws. induction Hws as [|w ws [Hw Hd] Hws IH]; [done|].
  destruct ws as [|w2 ws].
  - cbn [join]. change (B " - ") with (SPACE :: B "- "). rewrite find_sub_skip by apply Hw.
    change (find_sub _ _) with (Some 0%nat). cbn [fmap option_fmap option_map]. f_equal. lia.
  - rewrite join_cons, <- app_assoc by done. cbn [app].
    change (B " - ") with (SPACE :: B "- ") at 2. rewrite find_sub_skip by apply Hw.
    change (SPACE :: B "- ") with (B " - "). cbn [find_sub].
    apply Forall_cons in Hws as [[Hw2 Hd2] Hws].
    assert (Ens : starts_with (SPACE :: join (w2 :: ws) ++ B " - " ++ rest) (B " - ") = false).
    { destruct ws as [|w3 ws]; [by apply no_separator|].
      rewrite join_cons, <- app_assoc by done. by apply no_separator. }
    rewrite Ens, IH by done. cbn [fmap option_fmap option_map]. by rewrite length_app.
Qed.

(** ** Numbers *)

Lemma is_digit_val c : is_digit_of 10 c = true -> is_digit c = true /\ digit_val c = Some (c - 48) /\ 0 <= c - 48.
Proof.
  unfold is_digit_of, digit_val, is_digit.
  destruct ((48 <=? c) && (c <=? 57)) eqn:E1; [apply andb_true_iff in E1 as [? ?]; intros _; repeat split; lia|].
  destruct ((97 <=? c) && (c <=? 102)) eqn:E2; [apply andb_true_iff in E2 as [? ?]; lia|].
  destruct ((65 <=? c) && (c <=? 70)) eqn:E3; [apply andb_true_iff in E3 as [? ?]; lia|done].
Qed.

(** The value a run of digits adds to [v], which only grows. *)
Definition run_val (v : Z) (ds : list Z) : Z := fold_left (fun v c => v * 10 + (c - 48)) ds v.

Lemma run_val_digits v ds :
  Forall (fun c => is_digit_of 10 c = true) ds ->
  run_val v ds = fold_left (fun v c => v * 10 + default 0 (digit_val c)) ds v.
Proof.
  intros H. revert v. induction H as [|c ds Hc _ IH]; intros v; [done|]. cbn.
  destruct (is_digit_val c Hc) as (_ & -> & _). apply IH.
Qed.

Lemma run_val_ge v ds : 0 <= v -> Forall (fun c => is_digit_of 10 c = true) ds -> v <= run_val v ds.
Proof.
  intros Hv H. revert v Hv. induction H as [|c ds Hc _ IH]; intros v Hv; [done|].
  change (run_val v (c :: ds)) with (run_val (v * 10 + (c - 48)) ds).
  destruct (is_digit_val c Hc) as (_ & _ & Hd). specialize (IH (v * 10 + (c - 48)) ltac:(lia)). lia.
Qed.

Definition no_digit (rest : list Z) : Prop := match rest with c :: _ => is_digit c = false | [] => True end.

Lemma atoi_run v ds rest :
  0 <= v -> Forall (fun c => is_digit_of 10 c = true) ds -> no_digit rest -> run_val v ds < 2 ^ 31 ->
  atoi_loop v (ds ++ rest) = Ret (run_val v ds).
Proof.
  intros Hv H Hr. revert v Hv. induction H as [|c ds Hc Hds IH]; intros v Hv Hlt; cbn [app].
  - destruct rest as [|c rest]; [done|]. cbn. by rewrite Hr.
  - destruct (is_digit_val c Hc) as (E & _ & Hd). cbn [atoi_loop]. rewrite E. cbn [run_val fold_left] in Hlt.
    pose proof (run_val_ge (v * 10 + (c - 48)) ds ltac:(lia) Hds) as Hge. unfold run_val in Hge.
    rewrite (proj2 (Z.ltb_lt _ _)) by lia. apply IH; [lia|exact Hlt].
Qed.

Lemma read_uint_run v ds rest :
  0 <= v -> Forall (fun c => is_digit_of 10 c = true) ds -> no_digit rest -> run_val v ds < 2 ^ 32 ->
  read_uint v (ds ++ rest) = (run_val v ds, rest).
Proof.
  intros Hv H Hr. revert v Hv. induction H as [|c ds Hc Hds IH]; intros v Hv Hlt; cbn [app].
  - destruct rest as [|c rest]; [done|]. cbn. by rewrite Hr.
  - destruct (is_digit_val c Hc) as (E & _ & Hd). cbn [read_uint]. rewrite E. cbn [run_val fold_left] in Hlt.
    pose proof (run_val_ge (v * 10 + (c - 48)) ds ltac:(lia) Hds) as Hge. unfold run_val in Hge.
    rewrite uwrap_id by fits. apply IH; [lia|exact Hlt].
Qed.

(** A printed number: its digits, and that it is a plain word. *)
Lemma printed n :
  0 <= n < 2 ^ 64 ->
  Forall (fun c => is_digit_of 10 c = true) (to_string n) /\ run_val 0 (to_string n) = n
  /\ plain (to_string n) /\ to_string n <> B "-".
Proof.
  intros Hn. unfold to_string. destruct (Z.ltb_spec n 0); [lia|].
  destruct (digits_spec 10 20 n ltac:(lia) ltac:(lia) ltac:(lia)) as (Hv & Hd & Hne).
  split; [done|]. split; [by rewrite run_val_digits|]. 
  assert (Hc : forall c, is_digit_of 10 c = false -> c ∉ digits 10 20 n []).
  { intros c Hc Hin. rewrite Forall_forall in Hd. rewrite (Hd c Hin) in Hc. done. }
  repeat split; try done; try (by apply Hc).
  intros E. apply (Hc 45); [done|]. rewrite E. by left.
Qed.

(** ** A printed line is read back *)

Lemma plain_chars ws c :
  Forall plain ws -> c = NL \/ c = 0 -> c ∉ join ws.
Proof.
  intros H Hc. induction H as [|w ws (_ & _ & Hn & H0) _ IH]; [apply not_elem_of_nil|].
  assert (c ∉ w) by (destruct Hc as [-> | ->]; done).
  destruct ws; [done|]. rewrite join_cons by done. rewrite not_elem_of_app, not_elem_of_cons.
  split; [done|]. split; [|done]. by destruct Hc as [-> | ->].
Qed.

Lemma left_plain k : kmount_wf k -> Forall (fun w => plain w /\ w <> B "-") (left_words k).
Proof.
  intros []. destruct (printed (k_id k) ltac:(lia)) as (_ & _ & ? & ?).
  destruct (printed (k_parent k) ltac:(lia)) as (_ & _ & ? & ?).
  destruct (printed (k_major k) ltac:(lia)) as (_ & _ & (M1 & M2 & M3 & M4) & _).
  destruct (printed (k_minor k) ltac:(lia)) as (_ & _ & (N1 & N2 & N3 & N4) & _).
  unfold left_words. do 2 (constructor; [split; assumption|]). constructor; [|assumption].
  split; [split; [intros [E _]%app_nil; exact (M1 E)|rewrite !not_elem_of_app, !not_elem_of_cons; repeat split; (assumption || discriminate)]|].
  intros E. apply (f_equal length) in E. rewrite length_app in E. cbn in E.
  destruct (to_string (k_major k)), (to_string (k_minor k)); cbn in E; try done; lia.
Qed.

Lemma mount_line_chars k c : kmount_wf k -> c = NL \/ c = 0 -> c ∉ mount_line k.
Proof.
  intros Hk Hc. pose proof (left_plain k Hk) as Hl. destruct Hk. unfold mount_line.
  rewrite !not_elem_of_app. split; [|split].
  - apply plain_chars; [|done]. eapply Forall_impl; [exact Hl|]. by intros ? [].
  - destruct Hc as [-> | ->]; vm_decide.
  - by apply plain_chars.
Qed.

(** The data of a number's view starts with its digits. *)
Lemma word_number w ws tail n :
  w = to_string n -> 0 <= n < 2 ^ 31 -> ws <> [] ->
  fast_atoi (join (w :: ws) ++ tail) = Ret n.
Proof.
  intros -> Hn Hne. destruct (printed n ltac:(lia)) as (Hd & Hv & _).
  rewrite join_cons, <- app_assoc by done. unfold fast_atoi. rewrite atoi_run; rewrite ?Hv; try done; lia.
Qed.

Lemma word_device maj min ws tail :
  0 <= maj < 2 ^ 32 -> 0 <= min < 2 ^ 32 -> ws <> [] ->
  parse_device (join ((to_string maj ++ 58 :: to_string min) :: ws) ++ tail) = Some (maj, min).
Proof.
  intros Hj Hm Hne. destruct (printed maj ltac:(lia)) as (Hd & Hv & _).
  destruct (printed min ltac:(lia)) as (Hd' & Hv' & _).
  rewrite join_cons, <- !app_assoc by done. cbn [app]. unfold parse_device.
  rewrite read_uint_run; rewrite ?Hv; try done; [|lia]. rewrite Z.eqb_refl.
  rewrite read_uint_run; rewrite ?Hv'; try done; lia.
Qed.

Lemma take_word w ws tail : ws <> [] -> take (length w) (join (w :: ws) ++ tail) = w.
Proof. intros H. by rewrite join_cons, <- app_assoc, take_app_length. Qed.

Lemma parse_printed k : kmount_wf k -> parse_mount_line (mount_line k) = Ret (Some (info_of k)).
Proof.
  intros Hk. pose proof (left_plain k Hk) as Hl. pose proof (mount_line_chars k 0 Hk (or_intror eq_refl)) as H0.
  assert (Hlp : Forall plain (left_words k)) by (eapply Forall_impl; [exact Hl|]; by intros ? []).
  destruct Hk. unfold parse_mount_line.
  assert (Es : find_sub (mount_line k) (B " - ") = Some (length (join (left_words k)))) by by apply find_separator.
  rewrite Es.
  assert (Ed : drop (length (join (left_words k)) + 3) (mount_line k) = join (right_words k))
    by (unfold mount_line; by rewrite drop_app_add).
  rewrite Ed, (c_str_id (mount_line k)), (c_str_id (join (right_words k))) by (done || (apply plain_chars; auto)).
  clear Es Ed Hl. set (line := mount_line k) at 2.
  assert (El : exists tail, mount_line k = join (left_words k) ++ tail) by by eexists.
  destruct El as [tail ->]. unfold left_words in *. repeat (apply Forall_cons in Hlp as [? Hlp]).
  repeat (apply Forall_cons in wf_right0 as [? wf_right0]).
  assert (P1 : forall w, plain w -> SPACE ∉ w) by by intros w (_ & H' & _).
  do 5 (rewrite next_token_cons by first [apply P1; assumption | discriminate | assumption
                                   | repeat (apply Forall_cons; split; [assumption|]); assumption]).
  unfold right_words in *.
  replace (View (join _) (length (join _))) with
    (View (join (k_type k :: k_source k :: k_super k) ++ []) (length (join (k_type k :: k_source k :: k_super k))))
    by by rewrite app_nil_r.
  do 2 (rewrite next_token_cons by first [apply P1; assumption | discriminate | assumption
                                   | apply Forall_cons; split; assumption]).
  cbn [v_data].
  rewrite (word_number (to_string (k_id k)) _ _ (k_id k)),
    (word_number (to_string (k_parent k)) _ _ (k_parent k)), word_device
    by (discriminate || assumption || reflexivity).
  ostep. unfold text. cbn [v_data v_len].
  rewrite !take_word, !take_app_length by (discriminate || assumption). reflexivity.
Qed.

Lemma strip_nl_line l : strip_nl (l ++ [NL]) = l.
Proof. unfold strip_nl. rewrite rev_app_distr. cbn. by rewrite rev_involutive. Qed.

Lemma parse_text ms :
  Forall kmount_wf ms -> parse_mount_lines (getlines (mount_text ms)) = Ret (map info_of ms).
Proof.
  intros H. unfold mount_text. rewrite getlines_concat.
  - induction H as [|k ms Hk _ IH]; [done|]. cbn [map parse_mount_lines].
    rewrite strip_nl_line, parse_printed by done. ostep. rewrite IH. done.
  - apply Forall_map. eapply Forall_impl; [exact H|]. intros k Hk. apply mount_line_chars; auto.
Qed.

(** ** The mounts found *)

(** The mounts to undo among [ms]: of a module, under the name of the root
    implementation, or from KernelSU's loop device. *)
Definition traces_of (info_flags : Z) (ms : list kmount) : list mount_info :=
  match root_source info_flags with
  | None => []
  | Some (name, is_kernelsu) =>
      let infos := map info_of ms in
      List.filter (should_unmount name (if is_kernelsu : bool then ksu_module_source infos else [])) infos
  end.

(** Children come before the mounts they are mounted on. *)
Definition newest_first : list mount_info -> Prop := StronglySorted (fun a b => id b <= id a).

Section TracesTheorem.
Context {W : Type} `{!World W} {S : Type} `{!StdSort}.

(** When the process's mountinfo is [ms] in the kernel's format,
    check_zygote_traces returns exactly the mounts of [ms] that belong to the
    root implementation, every field as the kernel printed it, with the newest
    mounts first. *)
Theorem traces_exact ms info_flags (s : st W S) r w' :
  Forall kmount_wf ms ->
  sys (CFile (B "/proc/self/mountinfo")) (st_w s) = (r, w') -> r_ret r <> 0 -> r_data r = mount_text ms ->
  exists l s', check_zygote_traces info_flags s = (Ret l, s')
    /\ Permutation l (traces_of info_flags ms) /\ newest_first l.
Proof.
  intros Hms Hsys Hr Hd.
  assert (Hwp : wp (check_zygote_traces info_flags) (fun o _ => exists l, o = Ret l
            /\ Permutation l (traces_of info_flags ms) /\ newest_first l) s).
  { unfold check_zygote_traces, parse_mount_info. wrun. eapply wp_syscall_eq; [exact Hsys|]. wrun.
    rewrite (proj2 (Z.eqb_neq _ _) Hr). wrun. rewrite Hd, parse_text by done. cbn [wp_cont].
    unfold traces_of. destruct (bool_decide_reflect (map info_of ms = [])) as [->|_]; wrun.
    { exists []. split; [done|]. split; [by destruct (root_source _) as [[? []]|]|constructor]. }
    destruct (root_source info_flags) as [[name ksu]|]; wrun; [|exists []; split; [done|]; split; [done|constructor]].
    set (l := List.filter _ _). destruct (bool_decide_reflect (l = [])) as [->|_]; wrun.
    { exists []. split; [done|]. split; [done|constructor]. }
    eexists. split; [done|]. split; [apply std_sort_perm, strict_weak_key_desc|].
    eapply StronglySorted_weaken; [|apply std_sort_sorted, strict_weak_key_desc].
    cbn. intros a b ?%Z.ltb_ge. done. }
  unfold wp in Hwp. destruct (check_zygote_traces info_flags s) as [o s'] eqn:E. cbn in Hwp.
  destruct Hwp as (l & -> & Hl). eauto.
Qed.
End TracesTheorem.

(** A system mount, a module's bind mount and KernelSU's loop device. *)
Definition example_mounts : list kmount :=
  [KMount 21 1 254 1 (B "/") (B "/") [B "ro,relatime"] (B "ext4") (B "/dev/root") [B "ro"];
   KMount 40 21 7 8 (B "/") (B "/data/adb/modules") [B "rw"; B "shared:9"] (B "ext4") (B "/dev/block/loop3") [B "rw"];
   KMount 52 21 7 8 (B "/x/system/app") (B "/system/app") [B "ro"] (B "ext4") (B "/dev/block/loop3") [B "rw"]].

Lemma traces_exact_witness :
  exists l s', check_zygote_traces PROCESS_ROOT_IS_KSU
      (St [Reply 1 0 (mount_text example_mounts) []] [] 0 tt : st script unit) = (Ret l, s')
    /\ Permutation l (traces_of PROCESS_ROOT_IS_KSU example_mounts) /\ newest_first l
    /\ map id (traces_of PROCESS_ROOT_IS_KSU example_mounts) = [40; 52].
Proof.
  edestruct (traces_exact example_mounts PROCESS_ROOT_IS_KSU
     (St [Reply 1 0 (mount_text example_mounts) []] [] 0 tt : st script unit)) as (l & s' & H1 & H2 & H3).
  - unfold example_mounts. repeat constructor; cbn [k_id k_parent k_major k_minor k_opts k_super]; try lia; try discriminate; vm_decide.
  - reflexivity.
  - cbn. lia.
  - reflexivity.
  - exists l, s'. split; [exact H1|]. split; [exact H2|]. split; [exact H3|]. vm_compute. reflexivity.
Defined.
