(* ===== verification/Ptracer.v ===== *)
(** The injector process: attaching to a target, loading the library into it
    by remote calls and letting it go (loader/src/ptracer/ptracer.cpp, and the
    [trace] command of loader/src/ptracer/main.cpp).

    The state holds the daemon client's variables, what
    [kernel_keeps_ptrace_message] remembers and [g_traced_pid]. The log of
    calls tells what was done to the target. *)
From S2P Require Import Prelude Sys Text ProcUtils SocketUtils Daemon Seccomp.
Open Scope Z_scope.

Inductive TraceMode := UNKNOWN | SPAWN | STANDALONE | SYSTEM_SERVER.
#[export] Instance TraceMode_eq_dec : EqDecision TraceMode.
Proof. solve_decision. Defined.
Definition mode_code (m : TraceMode) : Z :=
  match m with UNKNOWN => 0 | SPAWN => 1 | STANDALONE => 2 | SYSTEM_SERVER => 3 end.

Definition PTRACE_ATTACH : Z := 16.
Definition PTRACE_SYSCALL : Z := 24.
Definition PTRACE_O_TRACESECCOMP : Z := 128.
Definition PTRACE_O_EXITKILL : Z := 0x100000.
Definition SIGSEGV : Z := 11.
Definition SIGINT : Z := 2.
Definition SIGTERM : Z := 15.
Definition EIO : Z := 5.
Definition AT_NULL : Z := 0.
Definition AT_ENTRY : Z := 9.

(** The [STOPPED_WITH] macro. *)
Definition STOPPED_WITH (status sig event : Z) : bool :=
  WIFSTOPPED status && (WSTOPSIG status =? sig) && (Z.shiftr status 16 =? event).

Definition process_started (mode : TraceMode) : bool :=
  bool_decide (mode = STANDALONE) || bool_decide (mode = SYSTEM_SERVER).

Record tracer := Tracer { t_daemon : daemon_state; t_keeps : option bool; g_traced_pid : Z }.
Definition set_t_daemon (d : daemon_state) (t : tracer) : tracer := Tracer d (t_keeps t) (g_traced_pid t).
Definition set_t_keeps (k : option bool) (t : tracer) : tracer := Tracer (t_daemon t) k (g_traced_pid t).
Definition set_traced_pid (p : Z) (t : tracer) : tracer := Tracer (t_daemon t) (t_keeps t) p.

(** The device and inode of the injected library in a memory map. *)
Fixpoint library_file (map : list MapInfo) : Z * Z :=
  match map with
  | [] => (0, 0)
  | info :: map' =>
      if negb (mi_inode info =? 0) && contains (mi_path info) (B "libzygisk.so")
      then (mi_dev info, mi_inode info) else library_file map'
  end.

(** Where its mappings start, and their total size. *)
Definition library_block (map : list MapInfo) : Z * Z :=
  let '(lib_dev, lib_inode) := library_file map in
  if lib_inode =? 0 then (0, 0)
  else
    fold_left (fun '(start_addr, block_size) info =>
                 if negb (mi_dev info =? lib_dev) || negb (mi_inode info =? lib_inode)
                 then (start_addr, block_size)
                 else (if start_addr =? 0 then mi_start info else start_addr,
                       u64 (block_size + (mi_end info - mi_start info)))) map (0, 0).

(** The invalid address the entry point is replaced by. *)
Definition break_addr_of (entry_addr : Z) : Z :=
  Z.lor (u64 (Z.land (-0x05ec1cff) (-2))) (Z.land entry_addr 1).

Definition clear_bit0 (x : Z) : Z := Z.land x (2 ^ 64 - 2).

Section Ptracer.
Context {W : Type} `{!World W} (fuel : nat) (A : arch).
Abbreviation K := (M W tracer).

Definition GetTmpPath_ : K (list Z) := t ← get; mret (TMP_PATH (t_daemon t)).

(** A helper of the failed-dlopen branch: asks the target for the message. It
    only reports it. *)
Definition report_dlerror (pid : Z) (rs : regs) (local_map map : list MapInfo) (libc_return_addr : Z)
  : K unit :=
  dlerror_addr ← find_func_addr fuel local_map map (B "libdl.so") (B "dlerror");
  if dlerror_addr =? 0 then mret tt
  else
    '(dlerror_str_addr, _, rs) ← remote_call fuel A pid rs dlerror_addr libc_return_addr [];
    if dlerror_str_addr =? 0 then mret tt
    else
      strlen_addr ← find_func_addr fuel local_map map (B "libc.so") (B "strlen");
      if strlen_addr =? 0 then mret tt
      else
        '(dlerror_len, _, rs) ← remote_call fuel A pid rs strlen_addr libc_return_addr [dlerror_str_addr];
        if dlerror_len <=? 0 then mret tt
        else
          new_chars (u64 (dlerror_len + 1));;
          read_proc pid dlerror_str_addr dlerror_len;;
          mret tt.

Definition execute_remote_injection (pid : Z) (rs : regs) (lib_path : list Z) (mode : TraceMode) : K bool :=
  let rs := match A with
            | AArch64 => <[33%nat := Z.ldiff (reg 33 rs) (Z.shiftl 3 10)]> rs
            | _ => rs
            end in
  map ← Scan (to_string pid);
  local_map ← Scan (B "self");
  let libc_return_addr := find_module_return_addr map (B "libc.so") in
  dlopen_addr ← find_func_addr fuel local_map map (B "libdl.so") (B "dlopen");
  if dlopen_addr =? 0 then mret false
  else
    '(remote_lib_path, rs) ← push_string A pid rs lib_path;
    '(remote_handle, _, rs) ←
      remote_call fuel A pid rs dlopen_addr libc_return_addr [remote_lib_path; RTLD_NOW];
    if remote_handle =? 0 then report_dlerror pid rs local_map map libc_return_addr;; mret false
    else
      dlsym_addr ← find_func_addr fuel local_map map (B "libdl.so") (B "dlsym");
      if dlsym_addr =? 0 then mret false
      else
        '(remote_entry_str, rs) ← push_string A pid rs (B "entry");
        '(injector_entry, _, rs) ←
          remote_call fuel A pid rs dlsym_addr libc_return_addr [remote_handle; remote_entry_str];
        if injector_entry =? 0 then mret false
        else
          map ← Scan (to_string pid);
          let '(start_addr, block_size) := library_block map in
          tmp_path ← GetTmpPath_;
          '(remote_tmp_path, rs) ← push_string A pid rs tmp_path;
          '(_, entry_returned, _) ←
            remote_call fuel A pid rs injector_entry libc_return_addr
              [start_addr; block_size; remote_tmp_path; mode_code mode];
          mret (entry_returned : bool).

(** ** The kernel argument block *)

(** A word of the target; a failed or short read leaves the rest of the
    variable as it was, which is indeterminate. *)
Definition read_into (pid addr : Z) (size : nat) : K (list Z) :=
  old ← syscall (CUninit (Z.of_nat size));
  '(_, data) ← read_proc pid addr (Z.of_nat size);
  mret (take size (data ++ drop (length data) (r_data old))).

(** The null pointer that ends the environment. *)
Fixpoint skip_env (n : nat) (pid p : Z) : K Z :=
  match n with
  | O => out_of_fuel
  | S n' =>
      val ← read_into pid p 8;
      if negb (le_Z val =? 0) then skip_env n' pid (u64 (p + 8)) else mret p
  end.

(** AT_ENTRY: its value and the address of it; zeros if it is missing. *)
Fixpoint find_entry (n : nat) (pid v : Z) : K (Z * Z) :=
  match n with
  | O => out_of_fuel
  | S n' =>
      buf ← read_into pid v 16;
      let a_type := le_Z (take 8 buf) in
      if a_type =? AT_NULL then mret (0, 0)
      else if a_type =? AT_ENTRY then mret (le_Z (drop 8 buf), u64 (v + 8))
      else find_entry n' pid (u64 (v + 16))
  end.

Definition parse_argument_block (pid sp : Z) : K (Z * Z) :=
  argc ← read_into pid sp 4;
  let argv := u64 (sp + 8) in
  let envp := u64 (argv + 8 * (s32 (le_Z argc) + 1)) in
  p ← skip_env fuel pid envp;
  find_entry fuel pid (u64 (p + 8)).

(** ** Injection *)

(** Runs the target up to the trap; [false] on death or another signal. *)
Fixpoint run_to_trap (n : nat) (pid : Z) : K bool :=
  match n with
  | O => out_of_fuel
  | S n' =>
      r ← syscall (CPtrace PTRACE_CONT pid 0 0);
      if r_ret r =? -1 then mret false
      else
        status ← wait_for_trace A fuel pid WALL;
        if WIFEXITED status || WIFSIGNALED status then mret false
        else if WIFSTOPPED status then
          let sig := WSTOPSIG status in
          if sig =? SIGSEGV then mret true
          else if sig =? SIGSTOP then run_to_trap n' pid
          else mret false
        else run_to_trap n' pid
  end.

(** [!write_proc(...)] is true only for 0, so -1 is not a failure here. *)
Definition write_word (pid addr x : Z) : K bool :=
  n ← write_proc pid addr (le_bytes 8 x); mret (negb (n =? 0)).

Definition inject_before_start (pid : Z) (lib_path : list Z) (mode : TraceMode) : K bool :=
  _ ← Scan (to_string pid);
  o ← get_regs A pid;
  match o with
  | None => mret false
  | Some rs =>
      '(entry_addr, addr_of_entry_addr) ← parse_argument_block pid (reg (REG_SP A) rs);
      if entry_addr =? 0 then mret false
      else
        let break_addr := break_addr_of entry_addr in
        ok ← write_word pid addr_of_entry_addr break_addr;
        if negb ok then mret false
        else
          ok ← run_to_trap fuel pid;
          if negb ok then mret false
          else
            o ← get_regs A pid;
            match o with
            | None => mret false
            | Some rs =>
                if negb (clear_bit0 (reg (REG_IP A) rs) =? clear_bit0 break_addr) then mret false
                else
                  ok ← write_word pid addr_of_entry_addr entry_addr;
                  if negb ok then mret false
                  else
                    ok ← execute_remote_injection pid rs lib_path mode;
                    if negb ok then mret false
                    else set_regs A pid (<[REG_IP A := entry_addr]> rs)
            end
  end.

(** The registers with the state of an interrupted system call cleared. *)
Definition leave_syscall (rs : regs) : regs :=
  match A with
  | X86_64 => <[10%nat := 0]> (<[15%nat := u64 (-1)]> rs)
  | AArch64 => <[0%nat := 0]> rs
  | RiscV64 => rs
  end.

Definition inject_after_start (pid : Z) (lib_path : list Z) (mode : TraceMode) : K bool :=
  o ← get_regs A pid;
  match o with
  | None => mret false
  | Some backup =>
      success ← execute_remote_injection pid (leave_syscall backup) lib_path mode;
      ok ← set_regs A pid backup;
      mret (if ok : bool then success else false)
  end.

Definition perform_injection (pid : Z) (mode : TraceMode) : K bool :=
  tmp ← GetTmpPath_;
  let lib_path := tmp ++ B "/lib64/libzygisk.so" in
  if process_started mode then inject_after_start pid lib_path mode
  else inject_before_start pid lib_path mode.

(** ** Attaching and letting go *)

(** The status, or [None] when the wait failed. *)
Definition wait_for_process (pid : Z) : K (option Z) :=
  r ← syscall (CWaitpid pid WALL);
  mret (if r_ret r <? 0 then None else Some (nth 0 (r_aux r) 0)).

Definition arm_seccomp_events (pid options : Z) : K unit :=
  keeps ← zoom t_keeps set_t_keeps kernel_keeps_ptrace_message;
  if negb keeps then mret tt
  else do_ (CPtrace PTRACE_SETOPTIONS pid 0 (Z.lor options PTRACE_O_TRACESECCOMP)).

Definition detach_with_gki_workaround (pid detach_signal : Z) : K bool :=
  r ← syscall (CPtrace PTRACE_SYSCALL pid 0 0);
  if r_ret r =? -1 then do_ (CPtrace PTRACE_DETACH pid 0 detach_signal);; mret false
  else
    o ← wait_for_process pid;
    match o with
    | None => do_ (CPtrace PTRACE_DETACH pid 0 detach_signal);; mret false
    | Some _ =>
        r ← syscall (CPtrace PTRACE_DETACH pid 0 detach_signal);
        mret (negb (r_ret r =? -1))
    end.

Definition bail_and_detach (pid : Z) : K bool := do_ (CPtrace PTRACE_DETACH pid 0 0);; mret false.

(** The signal sequence that wakes a target parked in SIGSTOP. *)
Definition continue_and_detach (pid : Z) : K bool :=
  r ← syscall (CKill pid SIGCONT);
  if r_ret r =? -1 then bail_and_detach pid
  else
    r ← syscall (CPtrace PTRACE_CONT pid 0 0);
    if r_ret r =? -1 then bail_and_detach pid
    else
      o ← wait_for_process pid;
      match o with
      | None => mret false
      | Some status =>
          if STOPPED_WITH status SIGTRAP PTRACE_EVENT_STOP then
            r ← syscall (CPtrace PTRACE_CONT pid 0 0);
            if r_ret r =? -1 then bail_and_detach pid
            else
              o ← wait_for_process pid;
              match o with
              | None => mret false
              | Some status =>
                  if STOPPED_WITH status SIGCONT 0 then detach_with_gki_workaround pid SIGCONT
                  else bail_and_detach pid
              end
          else if STOPPED_WITH status SIGCONT 0 then detach_with_gki_workaround pid SIGCONT
          else bail_and_detach pid
      end.

Definition trace_with_seize (pid : Z) (mode : TraceMode) : K bool :=
  let started := process_started mode in
  let options := if started then 0 else PTRACE_O_EXITKILL in
  r ← syscall (CPtrace PTRACE_SEIZE pid 0 options);
  if r_ret r =? -1 then mret false
  else
    interrupted ← (if started then r ← syscall (CPtrace PTRACE_INTERRUPT pid 0 0); mret (negb (r_ret r =? -1))
                   else mret true);
    if negb interrupted then do_ (CPtrace PTRACE_DETACH pid 0 0);; mret false
    else
      o ← wait_for_process pid;
      match o with
      | None => mret false
      | Some status =>
          let valid_stop :=
            if started then STOPPED_WITH status SIGTRAP PTRACE_EVENT_STOP
            else WIFSTOPPED status && (WSTOPSIG status =? SIGSTOP)
                 && ((Z.shiftr status 16 =? PTRACE_EVENT_STOP) || (Z.shiftr status 16 =? 0)) in
          if valid_stop then
            arm_seccomp_events pid options;;
            injected ← perform_injection pid mode;
            if negb injected then bail_and_detach pid
            else if started then do_ (CPtrace PTRACE_DETACH pid 0 0);; mret true
            else continue_and_detach pid
          else bail_and_detach pid
      end.

Definition trace_with_attach (pid : Z) (mode : TraceMode) : K bool :=
  r ← syscall (CPtrace PTRACE_ATTACH pid 0 0);
  if r_ret r =? -1 then mret false
  else
    o ← wait_for_process pid;
    match o with
    | None => bail_and_detach pid
    | Some status =>
        if WIFSTOPPED status && (WSTOPSIG status =? SIGSTOP) then
          let options := if bool_decide (mode = SPAWN) then PTRACE_O_EXITKILL else 0 in
          (if negb (options =? 0) then do_ (CPtrace PTRACE_SETOPTIONS pid 0 options) else mret tt);;
          arm_seccomp_events pid options;;
          injected ← perform_injection pid mode;
          if negb injected then bail_and_detach pid
          else detach_with_gki_workaround pid SIGCONT
        else bail_and_detach pid
    end.

Definition trace_target (pid : Z) (mode : TraceMode) : K bool :=
  ok ← trace_with_seize pid mode;
  if ok : bool then mret true
  else
    errno ← get_errno;
    if errno =? EIO then trace_with_attach pid mode else mret false.

(** ** The trace command *)

(** [SIGINT] and [SIGTERM] while tracing. *)
Definition handle_interrupt : K unit :=
  t ← get;
  (if 0 <? g_traced_pid t then do_ (CPtrace PTRACE_DETACH (g_traced_pid t) 0 SIGCONT) else mret tt);;
  exit_ 1.

Definition trace_flag (flag : list Z) : option TraceMode :=
  if beq flag (B "--spawn") then Some SPAWN
  else if beq flag (B "--standalone") then Some STANDALONE
  else if beq flag (B "--system_server") then Some SYSTEM_SERVER
  else None.

(** The pid and mode [trace] is asked for; [None] for a usage error. *)
Definition trace_args (argv : list (list Z)) : option (Z * TraceMode) :=
  match argv with
  | _ :: _ :: pid :: rest =>
      let '(pid_val, range_error, end_ptr) := strtol pid in
      if negb (bool_decide (end_ptr = [])) || range_error || (pid_val <=? 0) then None
      else
        match rest with
        | [] => Some (s32 pid_val, UNKNOWN)
        | flag :: _ => mode ← trace_flag flag; Some (s32 pid_val, mode)
        end
  | _ => None
  end.

Definition handle_trace (argv : list (list Z)) : K Z :=
  match trace_args argv with
  | None => mret 1
  | Some (pid, mode) =>
      modify (set_traced_pid pid);;
      do_ (CSignal SIGINT 1);;
      do_ (CSignal SIGTERM 1);;
      (if bool_decide (mode = SPAWN) then zoom t_daemon set_t_daemon (ZygoteRestart fuel) else mret tt);;
      ok ← trace_target pid mode;
      if negb ok then
        do_ (CPtrace PTRACE_DETACH pid 0 SIGCONT);;
        do_ (CKill pid SIGCONT);;
        mret 1
      else modify (set_traced_pid 0);; mret 0
  end.
End Ptracer.

(** ** The target is let go *)

(** Whether the tracer holds [pid]: looking back through the log, an attach the
    kernel granted comes before any detach it granted. *)
Fixpoint held (pid : Z) (log : list event) : bool :=
  match log with
  | [] => false
  | (CPtrace request p _ _, r) :: log' =>
      if (p =? pid) && negb (r_ret r =? -1) then
        if request =? PTRACE_DETACH then false
        else if (request =? PTRACE_SEIZE) || (request =? PTRACE_ATTACH) then true
        else held pid log'
      else held pid log'
  | _ :: log' => held pid log'
  end.

Lemma held_detach pid addr data r log :
  r_ret r <> -1 -> held pid ((CPtrace PTRACE_DETACH pid addr data, r) :: log) = false.
Proof. intros Hr. cbn. by rewrite Z.eqb_refl, (proj2 (Z.eqb_neq _ _) Hr). Qed.

(** The last thing done was a detach of the interrupted target that the kernel
    refused. *)
Definition refused_last (pid : Z) (log : list event) : Prop :=
  exists r log', log = (CPtrace PTRACE_DETACH pid 0 0, r) :: log' /\ r_ret r = -1.

Section Release.
Context {W : Type} `{!World W} (fuel : nat) (A : arch).
Abbreviation K := (M W tracer).

Lemma wp_any {B} (m : K B) s : wp m (fun _ _ => True) s.
Proof. done. Qed.

(** A result of [true] means the target was let go, unless [late] and the kernel
    refused it. *)
Definition frees (late : bool) (pid : Z) (m : K bool) : Prop :=
  forall s, wp m (on_ret (fun b s' => b = true ->
    held pid (st_log s') = false \/ late = true /\ refused_last pid (st_log s'))) s.

Lemma frees_bind {B} late pid (m : K B) f : (forall b, frees late pid (f b)) -> frees late pid (m ≫= f).
Proof. intros H s. wstep. eapply wp_mono; [apply wp_any|]. intros [b| | |] s' _; cbn; [apply H|done..]. Qed.

Lemma frees_false late pid : frees late pid (mret false).
Proof. intros s. by wrun. Qed.

Lemma frees_bail late pid : frees late pid (bail_and_detach pid).
Proof. apply frees_bind. intros _. apply frees_false. Qed.

Lemma frees_gki late pid sig : frees late pid (detach_with_gki_workaround pid sig).
Proof.
  unfold detach_with_gki_workaround. apply frees_bind. intros r. destruct (_ =? -1).
  { apply frees_bind. intros _. apply frees_false. }
  apply frees_bind. intros [status|]; [|apply frees_bind; intros _; apply frees_false].
  intros s. wrun. apply wp_syscall. intros r1 w e. wrun. intros Hr. left. apply held_detach. apply negb_true_iff in Hr.
  by apply Z.eqb_neq.
Qed.

Ltac frees_tac :=
  repeat first
    [ apply frees_false | apply frees_bail | apply frees_gki
    | match goal with |- frees _ _ (if ?b then _ else _) => destruct b end
    | match goal with |- frees _ _ (match ?o with _ => _ end) => destruct o end
    | apply frees_bind; intros ? ].

Lemma frees_continue late pid : frees late pid (continue_and_detach pid).
Proof. unfold continue_and_detach. frees_tac. Qed.

Lemma frees_seize pid mode : frees (process_started mode) pid (trace_with_seize fuel A pid mode).
Proof.
  unfold trace_with_seize. apply frees_bind. intros r. destruct (_ =? -1); [apply frees_false|].
  apply frees_bind. intros i. destruct (negb i); [frees_tac|]. apply frees_bind.
  intros [status|]; [|apply frees_false]. destruct (if process_started mode then _ else _); [|apply frees_bail].
  apply frees_bind. intros _. apply frees_bind. intros injected. destruct (negb injected); [apply frees_bail|].
  destruct (process_started mode); [|apply frees_continue].
  intros s. wrun. apply wp_do. intros r1 w e. wrun. intros _.
  destruct (decide (r_ret r1 = -1)) as [Hr|Hr]; [right; split; [done|]; by eexists _, _|left; by apply held_detach].
Qed.

Lemma frees_attach late pid mode : frees late pid (trace_with_attach fuel A pid mode).
Proof. unfold trace_with_attach. frees_tac. Qed.

Lemma frees_target pid mode : frees (process_started mode) pid (trace_target fuel A pid mode).
Proof.
  intros s. unfold trace_target. wstep. eapply wp_mono; [apply frees_seize|].
  intros [b| | |] s' H; cbn in H; cbn [wp_cont]; [|done..]. destruct b; wrun; [exact H|].
  destruct (_ =? EIO); [apply frees_attach|by wrun].
Qed.

(** C22. When the trace command returns it has let the target go, as far as the
    kernel lets it. A run that reports success does not hold the target: the
    last attach that was granted was followed by a detach that was granted;
    except that after a late injection (standalone or system_server) the final
    detach may have been refused, which the code only reports. A run that
    reports failure ended by detaching the target with SIGCONT and sending it
    SIGCONT, and does not hold it if that detach was granted. *)
Theorem target_released argv pid mode (s s' : st W tracer) code :
  trace_args argv = Some (pid, mode) ->
  handle_trace fuel A argv s = (Ret code, s') ->
  (code = 0 /\ (held pid (st_log s') = false \/ process_started mode = true /\ refused_last pid (st_log s')))
  \/ (code = 1 /\ exists r1 r2 log,
        st_log s' = (CKill pid SIGCONT, r2) :: (CPtrace PTRACE_DETACH pid 0 SIGCONT, r1) :: log
        /\ (r_ret r1 <> -1 -> held pid (st_log s') = false)).
Proof.
  intros Ea. wp_of_run. unfold handle_trace. rewrite Ea. wrun.
  apply wp_do. intros. wrun. apply wp_do. intros. wrun. eapply wp_mono; [apply wp_any|].
  intros [[]| | |] s1 _; cbn; try done. wrun. eapply wp_mono; [apply (frees_target pid mode)|].
  intros [b| | |] s2 H; cbn in H; cbn [wp_cont]; [|done..]. destruct b; cbn [negb]; wrun.
  - left. split; [done|by apply H].
  - apply wp_do. intros. wrun. apply wp_do. intros. wrun. right. split; [done|].
    eexists _, _, _. split; [done|]. intros Hr. exact (held_detach pid 0 SIGCONT _ _ Hr).
Qed.

(** ** A running target gets its registers back *)

(** C38. However a late injection goes, once the registers of the running
    target were read its last act is to set exactly those registers again, and
    it reports success only if the kernel accepted them. *)
Theorem late_injection_restores pid lib_path mode (s s' : st W tracer) b :
  inject_after_start fuel A pid lib_path mode s = (Ret b, s') ->
  let r0 := (sys (get_regs_call A pid) (st_w s)).1 in
  if r_ret r0 =? -1 then b = false /\ st_log s' = (get_regs_call A pid, r0) :: st_log s
  else exists r log, st_log s' = (set_regs_call A pid (r_aux r0), r) :: log /\ (b = true -> r_ret r <> -1).
Proof.
  wp_of_run. unfold inject_after_start, get_regs. fold (get_regs_call A pid). wrun. wsys r0 w0 E0. wrun.
  cbn [fst]. destruct (Z.eqb_spec (r_ret r0) (-1)) as [Hr|Hr]; wrun; [done|].
  eapply wp_mono; [apply wp_any|]. intros [success| | |] s1 _; cbn; try done.
  unfold set_regs. fold (set_regs_call A pid (r_aux r0)). wrun. apply wp_syscall. intros r w e. wrun.
  eexists r, _. split; [done|]. destruct (Z.eqb_spec (r_ret r) (-1)); cbn; [done|auto].
Qed.
End Release.

(** ** The calls made inside the target *)

Section Sequence.
Context {W : Type} `{!World W} (fuel : nat) (A : arch).
Abbreviation K := (M W tracer).

Lemma calls_only_scan pid : calls_only (Scan pid : K (list MapInfo)).
Proof. unfold Scan. calls_only_tac. Qed.

Lemma calls_only_read_whole n fd remaining file :
  calls_only (read_whole n fd remaining file : K (option (list Z))).
Proof.
  revert remaining file. induction n as [|n IH]; intros; cbn [read_whole]; calls_only_tac; auto.
Qed.
#[local] Hint Resolve calls_only_read_whole : calls_only.

Lemma calls_only_find_func local map module func :
  calls_only (find_func_addr fuel local map module func : K Z).
Proof.
  unfold find_func_addr, find_func_addr_from_loaded_module, find_func_addr_from_file_module,
    find_symbol_offset_from_file, do_. calls_only_tac.
Qed.

Lemma calls_only_wait n pid flags : calls_only (wait_for_trace A n pid flags : K Z).
Proof.
  induction n as [|n IH]; cbn [wait_for_trace]; unfold tracee_skip_syscall, get_regs, set_regs, do_;
    calls_only_tac; exact IH.
Qed.
#[local] Hint Resolve calls_only_wait : calls_only.

Lemma calls_only_remote pid rs func_addr return_addr args :
  calls_only (remote_call fuel A pid rs func_addr return_addr args : K (Z * bool * regs)).
Proof.
  unfold remote_call, push_stack_args, set_return_addr, set_regs, get_regs, write_proc, do_. calls_only_tac.
Qed.

(** From [log] to [log'] one write of the string was made, and [addr] is where
    it went, or null if the write fell short: the code passes that on. *)
Definition pushed (pid addr : Z) (str : list Z) (log log' : list event) : Prop :=
  exists to r, log' = (CVmWrite pid to (str ++ [0]), r) :: log
    /\ addr = if r_ret r =? Z.of_nat (length str) + 1 then to else 0.

Lemma push_string_pushed pid rs str s :
  wp (push_string A pid rs str : K (Z * regs))
    (on_ret (fun x s' => st_s s' = st_s s /\ pushed pid x.1 str (st_log s) (st_log s'))) s.
Proof.
  unfold push_string, write_proc. wrun. apply wp_syscall. intros r w e. wrun.
  destruct (Z.eqb_spec (r_ret r) (Z.of_nat (length str) + 1)) as [E|E]; cbn [negb]; wrun;
    (split; [done|]; eexists _, r; split; [done|]).
  - by rewrite E, Z.eqb_refl.
  - by rewrite (proj2 (Z.eqb_neq _ _) E).
Qed.

(** A remote call whose result is used was made and returned. *)
Lemma remote_call_made lr pid rs func_addr return_addr args (s : st W tracer) :
  REG_LINK A = Some lr -> (length args <= length (arg_regs A))%nat ->
  wp (remote_call fuel A pid rs func_addr return_addr args)
    (on_ret (fun x s' => st_s s' = st_s s /\ (x.1.1 <> 0 \/ x.1.2 = true ->
       returned A pid rs func_addr return_addr args lr x.1.1 (st_log s) (st_log s')))) s.
Proof.
  intros El Ha. eapply wp_mono; [apply wp_and; [by apply (remote_call_calls fuel A lr)|apply calls_only_remote]|].
  intros [[[v ok] rs']| | |] s' [H1 [H3 _]]; cbn in *; try done. split; [done|].
  destruct H1 as [H1 H2], ok.
  - intros _. by apply H1.
  - intros [Hv|]; [|done]. destruct Hv. by apply H2.
Qed.

(** Runs a step of [calls_only] code, with the equation of its run. *)
Lemma wp_calls {B C} (m : K B) (f : B -> K C) (Q : C -> st W tracer -> Prop) s :
  calls_only m ->
  (forall x s1, m s = (Ret x, s1) -> st_s s1 = st_s s -> wp (f x) (on_ret Q) s1) ->
  wp (m ≫= f) (on_ret Q) s.
Proof.
  intros Hm H. wstep. pose proof (Hm s) as [Hs _]. unfold wp at 1. unfold wp in Hs.
  destruct (m s) as [[x| | |] s1] eqn:E; cbn [wp_cont on_ret fst snd] in *; try done. by apply H.
Qed.

Ltac step_push x rs1 s1 Es P :=
  try wstep; eapply wp_mono; [apply push_string_pushed|];
  intros [[x rs1]| | |] s1 Es; cbn [wp_cont on_ret] in *; try done; destruct Es as (Es & P).

Ltac step_remote Ha x ok rs1 s1 Es R :=
  wstep; eapply wp_mono; [eapply remote_call_made; [eassumption|apply Ha; cbn; lia]|];
  intros [[[x ok] rs1]| | |] s1 Es; cbn [wp_cont on_ret] in *; try done; destruct Es as (Es & R).

(** C23. An injection that reports success made three calls inside the target,
    in this order, each of which ran to the fake return address in libc: dlopen,
    at the address looked up for it, of the library with RTLD_NOW; dlsym, at
    the address looked up for it, of "entry" with the handle dlopen returned,
    not null; and the function dlsym returned, not null, with the start and the
    size of the library's mappings as scanned after it was loaded, the work
    directory and the mode. The string argument of each call was written just
    before it; a write that falls short is not noticed, the call is then made
    with a null pointer. *)
Theorem injection_sequence lr pid rs lib_path mode (s s' : st W tracer) :
  REG_LINK A = Some lr ->
  execute_remote_injection fuel A pid rs lib_path mode s = (Ret true, s') ->
  exists rmap lmap map2 dlopen dlsym handle entry res rs1 rs2 rs3 path name tmp
    (s1 s2 s3 s4 s5 s6 s7 s8 s9 s10 : st W tracer),
    let ret := find_module_return_addr rmap (B "libc.so") in
    Scan (to_string pid) s = (Ret rmap, s1)
    /\ Scan (B "self") s1 = (Ret lmap, s2)
    /\ find_func_addr fuel lmap rmap (B "libdl.so") (B "dlopen") s2 = (Ret dlopen, s3)
    /\ pushed pid path lib_path (st_log s3) (st_log s4)
    /\ returned A pid rs1 dlopen ret [path; RTLD_NOW] lr handle (st_log s4) (st_log s5)
    /\ handle <> 0
    /\ find_func_addr fuel lmap rmap (B "libdl.so") (B "dlsym") s5 = (Ret dlsym, s6)
    /\ pushed pid name (B "entry") (st_log s6) (st_log s7)
    /\ returned A pid rs2 dlsym ret [handle; name] lr entry (st_log s7) (st_log s8)
    /\ entry <> 0
    /\ Scan (to_string pid) s8 = (Ret map2, s9)
    /\ pushed pid tmp (TMP_PATH (t_daemon (st_s s))) (st_log s9) (st_log s10)
    /\ returned A pid rs3 entry ret [(library_block map2).1; (library_block map2).2; tmp; mode_code mode]
         lr res (st_log s10) (st_log s').
Proof.
  intros El E. pattern s'.
  match goal with |- ?P s' => refine (wp_on_ret _ (fun b s0 => b = true -> P s0) _ _ _ _ E eq_refl) end.
  clear E s'. cbv beta.
  assert (Ha : forall n, (n <= 4)%nat -> (n <= length (arg_regs A))%nat) by (destruct A; cbn; lia).
  unfold execute_remote_injection. set (rs0 := match A with AArch64 => _ | _ => _ end).
  apply wp_calls; [apply calls_only_scan|]. intros rmap s1 E1 Es1.
  apply wp_calls; [apply calls_only_scan|]. intros lmap s2 E2 Es2.
  apply wp_calls; [apply calls_only_find_func|]. intros dlopen s3 E3 Es3.
  destruct (dlopen =? 0); [by wrun|].
  step_push path rs1 s4 Es4 P4. step_remote Ha handle ok rs2 s5 Es5 R5.
  destruct (Z.eqb_spec handle 0) as [|Hh].
  { wstep. eapply wp_mono; [apply wp_any|]. intros [[]| | |] ? _; cbn; try done. }
  apply wp_calls; [apply calls_only_find_func|]. intros dlsym s6 E6 Es6.
  destruct (dlsym =? 0); [by wrun|].
  step_push name rs3 s7 Es7 P7. step_remote Ha entry ok2 rs4 s8 Es8 R8.
  destruct (Z.eqb_spec entry 0) as [|He]; [by wrun|].
  apply wp_calls; [apply calls_only_scan|]. intros map2 s9 E9 Es9.
  destruct (library_block map2) as [start size] eqn:Eb. unfold GetTmpPath_. wrun.
  step_push tmp rs5 s10 Es10 P10. step_remote Ha res ok3 rs6 s11 Es11 R11.
  wrun. intros Eok.
  exists rmap, lmap, map2, dlopen, dlsym, handle, entry, res, rs1, rs3, rs5, path, name, tmp,
    s1, s2, s3, s4, s5, s6, s7, s8, s9, s10. cbn zeta.
  replace (st_s s9) with (st_s s) in P10 by congruence. cbn [fst] in *. rewrite Eb.
  split_and!; try done; [apply R5; by left|apply R8; by left|apply R11; by right].
Qed.
End Sequence.

(** ** The argument block *)

(** A world whose target [pid] has a memory that reads see and nothing else
    here changes. *)
Class TraceeMem (W : Type) `{!World W} (pid : Z) := {
  peek : W -> Z -> nat -> option (list Z);
  peek_read w a n bs :
    peek w a n = Some bs -> exists r w', sys (CVmRead pid a (Z.of_nat n)) w = (r, w')
      /\ r_data r = bs /\ length bs = n /\ (forall a' n', peek w' a' n' = peek w a' n');
  peek_uninit w n : forall a' n', peek (sys (CUninit n) w).2 a' n' = peek w a' n' }.

(** The words at [a], one after the other. *)
Fixpoint words_at {W} `{!World W} {pid} `{!TraceeMem W pid} (w : W) (a : Z) (ws : list Z) : Prop :=
  match ws with
  | [] => True
  | x :: ws' => peek w a 8 = Some (le_bytes 8 x) /\ words_at w (a + 8) ws'
  end.

(** The auxiliary vector: pairs of a type and a value. *)
Fixpoint aux_at {W} `{!World W} {pid} `{!TraceeMem W pid} (w : W) (a : Z) (aux : list (Z * Z)) : Prop :=
  match aux with
  | [] => True
  | (t, v) :: aux' => peek w a 16 = Some (le_bytes 8 t ++ le_bytes 8 v) /\ aux_at w (a + 16) aux'
  end.

(** The first AT_ENTRY before the end of the vector that starts at [a]: its
    value and where it is. *)
Fixpoint entry_of (a : Z) (aux : list (Z * Z)) : Z * Z :=
  match aux with
  | [] => (0, 0)
  | (t, v) :: aux' =>
      if t =? AT_NULL then (0, 0) else if t =? AT_ENTRY then (v, a + 8) else entry_of (a + 16) aux'
  end.

(** The block the kernel leaves at the stack pointer of a new process: the
    number of arguments, their pointers, a null pointer, the environment, a
    null pointer, the auxiliary vector. *)
Record block := Block { b_args : list Z; b_env : list Z; b_aux : list (Z * Z) }.
Definition env_at (b : block) (sp : Z) : Z := sp + 8 + 8 * (Z.of_nat (length (b_args b)) + 1).
Definition auxv_at (b : block) (sp : Z) : Z := env_at b sp + 8 * Z.of_nat (length (b_env b)) + 8.
Record block_wf (b : block) (sp : Z) : Prop := {
  bw_args : Z.of_nat (length (b_args b)) < 2 ^ 31;
  bw_env : Forall (fun p => 0 < p < 2 ^ 64) (b_env b);
  bw_aux : Forall (fun '(t, v) => 0 <= t < 2 ^ 64 /\ 0 <= v < 2 ^ 64) (b_aux b);
  bw_end : exists v, last (b_aux b) = Some (AT_NULL, v);
  bw_room : 0 <= sp /\ auxv_at b sp + 16 * Z.of_nat (length (b_aux b)) < 2 ^ 64 }.
Definition block_at {W} `{!World W} {pid} `{!TraceeMem W pid} (w : W) (b : block) (sp : Z) : Prop :=
  peek w sp 4 = Some (le_bytes 4 (Z.of_nat (length (b_args b))))
  /\ words_at w (env_at b sp) (b_env b ++ [0]) /\ aux_at w (auxv_at b sp) (b_aux b).

Section ArgumentBlock.
Context {W : Type} `{!World W} (fuel : nat) (pid : Z) `{!TraceeMem W pid}.
Abbreviation K := (M W tracer).
Definition same_peek (w w' : W) : Prop := forall a n, peek w' a n = peek w a n.

Lemma words_at_same w w' a ws : same_peek w w' -> words_at w a ws -> words_at w' a ws.
Proof. intros H. revert a. induction ws as [|x ws IH]; intros a; [done|]. cbn. rewrite H. intros []; auto. Qed.

Lemma aux_at_same w w' a aux : same_peek w w' -> aux_at w a aux -> aux_at w' a aux.
Proof.
  intros H. revert a. induction aux as [|[t v] aux IH]; intros a; [done|]. cbn. rewrite H. intros []; auto.
Qed.

Lemma wp_read_into a n bs (Q : outcome (list Z) -> st W tracer -> Prop) s :
  peek (st_w s) a n = Some bs ->
  (forall s', same_peek (st_w s) (st_w s') -> Q (Ret bs) s') ->
  wp (read_into pid a n) Q s.
Proof.
  intros Hp HQ. unfold read_into, read_proc. wrun. wsys r0 w0 E0.
  assert (Hw0 : same_peek (st_w s) w0) by (intros a' n'; rewrite <- (peek_uninit (st_w s) (Z.of_nat n)), E0; done).
  wrun. destruct (peek_read w0 a n bs) as (r & w' & Er & Hd & Hl & Hw'); [by rewrite Hw0|].
  eapply wp_syscall_eq; [exact Er|]. wrun. rewrite Hd, take_app_length' by done. apply HQ.
  intros a' n'. cbn. by rewrite Hw', Hw0.
Qed.

Lemma skip_env_exact n a env s :
  Forall (fun p => 0 < p < 2 ^ 64) env -> words_at (st_w s) a (env ++ [0]) ->
  0 <= a -> a + 8 * Z.of_nat (length env) < 2 ^ 64 -> (length env < n)%nat ->
  wp (skip_env n pid a)
    (fun o s' => o = Ret (a + 8 * Z.of_nat (length env)) /\ same_peek (st_w s) (st_w s')) s.
Proof.
  intros Hf. revert n a s. induction Hf as [|p env Hp Hf IH]; intros n a s Hw Ha Hlt Hn;
    (destruct n as [|n]; [lia|]); cbn [skip_env app words_at] in *; destruct Hw as [Hw1 Hw2];
    wstep; eapply wp_read_into; [exact Hw1| |exact Hw1|]; intros s1 H1; cbn [wp_cont];
    rewrite le_Z_bytes, Z.mod_small by (cbn; lia).
  - wrun. cbn [length]. rewrite Z.add_0_r. done.
  - destruct (Z.eqb_spec p 0); [lia|]. cbn [negb]. cbn [length] in *. rewrite uwrap_id by fits.
    eapply wp_mono; [apply IH; [by eapply words_at_same|lia..]|].
    intros o s2 [-> H2]. split; [f_equal; lia|]. intros a' n'. by rewrite H2, H1.
Qed.

Lemma find_entry_exact n a aux s v0 :
  Forall (fun '(t, v) => 0 <= t < 2 ^ 64 /\ 0 <= v < 2 ^ 64) aux -> aux_at (st_w s) a aux ->
  last aux = Some (AT_NULL, v0) -> 0 <= a -> a + 16 * Z.of_nat (length aux) < 2 ^ 64 ->
  (length aux <= n)%nat -> wp (find_entry n pid a) (fun o _ => o = Ret (entry_of a aux)) s.
Proof.
  intros Hf. revert n a s. induction Hf as [|[t v] aux [Ht Hv] Hf IH]; intros n a s Hw Hlast Ha Hlt Hn; [done|].
  destruct n as [|n]; [cbn in Hn; lia|]. cbn [find_entry aux_at entry_of] in *. destruct Hw as [Hw1 Hw2].
  wstep. eapply wp_read_into; [exact Hw1|]. intros s1 H1. cbn [wp_cont].
  rewrite take_app_length', drop_app_length' by (by rewrite length_le_bytes).
  rewrite !le_Z_bytes, !Z.mod_small by (cbn; lia). cbn [length] in *.
  destruct (Z.eqb_spec t AT_NULL) as [->|Hne]; [by wrun|]. rewrite !uwrap_id by fits.
  destruct (t =? AT_ENTRY); [by wrun|]. eapply IH; try lia; [by eapply aux_at_same|].
  destruct aux; [cbn in Hlast; congruence|done].
Qed.

(** On the argument block the kernel builds for a new process, with any
    number of arguments and environment strings, the search ends after at most
    as many steps as there are entries and returns the value of AT_ENTRY and
    the address it is stored at, or zeros when the vector has none. *)
Theorem argument_block_exact b sp (s : st W tracer) :
  block_wf b sp -> block_at (st_w s) b sp ->
  (length (b_env b) < fuel)%nat -> (length (b_aux b) <= fuel)%nat ->
  exists s', parse_argument_block fuel pid sp s = (Ret (entry_of (auxv_at b sp) (b_aux b)), s').
Proof.
  intros [Hargs Henv Haux [v0 Hend] [Hsp Hroom]] (H1 & H2 & H3) Hf1 Hf2.
  unfold auxv_at, env_at in Hroom.
  cut (wp (parse_argument_block fuel pid sp) (fun o _ => o = Ret (entry_of (auxv_at b sp) (b_aux b))) s).
  { unfold wp. destruct (parse_argument_block fuel pid sp s) as [o s'] eqn:E. cbn. intros ->. eauto. }
  unfold parse_argument_block. wstep. eapply wp_read_into; [exact H1|]. intros s1 Hs1. cbn [wp_cont].
  rewrite le_Z_bytes, Z.mod_small by (cbn; lia). rewrite swrap_id by (lia || (unfold fits_s; lia)).
  rewrite (uwrap_id 64 (sp + 8)) by fits. rewrite uwrap_id by fits.
  wstep. eapply wp_mono; [apply (skip_env_exact fuel (env_at b sp) (b_env b)); try done|].
  { by eapply words_at_same. }
  1-2: unfold env_at; lia.
  intros o s2 [-> Hs2]. cbn [wp_cont]. rewrite uwrap_id by (unfold fits_u, env_at; lia).
  fold (auxv_at b sp). eapply find_entry_exact; try done; try (unfold auxv_at, env_at; lia).
  eapply aux_at_same; [|exact H3]. intros a n. by rewrite Hs2, Hs1.
Qed.
End ArgumentBlock.

(** ** Two paths that do not do what they say *)

(** A write to the target that failed is not noticed: the callers test the
    result for 0, and a failure is -1. The message that the entry point could
    not be restored is never printed. *)
Theorem failed_write_unnoticed {W} `{!World W} pid addr x (s : st W tracer) :
  r_ret (sys (CVmWrite pid addr (le_bytes 8 x)) (st_w s)).1 = -1 ->
  exists s', write_word pid addr x s = (Ret true, s').
Proof.
  intros Hr. cut (wp (write_word pid addr x) (fun o _ => o = Ret true) s).
  { unfold wp. destruct (write_word pid addr x s) as [o s'] eqn:E. cbn. intros ->. eauto. }
  unfold write_word, write_proc. wrun. destruct (sys _ (st_w s)) as [r w] eqn:E.
  eapply wp_syscall_eq; [exact E|]. wrun. cbn in Hr. by rewrite Hr.
Qed.

(** ** A target to run against *)

(** A stopped AArch64 process: its registers, a stretch of memory, and what a
    function called in it returns. To continue it is to run such a function:
    it stops with SIGSEGV at the address in the link register. *)
Record target := Target { g_regs : regs; g_base : Z; g_mem : list Z; g_ret : Z }.
Definition set_g_regs (rs : regs) (g : target) : target := Target rs (g_base g) (g_mem g) (g_ret g).

Definition target_peek (g : target) (a : Z) (n : nat) : option (list Z) :=
  if (g_base g <=? a) && (a + Z.of_nat n <=? g_base g + Z.of_nat (length (g_mem g)))
  then Some (take n (drop (Z.to_nat (a - g_base g)) (g_mem g))) else None.

Definition target_maps : list Z :=
  B "7000-8000 r-xp 00000000 fe:01 10 /apex/lib64/bionic/libdl.so" ++ [NL]
  ++ B "9000-a000 r--p 00000000 fe:01 11 /apex/lib64/bionic/libc.so" ++ [NL]
  ++ B "b000-c000 r-xp 00000000 fe:01 12 /data/adb/lib64/libzygisk.so" ++ [NL].

#[export] Instance target_world : World target := fun c g =>
  match c with
  | CFile _ => (Reply 1 0 target_maps [], g)
  | CDlopen _ _ => (ans 1, g)
  | CDlsym _ name => (ans (0x7000 + Z.of_nat (length name)), g)
  | CPtraceRegs request _ _ rs =>
      if request =? PTRACE_GETREGSET then (Reply 0 0 [] (g_regs g), g) else (ans 0, set_g_regs rs g)
  | CPtrace request _ _ _ =>
      (ans 0, if request =? PTRACE_CONT
              then set_g_regs (<[0%nat := g_ret g]> (<[32%nat := reg 30 (g_regs g)]> (g_regs g))) g else g)
  | CWaitpid pid _ => (Reply pid 0 [] [0x0b7f], g)
  | CVmWrite _ _ bs => (ans (Z.of_nat (length bs)), g)
  | CVmRead _ a n =>
      match target_peek g a (Z.to_nat n) with
      | Some bs => (Reply n 0 bs [], g)
      | None => (Reply (-1) 14 [] [], g)
      end
  | _ => (ans 0, g)
  end.

#[export] Instance target_mem pid : TraceeMem target pid.
Proof.
  refine {| peek := target_peek |}.
  - intros g a n bs H. cbn -[target_peek]. rewrite Nat2Z.id, H. eexists _, g. split; [done|]. split; [done|].
    split; [|done]. unfold target_peek in H. case_match eqn:Hc; [|done]. injection H as <-.
    rewrite length_take, length_drop. lia.
  - done.
Defined.

(** Two arguments, three environment strings and a vector of three entries,
    at 0x1000. *)
Definition example_block : block :=
  Block [0x2000; 0x2010] [0x2020; 0x2030; 0x2040] [(6, 4096); (AT_ENTRY, 0x5554); (AT_NULL, 0)].
Definition block_bytes (b : block) : list Z :=
  le_bytes 8 (Z.of_nat (length (b_args b))) ++ word_bytes (b_args b ++ [0]) ++ word_bytes (b_env b ++ [0])
  ++ concat (map (fun '(t, v) => le_bytes 8 t ++ le_bytes 8 v) (b_aux b)).
Definition new_process (ret : Z) : target :=
  Target (replicate 30 0 ++ [break_addr_of 0x5554; 0x1000; 0x4444; 0]) 0x1000 (block_bytes example_block) ret.
Definition idle : tracer := Tracer (DaemonSt (B "/data/adb/zygisk") 0 false) None 0.

Lemma argument_block_exact_witness :
  exists s', parse_argument_block 4 100 0x1000 (St (new_process 7) [] 0 idle)
    = (Ret (0x5554, 0x1000 + 88), s').
Proof.
  apply (argument_block_exact 4 100 example_block 0x1000 (St (new_process 7) [] 0 idle)).
  - split; [vm_compute; reflexivity|repeat (constructor; [unfold AT_ENTRY, AT_NULL; cbn; lia|]); constructor..|by exists 0|].
    unfold auxv_at, env_at; cbn; lia.
  - vm_compute. repeat split.
  - cbn. lia.
  - cbn. lia.
Defined.

(** The same target, injected. *)
Definition ready : st target tracer := St (new_process 0xb120) [] 0 idle.
Definition example_lib : list Z := B "/data/adb/zygisk/lib64/libzygisk.so".

Lemma injection_sequence_witness :
  exists s' rmap s1 rs1 path dlopen handle (s3 s4 s5 : st target tracer),
    execute_remote_injection 4 AArch64 100 (g_regs (new_process 7)) example_lib SPAWN ready = (Ret true, s')
    /\ Scan (to_string 100) ready = (Ret rmap, s1)
    /\ pushed 100 path example_lib (st_log s3) (st_log s4)
    /\ returned AArch64 100 rs1 dlopen (find_module_return_addr rmap (B "libc.so")) [path; RTLD_NOW] 30 handle
         (st_log s4) (st_log s5)
    /\ handle <> 0.
Proof.
  destruct (injection_sequence 4 AArch64 30 100 (g_regs (new_process 7)) example_lib SPAWN ready
     (execute_remote_injection 4 AArch64 100 (g_regs (new_process 7)) example_lib SPAWN ready).2)
    as (rmap & lmap & map2 & dlopen & dlsym & handle & entry & res & rs1 & rs2 & rs3 & path & name & tmp
        & s1 & s2 & s3 & s4 & s5 & s6 & s7 & s8 & s9 & s10 & H1 & _ & _ & H4 & H5 & H6 & _);
    [reflexivity|vm_compute; reflexivity|].
  eexists _, rmap, s1, rs1, path, dlopen, handle, s3, s4, s5. split; [vm_compute; reflexivity|].
  split; [exact H1|]. split; [exact H4|]. split; [exact H5|exact H6].
Defined.

Lemma late_injection_restores_witness :
  exists s' r log, inject_after_start 4 AArch64 100 example_lib SYSTEM_SERVER ready = (Ret true, s')
    /\ st_log s' = (set_regs_call AArch64 100 (g_regs (new_process 0xb120)), r) :: log /\ r_ret r <> -1.
Proof.
  destruct (late_injection_restores 4 AArch64 100 example_lib SYSTEM_SERVER ready
     (inject_after_start 4 AArch64 100 example_lib SYSTEM_SERVER ready).2 true)
    as (r & log & H1 & H2); [vm_compute; reflexivity|].
  eexists _, r, log. split; [vm_compute; reflexivity|]. split; [exact H1|exact (H2 eq_refl)].
Defined.

(** A target that stops with SIGSEGV, which no mode expects: it is let go. *)
Definition trace_argv : list (list Z) := [B "zygiskd-ptrace64"; B "trace"; B "100"].

Lemma target_released_witness :
  exists s' r1 r2 log, handle_trace 4 AArch64 trace_argv ready = (Ret 1, s')
    /\ st_log s' = (CKill 100 SIGCONT, r2) :: (CPtrace PTRACE_DETACH 100 0 SIGCONT, r1) :: log
    /\ (r_ret r1 <> -1 -> held 100 (st_log s') = false) /\ r_ret r1 <> -1.
Proof.
  destruct (target_released 4 AArch64 trace_argv 100 UNKNOWN ready
     (handle_trace 4 AArch64 trace_argv ready).2 1) as [[H0 _]|(_ & r1 & r2 & log & H1 & H2)];
    [vm_compute; reflexivity|vm_compute; reflexivity|discriminate|].
  eexists _, r1, r2, log. split; [vm_compute; reflexivity|]. split; [exact H1|]. split; [exact H2|].
  vm_compute in H1. injection H1 as _ <- _. discriminate.
Defined.

(** An early injection that fails leaves the target where the last remote call
    left it: the call that could not load the library has returned, and the
    program counter is the fake return address, not the entry point that
    [inject_after_start]'s comment says must be put back. *)
Theorem early_injection_strands :
  exists s', inject_before_start 4 AArch64 100 example_lib SPAWN (St (new_process 0) [] 0 idle) = (Ret false, s')
    /\ reg (REG_IP AArch64) (g_regs (st_w s')) = 0x9000.
Proof. eexists. split; vm_compute; reflexivity. Qed.
