(* ===== verification/Cli.v ===== *)
(** The command line: the [monitor], [trace] and [ctl] commands
    (loader/src/ptracer/main.cpp).

    The state is the injector's (Ptracer.v). The monitor is an object of its
    own that lives in [init_monitor]; it shares the daemon client's variables.
    What is printed is left out. *)
From S2P Require Import Prelude Sys Text ProcUtils SocketUtils Daemon ModuleProp Monitor Ptracer.
Open Scope Z_scope.

Definition kWorkDirectory : list Z := B "/data/adb/nyazygisk".
Definition SOCK_DGRAM_CLOEXEC : Z := 0x80002.
Definition ENOENT : Z := 2.
Definition ECONNREFUSED : Z := 111.
Definition kRetries : nat := 10.
Definition kRetryDelayUs : Z := 200 * 1000.

(** The path in the address: what [snprintf] leaves of it. *)
Definition control_socket_addr (d : daemon_state) : list Z :=
  take 107 (c_str (TMP_PATH d) ++ B "/" ++ SOCKET_NAME).

Definition command_code (c : Command) : Z :=
  match c with
  | START => 1 | STOP => 2 | EXIT => 3 | ZYGOTE_INJECTED => 4 | DAEMON_SET_INFO => 5
  | DAEMON_SET_ERROR_INFO => 6 | SYSTEM_SERVER_STARTED => 7 | REARM => 8 | CmdOther n => n
  end.

Definition ctl_action (action : list Z) : option Command :=
  if beq action (B "start") then Some START
  else if beq action (B "stop") then Some STOP
  else if beq action (B "exit") then Some EXIT
  else if beq action (B "rearm") then Some REARM
  else None.

Section Cli.
Context {W : Type} `{!World W} (fuel : nat) (A : arch).
Context (module_dir : list Z) (sys_signame : Z -> list Z).
Abbreviation K := (M W tracer).

Definition monitor_is_running : K bool :=
  r ← syscall (CSocket PF_UNIX SOCK_DGRAM_CLOEXEC 0);
  let sockfd := r_ret r in
  if sockfd =? -1 then mret false
  else
    t ← get;
    r ← syscall (CConnect sockfd (control_socket_addr (t_daemon t)));
    do_ (CClose sockfd);;
    mret (r_ret r =? 0).

Definition init_monitor (n : nat) : K unit :=
  running ← monitor_is_running;
  if running : bool then mret tt
  else
    zoom (fun t => AppMonitor (t_daemon t)) (fun m => set_t_daemon (dstate m))
      (ok ← prepare_environment module_dir;
       if negb ok then exit_ 1 else run fuel module_dir sys_signame n).

(** The attempts from number [attempt] on; [n] are left. *)
Fixpoint send_attempts (n : nat) (attempt : Z) (path payload : list Z) : K bool :=
  match n with
  | O => mret false
  | S n' =>
      (if 0 <? attempt then do_ (CUsleep kRetryDelayUs) else mret tt);;
      r ← syscall (CSocket PF_UNIX SOCK_DGRAM_CLOEXEC 0);
      let sockfd := r_ret r in
      if sockfd =? -1 then send_attempts n' (attempt + 1) path payload
      else
        r ← syscall (CSendto sockfd payload path);
        saved_errno ← get_errno;
        do_ (CClose sockfd);;
        if r_ret r =? sizeof_Command then mret true
        else if negb (r_ret r =? -1) then mret false
        else if negb (saved_errno =? ENOENT) && negb (saved_errno =? ECONNREFUSED) then mret false
        else send_attempts n' (attempt + 1) path payload
  end.

Definition send_control_command (cmd : Command) : K bool :=
  t ← get;
  send_attempts kRetries 0 (control_socket_addr (t_daemon t)) (le_bytes 4 (command_code cmd)).

Definition handle_monitor (n : nat) : K Z := init_monitor n;; mret 0.

Definition handle_ctl (argv : list (list Z)) : K Z :=
  match argv with
  | _ :: _ :: action :: _ =>
      match ctl_action action with
      | None => mret 1
      | Some cmd => ok ← send_control_command cmd; mret (if ok : bool then 0 else 1)
      end
  | _ => mret 1
  end.

Definition main (n : nat) (argv : list (list Z)) : K Z :=
  zoom t_daemon set_t_daemon (Init kWorkDirectory);;
  match argv with
  | _ :: command :: _ =>
      if beq command (B "monitor") then handle_monitor n
      else if beq command (B "trace") then handle_trace fuel A argv
      else if beq command (B "ctl") then handle_ctl argv
      else if beq command (B "version") then mret 0
      else mret 1
  | _ => mret 1
  end.
End Cli.

(** ** A command that was sent *)

Section Delivery.
Context {W : Type} `{!World W} (fuel : nat) (A : arch).
Context (module_dir : list Z) (sys_signame : Z -> list Z).
Abbreviation K := (M W tracer).

(** The last two calls sent the message whole and closed the socket. *)
Definition delivered (path payload : list Z) (s' : st W tracer) : Prop :=
  exists fd r rc log, st_log s' = (CClose fd, rc) :: (CSendto fd payload path, r) :: log /\ r_ret r = sizeof_Command.

Lemma send_delivered n attempt path payload s :
  wp (send_attempts n attempt path payload : K bool) (on_ret (fun b s' => b = true -> delivered path payload s')) s.
Proof.
  revert attempt s. induction n as [|n IH]; intros attempt s; cbn [send_attempts]; [by wrun|].
  wstep. destruct (0 <? attempt); [apply wp_do; intros r0 w0 e0|wstep]; wrun;
    (apply wp_syscall; intros r w e; wrun; destruct (r_ret r =? -1); [apply IH|]; wrun;
     apply wp_syscall; intros r1 w1 e1; wrun; apply wp_do; intros r2 w2 e2; wrun;
     destruct (Z.eqb_spec (r_ret r1) sizeof_Command) as [Hr|]; wrun; [intros _; unfold delivered; eauto 7|];
     destruct (negb (r_ret r1 =? -1)); [by wrun|]; destruct (_ && _); [by wrun|apply IH]).
Qed.

Lemma ctl_action_code action cmd :
  ctl_action action = Some cmd ->
  command_of (s32 (le_Z (le_bytes 4 (command_code cmd)))) = cmd /\ has_payload cmd = false.
Proof. unfold ctl_action. repeat case_match; intros [= <-]; by vm_compute. Qed.

Lemma msg_cmd_bytes x l m : msg_cmd (set_buf_ (le_bytes 4 x ++ l) m) = s32 (le_Z (le_bytes 4 x)).
Proof. unfold msg_cmd. cbn [buf_ set_buf_]. by rewrite take_app_length' by (by rewrite length_le_bytes). Qed.

(** What the monitor does with a datagram of one command. *)
Lemma receive_command {V} `{!World V} cmd (sm : st V monitor) r1 w1 r2 w2 :
  command_of (s32 (le_Z (le_bytes 4 (command_code cmd)))) = cmd -> has_payload cmd = false ->
  sys (CRecv (sock_fd (st_s sm)) sizeof_MsgHead MSG_PEEK_TRUNC) (st_w sm) = (r1, w1) ->
  r_ret r1 = 4 -> r_data r1 = le_bytes 4 (command_code cmd) ->
  sys (CRecv (sock_fd (st_s sm)) sizeof_Command 0) w1 = (r2, w2) ->
  r_ret r2 = 4 -> r_data r2 = le_bytes 4 (command_code cmd) ->
  exists sm', receive_one fuel module_dir sm = (dispatch fuel module_dir;; mret true) sm'
    /\ st_w sm' = w2 /\ command_of (msg_cmd (st_s sm')) = cmd.
Proof.
  intros Hc Hp E1 R1 D1 E2 R2 D2.
  assert (H : exists sm', (forall Q, wp (dispatch fuel module_dir;; mret true) Q sm' ->
                           wp (receive_one fuel module_dir) Q sm)
                          /\ st_w sm' = w2 /\ command_of (msg_cmd (st_s sm')) = cmd).
  { eexists. split; [|].
    - intros Q HQ. unfold receive_one, resize, recv_buf. wrun. change (sizeof_MsgHead <? 0) with false. cbn iota. wrun.
      eapply wp_syscall_eq; [exact E1|]. wrun. rewrite R1, D1. change (4 =? -1) with false. cbn iota. wrun.
      change (4 =? -1) with false. cbn iota. wrun.
      rewrite (take_ge (le_bytes 4 _)), msg_cmd_bytes, Hc, Hp by (rewrite length_le_bytes; unfold sizeof_MsgHead, sizeof_Command; lia). cbn iota.
      change (negb (u64 4 =? sizeof_Command)) with false. cbn iota. change (sizeof_Command <? 0) with false. cbn iota. wrun.
      eapply wp_syscall_eq; [exact E2|]. wrun. rewrite R2, D2. change (4 =? -1) with false. cbn iota. wrun.
      change (4 =? -1) with false. change (negb (4 =? sizeof_Command)) with false. cbn iota.
      rewrite (take_ge (le_bytes 4 _)) by (rewrite length_le_bytes; unfold sizeof_MsgHead, sizeof_Command; lia). exact HQ.
    - split; [done|]. cbn [st_s]. by rewrite msg_cmd_bytes. }
  destruct H as (sm' & H & Hw & Hm). exists sm'. split; [|done].
  specialize (H (fun o s => (o, s) = (dispatch fuel module_dir;; mret true) sm')). unfold wp in H.
  rewrite <- (surjective_pairing (receive_one _ _ _)) in H. apply H. by rewrite <- surjective_pairing.
Qed.

(** A command given to [ctl] reaches the monitor as that command: when the
    program reports success, its last acts were to send exactly the command's
    four bytes to the socket the monitor is bound to and to close the socket;
    and a monitor that reads a datagram of these bytes dispatches this
    command. *)
Theorem ctl_reaches_monitor n tool action cmd (s s' : st W tracer) :
  ctl_action action = Some cmd ->
  main fuel A module_dir sys_signame n [tool; B "ctl"; action] s = (Ret 0, s') ->
  delivered (kWorkDirectory ++ B "/" ++ SOCKET_NAME) (le_bytes 4 (command_code cmd)) s'
  /\ forall V `{!World V} (sm : st V monitor) r1 w1 r2 w2,
       sys (CRecv (sock_fd (st_s sm)) sizeof_MsgHead MSG_PEEK_TRUNC) (st_w sm) = (r1, w1) ->
       r_ret r1 = 4 -> r_data r1 = le_bytes 4 (command_code cmd) ->
       sys (CRecv (sock_fd (st_s sm)) sizeof_Command 0) w1 = (r2, w2) ->
       r_ret r2 = 4 -> r_data r2 = le_bytes 4 (command_code cmd) ->
       exists sm', receive_one fuel module_dir sm = (dispatch fuel module_dir;; mret true) sm'
         /\ st_w sm' = w2 /\ command_of (msg_cmd (st_s sm')) = cmd.
Proof.
  intros Hc E. destruct (ctl_action_code action cmd Hc) as [H1 H2]. split.
  2:{ intros V HV sm r1 w1 r2 w2. by apply receive_command. }
  pattern s'. match goal with |- ?P s' => refine (wp_on_ret _ (fun z s0 => z = 0 -> P s0) _ _ _ _ E eq_refl) end.
  cbv beta. clear E. unfold main. wstep. apply wp_zoom. unfold Init. wrun.
  change (beq (B "ctl") (B "monitor")) with false. change (beq (B "ctl") (B "trace")) with false.
  change (beq (B "ctl") (B "ctl")) with true. cbn iota. unfold handle_ctl, send_control_command. rewrite Hc. wrun.
  eapply wp_mono; [apply send_delivered|]. intros [b| | |] s1 Hb; cbn [wp_cont on_ret] in *; try done. wrun.
  destruct b; [|done]. intros _. exact (Hb eq_refl).
Qed.

(** Starting a second monitor does nothing: if the control socket is owned,
    the [monitor] command only asks whether it is (a socket, a connection and a
    close) and exits with success. *)
Theorem second_monitor_yields n (s : st W tracer) r1 w1 r2 w2 :
  sys (CSocket PF_UNIX SOCK_DGRAM_CLOEXEC 0) (st_w s) = (r1, w1) -> r_ret r1 <> -1 ->
  sys (CConnect (r_ret r1) (control_socket_addr (t_daemon (st_s s)))) w1 = (r2, w2) -> r_ret r2 = 0 ->
  exists s' rc, handle_monitor fuel module_dir sys_signame n s = (Ret 0, s')
    /\ st_s s' = st_s s
    /\ st_log s' = (CClose (r_ret r1), rc) :: (CConnect (r_ret r1) (control_socket_addr (t_daemon (st_s s))), r2)
                    :: (CSocket PF_UNIX SOCK_DGRAM_CLOEXEC 0, r1) :: st_log s.
Proof.
  intros E1 H1 E2 H2. unfold handle_monitor, init_monitor, monitor_is_running, do_.
  destruct (sys (CClose (r_ret r1)) w2) as [rc w3] eqn:E3.
  unfold mbind, M_bind, syscall, get, mret, M_ret. rewrite E1. rewrite (proj2 (Z.eqb_neq _ _) H1). cbn [st_w st_s].
  rewrite E2. cbn [st_w]. rewrite E3, H2. cbn. eauto 6.
Qed.
End Delivery.

Definition fresh_tracer : tracer := Tracer (DaemonSt [] 0 false) None 0.
Definition signame (_ : Z) : list Z := [].

Lemma ctl_reaches_monitor_witness :
  exists s', main 4 AArch64 [] signame 4 [B "zygisk-ptrace64"; B "ctl"; B "rearm"]
               (St [ans 5; ans 4; ans 0] [] 0 fresh_tracer : st script tracer) = (Ret 0, s')
    /\ delivered (kWorkDirectory ++ B "/" ++ SOCKET_NAME) [8; 0; 0; 0] s'.
Proof.
  eexists. split; [vm_compute; reflexivity|].
  exact (proj1 (ctl_reaches_monitor 4 AArch64 [] signame 4 (B "zygisk-ptrace64") (B "rearm") REARM
    (St [ans 5; ans 4; ans 0] [] 0 fresh_tracer : st script tracer) _ eq_refl eq_refl)).
Defined.

Lemma second_monitor_yields_witness :
  exists s' rc r2 r1, handle_monitor 4 [] signame 4 (St [ans 5; ans 0; ans 0] [] 0 fresh_tracer : st script tracer)
                      = (Ret 0, s')
    /\ st_log s' = [(CClose 5, rc); (CConnect 5 (control_socket_addr (DaemonSt [] 0 false)), r2);
                    (CSocket PF_UNIX SOCK_DGRAM_CLOEXEC 0, r1)].
Proof.
  destruct (second_monitor_yields 4 [] signame 4 (St [ans 5; ans 0; ans 0] [] 0 fresh_tracer : st script tracer)
              (ans 5) [ans 0; ans 0] (ans 0) [ans 0]) as (s' & rc & H1 & _ & H2);
    [reflexivity|discriminate|reflexivity|reflexivity|].
  exists s', rc, (ans 0), (ans 5). split; [exact H1|exact H2].
Defined.
