(* ===== verification/Clean.v ===== *)
(** Hiding mappings: replacing file-backed ranges of the process by anonymous
    copies of themselves (loader/src/injector/clean.cpp from [MapRange] on, its
    CFI part being in ModLoader.v).

    The state is any that contains the process's memory. [std::sort] is the
    interface of Sort.v. The builtin that clears the instruction cache has no
    effect on the memory's contents and is left out. *)
From S2P Require Import Prelude Sys Text ProcUtils Mem Linker ModLoader Sort.
Open Scope Z_scope.

Record MapRange := Range { start : Z; end_ : Z; prot : Z }.
Definition set_start (x : Z) (r : MapRange) : MapRange := Range x (end_ r) (prot r).
Definition set_end (x : Z) (r : MapRange) : MapRange := Range (start r) x (prot r).

#[export] Instance MapRange_eq_dec : EqDecision MapRange.
Proof. solve_decision. Defined.

Definition RWX : Z := Z.lor (Z.lor PROT_READ PROT_WRITE) PROT_EXEC.
Definition MREMAP_MAYMOVE : Z := 1.
Definition MREMAP_FIXED : Z := 2.

(** The cells given, at [a] and following. *)
Fixpoint put_cells (cells : list (option cell)) (a : Z) (m : mem) : mem :=
  match cells with
  | [] => m
  | c :: cells' => put_cells cells' (a + 1) (partial_alter (fun _ => c) a m)
  end.

(** Moves [n] bytes with their protection; what was at the target is gone. *)
Definition move_range (n : nat) (old new : Z) (m : mem) : mem :=
  put_cells (map (fun i => m !! (old + Z.of_nat i)) (seq 0 n)) new (unmap_range n old m).

(** The protection a range has in the end. *)
Definition final_prot (clear_write_permission : bool) (r : MapRange) : Z :=
  let was_rwx := Z.land (prot r) RWX =? RWX in
  if clear_write_permission && was_rwx then Z.ldiff (prot r) PROT_WRITE else prot r.

Section Anonymize.
Context {W : Type} `{!World W} {S : Type} `{!HasMem S}.
Abbreviation K := (M W S).

(** [mremap] to a fixed address, with the size unchanged. The kernel unmaps
    the target before it tries to move, so a failure may have done that. *)
Definition mremap (old len new : Z) : K bool :=
  r ← syscall (CMremap old len len (Z.lor MREMAP_MAYMOVE MREMAP_FIXED) new);
  if r_ret r =? -1 then
    (if nth 0 (r_aux r) 0 =? 0 then mret tt
     else modify (fun s => put_mem (unmap_range (Z.to_nat len) new (the_mem s)) s));;
    mret false
  else modify (fun s => put_mem (move_range (Z.to_nat len) old new (the_mem s)) s);; mret true.

(** One range; whether it was replaced. *)
Definition anonymize_range (clear_write_permission : bool) (r : MapRange) : K bool :=
  let size := u64 (end_ r - start r) in
  if size =? 0 then mret false
  else
    let addr := start r in
    o ← mmap 0 size (Z.lor PROT_READ PROT_WRITE) (Z.lor MAP_ANONYMOUS MAP_PRIVATE) (-1) 0;
    match o with
    | None => mret false
    | Some copy =>
        let added_read := Z.land (prot r) PROT_READ =? 0 in
        rc ← (if added_read then mprotect addr size (Z.lor (prot r) PROT_READ) else mret 0);
        if negb (rc =? 0) then munmap copy size;; mret false
        else
          bs ← load (Z.to_nat size) addr;
          store copy bs;;
          rc ← (if added_read then mprotect addr size (prot r) else mret 0);
          if negb (rc =? 0) then munmap copy size;; mret false
          else
            rc ← mprotect copy size (final_prot clear_write_permission r);
            if negb (rc =? 0) then munmap copy size;; mret false
            else
              moved ← mremap copy size addr;
              if negb moved then munmap copy size;; mret false
              else
                do_ (CNameVma addr size);;
                (if (prot r &? PROT_EXEC)
                 then _ ← sync_cfi_shadow (start r) (start r) size; mret tt else mret tt);;
                mret true
    end.

Fixpoint anonymize_ranges (ranges : list MapRange) (clear_write_permission : bool) : K Z :=
  match ranges with
  | [] => mret 0
  | r :: ranges' =>
      ok ← anonymize_range clear_write_permission r;
      done ← anonymize_ranges ranges' clear_write_permission;
      mret ((if ok : bool then 1 else 0) + done)
  end.
End Anonymize.

(** ** The segments of a loaded object *)

(** [ranges] holds the first [count] elements of the array. *)
Record LoadedObjectScan := Scan_mk { address : Z; ranges : list MapRange }.
Definition scan_size : nat := 64.

Definition add_loaded_range (start end_ prot : Z) (scan : LoadedObjectScan) : LoadedObjectScan :=
  if Nat.leb scan_size (length (ranges scan)) || (end_ <=? start) then scan
  else Scan_mk (address scan) (ranges scan ++ [Range start end_ prot]).

Definition elf_runtime_address (load_bias value : Z) : Z := u64 (load_bias + value).

Definition segment_contains (bias addr : Z) (ph : Phdr) : bool :=
  (p_type ph =? PT_LOAD)
  && (let start := elf_runtime_address bias (p_vaddr ph) in
      (p_memsz ph <=? UINTPTR_MAX - start) && (start <=? addr) && (addr <? start + p_memsz ph)).

(** The read-only-after-relocation pages; an empty range if there are none. *)
Fixpoint relro_range (pg bias : Z) (phdrs : list Phdr) : Z * Z :=
  match phdrs with
  | [] => (0, 0)
  | ph :: phdrs' =>
      let start := elf_runtime_address bias (p_vaddr ph) in
      if negb (p_type ph =? PT_GNU_RELRO) || (UINTPTR_MAX - start <? p_memsz ph)
         || (UINTPTR_MAX - (pg - 1) <? start + p_memsz ph)
      then relro_range pg bias phdrs'
      else (page_down start pg, page_up (start + p_memsz ph) pg)
  end.

Definition segment_prot (ph : Phdr) : Z :=
  Z.lor (Z.lor (if (p_flags ph &? PF_R) then PROT_READ else 0)
               (if (p_flags ph &? PF_W) then PROT_WRITE else 0))
        (if (p_flags ph &? PF_X) then PROT_EXEC else 0).

Definition add_segment (pg bias relro_start relro_end : Z) (scan : LoadedObjectScan) (ph : Phdr)
  : LoadedObjectScan :=
  let file_start := elf_runtime_address bias (p_vaddr ph) in
  if negb (p_type ph =? PT_LOAD) || (p_filesz ph =? 0) || (UINTPTR_MAX - file_start <? p_filesz ph)
     || (UINTPTR_MAX - (pg - 1) <? file_start + p_filesz ph)
  then scan
  else
    let start := page_down file_start pg in
    let end_ := page_up (file_start + p_filesz ph) pg in
    let prot := segment_prot ph in
    let protected_start := Z.max start relro_start in
    let protected_end := Z.min end_ relro_end in
    if (relro_end <=? relro_start) || (protected_end <=? protected_start)
    then add_loaded_range start end_ prot scan
    else
      add_loaded_range protected_end end_ prot
        (add_loaded_range protected_start protected_end (Z.ldiff prot PROT_WRITE)
           (add_loaded_range start protected_start prot scan)).

(** What the callback makes of an object: its result and the scan. *)
Definition collect_segments (pg bias : Z) (phdrs : list Phdr) (scan : LoadedObjectScan)
  : Z * LoadedObjectScan :=
  if negb (existsb (segment_contains bias (address scan)) phdrs) then (0, scan)
  else
    let '(relro_start, relro_end) := relro_range pg bias phdrs in
    (1, fold_left (add_segment pg bias relro_start relro_end) phdrs scan).

(** ** Sorting and merging the ranges *)

Definition range_lt (a b : MapRange) : bool :=
  (start a <? start b) || ((start a =? start b) && (end_ a <? end_ b)).

(** The loop over the sorted array, which it overwrites from the front; [i]
    is the index of the next of the [n] elements left. *)
Fixpoint normalize_loop (n i output : nat) (ranges : list MapRange) : nat * list MapRange :=
  match n with
  | O => (output, ranges)
  | S n' =>
      match ranges !! i with
      | None => (output, ranges)
      | Some range =>
          let last := match output with O => None | S o => ranges !! o end in
          let range := match last with
                       | Some l => if start range <? end_ l then set_start (end_ l) range else range
                       | None => range
                       end in
          if end_ range <=? start range then normalize_loop n' (S i) output ranges
          else
            match last with
            | Some l =>
                if (end_ l =? start range) && (prot l =? prot range)
                then normalize_loop n' (S i) output (<[(output - 1)%nat := set_end (end_ range) l]> ranges)
                else normalize_loop n' (S i) (S output) (<[output := range]> ranges)
            | None => normalize_loop n' (S i) (S output) (<[output := range]> ranges)
            end
      end
  end.

Definition normalize_loaded_ranges `{!StdSort} (ranges : list MapRange) : list MapRange :=
  let sorted := std_sort range_lt ranges in
  let '(output, ranges) := normalize_loop (length sorted) 0 0 sorted in take output ranges.

(** ** Lines of /proc/self/maps *)

Definition perms_prot (perms : list Z) : Z :=
  Z.lor (Z.lor (if nth 0 perms 0 =? 114 then PROT_READ else 0)
               (if nth 1 perms 0 =? 119 then PROT_WRITE else 0))
        (if nth 2 perms 0 =? 120 then PROT_EXEC else 0).

(** The line's range if it maps the file and is private where it has to be. *)
Definition fd_line (st_dev st_ino : Z) (private_only : bool) (line : list Z) : option MapRange :=
  let line := c_str line in
  '(start, s) ← scan_lx line;
  s ← scan_char 45 s;
  '(end_, s) ← scan_lx s;
  '(perms, s) ← scan_word 4 s;
  '(_, s) ← scan_word (length s) s;
  '(dev_major, s) ← scan_x s;
  s ← scan_char 58 s;
  '(dev_minor, s) ← scan_x s;
  '(inode, _) ← scan_lu s;
  if negb (makedev dev_major dev_minor =? st_dev) || negb (inode =? st_ino) then None
  else if private_only && negb (nth 3 perms 0 =? 112) then None
  else Some (Range start end_ (perms_prot perms)).

Definition virtual_line (path_substr : list Z) (private_only : bool) (line : list Z) : option MapRange :=
  let line := c_str line in
  if negb (contains line path_substr) then None
  else
    '(start, s) ← scan_lx line;
    s ← scan_char 45 s;
    '(end_, s) ← scan_lx s;
    '(perms, _) ← scan_word 4 s;
    if private_only && negb (nth 3 perms 0 =? 112) then None
    else Some (Range start end_ (perms_prot perms)).

(** At most 64 ranges are kept. *)
Definition matching_ranges (f : list Z -> option MapRange) (text : list Z) : list MapRange :=
  take scan_size (omap f (fgets_chunks 512 text)).

Section Spoof.
Context {W : Type} `{!World W} {S : Type} `{!HasMem S} `{!StdSort} (fuel : nat).
Abbreviation K := (M W S).

Fixpoint load_phdrs (n : nat) (p : Z) : K (list Phdr) :=
  match n with
  | O => mret []
  | Datatypes.S n' =>
      bs ← load 56 p; phdrs ← load_phdrs n' (p + sizeof_Phdr); mret (decode_phdr bs :: phdrs)
  end.

(** The callback; [info] is the object's address, the address of its program
    headers and their number. *)
Definition collect_loaded_object (info : list Z) (scan : LoadedObjectScan) : K (Z * LoadedObjectScan) :=
  pg ← page_size;
  if pg =? 0 then mret (0, scan)
  else
    phdrs ← load_phdrs (Z.to_nat (nth 2 info 0)) (nth 1 info 0);
    mret (collect_segments pg (nth 0 info 0) phdrs scan).

(** [dl_iterate_phdr]: until the callback returns something other than 0. *)
Fixpoint iterate_objects (n : nat) (i : Z) (scan : LoadedObjectScan) : K (Z * LoadedObjectScan) :=
  match n with
  | O => out_of_fuel
  | Datatypes.S n' =>
      r ← syscall (CDlObject i);
      if r_ret r =? 0 then mret (0, scan)
      else
        '(rc, scan) ← collect_loaded_object (r_aux r) scan;
        if rc =? 0 then iterate_objects n' (i + 1) scan else mret (rc, scan)
  end.

Definition spoof_loaded_object_maps (addr : Z) : K Z :=
  if addr =? 0 then mret 0
  else
    '(rc, scan) ← iterate_objects fuel 0 (Scan_mk addr []);
    if (rc =? 0) || bool_decide (ranges scan = []) then mret 0
    else anonymize_ranges (normalize_loaded_ranges (ranges scan)) false.

(** [fstat] answers with the size, the device and the inode. *)
Definition spoof_fd_maps (fd : Z) (private_only : bool) : K Z :=
  if fd <? 0 then mret 0
  else
    st ← syscall (CFstat fd);
    if negb (r_ret st =? 0) then mret 0
    else
      r ← syscall (CFile (B "/proc/self/maps"));
      if r_ret r =? 0 then mret 0
      else anonymize_ranges
             (matching_ranges (fd_line (nth 1 (r_aux st) 0) (nth 2 (r_aux st) 0) private_only) (r_data r)) false.

Definition spoof_virtual_maps (path_substr : list Z) (private_only clear_write_permission : bool) : K Z :=
  if bool_decide (path_substr = []) then mret 0
  else
    r ← syscall (CFile (B "/proc/self/maps"));
    if r_ret r =? 0 then mret 0
    else anonymize_ranges (matching_ranges (virtual_line path_substr private_only) (r_data r))
           clear_write_permission.

Definition module_paths : list (list Z) := [B "jit-cache-zygisk"; B "zygisk-module"; B "zn-module"].

Fixpoint spoof_paths (paths : list (list Z)) (clear_write_permission : bool) : K unit :=
  match paths with
  | [] => mret tt
  | path :: paths' =>
      _ ← spoof_virtual_maps path true clear_write_permission; spoof_paths paths' clear_write_permission
  end.

Definition spoof_module_maps (clear_write_permission : bool) : K unit :=
  spoof_paths module_paths clear_write_permission.
End Spoof.

(** ** Replacing a range keeps what it holds *)

Definition in_range (r : MapRange) (x : Z) : Prop := start r <= x < end_ r.
Definition range_ok (r : MapRange) : Prop := 0 <= start r <= end_ r /\ end_ r < 2 ^ 64.

Lemma lookup_put_cells cells a m x :
  put_cells cells a m !! x
  = if (a <=? x) && (x <? a + Z.of_nat (length cells)) then nth (Z.to_nat (x - a)) cells None else m !! x.
Proof.
  revert a m. induction cells as [|c cells IH]; intros a m; cbn [put_cells length].
  - destruct (Z.leb_spec a x), (Z.ltb_spec x (a + Z.of_nat 0)); cbn; try lia; done.
  - rewrite IH. destruct (decide (a = x)) as [->|Hne].
    + rewrite lookup_partial_alter_eq, Z.sub_diag.
      destruct (Z.leb_spec (x + 1) x), (Z.leb_spec x x), (Z.ltb_spec x (x + Z.of_nat (S (length cells))));
        cbn; try lia; done.
    + rewrite lookup_partial_alter_ne by done.
      destruct (Z.leb_spec (a + 1) x), (Z.leb_spec a x), (Z.ltb_spec x (a + 1 + Z.of_nat (length cells))),
        (Z.ltb_spec x (a + Z.of_nat (S (length cells)))); cbn; try lia; try done.
      replace (Z.to_nat (x - a)) with (S (Z.to_nat (x - (a + 1)))) by lia. done.
Qed.

Lemma lookup_move_range n old new m x :
  move_range n old new m !! x
  = if (new <=? x) && (x <? new + Z.of_nat n) then m !! (old + (x - new))
    else if (old <=? x) && (x <? old + Z.of_nat n) then None else m !! x.
Proof.
  unfold move_range, unmap_range. rewrite lookup_put_cells, length_map, length_seq, lookup_upd_range.
  destruct (Z.leb_spec new x), (Z.ltb_spec x (new + Z.of_nat n)); cbn [andb]; try done.
  rewrite (nth_indep _ None (m !! (old + Z.of_nat 0)))
    by (rewrite length_map, length_seq; lia).
  rewrite (map_nth (fun i => m !! (old + Z.of_nat i))), seq_nth by lia. f_equal. lia.
Qed.

(** What the kernel promises about the address space [m0]: a mapping without
    an address goes to free addresses. *)
Definition kernel_ok {W} `{!World W} (m0 : mem) : Prop :=
  forall w len prot flags fd off r w',
    sys (CMmap 0 len prot flags fd off) w = (r, w') -> r_ret r <> -1 ->
    0 <= r_ret r /\ r_ret r + len <= 2 ^ 64 /\ forall x, r_ret r <= x < r_ret r + len -> m0 !! x = None.

(** A move onto the range failed after the kernel had unmapped it. *)
Definition torn (r : MapRange) (evs : list event) : Prop :=
  exists old len new_len flags a, (CMremap old len new_len flags (start r), a) ∈ evs
    /\ r_ret a = -1 /\ nth 0 (r_aux a) 0 <> 0.

Lemma torn_app r l1 l2 : torn r l1 \/ torn r l2 -> torn r (l1 ++ l2).
Proof.
  intros [H|H]; destruct H as (o & l & nl & f & a & Hin & H); exists o, l, nl, f, a; (split; [|done]);
    apply elem_of_app; auto.
Qed.

(** [m'] differs from [m], at the addresses of [m0], in the protection of the
    range only. *)
Definition near (m0 : mem) (r : MapRange) (m m' : mem) : Prop :=
  forall x, is_Some (m0 !! x) ->
    contents m' !! x = contents m !! x /\ (~ in_range r x -> m' !! x = m !! x).

#[export] Instance near_preorder m0 r : PreOrder (near m0 r).
Proof.
  split; [by intros m x _|]. intros m1 m2 m3 H12 H23 x Hx.
  destruct (H12 x Hx) as [P1 P2], (H23 x Hx) as [P3 P4]. split; [congruence|]. intros Hr.
  by rewrite P4, P2.
Qed.

Lemma near_scratch m0 r copy n m m' :
  (forall x, copy <= x < copy + n -> m0 !! x = None) ->
  (forall x, ~ copy <= x < copy + n -> m' !! x = m !! x) -> near m0 r m m'.
Proof.
  intros Hf Hm x Hx. assert (E : m' !! x = m !! x).
  { apply Hm. intros Hin. rewrite (Hf x Hin) in Hx. by apply is_Some_None in Hx. }
  split; [|done]. unfold contents. by rewrite !lookup_fmap, E.
Qed.

Lemma near_protect m0 r p n m :
  Z.of_nat n <= end_ r - start r -> near m0 r m (protect_range p n (start r) m).
Proof.
  intros Hn x _. rewrite contents_protect. split; [done|]. unfold in_range, protect_range. intros Hx.
  rewrite lookup_upd_range. destruct (Z.leb_spec (start r) x), (Z.ltb_spec x (start r + Z.of_nat n)); cbn; lia || done.
Qed.

(** [m'] agrees with [m] at the addresses of [m0] outside the range. *)
Definition outside (m0 : mem) (r : MapRange) (m m' : mem) : Prop :=
  forall x, is_Some (m0 !! x) -> ~ in_range r x -> m' !! x = m !! x.

Lemma near_outside m0 r m m' : near m0 r m m' -> outside m0 r m m'.
Proof. intros H x Hx. by apply H. Qed.

(** The range holds what it held, with its final protection. *)
Definition replaced (clear : bool) (r : MapRange) (m : mem) : Prop :=
  forall x, in_range r x -> exists b, m !! x = Some (Cell b (final_prot clear r)).

Section Replacing.
Context {W : Type} `{!World W} {S : Type} `{!HasMem S} (m0 : mem).
Hypothesis Hk : kernel_ok (W := W) m0.
Abbreviation K := (M W S).
Abbreviation mm := (fun s : st W S => the_mem (st_s s)).

Lemma wp_mprotect a len p (Q : outcome Z -> st W S -> Prop) s :
  (forall rc w ev e n, Z.of_nat n <= Z.max 0 len -> (rc = 0 -> n = Z.to_nat len) ->
     Q (Ret rc) (St w (ev :: st_log s) e (put_mem (protect_range p n a (mm s)) (st_s s)))) ->
  wp (mprotect a len p) Q s.
Proof.
  intros HQ. unfold mprotect. wrun. apply wp_syscall. intros r w e. wrun.
  apply HQ; destruct (Z.eqb_spec (r_ret r) 0); try done; lia.
Qed.

Lemma wp_munmap_scratch r copy n (Q : outcome unit -> st W S -> Prop) s :
  (forall x, copy <= x < copy + n -> m0 !! x = None) -> 0 <= n ->
  (forall s', near m0 r (mm s) (mm s') -> (exists ev, st_log s' = ev :: st_log s) -> Q (Ret tt) s') ->
  wp (munmap copy n) Q s.
Proof.
  intros Hf Hn HQ. unfold munmap. wrun. apply wp_syscall. intros r1 w e. wrun.
  destruct (_ =? 0); wrun; apply HQ; cbn [st_s st_log]; try (by eexists); try reflexivity.
  rewrite mem_put. apply (near_scratch m0 r copy n); [done|]. intros x Hx. unfold unmap_range.
  rewrite lookup_upd_range. destruct (Z.leb_spec copy x), (Z.ltb_spec x (copy + Z.of_nat (Z.to_nat n))); cbn; lia || done.
Qed.

Lemma wp_opt_mprotect (b : bool) r len p (Q : outcome Z -> st W S -> Prop) s :
  range_ok r -> len = end_ r - start r ->
  (forall rc s', contents (mm s') = contents (mm s) -> near m0 r (mm s) (mm s') ->
     (exists evs, st_log s' = evs ++ st_log s) -> Q (Ret rc) s') ->
  wp (if b then mprotect (start r) len p else mret 0) Q s.
Proof.
  intros [Hr1 Hr2] -> HQ. destruct b; [|wrun; apply HQ; [done|reflexivity|by exists []]].
  apply wp_mprotect. intros rc w ev e n Hn _. apply HQ; cbn [st_s st_log]; [| |by exists [ev]]; rewrite mem_put.
  - apply contents_protect.
  - apply near_protect. lia.
Qed.

(** Moving a copy of the range over it. *)
Lemma move_near clear r copy n bs m m2 m4 :
  range_ok r -> n = Z.to_nat (end_ r - start r) -> 0 <= copy -> copy + Z.of_nat n <= 2 ^ 64 ->
  (forall x, copy <= x < copy + Z.of_nat n -> m0 !! x = None) ->
  near m0 r m m2 -> peek (contents m2) n (start r) = Some bs ->
  near m0 r m m4 -> peek (contents m4) n copy = Some bs ->
  let m6 := move_range n copy (start r) (protect_range (final_prot clear r) n copy m4) in
  near m0 r m m6 /\ replaced clear r m6.
Proof.
  intros [Hr1 Hr2] En Hc1 Hc2 Hf N2 P2 N4 P4 m6.
  assert (Hin : forall x, in_range r x -> exists b, contents m2 !! x = Some b
                                                 /\ m6 !! x = Some (Cell b (final_prot clear r))).
  { intros x Hx. unfold in_range in Hx.
    destruct (peek_at (contents m2) n (start r) bs (Z.to_nat (x - start r)) ltac:(lia) ltac:(lia) P2 ltac:(lia)) as (b & E1 & E2).
    destruct (peek_at (contents m4) n copy bs (Z.to_nat (x - start r)) Hc1 Hc2 P4 ltac:(lia)) as (b' & E3 & E4).
    rewrite Z2Nat.id in E2, E4 by lia. replace (start r + (x - start r)) with x in E2 by lia.
    rewrite E1 in E3. injection E3 as <-. exists b. split; [done|]. unfold m6, protect_range.
    unfold contents in E4. rewrite lookup_fmap in E4.
    rewrite lookup_move_range, lookup_upd_range. destruct (m4 !! (copy + _)) as [c|]; [|done].
    injection E4 as <-. zcase; done. }
  split; [|intros x Hx; destruct (Hin x Hx) as (b & _ & E); eauto].
  intros x Hx. destruct (N2 x Hx) as [C2 _], (N4 x Hx) as [C4 E4].
  assert (Hs : ~ copy <= x < copy + Z.of_nat n).
  { intros H. rewrite (Hf x H) in Hx. by apply is_Some_None in Hx. }
  destruct (decide (start r <= x < end_ r)) as [Hi|Hi].
  - destruct (Hin x Hi) as (b & E1 & E2). split; [|done]. rewrite <- C2, E1. unfold contents.
    by rewrite lookup_fmap, E2.
  - assert (E : m6 !! x = m4 !! x).
    { unfold m6, protect_range. rewrite lookup_move_range, !lookup_upd_range.
      zcase; done. }
    split; [|intros _; rewrite E; by apply E4]. rewrite <- C4. unfold contents. by rewrite !lookup_fmap, E.
Qed.

(** After one range, with the events of its calls. *)
Definition range_done (clear : bool) (r : MapRange) (s : st W S) (b : bool) (s' : st W S) : Prop :=
  exists evs, st_log s' = evs ++ st_log s
    /\ outside m0 r (mm s) (mm s') /\ (near m0 r (mm s) (mm s') \/ torn r evs)
    /\ (b = true -> near m0 r (mm s) (mm s') /\ replaced clear r (mm s')).

Lemma range_undone clear r s s' :
  (exists evs, st_log s' = evs ++ st_log s) -> near m0 r (mm s) (mm s') -> range_done clear r s false s'.
Proof. intros [evs E] N. exists evs. split; [done|]. split; [by apply near_outside|]. split; [by left|done]. Qed.

Lemma log_step {T : Type} (l0 l l' : list T) :
  (exists evs, l = evs ++ l0) -> (exists evs, l' = evs ++ l) -> exists evs, l' = evs ++ l0.
Proof. intros [e1 ->] [e2 ->]. exists (e2 ++ e1). by rewrite app_assoc. Qed.

Lemma anonymize_range_near clear r s :
  range_ok r -> wp (anonymize_range clear r) (on_ret (range_done clear r s)) s.
Proof.
  intros Hr. assert (Hr' := Hr). destruct Hr' as [Hr1 Hr2]. unfold anonymize_range.
  rewrite (uwrap_id 64 (end_ r - start r)) by fits. remember (end_ r - start r) as size eqn:Esz.
  destruct (Z.eqb_spec size 0); [wrun; apply range_undone; [by exists []|reflexivity]|]. unfold mmap. wrun. wsys r1 w1 E1. wrun.
  destruct (Z.eqb_spec (r_ret r1) (-1)) as [|Hne]; wrun; [apply range_undone; [by eexists [_]|reflexivity]|].
  destruct (Hk _ _ _ _ _ _ _ _ E1 Hne) as (Hc1 & Hc2 & Hf). set (copy := r_ret r1) in *.
  change (Z.lor MAP_ANONYMOUS MAP_PRIVATE &? MAP_FIXED) with false. cbn iota. fold copy.
  match goal with |- wp _ _ ?x => set (s1 := x) end.
  assert (N1 : near m0 r (mm s) (mm s1)).
  { subst s1. cbn [st_s]. rewrite mem_put. apply (near_scratch m0 r copy size); [done|]. intros x Hx.
    rewrite lookup_map_range.
    zcase; done. }
  assert (L1 : exists evs, st_log s1 = evs ++ st_log s) by by eexists [_].
  assert (Hout : forall s', (exists evs, st_log s' = evs ++ st_log s) -> near m0 r (mm s) (mm s') ->
    wp (munmap copy size;; mret false) (on_ret (range_done clear r s)) s').
  { intros s' L' N'. wrun. eapply wp_munmap_scratch; [exact Hf|lia|]. intros s'' N'' [ev L'']. wrun.
    apply range_undone; [|by etransitivity]. eapply log_step; [exact L'|]. exists [ev]. exact L''. }
  apply wp_opt_mprotect; [done|done|]. intros rc s2 C2 N2 L2. wrun. apply (log_step _ _ _ L1) in L2.
  destruct (negb (rc =? 0)); [apply Hout; [done|by etransitivity]|]. unfold load, store. wrun.
  rewrite (uwrap_id 64 (start r)) by fits.
  destruct (read_bytes _ _ _) as [bs|] eqn:Er; [|by wrun]. wrun. rewrite (uwrap_id 64 copy) by fits.
  destruct (write_bytes _ _ _) as [m3|] eqn:Ew; [|by wrun]. wrun.
  pose proof (read_bytes_length _ _ _ _ Er) as Hl. apply peek_read in Er.
  assert (Hw := Ew). apply contents_write in Hw as [P3 _]; [|lia..].
  match goal with |- wp _ _ ?x => set (s3 := x) end.
  assert (N3 : near m0 r (mm s) (mm s3)).
  { subst s3. cbn [st_s]. rewrite mem_put. etransitivity; [exact N1|]. etransitivity; [exact N2|].
    apply (near_scratch m0 r copy size); [done|]. intros x Hx. eapply write_bytes_cells; [..|exact Ew|]; lia. }
  assert (E3 : mm s3 = m3) by apply mem_put.
  assert (L3 : exists evs, st_log s3 = evs ++ st_log s) by exact L2.
  apply wp_opt_mprotect; [done|done|]. intros rc' s4 C4 N4 L4. wrun. apply (log_step _ _ _ L3) in L4.
  assert (N4' : near m0 r (mm s) (mm s4)) by (by etransitivity).
  destruct (negb (rc' =? 0)); [by apply Hout|]. wstep. apply wp_mprotect. intros rc2 w ev5 e n5 Hn5 Hn5'. wrun.
  match goal with |- wp _ _ ?x => set (s5 := x) end.
  assert (N5 : near m0 r (mm s) (mm s5)).
  { subst s5. cbn [st_s]. rewrite mem_put. etransitivity; [exact N4'|].
    apply (near_scratch m0 r copy size); [done|]. intros x Hx. unfold protect_range. rewrite lookup_upd_range.
    zcase; done. }
  assert (L5 : exists evs, st_log s5 = evs ++ st_log s) by (eapply log_step; [exact L4|by exists [ev5]]).
  destruct (Z.eqb_spec rc2 0) as [->|]; cbn [negb]; [|by apply Hout]. unfold mremap. wrun.
  wsys r6 w6 E6. wrun. destruct (Z.eqb_spec (r_ret r6) (-1)) as [Hf6|].
  { destruct (Z.eqb_spec (nth 0 (r_aux r6) 0) 0) as [Ha|Ha]; wrun; cbn [negb]; wrun.
    { apply wp_bind_inv, Hout; [eapply log_step; [exact L5|by eexists [_]]|done]. }
    eapply wp_munmap_scratch; [exact Hf|lia|]. intros s7 N7 [ev7 L7]. wrun. destruct L5 as [evs L5].
    cbn [st_log st_s] in L7, N7. rewrite mem_put in N7. fold s5 in L7, N7. rewrite L5 in L7.
    exists (ev7 :: (CMremap copy size size (Z.lor MREMAP_MAYMOVE MREMAP_FIXED) (start r), r6) :: evs).
    split; [done|]. split; [|split; [right; eexists _, _, _, _, r6; split; [right; left|done]|done]].
    intros x Hx Hi. rewrite (near_outside _ _ _ _ N7 x Hx Hi). unfold unmap_range. rewrite lookup_upd_range.
    assert (Hi' : ~ start r <= x < end_ r) by exact Hi.
    rewrite (near_outside _ _ _ _ N5 x Hx Hi). zcase; try done; lia. }
  wrun. cbn [negb]. wrun. apply wp_do. intros r7 w7 e7. wrun.
  destruct (move_near clear r copy (Z.to_nat size) bs (mm s) (mm s2) (mm s4)) as [F1 F2]; try done; try lia.
  { intros x Hx. apply Hf. lia. }
  { etransitivity; [exact N1|exact N2]. }
  { rewrite C4, E3, <- Hl. done. }
  assert (Hend : forall s', (exists evs, st_log s' = evs ++ st_log s5) -> mm s'
     = move_range (Z.to_nat size) copy (start r) (mm s5) -> range_done clear r s true s').
  { intros s' L' E'. destruct (log_step _ _ _ L5 L') as [evs L6]. exists evs. split; [done|]. rewrite E'. subst s5.
    cbn [st_s]. rewrite mem_put, (Hn5' eq_refl). split; [by apply near_outside|]. split; [by left|done]. }
  unfold sync_cfi_shadow. rewrite Z.eqb_refl. cbn [orb]. destruct (prot r &? PROT_EXEC); wrun; cbn [on_ret];
    (apply Hend; [by eexists [_; _]|cbn [st_s]; apply mem_put]).
Qed.

(** The whole loop. *)
Lemma anonymize_ranges_near rs clear s :
  Forall range_ok rs ->
  wp (anonymize_ranges rs clear) (on_ret (fun done s' => exists evs, st_log s' = evs ++ st_log s
    /\ (forall x, is_Some (m0 !! x) ->
         (contents (mm s') !! x = contents (mm s) !! x \/ exists r, r ∈ rs /\ in_range r x /\ torn r evs)
         /\ (Forall (fun r => ~ in_range r x) rs -> mm s' !! x = mm s !! x))
    /\ 0 <= done <= Z.of_nat (length rs)
    /\ (done = Z.of_nat (length rs) ->
        (forall r x, r ∈ rs -> in_range r x -> is_Some (m0 !! x)) ->
        (forall r r' x, r ∈ rs -> r' ∈ rs -> in_range r x -> in_range r' x -> r = r') -> NoDup rs ->
        Forall (fun r => replaced clear r (mm s')) rs))) s.
Proof.
  intros Hok. revert s. induction Hok as [|r rs Hr Hok IH]; intros s; cbn [anonymize_ranges].
  { wrun. exists []. split; [done|]. split; [auto|]. split; [cbn; lia|]. intros. constructor. }
  wstep. eapply wp_mono; [by apply anonymize_range_near|].
  intros [b| | |] s1 H1; cbn [wp_cont on_ret] in *; try done. destruct H1 as (evs1 & L1 & O1 & T1 & R1). wstep.
  eapply wp_mono; [apply IH|]. intros [k| | |] s2 H2; cbn [wp_cont on_ret] in *; try done.
  destruct H2 as (evs2 & L2 & N2 & C2 & R2). wrun. exists (evs2 ++ evs1).
  split; [by rewrite L2, L1, app_assoc|]. split; [|split].
  - intros x Hx. destruct (N2 x Hx) as [P3 P4]. split.
    + destruct P3 as [P3|(r' & H1 & H2 & H3)]; [|right; exists r'; split; [by right|]; split; [done|apply torn_app; auto]].
      destruct (decide (start r <= x < end_ r)) as [Hi|Hi].
      * destruct T1 as [N1|T1]; [left; destruct (N1 x Hx); congruence|].
        right. exists r. split; [left|]. split; [done|apply torn_app; auto].
      * left. rewrite P3. unfold contents. by rewrite !lookup_fmap, (O1 x Hx Hi).
    + intros [F1 F2]%Forall_cons. by rewrite P4, O1.
  - cbn [length]. destruct b; lia.
  - intros Ek Hm Hd [Hn1 Hn2]%NoDup_cons. destruct b; cbn [length] in Ek; [|lia].
    constructor.
    + intros x Hx. assert (Hx0 := Hm r x (list_elem_of_here _ _) Hx). destruct (N2 x Hx0) as [_ E2].
      rewrite E2; [by apply R1|]. apply Forall_forall. intros r' Hr' Hx'.
      assert (r = r') as <- by (eapply Hd; [left|by right|done|done]). done.
    + apply R2; [lia| | |done].
      * intros r' x Hr'. apply Hm. by right.
      * intros r1 r2 x H1 H2. apply Hd; by right.
Qed.

(** What a program can see of the hiding, whose calls were [evs]: every byte
    that was mapped still is, with the same value, unless the kernel unmapped
    its range and then failed to move the copy there; protections change inside
    the ranges only. *)
Definition hidden (rs : list MapRange) (evs : list event) (done : Z) (m : mem) : Prop :=
  (forall x b, contents m0 !! x = Some b ->
     contents m !! x = Some b \/ exists r, r ∈ rs /\ in_range r x /\ torn r evs)
  /\ (forall x c, m0 !! x = Some c -> Forall (fun r => ~ in_range r x) rs -> m !! x = Some c)
  /\ 0 <= done <= Z.of_nat (length rs).

Lemma anonymize_hidden rs clear s :
  m0 = the_mem (st_s s) -> Forall range_ok rs ->
  wp (anonymize_ranges rs clear) (on_ret (fun done s' =>
    exists evs, st_log s' = evs ++ st_log s /\ hidden rs evs done (mm s'))) s.
Proof.
  intros Hm0 Hok. eapply wp_mono; [by apply anonymize_ranges_near|].
  intros [k| | |] s' H; cbn in *; try done. destruct H as (evs & L & P1 & P2 & _). rewrite <- Hm0 in P1.
  exists evs. split; [done|]. split; [|split; [|exact P2]].
  - intros x b Hb. destruct (P1 x) as [[E|E] _]; [|left; by rewrite E|by right].
    unfold contents in Hb. rewrite lookup_fmap in Hb. by destruct (m0 !! x).
  - intros x c Hc Hx. destruct (P1 x) as [_ E2]; [by eexists|]. by rewrite E2.
Qed.

(** When every range was replaced, and they do not overlap, each has its final
    protection. *)
Lemma anonymize_protects rs clear s s' :
  m0 = the_mem (st_s s) -> Forall range_ok rs -> NoDup rs ->
  (forall r x, r ∈ rs -> in_range r x -> is_Some (m0 !! x)) ->
  (forall r r' x, r ∈ rs -> r' ∈ rs -> in_range r x -> in_range r' x -> r = r') ->
  anonymize_ranges rs clear s = (Ret (Z.of_nat (length rs)), s') ->
  Forall (fun r => replaced clear r (mm s')) rs.
Proof.
  intros Hm0 Hok Hnd Hm Hd E. pose proof (anonymize_ranges_near rs clear s Hok) as H.
  apply (wp_on_ret _ _ _ _ _ H) in E as (_ & _ & _ & _ & P3). by apply P3.
Qed.
End Replacing.

(** ** No page is writable and executable at once *)

Definition wx (p : Z) : bool := (p &? PROT_WRITE) && (p &? PROT_EXEC).

(** The size and the protection a call asks for. *)
Definition asked (c : call) : option (Z * Z) :=
  match c with CMmap _ n p _ _ _ | CMprotect _ n p => Some (n, p) | _ => None end.

(** The range had the protection by itself; where the write permission is to be
    cleared, it could not be read. *)
Definition own_wx (clear : bool) (r : MapRange) : Prop :=
  wx (prot r) = true /\ (clear = true -> (prot r &? PROT_READ) = false).

Lemma wx_bits p : wx p = Z.testbit p 1 && Z.testbit p 2.
Proof.
  unfold wx. change PROT_WRITE with (2 ^ 1). change PROT_EXEC with (2 ^ 2).
  rewrite (has_bits_pow2 p 1), (has_bits_pow2 p 2) by lia. done.
Qed.

Lemma wx_read p : wx (Z.lor p PROT_READ) = wx p.
Proof. rewrite !wx_bits, !Z.lor_spec. cbn. by rewrite !orb_false_r. Qed.

Lemma wx_final clear r :
  wx (final_prot clear r) = true -> wx (prot r) = true /\ (clear = true -> (prot r &? PROT_READ) = false).
Proof.
  unfold final_prot. destruct clear; cbn [andb]; [|done]. destruct (Z.eqb_spec (Z.land (prot r) RWX) RWX) as [|Hn].
  { rewrite wx_bits, !Z.ldiff_spec. cbn. by rewrite andb_false_r. }
  intros Hw. split; [done|]. intros _. change PROT_READ with (2 ^ 0). rewrite has_bits_pow2 by lia.
  rewrite wx_bits in Hw. apply andb_true_iff in Hw as [H1 H2]. destruct (Z.testbit (prot r) 0) eqn:H0; [|done].
  destruct Hn. apply Z.bits_inj'. intros n Hn. rewrite Z.land_spec.
  destruct (decide (n < 3)) as [Hl|Hl].
  - assert (n = 0 \/ n = 1 \/ n = 2) as [-> | [-> | ->]] by lia; by rewrite ?H0, ?H1, ?H2.
  - change RWX with 7. rewrite (testbit_lt 7 3 n), andb_false_r by (cbn; lia). done.
Qed.

Section Window.
Context {W : Type} `{!World W} {S : Type} `{!HasMem S}.

(** An event of the work on range [r] that asks for a writable and executable
    page asks for as many bytes as the range has, and the range was one. *)
Definition no_window (clear : bool) (r : MapRange) (e : event) : Prop :=
  forall n p, asked e.1 = Some (n, p) -> wx p = true -> n = u64 (end_ r - start r) /\ own_wx clear r.

Lemma emits_anonymize_range clear r :
  emits (no_window clear r) (anonymize_range clear r : M W S bool).
Proof.
  unfold anonymize_range, mmap, mprotect, munmap, mremap, load, store, sync_cfi_shadow, do_.
  rewrite Z.eqb_refl. cbn [orb]. emits_tac; intros n p [= <- <-]; try done; intros Hw; (split; [done|]).
  all: match goal with
       | H : (Z.land _ PROT_READ =? 0) = true |- _ =>
           split; [by rewrite ?wx_read in Hw|]; intros _; unfold has_bits; by rewrite H
       | _ => by apply wx_final
       end.
Qed.

(** C25. At no time during the hiding is a page both writable and executable
    unless it was: the events of the work are those of the ranges, one range
    after the other, and among the events of a range every mapping and every
    change of protection that asks for both is for a range that itself had both
    to begin with, and when the write permission is to be cleared only for one
    that could not be read. *)
Theorem no_writable_code_window rs clear (s s' : st W S) done :
  anonymize_ranges rs clear s = (Ret done, s') ->
  exists works, st_log s' = concat (rev works) ++ st_log s
    /\ Forall2 (fun r evs => Forall (no_window clear r) evs) rs works.
Proof.
  wp_of_run. revert s. induction rs as [|r rs IH]; intros s; cbn [anonymize_ranges].
  { wrun. exists []. split; [done|constructor]. }
  wstep. eapply wp_mono; [apply emits_anonymize_range|].
  intros [b| | |] s1 H1; cbn [wp_cont on_ret]; try done. destruct H1 as (evs & E1 & F1). wstep.
  eapply wp_mono; [apply IH|]. intros [k| | |] s2 H2; cbn [wp_cont on_ret] in *; try done.
  destruct H2 as (works & E2 & F2). wrun. exists (evs :: works). split; [|by constructor].
  cbn [rev]. rewrite concat_app. cbn [concat]. by rewrite app_nil_r, E2, E1, app_assoc.
Qed.
End Window.

(** ** Sorted, merged ranges *)

(** The protection the first range that contains [x] has. *)
Fixpoint prot_at (l : list MapRange) (x : Z) : option Z :=
  match l with
  | [] => None
  | r :: l' => if (start r <=? x) && (x <? end_ r) then Some (prot r) else prot_at l' x
  end.

(** Ranges that are not empty, in increasing order, and merged where they
    touch and agree. *)
Fixpoint canonical (l : list MapRange) : Prop :=
  match l with
  | [] => True
  | r :: l' =>
      start r < end_ r
      /\ match l' with
         | [] => True
         | r' :: _ => end_ r < start r' \/ end_ r = start r' /\ prot r <> prot r'
         end
      /\ canonical l'
  end.

(** One turn of the loop on the output as a list. *)
Definition norm_step (out : list MapRange) (range : MapRange) : list MapRange :=
  match last out with
  | None => if end_ range <=? start range then out else out ++ [range]
  | Some l =>
      let range := if start range <? end_ l then set_start (end_ l) range else range in
      if end_ range <=? start range then out
      else if (end_ l =? start range) && (prot l =? prot range)
           then <[(length out - 1)%nat := set_end (end_ range) l]> out
           else out ++ [range]
  end.

Lemma norm_append out mid r (range : MapRange) rest :
  exists mid', length mid' = length mid
    /\ <[length out := r]> (out ++ mid ++ range :: rest) = (out ++ [r]) ++ mid' ++ rest.
Proof.
  rewrite insert_app_r_alt, Nat.sub_diag by lia. destruct mid as [|a mid].
  - exists []. split; [done|]. cbn. by rewrite <- app_assoc.
  - exists (mid ++ [range]). split; [rewrite length_app; cbn; lia|]. cbn. by rewrite <- !app_assoc.
Qed.

(** The loop in place computes the output list. *)
Lemma normalize_loop_fold rest out mid :
  exists mid', normalize_loop (length rest) (length out + length mid) (length out) (out ++ mid ++ rest)
             = (length (fold_left norm_step rest out), fold_left norm_step rest out ++ mid').
Proof.
  revert out mid. induction rest as [|range rest IH]; intros out mid.
  { exists mid. cbn. by rewrite app_nil_r. }
  assert (Hskip : exists mid', normalize_loop (length rest) (Datatypes.S (length out + length mid)) (length out)
              (out ++ mid ++ range :: rest)
             = (length (fold_left norm_step rest out), fold_left norm_step rest out ++ mid')).
  { destruct (IH out (mid ++ [range])) as [mid' E]. exists mid'. rewrite <- E, length_app. cbn.
    rewrite <- app_assoc. f_equal; lia. }
  assert (Happ : forall r, exists mid', normalize_loop (length rest) (Datatypes.S (length out + length mid))
              (Datatypes.S (length out)) (<[length out := r]> (out ++ mid ++ range :: rest))
             = (length (fold_left norm_step rest (out ++ [r])), fold_left norm_step rest (out ++ [r]) ++ mid')).
  { intros r. destruct (norm_append out mid r range rest) as (mid1 & Hl & ->).
    destruct (IH (out ++ [r]) mid1) as [mid' E]. exists mid'. rewrite <- E, length_app, Hl. cbn. f_equal; lia. }
  cbn [length normalize_loop fold_left].
  assert (Ei : (out ++ mid ++ range :: rest) !! (length out + length mid)%nat = Some range).
  { rewrite lookup_app_r by lia. apply list_lookup_middle. lia. }
  rewrite Ei.
  assert (El : match length out with O => None | Datatypes.S o => (out ++ mid ++ range :: rest) !! o end = last out).
  { rewrite last_lookup. destruct out as [|a out]; [done|]. cbn [length pred]. apply lookup_app_l. cbn. lia. }
  rewrite El. unfold norm_step at 2 4. destruct (last out) as [l|] eqn:Elast.
  2:{ destruct (end_ range <=? start range); [exact Hskip|apply Happ]. }
  set (range' := if start range <? end_ l then _ else _).
  destruct (end_ range' <=? start range'); [exact Hskip|]. destruct (_ && _); [|apply Happ].
  assert (Ho : (length out - 1 < length out)%nat) by (destruct out; [done|cbn; lia]).
  rewrite insert_app_l by done. destruct (IH (<[(length out - 1)%nat := set_end (end_ range') l]> out) (mid ++ [range])) as [mid' E].
  exists mid'. rewrite <- E, length_app, length_insert. cbn. rewrite <- app_assoc. cbn. f_equal; lia.
Qed.

Lemma prot_at_app l1 l2 x :
  prot_at (l1 ++ l2) x = match prot_at l1 x with Some p => Some p | None => prot_at l2 x end.
Proof. induction l1 as [|r l1 IH]; cbn; [done|]. by destruct (_ && _). Qed.

Lemma canonical_snoc o l r :
  canonical (o ++ [l]) -> start r < end_ r -> end_ l < start r \/ end_ l = start r /\ prot l <> prot r ->
  canonical ((o ++ [l]) ++ [r]).
Proof.
  intros H Hr Hl. induction o as [|a o IH]; cbn in *; [tauto|]. destruct H as (H1 & H2 & H3).
  split; [done|]. split; [|by apply IH]. by destruct o.
Qed.

Lemma canonical_extend o l e :
  canonical (o ++ [l]) -> end_ l <= e -> canonical (o ++ [set_end e l]).
Proof.
  intros H He. induction o as [|a o IH]; cbn in *; [intuition lia|]. destruct H as (H1 & H2 & H3).
  split; [done|]. split; [|by apply IH]. by destruct o.
Qed.

(** Between the start of the last range read and the end of the output there
    is no gap. *)
Definition no_gap (lo : Z) (out : list MapRange) : Prop :=
  forall l x, last out = Some l -> lo <= x < end_ l -> is_Some (prot_at out x).

Lemma norm_step_spec out r lo :
  canonical out -> no_gap lo out -> lo <= start r ->
  canonical (norm_step out r) /\ no_gap (start r) (norm_step out r)
  /\ forall x, prot_at (norm_step out r) x = prot_at (out ++ [r]) x.
Proof.
  intros Hc Hg Hlo. destruct out as [|l o _] using rev_ind; unfold norm_step.
  { cbn [last]. destruct (Z.leb_spec (end_ r) (start r)); cbn.
    - split; [done|]. split; [done|]. intros x. zcase; done.
    - split; [done|]. split; [|done]. intros l x [= <-] Hx. cbn. zcase. by eexists. }
  rewrite last_snoc. unfold no_gap in Hg. rewrite last_snoc in Hg.
  assert (Hcov : forall x, start r <= x < end_ l -> is_Some (prot_at (o ++ [l]) x)) by (intros; apply (Hg l); [done|lia]).
  set (r' := if start r <? end_ l then set_start (end_ l) r else r).
  assert (Er : end_ r' = end_ r /\ prot r' = prot r /\ start r' = Z.max (start r) (end_ l)).
  { subst r'. destruct (Z.ltb_spec (start r) (end_ l)); cbn; repeat split; lia. }
  destruct Er as (Er1 & Er2 & Er3).
  (* Adding the clipped range is adding the range. *)
  assert (Hclip : forall x, prot_at ((o ++ [l]) ++ [r']) x = prot_at ((o ++ [l]) ++ [r]) x).
  { intros x. rewrite !(prot_at_app (o ++ [l])). destruct (prot_at (o ++ [l]) x) eqn:Ep; [done|]. cbn.
    rewrite Er1, Er2, Er3. destruct (decide (start r <= x < end_ l)) as [Hx|Hx].
    { destruct (Hcov x Hx) as [? Hx']. congruence. }
    zcase; done. }
  destruct (Z.leb_spec (end_ r') (start r')) as [He|He].
  { split; [done|]. split; [intros l' x; rewrite last_snoc; intros [= <-]; apply Hcov|].
    intros x. rewrite <- Hclip, (prot_at_app (o ++ [l])). destruct (prot_at _ x); [done|]. cbn. zcase; done. }
  destruct ((end_ l =? start r') && (prot l =? prot r')) eqn:Em.
  - apply andb_true_iff in Em as [E1%Z.eqb_eq E2%Z.eqb_eq]. rewrite length_app, Nat.add_sub.
    replace (<[length o := set_end (end_ r') l]> (o ++ [l])) with (o ++ [set_end (end_ r') l])
      by (rewrite insert_app_r_alt, Nat.sub_diag by lia; done).
    assert (Hp : forall x, prot_at (o ++ [set_end (end_ r') l]) x = prot_at ((o ++ [l]) ++ [r]) x).
    { intros x. rewrite <- Hclip, <- app_assoc, !(prot_at_app o). destruct (prot_at o x); [done|]. cbn.
      assert (start l < end_ l) by (clear -Hc; induction o as [|a o IH]; cbn in Hc; [|apply IH]; tauto).
      rewrite <- E1, <- E2. zcase; done. }
    split; [apply canonical_extend; [done|lia]|]. split; [|exact Hp].
    intros l' x. rewrite last_snoc. intros [= <-] Hx. cbn in Hx. rewrite Hp, (prot_at_app (o ++ [l])).
    destruct (prot_at (o ++ [l]) x) eqn:Ep; [by eexists|]. cbn. zcase. by eexists.
  - assert (Hn : end_ l < start r' \/ end_ l = start r' /\ prot l <> prot r').
    { apply andb_false_iff in Em as [Em%Z.eqb_neq|Em%Z.eqb_neq]; [lia|].
      destruct (decide (end_ l = start r')); [right; done|lia]. }
    split; [by apply canonical_snoc|]. split; [|exact Hclip].
    intros l' x. rewrite last_snoc. intros [= <-] Hx. rewrite Hclip, (prot_at_app (o ++ [l])).
    destruct (prot_at (o ++ [l]) x) eqn:Ep; [by eexists|]. cbn. zcase. by eexists.
Qed.

Lemma normalize_fold_spec rs out lo :
  canonical out -> no_gap lo out -> StronglySorted (fun x y => start x <= start y) rs ->
  Forall (fun r => lo <= start r) rs ->
  canonical (fold_left norm_step rs out)
  /\ forall x, prot_at (fold_left norm_step rs out) x = prot_at (out ++ rs) x.
Proof.
  intros Hc Hg Hs. revert out lo Hc Hg. induction Hs as [|r rs Hs IH Hr]; intros out lo Hc Hg Hlo.
  { cbn. by rewrite app_nil_r. }
  apply Forall_cons in Hlo as [Hlo _]. destruct (norm_step_spec out r lo Hc Hg Hlo) as (H1 & H2 & H3).
  destruct (IH _ _ H1 H2 Hr) as [H4 H5]. split; [exact H4|]. intros x. cbn [fold_left].
  rewrite H5. rewrite (prot_at_app _ rs), H3, <- (prot_at_app _ rs), <- app_assoc. done.
Qed.

Lemma range_lt_strict_weak : strict_weak range_lt.
Proof.
  unfold range_lt. repeat split; intros *.
  - zcase; destruct (_ =? _); cbn; done.
  - rewrite !orb_true_iff, !andb_true_iff, !Z.ltb_lt, !Z.eqb_eq. lia.
  - rewrite !orb_true_iff, !andb_true_iff, !Z.ltb_lt, !Z.eqb_eq. lia.
Qed.

(** Normalising the ranges of an object, in place, yields non-empty ranges
    in increasing order, merged wherever they touch with the same protection,
    that give every address the protection of the first range that contains it
    when the input is ordered by start and end, and no protection to any other
    address. *)
Theorem normalize_exact `{!StdSort} (rs : list MapRange) :
  exists sorted, Permutation sorted rs
    /\ StronglySorted (fun a b => start a < start b \/ start a = start b /\ end_ a <= end_ b) sorted
    /\ canonical (normalize_loaded_ranges rs)
    /\ forall x, prot_at (normalize_loaded_ranges rs) x = prot_at sorted x.
Proof.
  set (sorted := std_sort range_lt rs).
  assert (Hs : StronglySorted (fun a b => start a < start b \/ start a = start b /\ end_ a <= end_ b) sorted).
  { eapply StronglySorted_weaken; [|apply std_sort_sorted, range_lt_strict_weak]. intros a b. unfold range_lt.
    rewrite orb_false_iff, andb_false_iff, !Z.ltb_ge, Z.eqb_neq. lia. }
  exists sorted. split; [apply std_sort_perm, range_lt_strict_weak|]. split; [exact Hs|].
  destruct (normalize_loop_fold sorted [] []) as [mid E]. cbn in E.
  assert (El : normalize_loaded_ranges rs = fold_left norm_step sorted []).
  { unfold normalize_loaded_ranges. fold sorted. rewrite E. apply take_app_length. }
  rewrite El. destruct sorted as [|r0 rs'] eqn:Esrt; [done|].
  apply (normalize_fold_spec (r0 :: rs') [] (start r0)); [done|done| |].
  - eapply StronglySorted_weaken; [|exact Hs]. cbn. lia.
  - apply StronglySorted_inv in Hs as [_ Hs]. constructor; [lia|]. eapply Forall_impl; [exact Hs|]. cbn. lia.
Qed.

(** ** The mappings of a file *)

Definition vma_prot (v : vma) : Z :=
  Z.lor (Z.lor (if v_r v then PROT_READ else 0) (if v_w v then PROT_WRITE else 0))
        (if v_x v then PROT_EXEC else 0).
Definition vma_range (v : vma) : MapRange := Range (v_start v) (v_end v) (vma_prot v).

(** The mappings of the file, private ones where that is asked. *)
Definition of_file (dev ino : Z) (private_only : bool) (v : vma) : bool :=
  (makedev (v_major v) (v_minor v) =? dev) && (v_inode v =? ino) && (negb private_only || v_private v).

Definition maps_text (vs : list vma) : list Z := concat ((fun l => l ++ [NL]) <$> map print_vma vs).

(** A mapping whose line fits in the read buffer. *)
Definition short_vma (v : vma) : Prop :=
  vma_ok v /\ v_start v <= v_end v /\ (length (print_vma v) < 511)%nat.

Lemma scan_word_space n ws rest :
  ws <> [] -> Forall (fun c => negb (isspace c) = true) ws -> (length ws <= n)%nat ->
  scan_word n (32 :: ws ++ 32 :: rest) = Some (ws, 32 :: rest).
Proof.
  intros Hne Hws Hn. unfold scan_word.
  assert (E : drop_while isspace (32 :: ws ++ 32 :: rest) = ws ++ 32 :: rest).
  { destruct ws as [|c ws]; [done|]. apply Forall_cons in Hws as [Hc _]. cbn. apply negb_true_iff in Hc. by rewrite Hc. }
  rewrite E, take_while_app_stop by done. rewrite take_ge by lia.
  rewrite bool_decide_false by done. by rewrite drop_app_length.
Qed.

Lemma pad_digits_word base w n :
  2 <= base <= 16 -> 0 <= n < base ^ 20 ->
  pad_digits base w n <> [] /\ Forall (fun c => negb (isspace c) = true) (pad_digits base w n).
Proof.
  intros Hb Hn. split.
  - destruct (digits_spec base 20 n Hb Hn) as (_ & _ & Hne); [lia|]. unfold pad_digits.
    intros E. by apply app_nil in E as [_ ?].
  - apply Forall_forall. intros c Hc. pose proof (pad_digits_chars base w n c Hb Hn Hc).
    unfold isspace. zcase; destruct (Z.eqb_spec c 32); try lia; done.
Qed.

Lemma fd_line_print dev ino private_only v :
  vma_ok v ->
  fd_line dev ino private_only (print_vma v ++ [NL])
  = if of_file dev ino private_only v then Some (vma_range v) else None.
Proof.
  intros Hv. assert (Hv' := Hv). destruct Hv' as (H1 & H2 & H3 & H4 & H5 & H6 & Hz & Hn & _).
  unfold fd_line. rewrite c_str_id.
  2:{ apply not_elem_of_app. split; [by apply print_vma_plain|]. unfold NL. rewrite list_elem_of_singleton. lia. }
  unfold print_vma. repeat first [rewrite <- app_assoc | progress cbn [app]].
  rewrite (scan_lx_start 8 (v_start v)) by done.
  cbn [mbind option_bind scan_char Z.eqb Pos.eqb].
  rewrite (scan_lx_start 8 (v_end v)) by done. cbn [mbind option_bind].
  rewrite scan_word_flags. cbn [mbind option_bind].
  destruct (pad_digits_word 16 8 (v_offset v)) as [W1 W2]; [lia|by apply u64_pow16|].
  rewrite scan_word_space; [|done|done|cbn [length]; rewrite length_app; cbn [length]; lia]. cbn [mbind option_bind].
  rewrite (scan_x_space 2 (v_major v)) by done.
  cbn [mbind option_bind scan_char Z.eqb Pos.eqb].
  rewrite (scan_x_start 2 (v_minor v)) by done. cbn [mbind option_bind].
  rewrite (scan_lu_pad 1 (v_inode v)) by done. cbn [mbind option_bind].
  unfold of_file, vma_range, vma_prot.
  destruct (_ =? dev), (_ =? ino); cbn [negb andb orb]; try done.
  by destruct private_only, (v_private v), (v_r v), (v_w v), (v_x v).
Qed.

Lemma file_ranges dev ino private_only vs :
  Forall short_vma vs ->
  matching_ranges (fd_line dev ino private_only) (maps_text vs)
  = take 64 (vma_range <$> List.filter (of_file dev ino private_only) vs).
Proof.
  intros Hvs. unfold matching_ranges, maps_text. rewrite fgets_lines; [|lia|].
  - f_equal. induction Hvs as [|v vs (Hv & _) _ IH]; [done|]. cbn [map fmap list_fmap omap list_omap List.filter].
    rewrite fd_line_print by done. destruct (of_file _ _ _ _); cbn; by rewrite IH.
  - apply Forall_map. eapply Forall_impl; [exact Hvs|]. intros v (Hv & _ & Hl). split; [lia|].
    assert (Hp := Hv). destruct Hp as (_ & _ & _ & _ & _ & _ & _ & Hn & _). by apply print_vma_plain.
Qed.

(** C24. Hiding the mappings of a file descriptor changes nothing a program can
    see, and touches only that file: on a memory map in the kernel's format
    whose lines fit the buffer, however the calls that follow fail, every byte
    that was mapped still is, with the same value, and every page outside the
    file's first 64 mappings (the private ones, where that is asked) keeps its
    protection. The one exception is stated: a mapping of the file onto which
    the kernel failed to move the copy after it had unmapped it. The kernel
    places new mappings on free addresses. *)
Theorem spoof_fd_hides {W : Type} `{!World W} {S : Type} `{!HasMem S} fd private_only vs
    (s s' : st W S) st w1 r w2 done :
  let m0 := the_mem (st_s s) in
  let file := take 64 (vma_range <$>
    List.filter (of_file (nth 1 (r_aux st) 0) (nth 2 (r_aux st) 0) private_only) vs) in
  kernel_ok (W := W) m0 -> 0 <= fd -> Forall short_vma vs ->
  sys (CFstat fd) (st_w s) = (st, w1) -> r_ret st = 0 ->
  sys (CFile (B "/proc/self/maps")) w1 = (r, w2) -> r_ret r <> 0 -> r_data r = maps_text vs ->
  spoof_fd_maps fd private_only s = (Ret done, s') ->
  exists evs, st_log s' = evs ++ st_log s /\ hidden m0 file evs done (the_mem (st_s s')).
Proof.
  intros m0 file Hk Hfd Hvs E1 H1 E2 H2 Hd. wp_of_run. unfold spoof_fd_maps.
  destruct (Z.ltb_spec fd 0); [lia|]. wrun. eapply wp_syscall_eq; [exact E1|]. wrun. rewrite H1. cbn [negb Z.eqb].
  wrun. eapply wp_syscall_eq; [exact E2|]. wrun. rewrite (proj2 (Z.eqb_neq _ _) H2), Hd, file_ranges by done.
  eapply wp_mono; [apply (anonymize_hidden m0 Hk); [done|]|].
  2: { intros [k| | |] s1 H3; cbn [on_ret] in *; try done. destruct H3 as (evs & L & Hh). eexists (evs ++ [_; _]).
       split; [by rewrite L, <- app_assoc|]. destruct Hh as (P1 & P2 & P3). split; [|done]. intros x b Hb.
       destruct (P1 x b Hb) as [E|(r0 & R1 & R2 & R3)]; [by left|]. right. exists r0. split; [done|]. split; [done|].
       apply torn_app. by left. }
  apply Forall_take, Forall_fmap.
  apply Forall_forall. intros v Hv. apply list_elem_of_In, filter_In in Hv as [Hv _]. apply list_elem_of_In in Hv.
  rewrite Forall_forall in Hvs. destruct (Hvs v Hv) as ((F1 & F2 & _) & Hle & _). unfold fits_u in F1, F2.
  unfold range_ok. cbn. lia.
Qed.

(** ** A small address space *)

(** A kernel that maps at increasing addresses from 1 MiB on. *)
Definition demo_vmas : list vma :=
  [Vma 0x1000 0x1004 true false true true 0 0xfd 2 77 0 (B "/memfd:zygisk (deleted)");
   Vma 0x2000 0x2002 true true false true 0 0 0 0 0 (B "[heap]")].

#[export] Instance demo_kernel : World Z := fun c next =>
  match c with
  | CFstat _ => (Reply 0 0 [] [4; makedev 0xfd 2; 77], next)
  | CFile _ => (Reply 1 0 (maps_text demo_vmas) [], next)
  | CMmap _ len _ _ _ _ =>
      if (0x100000 <=? next) && (next + len <=? 2 ^ 64) then (ans next, next + Z.max 0 len)
      else (Reply (-1) 12 [] [], next)
  | _ => (ans 0, next)
  end.

Definition demo_space : mem := map_range 5 4 0x1000 [1; 2; 3; 4] (map_range 3 2 0x2000 [9; 8] ∅).
Definition demo_process : st Z mem := St 0x100000 [] 0 demo_space.

Lemma demo_kernel_ok : kernel_ok (W := Z) demo_space.
Proof.
  intros w len p flags fd off r w' E Hr. cbn [sys demo_kernel] in E.
  destruct (Z.leb_spec 0x100000 w), (Z.leb_spec (w + len) (2 ^ 64)); cbn in E; injection E as <- <-; try done.
  cbn [ans r_ret]. split; [lia|]. split; [lia|]. intros x Hx. unfold demo_space. rewrite !lookup_map_range. zcase. done.
Qed.

Lemma demo_vmas_short : Forall short_vma demo_vmas.
Proof.
  repeat constructor; try (vm_compute; lia || (intros ?; discriminate)); vm_decide.
Qed.

Lemma spoof_fd_hides_witness :
  exists s', spoof_fd_maps 5 true demo_process = (Ret 1, s')
    /\ exists evs, st_log s' = evs ++ [] /\ hidden demo_space [Range 0x1000 0x1004 5] evs 1 (the_mem (st_s s')).
Proof.
  eexists. split; [vm_compute; reflexivity|].
  refine (spoof_fd_hides 5 true demo_vmas demo_process (spoof_fd_maps 5 true demo_process).2
    (Reply 0 0 [] [4; makedev 0xfd 2; 77]) 0x100000 (Reply 1 0 (maps_text demo_vmas) []) 0x100000 1
    demo_kernel_ok _ demo_vmas_short eq_refl eq_refl eq_refl _ eq_refl _); [lia|discriminate|vm_compute; reflexivity].
Defined.

Lemma no_writable_code_window_witness :
  exists s' works, anonymize_ranges [Range 0x1000 0x1004 7; Range 0x2000 0x2002 3] true demo_process = (Ret 2, s')
    /\ st_log s' = concat (rev works) ++ []
    /\ Forall2 (fun r evs => Forall (no_window true r) evs) [Range 0x1000 0x1004 7; Range 0x2000 0x2002 3] works.
Proof.
  destruct (no_writable_code_window [Range 0x1000 0x1004 7; Range 0x2000 0x2002 3] true demo_process
    (anonymize_ranges [Range 0x1000 0x1004 7; Range 0x2000 0x2002 3] true demo_process).2 2) as (works & H1 & H2);
    [vm_compute; reflexivity|].
  eexists _, works. split; [vm_compute; reflexivity|]. split; [exact H1|exact H2].
Defined.
