(* ===== verification/Fossil.v ===== *)
(** The leftovers of a mount command on the stack: finding them and replacing
    them by those of a mount the system makes itself
    (loader/src/injector/fossil.cpp and include/fossil.hpp,
    [spoof_zygote_fossil] of loader/src/injector/clean.cpp).

    The state is any that contains the process's memory; the code reads the
    stack byte by byte and writes to it in place. *)
From S2P Require Import Prelude Sys Text Mem Sort ProcUtils Unmount.
Open Scope Z_scope.

Record MountInfoEntry := Entry {
  e_source : list Z; e_target : list Z; e_type : list Z; e_options : list Z; is_suspicious : bool }.

(** A null address is 0. *)
Record MountArgv := Argv {
  m_start_address : Z; m_source : list Z; m_target : list Z; m_filesystem_type : list Z;
  m_mount_options : list Z; m_base_flags : Z; m_fossil_size : Z; m_remnant_size : Z; m_valid : bool }.

Definition no_fossil : MountArgv := Argv 0 [] [] [] [] 0 0 0 false.

(** [MountArgv(clean_entry, target_address, base_flags)]. *)
Definition clean_argv (e : MountInfoEntry) (target_address base_flags : Z) : MountArgv :=
  let len (s : list Z) := Z.of_nat (length s) + 1 in
  Argv target_address (e_source e) (e_target e) (e_type e) (e_options e) base_flags
    (len (e_source e) + len (e_target e) + len (e_type e) + len (e_options e) + 4) 0 true.

Definition passesHeuristics (f : MountArgv) : bool :=
  if negb (m_valid f) then false
  else if bool_decide (m_target f = []) || bool_decide (m_source f = [])
          || bool_decide (m_filesystem_type f = []) then false
  else if negb (nth 0 (m_target f) 0 =? 47) then false
  else if Nat.ltb 10 (length (m_filesystem_type f)) || Nat.ltb (length (m_filesystem_type f)) 2 then false
  else contains (m_mount_options f) (B "seclabel").

(** ** Reading mountinfo *)

Definition trim_leading (s : list Z) : list Z := drop_while isspace s.

(** The token, and what is left of the text. *)
Definition next_token (s : list Z) : list Z * list Z :=
  let s := drop_while isspace s in
  let token := take_while (fun c => negb (isspace c)) s in
  (token, drop (length token) s).

Definition parseMountInfoLine (line : list Z) : MountInfoEntry :=
  match find_sub line (B " - ") with
  | None => Entry [] [] [] [] false
  | Some separator_pos =>
      let before := take separator_pos line in
      let '(_, before) := next_token before in
      let '(_, before) := next_token before in
      let '(_, before) := next_token before in
      let '(_, before) := next_token before in
      let '(target, _) := next_token before in
      let after := drop (separator_pos + 3) line in
      let '(filesystem_type, after) := next_token after in
      let '(source, after) := next_token after in
      Entry source target filesystem_type (trim_leading after) false
  end.

Definition keywords : list (list Z) :=
  [B "KSU"; B "/debug_ramdisk"; B "APATCH"; B "/data/adb"; B "/adb/modules"; B "/dev/block/loop"].

Definition entry_of_line (raw_line : list Z) : MountInfoEntry :=
  let line := strip_nl raw_line in
  let e := parseMountInfoLine line in
  Entry (e_source e) (e_target e) (e_type e) (e_options e) (existsb (contains line) keywords).

(** The entry before the first suspicious one that follows an entry whose
    target contains [anchor]. *)
Fixpoint clean_template (anchor : list Z) (entries : list MountInfoEntry) : option MountInfoEntry :=
  match entries with
  | a :: ((b :: _) as entries') =>
      if contains (e_target a) anchor && is_suspicious b then Some a else clean_template anchor entries'
  | _ => None
  end.

Section Fossil.
Context {W : Type} `{!World W} {S : Type} `{!HasMem S}.
Abbreviation K := (M W S).

Definition parseMountInfo : K (list MountInfoEntry) :=
  r ← syscall (CFile (B "/proc/self/mountinfo"));
  if r_ret r =? 0 then mret [] else mret (map entry_of_line (getlines (r_data r))).

(** ** Reading the stack *)

Fixpoint strnlen (n : nat) (p : Z) : K nat :=
  match n with
  | O => mret O
  | Datatypes.S n' =>
      b ← load_u8 p;
      if b =? 0 then mret O else len ← strnlen n' (p + 1); mret (Datatypes.S len)
  end.

(** The string and the pointer behind it. *)
Definition parse_and_copy_string_field (ptr limit : Z) : K (option (list Z * Z)) :=
  len ← strnlen (Z.to_nat (limit - ptr)) ptr;
  if Z.of_nat len =? limit - ptr then mret None
  else
    out_str ← load len ptr;
    let ptr := ptr + Z.of_nat len + 1 in
    mret (if ptr <=? limit then Some (out_str, ptr) else None).

(** The address of the first of two NULs in a row; [n] bounds the steps. *)
Fixpoint find_double_null (n : nat) (p limit : Z) : K (option Z) :=
  if p + 1 <? limit then
    match n with
    | O => out_of_fuel
    | Datatypes.S n' =>
        b ← load_u8 p;
        double ← (if b =? 0 then b' ← load_u8 (p + 1); mret (b' =? 0) else mret false);
        if double : bool then mret (Some p) else find_double_null n' (p + 1) limit
    end
  else mret None.

(** The other members of an object that is not valid are never looked at. *)
Definition parseFromMemory (start search_limit : Z) : K MountArgv :=
  if (start =? 0) || (search_limit =? 0) || (search_limit <=? start) then mret no_fossil
  else
    o ← parse_and_copy_string_field start search_limit;
    match o with
    | None => mret no_fossil
    | Some (source, ptr) =>
        o ← parse_and_copy_string_field ptr search_limit;
        match o with
        | None => mret no_fossil
        | Some (target, ptr) =>
            o ← parse_and_copy_string_field ptr search_limit;
            match o with
            | None => mret no_fossil
            | Some (filesystem_type, ptr) =>
                o ← parse_and_copy_string_field ptr search_limit;
                match o with
                | None => mret no_fossil
                | Some (mount_options, ptr) =>
                    if search_limit <? ptr + 4 then mret no_fossil
                    else
                      base_flags ← load_u32 ptr;
                      let end_of_fossil := ptr + 4 in
                      remnants_end ← find_double_null (Z.to_nat (search_limit - end_of_fossil))
                                       end_of_fossil search_limit;
                      let remnant_size := match remnants_end with Some e => e - end_of_fossil | None => 0 end in
                      mret (Argv start source target filesystem_type mount_options base_flags
                              (end_of_fossil - start) remnant_size true)
                end
            end
        end
    end.

(** The loop over the [n] addresses from [p] on. *)
Fixpoint find_from (n : nat) (p search_to : Z) : K MountArgv :=
  match n with
  | O => mret no_fossil
  | Datatypes.S n' =>
      f ← parseFromMemory p search_to;
      if m_valid f && passesHeuristics f then mret f else find_from n' (p + 1) search_to
  end.

Definition find (search_from search_to : Z) : K MountArgv :=
  find_from (Z.to_nat (search_to - search_from)) search_from search_to.

(** ** Writing it *)

Definition writeToMemory (f : MountArgv) : K unit :=
  if negb (m_valid f) then mret tt
  else
    let ptr := m_start_address f in
    store ptr (m_source f ++ [0]);;
    let ptr := ptr + Z.of_nat (length (m_source f)) + 1 in
    store ptr (m_target f ++ [0]);;
    let ptr := ptr + Z.of_nat (length (m_target f)) + 1 in
    store ptr (m_filesystem_type f ++ [0]);;
    let ptr := ptr + Z.of_nat (length (m_filesystem_type f)) + 1 in
    store ptr (m_mount_options f ++ [0]);;
    let ptr := ptr + Z.of_nat (length (m_mount_options f)) + 1 in
    store ptr (le_bytes 4 (m_base_flags f)).

Definition cleanMemory (f : MountArgv) : K unit :=
  if negb (m_valid f) then mret tt
  else
    let total_size := m_fossil_size f + m_remnant_size f in
    if 0 <? total_size then store (m_start_address f) (replicate (Z.to_nat total_size) 0) else mret tt.

Definition spoof_zygote_fossil (search_from search_to : Z) (anchor : list Z) : K unit :=
  suspicious_fossil ← find search_from search_to;
  if negb (m_valid suspicious_fossil) then mret tt
  else if contains (m_target suspicious_fossil) anchor then mret tt
  else
    mount_entries ← parseMountInfo;
    match clean_template anchor mount_entries with
    | None => mret tt
    | Some clean_entry =>
        cleanMemory suspicious_fossil;;
        writeToMemory (clean_argv clean_entry (m_start_address suspicious_fossil)
                         (m_base_flags suspicious_fossil))
    end.
End Fossil.

(** ** Reading the stack changes nothing *)

Section Reads.
Context {W : Type} `{!World W} {S : Type} `{!HasMem S}.
Abbreviation K := (M W S).

Lemma reads_strnlen n p : reads (strnlen n p : K nat).
Proof. revert p. induction n as [|n IH]; intros p; cbn [strnlen]; reads_tac. Qed.
#[local] Hint Resolve reads_strnlen : reads.

Lemma reads_field ptr limit : reads (parse_and_copy_string_field ptr limit : K (option (list Z * Z))).
Proof. unfold parse_and_copy_string_field. reads_tac. Qed.

Lemma reads_double_null n p limit : reads (find_double_null n p limit : K (option Z)).
Proof. revert p. induction n as [|n IH]; intros p; cbn [find_double_null]; reads_tac. Qed.
#[local] Hint Resolve reads_field reads_double_null : reads.

Lemma reads_parse start limit : reads (parseFromMemory start limit : K MountArgv).
Proof. unfold parseFromMemory, load_u32. reads_tac. Qed.

(** The fossil [find] returns: the first plausible one, read with the memory
    as it is. *)
Definition plausible (f : MountArgv) : bool := m_valid f && passesHeuristics f.

(** Nothing plausible begins at the addresses from [p] up to [q]. *)
Definition implausible (s : st W S) (p q search_to : Z) : Prop :=
  forall x, p <= x < q -> exists g, parseFromMemory x search_to s = (Ret g, s) /\ plausible g = false.

(** The fossil [f] at [a] is the first plausible one from [p] on. *)
Definition first_plausible (s : st W S) (p search_to a : Z) (f : MountArgv) : Prop :=
  parseFromMemory a search_to s = (Ret f, s) /\ plausible f = true /\ implausible s p a search_to.

Lemma find_from_first n p search_to (s : st W S) :
  wp (find_from n p search_to) (on_ret (fun f s' => s' = s /\
    ((f = no_fossil /\ implausible s p (p + Z.of_nat n) search_to)
     \/ exists a, p <= a < p + Z.of_nat n /\ first_plausible s p search_to a f))) s.
Proof.
  revert p. induction n as [|n IH]; intros p; cbn [find_from].
  { wrun. split; [done|]. left. split; [done|]. intros x Hx. lia. }
  wstep. apply wp_reads; [apply reads_parse|]. intros [g| | |] Eg; cbn [wp_cont]; try done.
  fold (plausible g). destruct (plausible g) eqn:Ep.
  { wrun. split; [done|]. right. exists p. split; [lia|]. split; [done|]. split; [done|]. intros x Hx. lia. }
  eapply wp_mono; [apply IH|]. intros [f| | |] s1 H; cbn in *; try done. destruct H as (-> & H). split; [done|].
  assert (Hfrom : forall q, implausible s (p + 1) q search_to -> implausible s p q search_to).
  { intros q Hq x Hx. destruct (decide (x = p)) as [->|]; [by exists g|]. apply Hq. lia. }
  destruct H as [[-> H]|(a & Ha & H1 & H2 & H3)]; [left|right].
  - split; [done|]. apply Hfrom. intros x Hx. apply H. lia.
  - exists a. split; [lia|]. split; [done|]. split; [done|]. by apply Hfrom.
Qed.
End Reads.

(** ** What is on the stack afterwards *)

(** The bytes [bs] were written at [p]. *)
Definition written (p : Z) (bs : list Z) (bm bm' : gmap Z Z) : Prop :=
  forall x, bm' !! x = if (p <=? x) && (x <? p + Z.of_nat (length bs)) then bs !! Z.to_nat (x - p) else bm !! x.

Lemma written_app p bs1 bs2 bm1 bm2 bm3 :
  written p bs1 bm1 bm2 -> written (p + Z.of_nat (length bs1)) bs2 bm2 bm3 -> written p (bs1 ++ bs2) bm1 bm3.
Proof.
  intros H1 H2 x. rewrite H2, H1, length_app. zcase; try done.
  - rewrite lookup_app_r by lia. f_equal. lia.
  - rewrite lookup_app_l by lia. done.
Qed.

(** A write over a longer one leaves its end. *)
Lemma written_over p bs1 bs2 bm1 bm2 bm3 :
  written p bs1 bm1 bm2 -> written p bs2 bm2 bm3 ->
  written p (bs2 ++ drop (length bs2) bs1) bm1 bm3.
Proof.
  intros H1 H2 x. rewrite H2, H1, length_app, length_drop. zcase; try done.
  all: try (rewrite lookup_app_l by lia; done).
  rewrite lookup_app_r, lookup_drop by lia. f_equal. lia.
Qed.

Lemma contents_written m p bs m' :
  0 <= p -> p + Z.of_nat (length bs) <= 2 ^ 64 -> write_bytes m p bs = Some m' ->
  written p bs (contents m) (contents m').
Proof.
  intros H0 H1 H. destruct (contents_write m p bs m' H0 H1 H) as [P1 P2]. intros x. zcase; try (apply P2; lia).
  destruct (peek_at _ _ _ _ (Z.to_nat (x - p)) H0 H1 P1 ltac:(lia)) as (b & E1 & E2).
  rewrite E1, <- E2. f_equal. lia.
Qed.

Definition fossil_bytes (f : MountArgv) : list Z :=
  m_source f ++ [0] ++ m_target f ++ [0] ++ m_filesystem_type f ++ [0] ++ m_mount_options f ++ [0]
  ++ le_bytes 4 (m_base_flags f).

Lemma written_at p p' bs bm bm' : written p bs bm bm' -> p' = p -> written p' bs bm bm'.
Proof. by intros H ->. Qed.

(** Programs have no addresses in the upper half. *)
Definition user_space (m : mem) : Prop := forall x, x ∈ footprint m -> 0 <= x < 2 ^ 63.

Lemma write_user m p bs m' :
  user_space m -> 0 <= p <= 2 ^ 63 -> write_bytes m p bs = Some m' -> p + Z.of_nat (length bs) <= 2 ^ 63.
Proof.
  revert m p. induction bs as [|b bs IH]; intros m p Hu Hp H; cbn [write_bytes length] in *; [lia|].
  destruct (m !! p) as [c|] eqn:E; [cbn in H|done]. destruct (_ &? _); [|done].
  assert (0 <= p < 2 ^ 63) by (apply Hu, elem_of_dom; eauto). rewrite uwrap_id in H by fits.
  apply IH in H; [lia| |lia]. intros x Hx. apply Hu. unfold footprint in *.
  by rewrite dom_insert_lookup_L in Hx by eauto.
Qed.

Section Spoofing.
Context {W : Type} `{!World W} {S : Type} `{!HasMem S}.
Abbreviation K := (M W S).
Abbreviation mm := (fun s : st W S => the_mem (st_s s)).

Lemma wp_store_written p bs (Q : outcome unit -> st W S -> Prop) s :
  user_space (mm s) -> 0 <= p <= 2 ^ 63 ->
  (forall s', written p bs (contents (mm s)) (contents (mm s')) -> st_log s' = st_log s ->
     user_space (mm s') -> p + Z.of_nat (length bs) <= 2 ^ 63 -> Q (Ret tt) s') ->
  Q Crash s -> wp (store p bs) Q s.
Proof.
  intros Hu Hp HQ Hc. unfold store. wrun. rewrite uwrap_id by fits.
  destruct (write_bytes _ _ _) as [m|] eqn:E; wrun; [|done].
  pose proof (write_user _ _ _ _ Hu Hp E) as Hl.
  apply HQ; cbn [st_s]; rewrite ?mem_put; [apply contents_written; [lia|lia|done]|done| |done].
  intros x. rewrite (footprint_write _ _ _ _ E). apply Hu.
Qed.

Lemma write_written f s :
  m_valid f = true -> 0 <= m_start_address f <= 2 ^ 63 -> user_space (mm s) ->
  wp (writeToMemory f) (on_ret (fun _ s' => st_log s' = st_log s /\
    written (m_start_address f) (fossil_bytes f) (contents (mm s)) (contents (mm s')))) s.
Proof.
  intros Hv H0 Hu. unfold writeToMemory. rewrite Hv. cbn [negb].
  assert (Hl : forall l : list Z, Z.of_nat (length (l ++ [0])) = Z.of_nat (length l) + 1)
    by (intros l; rewrite length_app; cbn; lia).
  wstep. apply wp_store_written; [done|done| |done]. intros s1 H1 L1 U1 B1. rewrite Hl in B1. wrun.
  apply wp_store_written; [done|lia| |done]. intros s2 H2 L2 U2 B2. rewrite Hl in B2. wrun.
  apply wp_store_written; [done|lia| |done]. intros s3 H3 L3 U3 B3. rewrite Hl in B3. wrun.
  apply wp_store_written; [done|lia| |done]. intros s4 H4 L4 U4 B4. rewrite Hl in B4. wrun.
  apply wp_store_written; [done|lia| |done]. intros s5 H5 L5 U5 B5. cbn [on_ret]. split; [congruence|].
  replace (fossil_bytes f) with ((m_source f ++ [0]) ++ (m_target f ++ [0]) ++ (m_filesystem_type f ++ [0])
    ++ (m_mount_options f ++ [0]) ++ le_bytes 4 (m_base_flags f)) by (unfold fossil_bytes; by rewrite <- !app_assoc).
  repeat (eapply written_app;
          [first [exact H1 | eapply written_at; [first [exact H2|exact H3|exact H4]|rewrite ?Hl; lia]]|]).
  eapply written_at; [exact H5|rewrite ?Hl; lia].
Qed.

Lemma parse_start start limit s :
  wp (parseFromMemory start limit : K MountArgv) (on_ret (fun f _ => m_valid f = true -> m_start_address f = start)) s.
Proof.
  unfold parseFromMemory. destruct (_ || _); [by wrun|].
  do 4 (wstep; apply wp_reads; [apply reads_field|]; intros [[[? ?]|]| | |] _; cbn [wp_cont]; try done).
  destruct (_ <? _); [by wrun|]. wstep. apply wp_reads; [unfold load_u32; apply reads_bind; [apply reads_load|done]|].
  intros [fl| | |] _; cbn [wp_cont]; try done. wstep. apply wp_reads; [apply reads_double_null|].
  intros [e| | |] _; cbn [wp_cont]; try done.
Qed.

(** A mount whose target contains the anchor, and a suspicious one after it. *)
Definition paired (anchor : list Z) (x y : MountInfoEntry) : bool := contains (e_target x) anchor && is_suspicious y.

(** No two consecutive mounts are such a pair. *)
Definition no_pair (anchor : list Z) (entries : list MountInfoEntry) : Prop :=
  forall pre x y rest, entries = pre ++ x :: y :: rest -> paired anchor x y = false.

Lemma no_pair_cons anchor a l : (forall b l', l = b :: l' -> paired anchor a b = false) -> no_pair anchor l -> no_pair anchor (a :: l).
Proof.
  intros Ha Hl [|c pre] x y rest [= ]; subst; [by eapply Ha|by eapply Hl].
Qed.

(** The mount that is taken is the first of its kind. *)
Lemma template_split anchor entries :
  match clean_template anchor entries with
  | Some e => exists pre b rest, entries = pre ++ e :: b :: rest /\ paired anchor e b = true /\ no_pair anchor (pre ++ [e])
  | None => no_pair anchor entries
  end.
Proof.
  assert (H0 : no_pair anchor []) by (intros [|? ?] x y rest E; discriminate E).
  induction entries as [|a [|b entries] IH]; [done|by apply no_pair_cons|].
  change (clean_template anchor (a :: b :: entries)) with (if paired anchor a b then Some a else clean_template anchor (b :: entries)). destruct (paired anchor a b) eqn:E.
  - exists [], b, entries. split; [done|]. split; [done|]. by apply no_pair_cons.
  - destruct (clean_template anchor (b :: entries)) as [e|].
    + destruct IH as (pre & b' & rest & El & H1 & H2). exists (a :: pre), b', rest. rewrite El. split; [done|]. split; [done|].
      cbn [app]. apply no_pair_cons; [|done]. intros c l' Ec.
      assert (c = b) as -> by (destruct pre; cbn in *; congruence). done.
    + apply no_pair_cons; [|done]. intros c l' Ec. by injection Ec as <- <-.
Qed.

(** The clean-up found a reason to leave the stack alone: no plausible
    fossil in the range, or the first one is the anchor's, or mountinfo cannot
    be read, or has no pair. *)
Definition left_alone (search_from search_to : Z) (anchor : list Z) (s s' : st W S) : Prop :=
  (st_log s' = st_log s /\ implausible s search_from search_to search_to)
  \/ exists a f, search_from <= a < search_to /\ first_plausible s search_from search_to a f
     /\ ((contains (m_target f) anchor = true /\ st_log s' = st_log s)
         \/ contains (m_target f) anchor = false /\ exists r, st_log s' = (CFile (B "/proc/self/mountinfo"), r) :: st_log s
            /\ (r_ret r = 0 \/ no_pair anchor (map entry_of_line (getlines (r_data r))))).

(** C33. If the clean-up of the stack returns, it had a reason to leave the
    stack alone and the memory is as it was (no plausible fossil, or the first
    one is the anchor's, or mountinfo is unreadable or has no mount whose
    target contains the anchor right before a suspicious one); or this is what
    happened: the first plausible fossil of the range was not the anchor's;
    the first pair of a mount whose target contains the anchor and a
    suspicious one right after it gives the new content, the argument vector
    of the former with the flags of the fossil; it is in memory where the
    fossil began, followed by zeros up to the end of the fossil and its
    remnants where it is shorter than them (where it is longer it extends past
    them); and no other byte changed. *)
Theorem fossil_replaced search_from search_to anchor (s s' : st W S) :
  0 < search_from -> search_to <= 2 ^ 63 -> user_space (the_mem (st_s s)) ->
  spoof_zygote_fossil search_from search_to anchor s = (Ret tt, s') ->
  (the_mem (st_s s') = the_mem (st_s s) /\ left_alone search_from search_to anchor s s')
  \/ exists a f pre e b rest r,
       search_from <= a < search_to /\ first_plausible s search_from search_to a f
       /\ contains (m_target f) anchor = false
       /\ st_log s' = (CFile (B "/proc/self/mountinfo"), r) :: st_log s
       /\ map entry_of_line (getlines (r_data r)) = pre ++ e :: b :: rest
       /\ paired anchor e b = true /\ no_pair anchor (pre ++ [e])
       /\ let new := fossil_bytes (clean_argv e a (m_base_flags f)) in
          written a (new ++ replicate (Z.to_nat (m_fossil_size f + m_remnant_size f) - length new) 0)
            (contents (the_mem (st_s s))) (contents (the_mem (st_s s'))).
Proof.
  intros Hfrom Hto Hu. wp_of_run. unfold spoof_zygote_fossil, find. wstep.
  eapply wp_mono; [apply find_from_first|]. intros [f| | |] s1 H; cbn [wp_cont on_ret] in *; try done.
  destruct H as (-> & [[-> Hnone]|(a & Ha & Hfp)]).
  { wrun. left. split; [done|]. left. split; [done|]. intros x Hx. apply Hnone. lia. }
  pose proof Hfp as (Hpa & Hpl & _). assert (Hv : m_valid f = true) by by apply andb_true_iff in Hpl as [? _].
  rewrite Hv. cbn [negb]. assert (Hr : search_from <= a < search_to) by lia.
  destruct (contains (m_target f) anchor) eqn:Hanchor.
  { wrun. left. split; [done|]. right. exists a, f. split; [done|]. split; [done|]. by left. }
  assert (Hst : m_start_address f = a).
  { pose proof (parse_start a search_to s) as Hs. apply (wp_on_ret _ _ _ _ _ Hs Hpa Hv). }
  unfold parseMountInfo. wrun. apply wp_syscall. intros r w e. wrun.
  assert (Hskip : forall s2 : st W S, mm s2 = mm s -> st_log s2 = (CFile (B "/proc/self/mountinfo"), r) :: st_log s ->
    r_ret r = 0 \/ no_pair anchor (map entry_of_line (getlines (r_data r))) ->
    mm s2 = mm s /\ left_alone search_from search_to anchor s s2).
  { intros s2 Hm Hl Hwhy. split; [done|]. right. exists a, f. split; [done|]. split; [done|]. right. split; [done|]. by exists r. }
  destruct (Z.eqb_spec (r_ret r) 0); wrun; [left; apply Hskip; [done|done|by left]|].
  pose proof (template_split anchor (map entry_of_line (getlines (r_data r)))) as Hsplit.
  destruct (clean_template _ _) as [cl|]; [|wrun; left; apply Hskip; [done|done|by right]].
  destruct Hsplit as (pre & b & rest & Elist & Hc & Hnp).
  set (new := clean_argv cl (m_start_address f) (m_base_flags f)).
  set (total := m_fossil_size f + m_remnant_size f).
  match goal with |- wp _ ?Q _ => set (P := Q) end.
  assert (Hfin : forall s2 : st W S, user_space (mm s2) ->
    st_log s2 = (CFile (B "/proc/self/mountinfo"), r) :: st_log s ->
    written a (replicate (Z.to_nat total) 0) (contents (mm s)) (contents (mm s2)) ->
    wp (writeToMemory new) P s2).
  { intros s2 U2 L2 W2. eapply wp_mono; [apply write_written; [done|cbn; lia|done]|].
    intros [[]| | |] s3 H3; cbn in H3; try done. destruct H3 as [L3 W3]. right.
    exists a, f, pre, cl, b, rest, r. rewrite L3, L2. do 7 (split; [done|]).
    cbn zeta. rewrite <- Hst. rewrite <- drop_replicate. eapply written_over; [rewrite Hst; exact W2|exact W3]. }
  unfold cleanMemory. rewrite Hv. cbn [negb]. fold total. destruct (Z.ltb_spec 0 total); wrun.
  - apply wp_store_written; [done|lia| |done]. intros s2 W2 L2 U2 _. cbn [wp_cont]. apply Hfin; [done|done|].
    rewrite <- Hst. exact W2.
  - apply Hfin; [done|done|]. replace (Z.to_nat total) with 0%nat by lia. intros x. cbn. zcase; done.
Qed.

End Spoofing.

(** ** A fossil is read as it was written *)

(** Where the first two NULs in a row are. *)
Fixpoint double_null (l : list Z) : option nat :=
  match l with
  | a :: ((b :: _) as l') =>
      if (a =? 0) && (b =? 0) then Some O else Datatypes.S <$> double_null l'
  | _ => None
  end.

Section Parsing.
Context {W : Type} `{!World W} {S : Type} `{!HasMem S}.
Abbreviation mm := (fun s : st W S => the_mem (st_s s)).

Lemma strnlen_holds n p str rest (Q : outcome nat -> st W S -> Prop) s :
  holds (mm s) p (str ++ 0 :: rest) -> 0 ∉ str -> (length str < n)%nat ->
  0 <= p -> p + Z.of_nat (length str) < 2 ^ 64 ->
  Q (Ret (length str)) s -> wp (strnlen n p) Q s.
Proof.
  revert n p Q. induction str as [|c str IH]; intros n p Q Hh Hz Hn Hp0 Hp HQ;
    (destruct n as [|n]; [cbn in Hn; lia|]); cbn [strnlen length app] in *; wstep;
    (eapply wp_load_u8; [exact Hh|done|lia|]); cbn [wp_cont].
  - by wrun.
  - apply not_elem_of_cons in Hz as [Hc Hz]. destruct (Z.eqb_spec c 0); [congruence|]. wstep.
    apply holds_cons in Hh as [_ Hh]. apply IH; [done|done|lia|lia|lia|]. by wrun.
Qed.

Lemma field_holds p limit str rest (Q : outcome (option (list Z * Z)) -> st W S -> Prop) s :
  holds (mm s) p (str ++ 0 :: rest) -> 0 ∉ str ->
  0 <= p -> p + Z.of_nat (length str) < limit -> limit < 2 ^ 64 ->
  Q (Ret (Some (str, p + Z.of_nat (length str) + 1))) s ->
  wp (parse_and_copy_string_field p limit) Q s.
Proof.
  intros Hh Hz Hp Hl Hlim HQ. unfold parse_and_copy_string_field. wstep.
  eapply strnlen_holds; [exact Hh|done|lia|done|lia|]. cbn [wp_cont].
  destruct (Z.eqb_spec (Z.of_nat (length str)) (limit - p)); [lia|]. wstep.
  apply holds_app in Hh as [Hh _]. eapply wp_load; [exact Hh|done|done|lia|]. wrun.
  destruct (Z.leb_spec (p + Z.of_nat (length str) + 1) limit); [done|lia].
Qed.

Lemma double_null_holds n p l limit (Q : outcome (option Z) -> st W S -> Prop) s :
  holds (mm s) p l -> 0 <= p -> limit = p + Z.of_nat (length l) -> limit < 2 ^ 64 -> (length l <= n)%nat ->
  Q (Ret ((fun i => p + Z.of_nat i) <$> double_null l)) s -> wp (find_double_null n p limit) Q s.
Proof.
  revert n p Q. induction l as [|a l IH]; intros n p Q Hh Hp Hl Hlim Hn HQ; subst limit; cbn [length] in *.
  { destruct n; cbn [find_double_null]; destruct (Z.ltb_spec (p + 1) (p + Z.of_nat 0)); try lia; wrun; exact HQ. }
  destruct n as [|n]; [lia|]. cbn [find_double_null].
  destruct (Z.ltb_spec (p + 1) (p + Z.of_nat (Datatypes.S (length l)))).
  2:{ destruct l as [|b l]; [wrun; exact HQ|cbn [length] in *; lia]. }
  destruct l as [|b l]; [cbn [length] in *; lia|]. wstep.
  eapply wp_load_u8; [exact Hh|done|lia|]. cbn [wp_cont]. apply holds_cons in Hh as [_ Hh].
  change (double_null (a :: b :: l)) with
    (if (a =? 0) && (b =? 0) then Some O else Datatypes.S <$> double_null (b :: l)) in HQ.
  assert (Hnext : (a =? 0) && (b =? 0) = false ->
    wp (find_double_null n (p + 1) (p + Z.of_nat (Datatypes.S (length (b :: l))))) Q s).
  { intros E. apply IH; [done|lia|lia|done|lia|]. rewrite E in HQ.
    destruct (double_null (b :: l)) as [i|]; cbn [fmap option_fmap option_map] in *; [|done].
    replace (p + 1 + Z.of_nat i) with (p + Z.of_nat (Datatypes.S i)) by lia. done. }
  destruct (a =? 0) eqn:Ea; wrun; [|by apply Hnext].
  eapply wp_load_u8; [exact Hh|lia|cbn [length] in *; lia|]. wrun.
  destruct (b =? 0) eqn:Eb; cbn [andb] in HQ; [|by apply Hnext]. wrun. cbn in HQ. by rewrite Z.add_0_r in HQ.
Qed.

(** A fossil in memory is read back exactly: its four strings, its flags,
    its size, and the number of bytes that follow it up to the first two NULs
    in a row (0 if there are none before the limit). *)
Theorem fossil_parsed f rest (s : st W S) :
  let a := m_start_address f in
  let bs := fossil_bytes f ++ rest in
  holds (the_mem (st_s s)) a bs -> 0 < a -> a + Z.of_nat (length bs) < 2 ^ 64 ->
  (0 ∉ m_source f) -> (0 ∉ m_target f) -> (0 ∉ m_filesystem_type f) -> (0 ∉ m_mount_options f) ->
  fits_u 32 (m_base_flags f) ->
  parseFromMemory a (a + Z.of_nat (length bs)) s
  = (Ret (Argv a (m_source f) (m_target f) (m_filesystem_type f) (m_mount_options f) (m_base_flags f)
            (Z.of_nat (length (fossil_bytes f))) (default 0 (Z.of_nat <$> double_null rest)) true), s).
Proof.
  intros a bs Hh Ha Hlim H1 H2 H3 H4 Hf. subst bs.
  set (limit := a + Z.of_nat (length (fossil_bytes f ++ rest))) in *.
  match goal with |- _ = (?o, _) => cut (wp (parseFromMemory a limit) (fun o' s' => o' = o /\ s' = s) s) end.
  { unfold wp. destruct (parseFromMemory a limit s) as [o' s']. cbn. by intros [-> ->]. }
  assert (El : limit = a + Z.of_nat (length (m_source f)) + 1 + Z.of_nat (length (m_target f)) + 1
     + Z.of_nat (length (m_filesystem_type f)) + 1 + Z.of_nat (length (m_mount_options f)) + 1 + 4 + Z.of_nat (length rest)).
  { unfold limit, fossil_bytes. rewrite !length_app, length_le_bytes. cbn [length]. lia. }
  assert (Eb : Z.of_nat (length (fossil_bytes f)) = limit - Z.of_nat (length rest) - a).
  { unfold limit. rewrite length_app. lia. }
  unfold fossil_bytes in Hh. rewrite <- !app_assoc in Hh. cbn [app] in Hh. rewrite Eb. clearbody limit.
  unfold parseFromMemory. destruct (Z.eqb_spec a 0); [lia|]. destruct (Z.eqb_spec limit 0); [lia|].
  destruct (Z.leb_spec limit a); [lia|]. cbn [orb].
  assert (Hnext : forall p str l, holds (mm s) p (str ++ 0 :: l) -> holds (mm s) (p + Z.of_nat (length str) + 1) l).
  { intros p str l Hs. apply holds_app in Hs as [_ Hs]. apply holds_cons in Hs as [_ Hs]. done. }
  wstep. eapply field_holds; [exact Hh|done|lia|lia|lia|]. cbn [wp_cont]. apply Hnext in Hh.
  wstep. eapply field_holds; [exact Hh|done|lia|lia|lia|]. cbn [wp_cont]. apply Hnext in Hh.
  wstep. eapply field_holds; [exact Hh|done|lia|lia|lia|]. cbn [wp_cont]. apply Hnext in Hh.
  wstep. eapply field_holds; [exact Hh|done|lia|lia|lia|]. cbn [wp_cont]. apply Hnext in Hh.
  match goal with |- context [limit <? ?p + 4] => set (q := p) in * end.
  destruct (Z.ltb_spec limit (q + 4)); [lia|]. apply holds_app in Hh as [Hfl Hrest]. rewrite length_le_bytes in Hrest.
  wstep. eapply wp_load_u32; [exact Hfl|lia|lia|done|]. cbn [wp_cont]. wstep.
  eapply double_null_holds; [exact Hrest|lia|lia|lia|lia|]. wrun. split; [|done].
  do 2 f_equal; [lia|]. destruct (double_null rest) as [i|]; cbn; lia.
Qed.
End Parsing.

(** ** Stacks to run on *)

(** The arguments of a mount by KernelSU, a remnant, two NULs; then bytes that
    belong to someone else. *)
Definition old_fossil : MountArgv := Argv 0x1000 (B "KSU") (B "/x") (B "ext4") (B "seclabel") 1 0 0 true.
Definition stack_bytes : list Z := fossil_bytes old_fossil ++ B "r" ++ [0; 0].
Definition stack_end : Z := 0x1000 + Z.of_nat (length stack_bytes).
Definition stack : mem := map_range 3 120 0x1000 (stack_bytes ++ replicate 60 5) ∅.
Definition mountinfo : list Z :=
  B "30 1 254:9 / /data/misc/profiles/ref rw - f2fs /dev/block/dm-9 rw,seclabel" ++ [NL]
  ++ B "31 1 7:8 / /data/adb/modules rw - ext4 /dev/block/loop3 rw" ++ [NL].
Definition zygote : st script mem := St [Reply 1 0 mountinfo []] [] 0 stack.

Lemma fossil_parsed_witness :
  parseFromMemory 0x1000 stack_end zygote
  = (Ret (Argv 0x1000 (B "KSU") (B "/x") (B "ext4") (B "seclabel") 1
            (Z.of_nat (length (fossil_bytes old_fossil))) 1 true), zygote).
Proof.
  refine (fossil_parsed old_fossil (B "r" ++ [0; 0]) zygote _ _ _ _ _ _ _ _); try vm_decide.
  apply holds_read; [vm_compute; discriminate|vm_compute; discriminate|vm_compute; reflexivity].
Defined.

Lemma stack_user : user_space stack.
Proof.
  intros x Hx. apply footprint_map in Hx as [Hx|Hx]; [by apply not_elem_of_empty in Hx|]. lia.
Qed.

Lemma fossil_replaced_witness :
  exists s' a f e b rest, spoof_zygote_fossil 0x1000 stack_end (B "ref") zygote = (Ret tt, s')
    /\ first_plausible zygote 0x1000 stack_end a f /\ map entry_of_line (getlines mountinfo) = e :: b :: rest
    /\ let new := fossil_bytes (clean_argv e a (m_base_flags f)) in
       written a (new ++ replicate (Z.to_nat (m_fossil_size f + m_remnant_size f) - length new) 0) (contents stack) (contents (st_s s')).
Proof.
  destruct (fossil_replaced 0x1000 stack_end (B "ref") zygote
    (spoof_zygote_fossil 0x1000 stack_end (B "ref") zygote).2) as [[H _]|(a & f & pre & e & b & rest & r & H1 & H2 & H3 & H4 & H5 & H6 & H7 & H8)].
  - lia.
  - vm_compute. discriminate.
  - exact stack_user.
  - vm_compute. reflexivity.
  - apply (f_equal (fun m => contents m !! stack_end)) in H. vm_compute in H. discriminate H.
  - assert (Er : r = Reply 1 0 mountinfo []) by (vm_compute in H4; injection H4 as H4; symmetry; exact H4).
    rewrite Er in H5. assert (Hl : length (pre ++ e :: b :: rest) = 2%nat) by (rewrite <- H5; vm_compute; reflexivity).
    rewrite length_app in Hl. cbn [length] in Hl. destruct pre; [|cbn [length] in Hl; lia].
    eexists _, a, f, e, b, rest. split; [vm_compute; reflexivity|]. split; [exact H2|]. split; [exact H5|exact H8].
Defined.

(** The vector that is written may be longer than what was found: nothing
    compares the two, and the bytes behind the fossil, even beyond the range
    that was to be searched, are overwritten. *)
Theorem fossil_overrun :
  exists s', spoof_zygote_fossil 0x1000 stack_end (B "ref") zygote = (Ret tt, s')
    /\ contents stack !! stack_end = Some 5 /\ contents (st_s s') !! stack_end = Some 114.
Proof. eexists. split; [vm_compute; reflexivity|]. split; vm_compute; reflexivity. Qed.
