(* ===== verification/ElfParser.v ===== *)
(** Symbols of a loaded library, read from its file
    (loader/src/common/elf_parser.cpp and include/elf_parser.hpp).

    The file is mapped into the process's memory and read there; the object is
    the record [ElfImage], whose constructor, destructor and lookups are
    programs over any state that contains the memory. The cache of the linear
    lookup is the list of its pairs in the order of insertion; the order in
    which [std::unordered_map] visits them is an interface of its own. *)
From S2P Require Import Prelude Sys Text Mem Linker.
Open Scope Z_scope.

Definition SHT_SYMTAB : Z := 2.
Definition SHT_STRTAB : Z := 3.
Definition SHT_HASH : Z := 5.
Definition SHT_DYNSYM : Z := 11.
Definition SHT_GNU_HASH : Z := 0x6ffffff6.
Definition MAP_SHARED : Z := 1.
Definition O_RDONLY_CLOEXEC : Z := 0x80000.

(** Null pointers are 0; [bias_] is an [off_t]. *)
Record ElfImage := Image_mk {
  library_path_ : list Z; base_address_ : Z; map_base_ : Z; map_size_ : Z; header_ : Z; bias_ : Z;
  dynsym_ : Z; dynstr_ : Z; symtab_ : Z; strtab_ : Z; symtab_count_ : Z;
  nbucket_ : Z; bucket_ : Z; chain_ : Z;
  gnu_nbucket_ : Z; gnu_symindx_ : Z; gnu_bloom_size_ : Z; gnu_shift2_ : Z;
  gnu_bloom_filter_ : Z; gnu_bucket_ : Z; gnu_chain_ : Z;
  symbol_cache_ : list (list Z * Z) }.

Definition empty_image : ElfImage :=
  Image_mk [] 0 0 0 0 (-1) 0 0 0 0 0 0 0 0 0 0 0 0 0 0 0 [].

Definition set_found (path : list Z) (base : Z) (i : ElfImage) : ElfImage :=
  Image_mk path base (map_base_ i) (map_size_ i) (header_ i) (bias_ i) (dynsym_ i) (dynstr_ i)
    (symtab_ i) (strtab_ i) (symtab_count_ i) (nbucket_ i) (bucket_ i) (chain_ i) (gnu_nbucket_ i)
    (gnu_symindx_ i) (gnu_bloom_size_ i) (gnu_shift2_ i) (gnu_bloom_filter_ i) (gnu_bucket_ i)
    (gnu_chain_ i) (symbol_cache_ i).
Definition set_map (base size header : Z) (i : ElfImage) : ElfImage :=
  Image_mk (library_path_ i) (base_address_ i) base size header (bias_ i) (dynsym_ i) (dynstr_ i)
    (symtab_ i) (strtab_ i) (symtab_count_ i) (nbucket_ i) (bucket_ i) (chain_ i) (gnu_nbucket_ i)
    (gnu_symindx_ i) (gnu_bloom_size_ i) (gnu_shift2_ i) (gnu_bloom_filter_ i) (gnu_bucket_ i)
    (gnu_chain_ i) (symbol_cache_ i).
Definition set_bias (bias : Z) (i : ElfImage) : ElfImage :=
  Image_mk (library_path_ i) (base_address_ i) (map_base_ i) (map_size_ i) (header_ i) bias (dynsym_ i)
    (dynstr_ i) (symtab_ i) (strtab_ i) (symtab_count_ i) (nbucket_ i) (bucket_ i) (chain_ i)
    (gnu_nbucket_ i) (gnu_symindx_ i) (gnu_bloom_size_ i) (gnu_shift2_ i) (gnu_bloom_filter_ i)
    (gnu_bucket_ i) (gnu_chain_ i) (symbol_cache_ i).
Definition set_tables (dynsym dynstr symtab strtab count : Z) (i : ElfImage) : ElfImage :=
  Image_mk (library_path_ i) (base_address_ i) (map_base_ i) (map_size_ i) (header_ i) (bias_ i) dynsym
    dynstr symtab strtab count (nbucket_ i) (bucket_ i) (chain_ i) (gnu_nbucket_ i) (gnu_symindx_ i)
    (gnu_bloom_size_ i) (gnu_shift2_ i) (gnu_bloom_filter_ i) (gnu_bucket_ i) (gnu_chain_ i) (symbol_cache_ i).
Definition set_sysv (nbucket bucket chain : Z) (i : ElfImage) : ElfImage :=
  Image_mk (library_path_ i) (base_address_ i) (map_base_ i) (map_size_ i) (header_ i) (bias_ i) (dynsym_ i)
    (dynstr_ i) (symtab_ i) (strtab_ i) (symtab_count_ i) nbucket bucket chain (gnu_nbucket_ i)
    (gnu_symindx_ i) (gnu_bloom_size_ i) (gnu_shift2_ i) (gnu_bloom_filter_ i) (gnu_bucket_ i)
    (gnu_chain_ i) (symbol_cache_ i).
Definition set_gnu (nbucket symindx bloom_size shift2 filter bucket chain : Z) (i : ElfImage) : ElfImage :=
  Image_mk (library_path_ i) (base_address_ i) (map_base_ i) (map_size_ i) (header_ i) (bias_ i) (dynsym_ i)
    (dynstr_ i) (symtab_ i) (strtab_ i) (symtab_count_ i) (nbucket_ i) (bucket_ i) (chain_ i)
    nbucket symindx bloom_size shift2 filter bucket chain (symbol_cache_ i).
Definition set_cache (c : list (list Z * Z)) (i : ElfImage) : ElfImage :=
  Image_mk (library_path_ i) (base_address_ i) (map_base_ i) (map_size_ i) (header_ i) (bias_ i) (dynsym_ i)
    (dynstr_ i) (symtab_ i) (strtab_ i) (symtab_count_ i) (nbucket_ i) (bucket_ i) (chain_ i) (gnu_nbucket_ i)
    (gnu_symindx_ i) (gnu_bloom_size_ i) (gnu_shift2_ i) (gnu_bloom_filter_ i) (gnu_bucket_ i)
    (gnu_chain_ i) c.

Definition isValid (i : ElfImage) : bool := negb (base_address_ i =? 0) && negb (header_ i =? 0).

(** ** Hash functions *)

Definition calculateSysvHash (name : list Z) : Z :=
  fold_left (fun h c =>
    let h := u32 (u32 (Z.shiftl h 4) + c) in
    let g := Z.land h 0xf0000000 in
    let h := if negb (g =? 0) then Z.lxor h (Z.shiftr g 24) else h in
    Z.land h (Z.lxor g (2 ^ 32 - 1))) name 0.

Definition calculateGnuHash (name : list Z) : Z :=
  fold_left (fun h c => u32 (u32 (u32 (Z.shiftl h 5) + h) + c)) name 5381.

(** ** The cache *)

Definition cache_find (name : list Z) (c : list (list Z * Z)) : option Z :=
  snd <$> find (fun p => beq p.1 name) c.

(** [emplace]: nothing happens if the key is there. *)
Definition emplace (name : list Z) (sym : Z) (c : list (list Z * Z)) : list (list Z * Z) :=
  match cache_find name c with Some _ => c | None => c ++ [(name, sym)] end.

(** The order in which the elements of the map are visited. *)
Class HashOrder := {
  visit : list (list Z * Z) -> list (list Z * Z);
  visit_perm c : Permutation (visit c) c }.

Section ElfParser.
Context {W : Type} `{!World W} {S : Type} `{!HasMem S} `{!HashOrder} (fuel : nat).
Abbreviation K := (M W S).

(** The path and the address of the first loaded object whose name contains
    [name]. *)
Fixpoint find_library (n : nat) (i : Z) (name : list Z) : K (option (list Z * Z)) :=
  match n with
  | O => out_of_fuel
  | Datatypes.S n' =>
      r ← syscall (CDlObject i);
      if r_ret r =? 0 then mret None
      else if contains (r_data r) name then mret (Some (r_data r, nth 0 (r_aux r) 0))
      else find_library n' (i + 1) name
  end.

Definition findLoadedLibraryInfo (name : list Z) (img : ElfImage) : K (bool * ElfImage) :=
  o ← find_library fuel 0 name;
  mret (match o with Some (path, base) => (true, set_found path base img) | None => (false, img) end).

(** The loop over the program headers: the first PT_LOAD's bias. *)
Fixpoint bias_from (n : nat) (ph : Z) (img : ElfImage) : K ElfImage :=
  match n with
  | O => mret img
  | Datatypes.S n' =>
      p_type ← load_u32 ph;
      if p_type =? PT_LOAD then
        p_vaddr ← load_u64 (ph + 16);
        p_offset ← load_u64 (ph + 8);
        mret (set_bias (s64 (p_vaddr - p_offset)) img)
      else bias_from n' (ph + sizeof_Phdr) img
  end.

(** One section header, at [sh]. *)
Definition read_section (shstrtab sh : Z) (img : ElfImage) : K ElfImage :=
  let section := sh_offset ← load_u64 (sh + 24); mret (u64 (map_base_ img + sh_offset)) in
  sh_type ← load_u32 (sh + 4);
  if sh_type =? SHT_DYNSYM then
    at_ ← section;
    mret (set_tables at_ (dynstr_ img) (symtab_ img) (strtab_ img) (symtab_count_ img) img)
  else if sh_type =? SHT_SYMTAB then
    at_ ← section;
    sh_size ← load_u64 (sh + 32);
    sh_entsize ← load_u64 (sh + 56);
    if sh_entsize =? 0 then crash
    else mret (set_tables (dynsym_ img) (dynstr_ img) at_ (strtab_ img) (sh_size / sh_entsize) img)
  else if sh_type =? SHT_STRTAB then
    sh_name ← load_u32 sh;
    is_strtab ← str_eq (shstrtab + sh_name) (B ".strtab");
    if is_strtab : bool then
      at_ ← section;
      mret (set_tables (dynsym_ img) (dynstr_ img) (symtab_ img) at_ (symtab_count_ img) img)
    else
      is_dynstr ← str_eq (shstrtab + sh_name) (B ".dynstr");
      if is_dynstr : bool then
        at_ ← section;
        mret (set_tables (dynsym_ img) at_ (symtab_ img) (strtab_ img) (symtab_count_ img) img)
      else mret img
  else if sh_type =? SHT_HASH then
    at_ ← section;
    nbucket ← load_u32 at_;
    mret (set_sysv nbucket (at_ + 8) (at_ + 8 + 4 * nbucket) img)
  else if sh_type =? SHT_GNU_HASH then
    at_ ← section;
    nbucket ← load_u32 at_;
    symindx ← load_u32 (at_ + 4);
    bloom_size ← load_u32 (at_ + 8);
    shift2 ← load_u32 (at_ + 12);
    let filter := at_ + 16 in
    let bucket := filter + 8 * bloom_size in
    mret (set_gnu nbucket symindx bloom_size shift2 filter bucket (bucket + 4 * nbucket) img)
  else mret img.

Definition sizeof_Shdr : Z := 64.

Fixpoint read_sections (n : nat) (shstrtab sh : Z) (img : ElfImage) : K ElfImage :=
  match n with
  | O => mret img
  | Datatypes.S n' => img ← read_section shstrtab sh img; read_sections n' shstrtab (sh + sizeof_Shdr) img
  end.

(** The part of the constructor that reads the mapped file. *)
Definition parse_file (img : ElfImage) : K ElfImage :=
  let base := map_base_ img in
  e_phoff ← load_u64 (base + 32);
  e_phnum ← load_u16 (base + 56);
  img ← bias_from (Z.to_nat e_phnum) (u64 (base + e_phoff)) img;
  e_shoff ← load_u64 (base + 40);
  e_shstrndx ← load_u16 (base + 62);
  let section_headers := u64 (base + e_shoff) in
  str_offset ← load_u64 (section_headers + sizeof_Shdr * e_shstrndx + 24);
  e_shnum ← load_u16 (base + 60);
  read_sections (Z.to_nat e_shnum) (u64 (base + str_offset)) section_headers img.

(** [ElfImage::ElfImage]. *)
Definition new_ElfImage (library_name : list Z) : K ElfImage :=
  '(found, img) ← findLoadedLibraryInfo library_name empty_image;
  if negb found then mret img
  else
    r ← syscall (COpen (library_path_ img) O_RDONLY_CLOEXEC 0);
    let fd := r_ret r in
    if fd <? 0 then mret img
    else
      r ← syscall (CFstat fd);
      if r_ret r <? 0 then do_ (CClose fd);; mret img
      else
        let size := nth 0 (r_aux r) 0 in
        o ← mmap 0 size PROT_READ MAP_SHARED fd 0;
        do_ (CClose fd);;
        match o with
        | None => mret (set_map 0 size 0 img)
        | Some base => parse_file (set_map base size base img)
        end.

(** [ElfImage::~ElfImage]. *)
Definition delete_ElfImage (img : ElfImage) : K unit :=
  if negb (map_base_ img =? 0) then munmap (map_base_ img) (map_size_ img) else mret tt.

(** ** Lookup *)

(** From the chain entry at [chain], which belongs to symbol [sym_index]. *)
Fixpoint gnu_chain (n : nat) (img : ElfImage) (name : list Z) (gnu_hash chain sym_index : Z) : K Z :=
  match n with
  | O => out_of_fuel
  | Datatypes.S n' =>
      c ← load_u32 chain;
      found ← (if Z.shiftr (Z.lxor c gnu_hash) 1 =? 0 then
                 let sym := dynsym_ img + sizeof_Sym * sym_index in
                 st_name ← load_u32 sym;
                 same ← str_eq (dynstr_ img + st_name) name;
                 if same : bool then v ← load_u64 (sym + 8); mret (Some v) else mret None
               else mret None);
      match found with
      | Some v => mret v
      | None => if Z.land c 1 =? 0 then gnu_chain n' img name gnu_hash (chain + 4) (u32 (sym_index + 1)) else mret 0
      end
  end.

Definition findSymbolByGnuHash (img : ElfImage) (name : list Z) (gnu_hash : Z) : K Z :=
  if gnu_bloom_filter_ img =? 0 then mret 0
  else if gnu_bloom_size_ img =? 0 then crash
  else
    bloom_word ← load_u64 (gnu_bloom_filter_ img + 8 * ((gnu_hash / 64) mod gnu_bloom_size_ img));
    if 32 <=? gnu_shift2_ img then crash
    else
      let mask := Z.lor (Z.shiftl 1 (gnu_hash mod 64)) (Z.shiftl 1 (Z.shiftr gnu_hash (gnu_shift2_ img) mod 64)) in
      if negb (Z.land bloom_word mask =? mask) then mret 0
      else if gnu_nbucket_ img =? 0 then crash
      else
        sym_index ← load_u32 (gnu_bucket_ img + 4 * (gnu_hash mod gnu_nbucket_ img));
        if sym_index <? gnu_symindx_ img then mret 0
        else gnu_chain fuel img name gnu_hash (gnu_chain_ img + 4 * (sym_index - gnu_symindx_ img)) sym_index.

(** The chain of symbols from [n] on; [k] bounds the steps. *)
Fixpoint sysv_chain (k : nat) (img : ElfImage) (name : list Z) (n : Z) : K Z :=
  if n =? 0 then mret 0
  else
    match k with
    | O => out_of_fuel
    | Datatypes.S k' =>
        let sym := dynsym_ img + sizeof_Sym * n in
        st_name ← load_u32 sym;
        same ← str_eq (dynstr_ img + st_name) name;
        if same : bool then load_u64 (sym + 8)
        else
          next ← load_u32 (chain_ img + 4 * n);
          sysv_chain k' img name next
    end.

Definition findSymbolBySysvHash (img : ElfImage) (name : list Z) (sysv_hash : Z) : K Z :=
  if bucket_ img =? 0 then mret 0
  else if nbucket_ img =? 0 then crash
  else
    n ← load_u32 (bucket_ img + 4 * (sysv_hash mod nbucket_ img));
    sysv_chain fuel img name n.

(** Symbols [i] and following into the cache. *)
Fixpoint cache_symbols (n : nat) (symtab strtab i : Z) (c : list (list Z * Z)) : K (list (list Z * Z)) :=
  match n with
  | O => mret c
  | Datatypes.S n' =>
      let sym := symtab + sizeof_Sym * i in
      st_info ← load_u8 (sym + 4);
      let type := ELF_ST_TYPE st_info in
      wanted ← (if (type =? STT_FUNC) || (type =? STT_OBJECT)
                then st_size ← load_u64 (sym + 16); mret (0 <? st_size) else mret false);
      c ← (if wanted : bool then
             st_name ← load_u32 sym;
             name ← load_cstr fuel (strtab + st_name);
             mret (emplace name sym c)
           else mret c);
      cache_symbols n' symtab strtab (i + 1) c
  end.

Definition buildSymbolCache (img : ElfImage) : K ElfImage :=
  if bool_decide (symbol_cache_ img = []) && negb (symtab_ img =? 0) && negb (strtab_ img =? 0) then
    c ← cache_symbols (Z.to_nat (symtab_count_ img)) (symtab_ img) (strtab_ img) 0 [];
    mret (set_cache c img)
  else mret img.

Definition findSymbolByLinearScan (img : ElfImage) (name : list Z) : K (Z * ElfImage) :=
  img ← buildSymbolCache img;
  match cache_find name (symbol_cache_ img) with
  | Some sym => v ← load_u64 (sym + 8); mret (v, img)
  | None => mret (0, img)
  end.

Definition findSymbolOffset (img : ElfImage) (name : list Z) (gnu_hash sysv_hash : Z) : K (Z * ElfImage) :=
  offset ← findSymbolByGnuHash img name gnu_hash;
  if 0 <? offset then mret (offset, img)
  else
    offset ← findSymbolBySysvHash img name sysv_hash;
    if 0 <? offset then mret (offset, img)
    else
      '(offset, img) ← findSymbolByLinearScan img name;
      mret (if 0 <? offset then offset else 0, img).

(** Looking a name up may fill the cache of the object. *)
Definition findSymbolAddress (img : ElfImage) (name : list Z) : K (Z * ElfImage) :=
  '(offset, img) ← findSymbolOffset img name (calculateGnuHash name) (calculateSysvHash name);
  mret (if (0 <? offset) && negb (base_address_ img =? 0)
        then u64 (base_address_ img + offset - bias_ img) else 0, img).

(** The empty name if there is none. *)
Definition findSymbolNameByPrefix (img : ElfImage) (prefix : list Z) : K (list Z * ElfImage) :=
  img ← buildSymbolCache img;
  mret (match find (fun p => starts_with p.1 prefix) (visit (symbol_cache_ img)) with
        | Some p => p.1
        | None => []
        end, img).

Definition resolveSymbolPointer (img : ElfImage) (name : list Z) : K (Z * ElfImage) :=
  '(address, img) ← findSymbolAddress img name;
  if address =? 0 then mret (0, img) else v ← load_u64 address; mret (v, img).
End ElfParser.

(** ** A lookup that succeeds found a symbol of that name *)

Section Soundness.
Context {W : Type} `{!World W} {S : Type} `{!HasMem S} `{!HashOrder} (fuel : nat).
Abbreviation K := (M W S).

(** Symbol number [i] of the table has this name, and this value. *)
Definition named_at (s : st W S) (symtab strtab i : Z) (name : list Z) : Prop :=
  exists st_name, load_u32 (symtab + sizeof_Sym * i) s = (Ret st_name, s) /\ cstr_at s (strtab + st_name) name.
Definition symbol_at (s : st W S) (symtab strtab i : Z) (name : list Z) (v : Z) : Prop :=
  named_at s symtab strtab i name /\ load_u64 (symtab + sizeof_Sym * i + 8) s = (Ret v, s).

(** The symbols .gnu.hash lists for a hash, each with the place of its chain
    entry: from the bucket's first symbol to the entry with the stop bit. *)
Inductive gnu_listed (s : st W S) (img : ElfImage) (h : Z) : Z -> Z -> Prop :=
| gnu_first i :
    load_u32 (gnu_bucket_ img + 4 * (h mod gnu_nbucket_ img)) s = (Ret i, s) -> gnu_symindx_ img <= i ->
    gnu_listed s img h (gnu_chain_ img + 4 * (i - gnu_symindx_ img)) i
| gnu_next chain i c :
    gnu_listed s img h chain i -> load_u32 chain s = (Ret c, s) -> Z.land c 1 = 0 ->
    gnu_listed s img h (chain + 4) (u32 (i + 1)).

(** The symbols .hash lists for a hash: from the bucket's first to number 0. *)
Inductive sysv_listed (s : st W S) (img : ElfImage) (h : Z) : Z -> Prop :=
| sysv_first i : load_u32 (bucket_ img + 4 * (h mod nbucket_ img)) s = (Ret i, s) -> sysv_listed s img h i
| sysv_next i j :
    sysv_listed s img h i -> i <> 0 -> load_u32 (chain_ img + 4 * i) s = (Ret j, s) -> sysv_listed s img h j.

(** Symbol [i] of .dynsym is listed under the hash of [name]: in .gnu.hash,
    with a chain entry that carries the hash, or in .hash. *)
Definition listed (s : st W S) (img : ElfImage) (name : list Z) (i : Z) : Prop :=
  (exists chain c, gnu_listed s img (calculateGnuHash name) chain i /\ load_u32 chain s = (Ret c, s)
     /\ Z.shiftr (Z.lxor c (calculateGnuHash name)) 1 = 0)
  \/ (sysv_listed s img (calculateSysvHash name) i /\ i <> 0).

Definition in_dynsym (s : st W S) (img : ElfImage) (name : list Z) (v : Z) : Prop :=
  exists i, listed s img name i /\ symbol_at s (dynsym_ img) (dynstr_ img) i name v.
Definition in_symtab (s : st W S) (img : ElfImage) (name : list Z) (v : Z) : Prop :=
  exists i, 0 <= i < symtab_count_ img /\ symbol_at s (symtab_ img) (strtab_ img) i name v.

(** The pair of a cache is a symbol of a table of [count] symbols. *)
Definition pair_sound (s : st W S) (symtab strtab count : Z) (p : list Z * Z) : Prop :=
  exists i, 0 <= i < count /\ p.2 = symtab + sizeof_Sym * i /\ named_at s symtab strtab i p.1.

Definition cache_sound (s : st W S) (img : ElfImage) : Prop :=
  Forall (pair_sound s (symtab_ img) (strtab_ img) (symtab_count_ img)) (symbol_cache_ img).

(** The postcondition of a lookup. *)
Definition finds (P : Z -> Prop) (s : st W S) (o : outcome Z) (s' : st W S) : Prop :=
  s' = s /\ forall v, o = Ret v -> v = 0 \/ P v.

Ltac rstep E := wstep; apply wp_reads; [solve [reads_tac]|]; intros [?| | |] E; cbn [wp_cont]; try done.

Lemma gnu_chain_sound n img name chain idx s : gnu_listed s img (calculateGnuHash name) chain idx ->
  wp (gnu_chain n img name (calculateGnuHash name) chain idx) (finds (in_dynsym s img name) s) s.
Proof.
  revert chain idx. induction n as [|n IH]; intros chain idx Hl; cbn [gnu_chain]; [by wrun|].
  rstep Ec. assert (Hnext : wp (if Z.land a 1 =? 0 then gnu_chain n img name (calculateGnuHash name) (chain + 4) (u32 (idx + 1)) else mret 0)
                         (finds (in_dynsym s img name) s) s).
  { destruct (Z.eqb_spec (Z.land a 1) 0); [apply IH; by eapply gnu_next|]. wrun. split; [done|]. intros v [= <-]. by left. }
  wstep. destruct (Z.eqb_spec (Z.shiftr (Z.lxor a (calculateGnuHash name)) 1) 0) as [Hh|]; [|wrun; exact Hnext].
  rstep En. rstep Es. destruct a1; [|wrun; exact Hnext].
  rstep Ev. wrun. split; [done|]. intros v [= <-]. right. exists idx. split; [left; by eexists _, _|]. split; [|done].
  eexists. split; [exact En|]. by apply str_eq_at.
Qed.

Lemma gnu_sound img name s :
  wp (findSymbolByGnuHash fuel img name (calculateGnuHash name)) (finds (in_dynsym s img name) s) s.
Proof.
  unfold findSymbolByGnuHash. assert (H0 : wp (mret 0) (finds (in_dynsym s img name) s) s).
  { wrun. split; [done|]. intros v [= <-]. by left. }
  destruct (_ =? 0); [exact H0|]. destruct (_ =? 0); [by wrun|]. rstep Eb. destruct (_ <=? _); [by wrun|].
  destruct (negb _); [exact H0|]. destruct (_ =? 0); [by wrun|]. rstep Ei.
  destruct (Z.ltb_spec a0 (gnu_symindx_ img)); [exact H0|]. by apply gnu_chain_sound, gnu_first.
Qed.

Lemma sysv_chain_sound k img name n s : sysv_listed s img (calculateSysvHash name) n ->
  wp (sysv_chain k img name n) (finds (in_dynsym s img name) s) s.
Proof.
  revert n. induction k as [|k IH]; intros n Hl; cbn [sysv_chain]; destruct (Z.eqb_spec n 0).
  1,3: wrun; split; [done|]; intros v [= <-]; by left.
  1: by wrun.
  rstep En. rstep Es. destruct a0; [|rstep Ex; apply IH; by eapply sysv_next].
  apply wp_reads; [solve [reads_tac]|]. intros o Ev. split; [done|]. intros v ->. right. exists n.
  split; [by right|]. split; [|done]. eexists. split; [exact En|]. by apply str_eq_at.
Qed.

Lemma sysv_sound img name s :
  wp (findSymbolBySysvHash fuel img name (calculateSysvHash name)) (finds (in_dynsym s img name) s) s.
Proof.
  unfold findSymbolBySysvHash. destruct (_ =? 0); [wrun; split; [done|]; intros v [= <-]; by left|].
  destruct (_ =? 0); [by wrun|]. rstep En. by apply sysv_chain_sound, sysv_first.
Qed.

Lemma cache_symbols_sound count n symtab strtab i c s :
  0 <= i -> (n <> 0%nat -> i + Z.of_nat n <= count) -> Forall (pair_sound s symtab strtab count) c ->
  wp (cache_symbols fuel n symtab strtab i c)
    (fun o s' => s' = s /\ forall c', o = Ret c' -> Forall (pair_sound s symtab strtab count) c') s.
Proof.
  revert i c. induction n as [|n IH]; intros i c Hi Hn Hc; cbn [cache_symbols].
  { wrun. split; [done|]. by intros c' [= <-]. }
  specialize (Hn ltac:(done)). rstep Ei. wstep. set (cont := wp_cont _ _).
  assert (Hcont : forall b, cont (Ret b) s); [|destruct (_ || _); [rstep Es|]; wrun; apply Hcont].
  intros wanted. unfold cont. cbn [wp_cont]. wstep. destruct wanted; [|wrun; apply IH; [lia..|done]].
  rstep En. rstep Ec. wrun. apply IH; [lia..|]. unfold emplace. destruct (cache_find _ _); [done|]. apply Forall_app. split; [done|].
  constructor; [|done]. exists i. split; [lia|]. split; [done|]. eexists. split; [exact En|]. by eapply load_cstr_at.
Qed.

(** Whatever was looked up before, the lookup leaves the tables of the image
    and the soundness of its cache. *)
Lemma build_sound img s :
  cache_sound s img ->
  wp (buildSymbolCache fuel img) (fun o s' => s' = s /\ forall img', o = Ret img' ->
    exists c, img' = set_cache c img /\ cache_sound s img') s.
Proof.
  intros Hc. unfold buildSymbolCache. destruct (_ && _).
  - wstep. eapply wp_mono; [apply (cache_symbols_sound (symtab_count_ img)); [lia|lia|constructor]|]. intros o s1 [-> Hb]. destruct o as [c| | |]; cbn [wp_cont]; try done.
    wrun. split; [done|]. intros img' [= <-]. eexists. split; [done|]. by apply Hb.
  - wrun. split; [done|]. intros img' [= <-]. exists (symbol_cache_ img). split; [by destruct img|done].
Qed.

Lemma linear_sound img name s :
  cache_sound s img ->
  wp (findSymbolByLinearScan fuel img name) (fun o s' => s' = s /\ forall v img', o = Ret (v, img') ->
    (exists c, img' = set_cache c img) /\ cache_sound s img' /\ (v = 0 \/ in_symtab s img name v)) s.
Proof.
  intros Hc. unfold findSymbolByLinearScan. wstep. eapply wp_mono; [by apply build_sound|].
  intros [img1| | |] s1 [-> Hb]; cbn [wp_cont]; try done. destruct (Hb img1 eq_refl) as (c & -> & Hc1).
  destruct (cache_find name _) as [sym|] eqn:Ef.
  - rstep Ev. wrun. split; [done|]. intros v img' [= <- <-]. split; [by eexists|]. split; [done|]. right.
    unfold cache_find in Ef. destruct (find _ _) as [[nm sy]|] eqn:Efd; [|done]. injection Ef as <-.
    apply List.find_some in Efd as [Hin Heq]. cbn in Heq. apply bool_decide_eq_true in Heq as ->.
    unfold cache_sound in Hc1. rewrite Forall_forall in Hc1.
    destruct (Hc1 (name, sy)) as (i & E0 & E1 & E2); [by apply list_elem_of_In|]. cbn in E1, E2. subst sy.
    exists i. by split.
  - wrun. split; [done|]. intros v img' [= <- <-]. split; [by eexists|]. split; [done|]. by left.
Qed.

Lemma biased_address base v bias : u64 (base + v - bias) = u64 (base + v) <-> bias mod 2 ^ 64 = 0.
Proof.
  unfold uwrap. split; intros Hb.
  - assert (E : (base + v - (base + v - bias)) mod 2 ^ 64 = 0) by (rewrite Zminus_mod, Hb, Z.sub_diag; done).
    rewrite <- E. f_equal. lia.
  - by rewrite Zminus_mod, Hb, Z.sub_0_r, Zmod_mod.
Qed.

(** C32. The address of a symbol is never invented: whatever the file contains
    and whichever of the three lookups answers, a non-zero answer is computed
    from a symbol of that very name, either one of .dynsym that the file's hash
    table lists under the hash of the name, or one of the entries of .symtab;
    it is the library's base plus the value of that symbol, less the bias, and
    so the symbol's address if and only if the bias is 0. The lookup changes
    nothing but the cache, which keeps holding only symbols of .symtab. *)
Theorem symbol_never_wrong img name (s s' : st W S) a img' :
  cache_sound s img -> findSymbolAddress fuel img name s = (Ret (a, img'), s') ->
  s' = s /\ (exists c, img' = set_cache c img) /\ cache_sound s img'
  /\ (a = 0 \/ exists v, (in_dynsym s img name v \/ in_symtab s img name v) /\ 0 < v
                         /\ a = u64 (base_address_ img + v - bias_ img)
                         /\ (a = u64 (base_address_ img + v) <-> bias_ img mod 2 ^ 64 = 0)).
Proof.
  intros Hc E. refine (wp_on_ret _ (fun x s' => s' = s /\ (exists c, x.2 = set_cache c img) /\ cache_sound s x.2
    /\ (x.1 = 0 \/ exists v, (in_dynsym s img name v \/ in_symtab s img name v) /\ 0 < v
                           /\ x.1 = u64 (base_address_ img + v - bias_ img)
                           /\ (x.1 = u64 (base_address_ img + v) <-> bias_ img mod 2 ^ 64 = 0))) _ _ _ _ E).
  clear E s' a img'. unfold findSymbolAddress. wstep.
  set (Q := fun (o : outcome (Z * ElfImage)) s' => s' = s /\ forall v img', o = Ret (v, img') ->
     (exists c, img' = set_cache c img) /\ cache_sound s img'
     /\ (v = 0 \/ in_dynsym s img name v \/ in_symtab s img name v)).
  assert (Hoff : wp (findSymbolOffset fuel img name (calculateGnuHash name) (calculateSysvHash name)) Q s).
  { unfold findSymbolOffset. assert (Hself : exists c, img = set_cache c img) by (exists (symbol_cache_ img); by destruct img).
    wstep. eapply wp_mono; [apply gnu_sound|]. intros [v| | |] s1 [-> Hv]; cbn [wp_cont]; try done.
    destruct (Z.ltb_spec 0 v).
    { wrun. split; [done|]. intros v' img1 [= <- <-]. split; [exact Hself|]. split; [exact Hc|].
      destruct (Hv v eq_refl) as [Hz|Hz]; [left; exact Hz|right; left; exact Hz]. }
    wstep. eapply wp_mono; [apply sysv_sound|]. intros [v1| | |] s2 [-> Hv1]; cbn [wp_cont]; try done.
    destruct (Z.ltb_spec 0 v1).
    { wrun. split; [done|]. intros v' img1 [= <- <-]. split; [exact Hself|]. split; [exact Hc|].
      destruct (Hv1 v1 eq_refl) as [Hz|Hz]; [left; exact Hz|right; left; exact Hz]. }
    wstep. eapply wp_mono; [by apply linear_sound|]. intros [[v2 img2]| | |] s3 [-> Hv2]; cbn [wp_cont]; try done.
    destruct (Hv2 _ _ eq_refl) as (Hi & Hs & Hv3). wrun. split; [done|]. intros v' img1 [= <- <-].
    split; [done|]. split; [done|]. destruct (0 <? v2); [destruct Hv3; auto|by left]. }
  eapply wp_mono; [exact Hoff|]. intros [[v img1]| | |] s1 [-> Hv]; cbn [wp_cont]; try done.
  destruct (Hv _ _ eq_refl) as ((c & ->) & Hs & Hin). wrun. split; [done|]. split; [by exists c|]. split; [done|].
  destruct (Z.ltb_spec 0 v); cbn [andb fst]; [|by left]. cbn [base_address_ set_cache bias_].
  destruct (base_address_ img =? 0); cbn [negb]; [by left|]. right. exists v.
  split; [destruct Hin; [lia|done]|]. split; [done|]. split; [done|]. apply biased_address.
Qed.
End Soundness.

(** ** The linear lookup is a search of the symbol table *)

(** A symbol as the table describes it. *)
Record esym := Esym { y_name : list Z; y_info : Z; y_value : Z; y_size : Z }.

(** The symbols that are looked up: functions and objects with a size. *)
Definition wanted (y : esym) : bool :=
  ((ELF_ST_TYPE (y_info y) =? STT_FUNC) || (ELF_ST_TYPE (y_info y) =? STT_OBJECT)) && (0 <? y_size y).

(** The first wanted symbol of that name, by its number. *)
Fixpoint first_named (i : Z) (ys : list esym) (name : list Z) : option (Z * esym) :=
  match ys with
  | [] => None
  | y :: ys' => if wanted y && beq (y_name y) name then Some (i, y) else first_named (i + 1) ys' name
  end.

Section Linear.
Context {W : Type} `{!World W} {S : Type} `{!HasMem S} (fuel : nat).

(** The symbols [ys], from number [i] on, are in memory. *)
Fixpoint table_at (s : st W S) (symtab strtab i : Z) (ys : list esym) : Prop :=
  match ys with
  | [] => True
  | y :: ys' =>
      let sym := symtab + sizeof_Sym * i in
      load_u8 (sym + 4) s = (Ret (y_info y), s) /\ load_u64 (sym + 16) s = (Ret (y_size y), s)
      /\ load_u64 (sym + 8) s = (Ret (y_value y), s)
      /\ (exists st_name, load_u32 sym s = (Ret st_name, s) /\ cstr_at s (strtab + st_name) (y_name y))
      /\ (0 ∉ y_name y) /\ (length (y_name y) < fuel)%nat
      /\ table_at s symtab strtab (i + 1) ys'
  end.

Fixpoint cache_of (symtab i : Z) (ys : list esym) (c : list (list Z * Z)) : list (list Z * Z) :=
  match ys with
  | [] => c
  | y :: ys' => cache_of symtab (i + 1) ys' (if wanted y then emplace (y_name y) (symtab + sizeof_Sym * i) c else c)
  end.

Lemma load_cstr_exact n str : forall p (s : st W S),
  cstr_at s p str -> 0 ∉ str -> (length str < n)%nat -> load_cstr n p s = (Ret str, s).
Proof.
  revert n. induction str as [|c str IH]; intros n p s Hs Hz Hn; (destruct n as [|n]; [cbn in Hn; lia|]);
    cbn [load_cstr length] in *; unfold mbind, M_bind; pose proof (Hs O _ eq_refl) as H0; rewrite Z.add_0_r in H0;
    rewrite H0; [done|].
  apply not_elem_of_cons in Hz as [Hc Hz]. destruct (Z.eqb_spec c 0); [congruence|].
  rewrite IH; [done| |done|lia]. intros i d Hd. specialize (Hs (Datatypes.S i) d Hd).
  replace (p + 1 + Z.of_nat i) with (p + Z.of_nat (Datatypes.S i)) by lia. done.
Qed.

Lemma cache_symbols_exact symtab strtab ys : forall i c (s : st W S),
  table_at s symtab strtab i ys ->
  cache_symbols fuel (length ys) symtab strtab i c s = (Ret (cache_of symtab i ys c), s).
Proof.
  induction ys as [|y ys IH]; intros i c s Ht; [done|].
  destruct Ht as (H1 & H2 & _ & (st_name & H3 & H4) & H5 & H6 & Ht). cbn [length cache_symbols cache_of].
  unfold mbind, M_bind. rewrite H1. unfold wanted. destruct (_ || _); cbn [andb].
  - rewrite H2. cbn [mret M_ret]. destruct (0 <? y_size y); cbn [mret M_ret]; [|by apply IH].
    rewrite H3, (load_cstr_exact fuel (y_name y)) by done. cbn [mret M_ret]. by apply IH.
  - cbn [mret M_ret]. by apply IH.
Qed.

Lemma cache_find_app name c p :
  cache_find name (c ++ [p]) = match cache_find name c with
                               | Some x => Some x
                               | None => if beq p.1 name then Some p.2 else None
                               end.
Proof.
  unfold cache_find. induction c as [|q c IH]; cbn.
  - by destruct (beq p.1 name).
  - by destruct (beq q.1 name).
Qed.

Lemma cache_find_emplace name key sym c :
  cache_find name (emplace key sym c)
  = match cache_find name c with Some x => Some x | None => if beq key name then Some sym else None end.
Proof.
  unfold emplace. destruct (cache_find key c) as [x|] eqn:Ek; [|apply cache_find_app].
  destruct (cache_find name c) eqn:En; [done|]. unfold beq. case_bool_decide; [|done]. subst. congruence.
Qed.

Lemma cache_of_find symtab ys name : forall i c,
  cache_find name (cache_of symtab i ys c)
  = match cache_find name c with
    | Some x => Some x
    | None => (fun q => symtab + sizeof_Sym * q.1) <$> first_named i ys name
    end.
Proof.
  induction ys as [|y ys IH]; intros i c; cbn [cache_of first_named]; [by destruct (cache_find name c)|].
  rewrite IH. destruct (wanted y); cbn [andb]; [|done]. rewrite cache_find_emplace.
  destruct (cache_find name c); [done|]. by destruct (beq (y_name y) name).
Qed.

Lemma table_value s symtab strtab ys name : forall i j y,
  table_at s symtab strtab i ys -> first_named i ys name = Some (j, y) ->
  load_u64 (symtab + sizeof_Sym * j + 8) s = (Ret (y_value y), s).
Proof.
  induction ys as [|x ys IH]; intros i j y Ht Hf; [done|]. cbn [first_named] in Hf.
  destruct Ht as (_ & _ & H3 & _ & _ & _ & Ht). destruct (_ && _); [by injection Hf as <- <-|]. by eapply IH.
Qed.

(** The linear lookup equals a search of .symtab: it returns the value of
    the first function or object symbol of that name that has a size, and 0 if
    there is none, the first time, when it fills the cache, and every time
    after that, when it only consults it. *)
Theorem linear_scan_exact img ys name (s : st W S) :
  symtab_ img <> 0 -> strtab_ img <> 0 -> symtab_count_ img = Z.of_nat (length ys) ->
  table_at s (symtab_ img) (strtab_ img) 0 ys ->
  symbol_cache_ img = [] \/ symbol_cache_ img = cache_of (symtab_ img) 0 ys [] ->
  findSymbolByLinearScan fuel img name s
  = (Ret (default 0 ((fun q => y_value q.2) <$> first_named 0 ys name),
          set_cache (cache_of (symtab_ img) 0 ys []) img), s).
Proof.
  intros H1 H2 Hn Ht Hc.
  assert (Hb : buildSymbolCache fuel img s = (Ret (set_cache (cache_of (symtab_ img) 0 ys []) img), s)).
  { unfold buildSymbolCache. rewrite (proj2 (Z.eqb_neq _ _) H1), (proj2 (Z.eqb_neq _ _) H2), !andb_true_r.
    case_bool_decide as Hnil.
    - unfold mbind, M_bind. rewrite Hn, Nat2Z.id, cache_symbols_exact by done. done.
    - destruct Hc as [|<-]; [done|]. unfold mret, M_ret. by destruct img. }
  unfold findSymbolByLinearScan. unfold mbind at 1, M_bind at 1. rewrite Hb. cbn [symbol_cache_ set_cache].
  rewrite cache_of_find. change (cache_find name []) with (@None Z). cbn iota. destruct (first_named 0 ys name) as [[j y]|] eqn:Ef; cbn [fmap option_fmap option_map fst snd].
  - unfold mbind, M_bind. rewrite (table_value s _ _ ys name 0 j y Ht Ef). done.
  - done.
Qed.
End Linear.

(** ** Two more facts about the image *)

(** The hash functions are those of the module linker. *)
Lemma gnu_hash_same name : calculateGnuHash name = GnuHash name.
Proof.
  unfold calculateGnuHash, GnuHash. generalize 5381. induction name as [|c name IH]; intros h; [done|].
  cbn [fold_left]. rewrite IH. apply (f_equal (fold_left gnu_step name)). unfold gnu_step, uwrap.
  rewrite !Zplus_mod_idemp_l, Zplus_mod_idemp_r.
  rewrite <- Z.add_assoc, Zplus_mod_idemp_l. f_equal. lia.
Qed.

(** The base address is the one [dl_iterate_phdr] reports, to which a symbol's
    value is to be added; the code subtracts the distance between the first
    segment's address and its place in the file as well. *)
Theorem address_off_by_bias {W : Type} `{!World W} {S : Type} `{!HasMem S} fuel img name v img' (s s' : st W S) :
  findSymbolOffset fuel img name (calculateGnuHash name) (calculateSysvHash name) s = (Ret (v, img'), s') ->
  0 < v -> base_address_ img' <> 0 -> bias_ img' mod 2 ^ 64 <> 0 ->
  exists a, findSymbolAddress fuel img name s = (Ret (a, img'), s') /\ a <> u64 (base_address_ img' + v).
Proof.
  intros E Hv Hb Hbias. unfold findSymbolAddress, mbind, M_bind. rewrite E.
  rewrite (proj2 (Z.ltb_lt 0 v) Hv), (proj2 (Z.eqb_neq _ _) Hb). cbn. eexists. split; [done|].
  by rewrite biased_address.
Qed.

(** ** The life of an image *)

Section Life.
Context {W : Type} `{!World W} {S : Type} `{!HasMem S} (fuel : nat).
Abbreviation K := (M W S).
Abbreviation mm := (fun s : st W S => the_mem (st_s s)).

Lemma reads_u16 p : reads (load_u16 p : K Z).
Proof. unfold load_u16. reads_tac. Qed.
#[local] Hint Resolve reads_u16 : reads.

Lemma reads_bias n : forall ph img, reads (bias_from n ph img : K ElfImage).
Proof. induction n as [|n IH]; intros ph img; cbn [bias_from]; reads_tac. Qed.

Lemma reads_sections n shstrtab : forall sh img, reads (read_sections n shstrtab sh img : K ElfImage).
Proof. induction n as [|n IH]; intros sh img; cbn [read_sections]; unfold read_section; reads_tac. Qed.
#[local] Hint Resolve reads_bias reads_sections : reads.

Lemma reads_parse_file img : reads (parse_file img : K ElfImage).
Proof. unfold parse_file. reads_tac. Qed.

(** Reading the file leaves the mapping of the object alone. *)
Definition same_map (img img' : ElfImage) : Prop :=
  map_base_ img' = map_base_ img /\ map_size_ img' = map_size_ img.
#[local] Instance same_map_preorder : PreOrder same_map.
Proof. unfold same_map. split; [done|]. intros i1 i2 i3 [] []. split; congruence. Qed.

Definition keeps_map (img : ElfImage) (m : K ElfImage) : Prop :=
  forall s img' s', m s = (Ret img', s') -> same_map img img'.

Lemma keeps_map_bind {A} img (m : K A) f : (forall a, keeps_map img (f a)) -> keeps_map img (m ≫= f).
Proof.
  intros Hf s img' s'. unfold mbind, M_bind. destruct (m s) as [[a| | |] s1]; try done. apply Hf.
Qed.

Lemma keeps_then img (m : K ElfImage) f :
  keeps_map img m -> (forall img1, same_map img img1 -> keeps_map img1 (f img1)) -> keeps_map img (m ≫= f).
Proof.
  intros Hm Hf s img' s'. unfold mbind, M_bind. destruct (m s) as [[img1| | |] s1] eqn:E; try done.
  intros E'. pose proof (Hm _ _ _ E) as H1. etransitivity; [exact H1|]. by eapply Hf.
Qed.

Ltac keeps_tac :=
  repeat first
    [ match goal with |- keeps_map _ (if ?b then _ else _) => destruct b end
    | apply keeps_map_bind; intros ?
    | intros ? ? ? [= <- <-]; by destruct_and? || done
    | done ].

Lemma keeps_bias n : forall ph img, keeps_map img (bias_from n ph img).
Proof. induction n as [|n IH]; intros ph img; cbn [bias_from]; keeps_tac. Qed.

Lemma keeps_sections n shstrtab : forall sh img, keeps_map img (read_sections n shstrtab sh img).
Proof.
  induction n as [|n IH]; intros sh img; cbn [read_sections]; [keeps_tac|].
  apply keeps_then; [unfold read_section; keeps_tac|]. intros img1 _. apply IH.
Qed.

Lemma keeps_parse_file img : keeps_map img (parse_file img).
Proof.
  unfold parse_file. do 2 (apply keeps_map_bind; intros ?). apply keeps_then; [apply keeps_bias|]. intros img1 _.
  do 4 (apply keeps_map_bind; intros ?). apply keeps_sections.
Qed.

(** Every file that was opened was closed. *)
Definition all_closed (evs : list event) : Prop :=
  forall path flags mode r, (COpen path flags mode, r) ∈ evs -> 0 <= r_ret r ->
    exists rc, (CClose (r_ret r), rc) ∈ evs.

(** The kernel maps at free addresses other than 0, and unmaps what it is asked. *)
Definition kernel_answers (m : mem) (e : event) : Prop :=
  match e with
  | (CMmap _ len _ _ _ _, r) =>
      r_ret r = -1 \/ 0 < r_ret r /\ forall x, r_ret r <= x < r_ret r + len -> x ∉ footprint m
  | (CMunmap _ _, r) => r_ret r = 0
  | _ => True
  end.

Definition only_objects (e : event) : Prop := match e.1 with CDlObject _ => True | _ => False end.

Lemma emits_find_library n : forall i name, emits only_objects (find_library n i name : K (option (list Z * Z))).
Proof. induction n as [|n IH]; intros i name; cbn [find_library]; emits_tac; done. Qed.

Lemma find_library_calls n : forall i name s,
  wp (find_library n i name : K (option (list Z * Z)))
    (fun _ s' => st_s s' = st_s s /\ exists evs, st_log s' = evs ++ st_log s /\ Forall only_objects evs) s.
Proof.
  intros i name s. eapply wp_mono; [apply wp_and; [apply (emits_find_library n i name)|]|].
  - assert (H : calls_only (find_library n i name : K (option (list Z * Z)))); [|apply H].
    revert i. induction n as [|n IH]; intros i; cbn [find_library]; calls_only_tac.
  - intros o s' [H1 [H2 _]]. done.
Qed.

Lemma closed_objects evs : Forall only_objects evs -> all_closed evs.
Proof.
  intros H path flags mode r Hin. rewrite Forall_forall in H. by specialize (H _ Hin).
Qed.

(** The files of a run that looked for the library and opened one file. *)
Lemma closed_one evs mid path flags mode ro rc :
  Forall only_objects evs -> (forall p f m r, (COpen p f m, r) ∈ mid -> False) ->
  (0 <= r_ret ro -> (CClose (r_ret ro), rc) ∈ mid) ->
  all_closed (mid ++ (COpen path flags mode, ro) :: evs).
Proof.
  intros He Hm Hc p f m r Hin Hr. apply elem_of_app in Hin as [Hin|Hin]; [by apply Hm in Hin|].
  apply elem_of_cons in Hin as [[= -> -> -> ->]|Hin].
  - exists rc. apply elem_of_app. left. by apply Hc.
  - rewrite Forall_forall in He. by specialize (He _ Hin).
Qed.

Lemma unmapped_again p n bytes prot m :
  (forall x, p <= x < p + Z.of_nat n -> x ∉ footprint m) ->
  footprint (unmap_range n p (map_range prot n p bytes m)) = footprint m.
Proof.
  intros Hf. apply set_eq. intros x. rewrite footprint_unmap, footprint_map. split.
  - intros [[H|H] H2]; [done|tauto].
  - intros H. split; [by left|]. intros H2. by apply (Hf x).
Qed.

(** An image owns nothing after its end: however reading the library's file
    goes, building an image and destroying it closes every file it opened, and
    if the kernel maps at free addresses and unmaps what it is asked, exactly
    the addresses are mapped that were mapped before. *)
Theorem image_lifetime name (s s' : st W S) :
  (img ← new_ElfImage fuel name; delete_ElfImage img) s = (Ret tt, s') ->
  exists evs, st_log s' = evs ++ st_log s /\ all_closed evs
    /\ (Forall (kernel_answers (the_mem (st_s s))) evs ->
        footprint (the_mem (st_s s')) = footprint (the_mem (st_s s))).
Proof.
  wp_of_run. unfold new_ElfImage, findLoadedLibraryInfo. wstep. wstep. wstep.
  eapply wp_mono; [apply find_library_calls|]. intros [o| | |] s1 (Es & evs & El & He); cbn [wp_cont]; try done. wstep.
  destruct o as [[path base]|]; cbn [negb].
  2:{ wrun. unfold delete_ElfImage. cbn. wrun. exists evs. split; [done|]. split; [by apply closed_objects|]. intros _. by rewrite Es. }
  set (img := set_found path base empty_image).
  wrun. apply wp_syscall. intros ro w1 e1. wrun. destruct (Z.ltb_spec (r_ret ro) 0).
  { wrun. unfold delete_ElfImage. cbn. wrun. eexists (_ :: evs). cbn. rewrite El. split; [done|].
    split; [|intros _; by rewrite Es]. eapply (closed_one evs [] _ _ _ _ ro); [done| |lia]. intros * Hin. by apply elem_of_nil in Hin. }
  wrun. apply wp_syscall. intros rs w2 e2. wrun. destruct (r_ret rs <? 0).
  { wrun. apply wp_do. intros rc w3 e3. wrun. unfold delete_ElfImage. cbn. wrun. eexists (_ :: _ :: _ :: evs).
    cbn. rewrite El. split; [done|]. split; [|intros _; by rewrite Es].
    eapply (closed_one evs [_; _] _ _ _ _ rc); [done| |intros _; left]. intros * Hin. no_event Hin. }
  unfold mmap. wrun. apply wp_syscall. intros rm w3 e3. wrun. set (size := nth 0 (r_aux rs) 0).
  destruct (Z.eqb_spec (r_ret rm) (-1)) as [Hm|Hm].
  { wrun. apply wp_do. intros rc w4 e4. wrun. unfold delete_ElfImage. cbn. wrun. eexists (_ :: _ :: _ :: _ :: evs).
    cbn. rewrite El. split; [done|]. split; [|intros _; by rewrite Es].
    eapply (closed_one evs [_; _; _] _ _ _ _ rc); [done| |intros _; left]. intros * Hin. no_event Hin. }
  wrun. apply wp_do. intros rc w4 e4. wrun.
  apply wp_reads; [apply reads_parse_file|]. intros [img'| | |] Ep; cbn [wp_cont]; try done.
  apply keeps_parse_file in Ep as [Eb Ez]. cbn in Eb, Ez. change (MAP_SHARED &? MAP_FIXED) with false in *. cbn iota in *.
  unfold delete_ElfImage. rewrite Eb, Ez. destruct (Z.eqb_spec (r_ret rm) 0) as [Hz|Hz]; cbn [negb]; wrun.
  { eexists (_ :: _ :: _ :: _ :: evs). cbn. rewrite El. split; [done|].
    split; [eapply (closed_one evs [_; _; _] _ _ _ _ rc); [done| |intros _; left]; intros * Hin; no_event Hin|].
    intros Hk. apply Forall_cons in Hk as [_ Hk]. apply Forall_cons in Hk as [Hk _]. cbn in Hk. lia. }
  unfold munmap. wrun. apply wp_syscall. intros ru w5 e5. wrun.
  assert (Hcl : all_closed ((CMunmap (r_ret rm) size, ru) :: (CClose (r_ret ro), rc)
     :: (CMmap 0 size PROT_READ MAP_SHARED (r_ret ro) 0, rm) :: (CFstat (r_ret ro), rs)
     :: (COpen (library_path_ img) O_RDONLY_CLOEXEC 0, ro) :: evs)).
  { eapply (closed_one evs [_; _; _; _] _ _ _ _ rc); [done| |intros _; right; left]. intros * Hin. no_event Hin. }
  destruct (Z.eqb_spec (r_ret ru) 0) as [Hu|Hu]; wrun;
    (eexists (_ :: _ :: _ :: _ :: _ :: evs); cbn [st_log app]; rewrite El; split; [reflexivity|];
     split; [exact Hcl|]; intros Hk; apply Forall_cons in Hk as [Hk0 Hk]; cbn in Hk0); [|done].
  apply Forall_cons in Hk as [_ Hk]. apply Forall_cons in Hk as [Hk _]. cbn in Hk. destruct Hk as [|[Hp Hfr]]; [done|].
  cbn [st_s]. rewrite !mem_put, Es. apply unmapped_again. rewrite <- Es. intros x Hx.
  rewrite Es. apply Hfr. fold size. lia.
Qed.
End Life.

(** ** A library to look up in *)

(** Two symbols at 0x1000, their names at 0x1100. *)
Definition sym_bytes (st_name st_info value size : Z) : list Z :=
  le_bytes 4 st_name ++ [st_info; 0; 1; 0] ++ le_bytes 8 value ++ le_bytes 8 size.
Definition demo_mem : mem :=
  map_range 1 48 0x1000 (sym_bytes 1 0x12 0x500 8 ++ sym_bytes 5 0x11 0x600 4)
    (map_range 1 12 0x1100 ([0] ++ B "foo" ++ [0] ++ B "bar" ++ [0]) ∅).
Definition demo_elf : ElfImage :=
  Image_mk (B "libx.so") 0x7000 0x1000 0x200 0x1000 0 0 0 0x1000 0x1100 2 0 0 0 0 0 0 0 0 0 0 [].
Definition demo_state : st script mem := St [] [] 0 demo_mem.
Definition demo_syms : list esym := [Esym (B "foo") 0x12 0x500 8; Esym (B "bar") 0x11 0x600 4].

Lemma cstr_check (s : st script mem) p str :
  forallb (fun ic => match (load_u8 (p + Z.of_nat ic.1) s).1 with Ret c => c =? ic.2 | _ => false end)
    (zip (seq 0 (length str + 1)) (str ++ [0])) = true ->
  cstr_at s p str.
Proof.
  intros H i c Hi. rewrite forallb_forall in H.
  assert (Hl : (i < length str + 1)%nat) by (apply lookup_lt_Some in Hi; rewrite length_app in Hi; done).
  assert (Hz : (i, c) ∈ zip (seq 0 (length str + 1)) (str ++ [0])).
  { apply list_elem_of_lookup. exists i. apply lookup_zip_with_Some. exists i, c. split; [done|]. split; [|done].
    apply lookup_seq_lt. done. }
  apply list_elem_of_In in Hz. specialize (H _ Hz). cbn [fst snd] in H. pose proof (reads_u8 (p + Z.of_nat i) s) as Hr.
  destruct (load_u8 (p + Z.of_nat i) s) as [[b| | |] s1]; cbn in *; try done. apply Z.eqb_eq in H. by subst.
Qed.

Lemma demo_table : table_at 8 demo_state 0x1000 0x1100 0 demo_syms.
Proof.
  cbn [table_at demo_syms y_name y_info y_value y_size].
  split; [vm_compute; reflexivity|]. split; [vm_compute; reflexivity|]. split; [vm_compute; reflexivity|].
  split; [exists 1; split; [vm_compute; reflexivity|apply cstr_check; vm_compute; reflexivity]|].
  split; [vm_decide|]. split; [vm_compute; lia|].
  split; [vm_compute; reflexivity|]. split; [vm_compute; reflexivity|]. split; [vm_compute; reflexivity|].
  split; [exists 5; split; [vm_compute; reflexivity|apply cstr_check; vm_compute; reflexivity]|].
  split; [vm_decide|]. split; [vm_compute; lia|done].
Qed.

Lemma linear_scan_exact_witness :
  exists img', findSymbolByLinearScan 8 demo_elf (B "bar") demo_state = (Ret (0x600, img'), demo_state).
Proof.
  eexists. refine (linear_scan_exact 8 demo_elf demo_syms (B "bar") demo_state _ _ _ demo_table _);
    [discriminate|discriminate|reflexivity|by left].
Defined.

Lemma symbol_never_wrong_witness :
  exists img' v, findSymbolAddress 8 demo_elf (B "bar") demo_state = (Ret (0x7600, img'), demo_state)
    /\ (in_dynsym demo_state demo_elf (B "bar") v \/ in_symtab demo_state demo_elf (B "bar") v) /\ 0x7600 = u64 (0x7000 + v - 0).
Proof.
  destruct (symbol_never_wrong 8 demo_elf (B "bar") demo_state demo_state 0x7600
     (set_cache [(B "foo", 0x1000); (B "bar", 0x1018)] demo_elf)) as (_ & _ & _ & [H|(v & H1 & _ & H2 & _)]);
    [constructor|vm_compute; reflexivity|discriminate|].
  eexists _, v. split; [vm_compute; reflexivity|]. split; [exact H1|exact H2].
Defined.

(** A library whose file has 128 zero bytes. *)
Definition life_script : script :=
  [Reply 1 0 (B "/system/lib64/libx.so") [0x7000; 0; 0]; ans 3; Reply 0 0 [] [128]; Reply 0x10000 0 [] []; ans 0; ans 0].

Lemma image_lifetime_witness :
  exists s' evs, (img ← new_ElfImage 4 (B "libx.so"); delete_ElfImage img) (St life_script [] 0 ∅ : st script mem)
                 = (Ret tt, s')
    /\ st_log s' = evs ++ [] /\ all_closed evs /\ footprint (st_s s') = footprint (∅ : mem).
Proof.
  destruct (image_lifetime 4 (B "libx.so") (St life_script [] 0 ∅ : st script mem)
    ((img ← new_ElfImage 4 (B "libx.so"); delete_ElfImage img) (St life_script [] 0 ∅ : st script mem)).2)
    as (evs & H1 & H2 & H3); [vm_compute; reflexivity|].
  eexists _, evs. split; [vm_compute; reflexivity|]. split; [exact H1|]. split; [exact H2|].
  apply H3. rewrite app_nil_r in H1. rewrite <- H1.
  match goal with |- Forall _ ?l => let v := eval vm_compute in l in replace l with v by (vm_compute; reflexivity) end.
  repeat (apply Forall_cons; split; [first [exact I|reflexivity|idtac]|]); [|by apply Forall_nil].
  right. split; [reflexivity|]. intros x _ Hx. by apply not_elem_of_empty in Hx.
Defined.

(** ** Lookups and construction, for their callers *)

Section Callers.
Context {W : Type} `{!World W} {S : Type} `{!HasMem S} `{!HashOrder} (fuel : nat).
Abbreviation K := (M W S).

Lemma reads_gnu_chain n : forall img name h chain i, reads (gnu_chain n img name h chain i : K Z).
Proof. induction n as [|n IH]; intros; cbn [gnu_chain]; reads_tac. Qed.

Lemma reads_sysv_chain k : forall img name n, reads (sysv_chain k img name n : K Z).
Proof. induction k as [|k IH]; intros; cbn [sysv_chain]; reads_tac. Qed.

Lemma reads_cache_symbols n : forall symtab strtab i c,
  reads (cache_symbols fuel n symtab strtab i c : K (list (list Z * Z))).
Proof. induction n as [|n IH]; intros; cbn [cache_symbols]; reads_tac. Qed.
#[local] Hint Resolve reads_gnu_chain reads_sysv_chain reads_cache_symbols : reads.

Lemma reads_build_cache img : reads (buildSymbolCache fuel img : K ElfImage).
Proof. unfold buildSymbolCache. reads_tac. Qed.
#[local] Hint Resolve reads_build_cache : reads.

(** Looking up a symbol changes nothing but the image's own cache. *)
Lemma reads_findSymbolAddress img name : reads (findSymbolAddress fuel img name : K (Z * ElfImage)).
Proof.
  unfold findSymbolAddress, findSymbolOffset, findSymbolByGnuHash, findSymbolBySysvHash, findSymbolByLinearScan.
  reads_tac.
Qed.

Lemma reads_findSymbolNameByPrefix img prefix : reads (findSymbolNameByPrefix fuel img prefix : K (list Z * ElfImage)).
Proof. unfold findSymbolNameByPrefix. reads_tac. Qed.

Lemma reads_resolveSymbolPointer img name : reads (resolveSymbolPointer fuel img name : K (Z * ElfImage)).
Proof. pose proof reads_findSymbolAddress. unfold resolveSymbolPointer. reads_tac. Qed.

(** The calls that building and destroying an image make. *)
Definition image_call (c : call) : Prop :=
  match c with
  | CDlObject _ | COpen _ _ _ | CClose _ | CFstat _ | CMmap _ _ _ _ _ _ | CMunmap _ _ => True
  | _ => False
  end.

Lemma emits_new_image (P : event -> Prop) name :
  (forall c r, image_call c -> P (c, r)) -> emits P (new_ElfImage fuel name : K ElfImage).
Proof.
  intros HP. unfold new_ElfImage, findLoadedLibraryInfo, mmap, do_.
  assert (Hf : forall n i, emits P (find_library n i name : K (option (list Z * Z)))).
  { induction n as [|n IH]; intros i; cbn [find_library]; emits_tac; try apply IH. by apply HP. }
  apply emits_bind; [apply emits_bind; [apply Hf|intros ?; by apply emits_pure]|]. intros [found img].
  emits_tac; try (by apply HP). apply emits_pure, reads_parse_file.
Qed.

Lemma emits_delete_image (P : event -> Prop) img :
  (forall c r, image_call c -> P (c, r)) -> emits P (delete_ElfImage img : K unit).
Proof. intros HP. unfold delete_ElfImage, munmap. emits_tac. by apply HP. Qed.
End Callers.

#[export] Hint Resolve reads_findSymbolAddress reads_findSymbolNameByPrefix reads_resolveSymbolPointer : reads.
