(* ===== verification/Owned.v ===== *)
(** Memory that a component may read and write: the bytes it holds, and what a
    store does to them and to everything else. *)
From S2P Require Import Prelude Sys Mem.
Open Scope Z_scope.

(** The readable and writable bytes [bs] from address [p] on. *)
Definition owned (m : mem) (p : Z) (bs : list Z) : Prop :=
  forall i b, bs !! i = Some b ->
    exists c, m !! (p + Z.of_nat i) = Some c /\ c_byte c = b
      /\ (c_prot c &? PROT_READ) = true /\ (c_prot c &? PROT_WRITE) = true.

Lemma owned_holds m p bs : owned m p bs -> holds m p bs.
Proof. intros H i b Hi. destruct (H i b Hi) as (c & E & Eb & Er & _). eauto. Qed.

Lemma owned_app m p l1 l2 :
  owned m p (l1 ++ l2) <-> owned m p l1 /\ owned m (p + Z.of_nat (length l1)) l2.
Proof.
  split.
  - intros H. split; intros i b Hi.
    + apply H. by apply lookup_app_l_Some.
    + destruct (H (length l1 + i)%nat b) as (c & E & Hc).
      { rewrite lookup_app_r by lia. by replace (length l1 + i - length l1)%nat with i by lia. }
      exists c. split; [|done]. rewrite <- E. f_equal. lia.
  - intros [H1 H2] i b Hi. apply lookup_app_Some in Hi as [Hi|[Hl Hi]]; [by apply H1|].
    destruct (H2 _ _ Hi) as (c & E & Hc). exists c. split; [|done]. rewrite <- E. f_equal. lia.
Qed.

Lemma owned_at m p p' bs : owned m p bs -> p' = p -> owned m p' bs.
Proof. by intros H ->. Qed.

(** [m'] is [m] with [bs] stored from [p] on; protections stay. *)
Definition stored (p : Z) (bs : list Z) (m m' : mem) : Prop :=
  forall x, m' !! x = if (p <=? x) && (x <? p + Z.of_nat (length bs))
                      then (fun c => Cell (nth (Z.to_nat (x - p)) bs 0) (c_prot c)) <$> m !! x
                      else m !! x.

Lemma write_owned m p bs old :
  0 <= p -> p + Z.of_nat (length bs) <= 2 ^ 64 -> owned m p old -> length old = length bs ->
  exists m', write_bytes m p bs = Some m' /\ stored p bs m m'.
Proof.
  revert m p old. induction bs as [|b bs IH]; intros m p old H0 H1 Ho Hl; cbn [write_bytes length] in *.
  { exists m. split; [done|]. intros x. cbn. zcase; done. }
  destruct old as [|o old]; [done|]. destruct (Ho O o eq_refl) as (c & E & Eb & Er & Ew).
  rewrite Z.add_0_r in E. rewrite E. cbn. rewrite Ew. change (o :: old) with ([o] ++ old) in Ho.
  apply owned_app in Ho as [_ Ho]. cbn [length] in *.
  assert (Hs : forall m', stored (p + 1) bs (<[p := Cell b (c_prot c)]> m) m' -> stored p (b :: bs) m m').
  { intros m' H x. rewrite H. cbn [length]. destruct (decide (x = p)) as [->|Hx].
    - rewrite lookup_insert_eq, E. replace (p - p) with 0 by lia. cbn. zcase; try lia. done.
    - rewrite lookup_insert_ne by done. zcase; try lia; try done.
      replace (Z.to_nat (x - p)) with (S (Z.to_nat (x - (p + 1)))) by lia. done. }
  destruct bs as [|b' bs].
  { cbn [write_bytes]. eexists. split; [reflexivity|]. apply Hs. intros x. cbn. zcase; done. }
  cbn [length] in *. rewrite (uwrap_id 64 (p + 1)) by fits.
  destruct (IH (<[p := Cell b (c_prot c)]> m) (p + 1) old) as (m' & E1 & E2); [lia|lia| |lia|].
  - intros i d Hi. destruct (Ho i d Hi) as (c' & E' & Hc'). exists c'. split; [|done].
    rewrite lookup_insert_ne by lia. rewrite <- E'. f_equal.
  - exists m'. split; [done|]. by apply Hs.
Qed.

(** What the memory owns after a store in the middle of it. *)
Lemma owned_stored m m' p pre old bs post :
  owned m p (pre ++ old ++ post) -> length old = length bs ->
  stored (p + Z.of_nat (length pre)) bs m m' -> owned m' p (pre ++ bs ++ post).
Proof.
  intros Ho Hl Hs i b Hi. assert (Hil : (i < length (pre ++ old ++ post))%nat).
  { apply lookup_lt_Some in Hi. rewrite !length_app in *. lia. }
  apply lookup_lt_is_Some in Hil as [o Eo]. destruct (Ho i o Eo) as (c & E & Eb & Er & Ew).
  rewrite (Hs (p + Z.of_nat i)), E. zcase.
  2-3: exists c; split; [done|]; split; [|done]; rewrite Eb.
  - eexists. split; [reflexivity|]. cbn [c_byte c_prot]. split; [|done].
    rewrite lookup_app_r, lookup_app_l in Hi by lia. apply nth_lookup_Some with (d := 0) in Hi.
    rewrite <- Hi. f_equal. lia.
  - rewrite lookup_app_r in Hi, Eo by lia. rewrite lookup_app_r in Hi, Eo by lia. rewrite Hl in Eo. congruence.
  - rewrite lookup_app_l in Hi, Eo by lia. congruence.
Qed.

(** A store elsewhere. *)
Lemma owned_stored_far m m' p l q bs :
  owned m p l -> stored q bs m m' ->
  p + Z.of_nat (length l) <= q \/ q + Z.of_nat (length bs) <= p -> owned m' p l.
Proof.
  intros Ho Hs Hd i b Hi. destruct (Ho i b Hi) as (c & E & Hc). exists c. split; [|done].
  apply lookup_lt_Some in Hi. rewrite Hs. zcase; try lia; done.
Qed.

Section Access.
Context {W : Type} `{!World W} {S : Type} `{!HasMem S}.

Lemma wp_store p bs old (Q : outcome unit -> st W S -> Prop) s :
  owned (the_mem (st_s s)) p old -> length old = length bs -> 0 <= p -> p + Z.of_nat (length bs) <= 2 ^ 64 ->
  (forall m', stored p bs (the_mem (st_s s)) m' ->
     Q (Ret tt) (St (st_w s) (st_log s) (st_errno s) (put_mem m' (st_s s)))) ->
  wp (store p bs) Q s.
Proof.
  intros Ho Hl H0 H1 HQ. destruct (decide (bs = [])) as [->|Hne].
  { unfold store. wrun. cbn [write_bytes]. wrun. apply HQ. intros x. cbn. zcase; done. }
  assert (Hp : 0 < Z.of_nat (length bs)) by (destruct bs; [done|cbn; lia]).
  unfold store. wrun. rewrite uwrap_id by fits.
  destruct (write_owned _ _ _ _ H0 H1 Ho Hl) as (m' & -> & Hs). wrun. by apply HQ.
Qed.
End Access.

(** Deciding what a concrete memory holds. *)
Definition cell_ok (m : mem) (write : bool) (p : Z) (ib : nat * Z) : bool :=
  match m !! (p + Z.of_nat ib.1) with
  | Some c => (c_byte c =? ib.2) && (c_prot c &? PROT_READ) && (negb write || (c_prot c &? PROT_WRITE))
  | None => false
  end.

Lemma cells_ok m write p bs i b :
  forallb (cell_ok m write p) (zip (seq 0 (length bs)) bs) = true -> bs !! i = Some b ->
  exists c, m !! (p + Z.of_nat i) = Some c /\ c_byte c = b /\ (c_prot c &? PROT_READ) = true
    /\ (write = true -> (c_prot c &? PROT_WRITE) = true).
Proof.
  intros H Hi. rewrite forallb_forall in H. specialize (H (i, b)). unfold cell_ok in H. cbn [fst snd] in H.
  assert (Hz : In (i, b) (zip (seq 0 (length bs)) bs)).
  { apply list_elem_of_In, list_elem_of_lookup. exists i. apply lookup_zip_with_Some. exists i, b. split; [done|].
    split; [|done]. apply lookup_seq_lt. by eapply lookup_lt_Some. }
  specialize (H Hz). destruct (m !! (p + Z.of_nat i)) as [c|]; [|done]. exists c. split; [done|].
  apply andb_true_iff in H as [H Hw]. apply andb_true_iff in H as [Hb Hr]. apply Z.eqb_eq in Hb.
  split; [done|]. split; [done|]. intros ->. done.
Qed.

Lemma owned_check m p bs : forallb (cell_ok m true p) (zip (seq 0 (length bs)) bs) = true -> owned m p bs.
Proof. intros H i b Hi. destruct (cells_ok _ _ _ _ _ _ H Hi) as (c & E & Eb & Er & Ew). exists c. auto. Qed.

Lemma holds_check m p bs : forallb (cell_ok m false p) (zip (seq 0 (length bs)) bs) = true -> holds m p bs.
Proof. intros H i b Hi. destruct (cells_ok _ _ _ _ _ _ H Hi) as (c & E & Eb & Er & _). exists c. auto. Qed.
