(* ===== verification/Atexit.v ===== *)
(** The traces that unloaded modules leave in libc's table of exit handlers
    (loader/src/injector/atexit.cpp, include/atexit.hpp).

    The table is libc's: a record of five words in memory, at an address found
    through the symbols of libc.so, and an array of 24-byte entries in pages of
    its own, which are anonymous and read-only between changes. *)
From S2P Require Import Prelude Sys Mem Owned Linker LinkerSpec ElfParser.
Open Scope Z_scope.

(** Fields of AtexitArray and of AtexitEntry. *)
Definition off_array : Z := 0.
Definition off_size : Z := 8.
Definition off_extracted_count : Z := 16.
Definition off_total_appends : Z := 32.
Definition sizeof_AtexitEntry : Z := 24.
Definition MADV_DONTNEED : Z := 4.
Definition MAX_REASONABLE_ATEXIT_ENTRIES : Z := 4096 * 16.
Definition kLockAttempts : nat := 8.

Inductive ScrubStatus :=
| kDone | kNothingToScrub | kNoArray | kNoLock | kLockBusy | kNotWritable | kLeftWritable.

#[export] Instance ScrubStatus_eq_dec : EqDecision ScrubStatus.
Proof. solve_decision. Defined.

(** Zero-filled pages: what is left of a range after MADV_DONTNEED. *)
Definition zero_range (n : nat) (a : Z) : mem -> mem := upd_range (fmap (fun c => Cell 0 (c_prot c))) n a.

Section Atexit.
Context {W : Type} `{!World W} {S : Type} `{!HasMem S} `{!HashOrder} (fuel : nat).
(** What getauxval(AT_PAGESZ) answers; the code asks once. *)
Context (page_size : Z).
Abbreviation K := (M W S).

Definition page_start (x : Z) : Z := PageStart x page_size.
Definition page_end (x : Z) : Z := PageEnd x page_size.
Definition page_start_of_index (idx : Z) : Z := page_start (u64 (idx * sizeof_AtexitEntry)).
Definition page_end_of_index (idx : Z) : Z := page_end (u64 (idx * sizeof_AtexitEntry)).

Definition madvise_dontneed (addr len : Z) : K unit :=
  r ← syscall (CMadvise addr len MADV_DONTNEED);
  if r_ret r =? 0 then modify (fun s => put_mem (zero_range (Z.to_nat len) addr (the_mem s)) s) else mret tt.

Definition has_fingerprint (g : Z) : K bool :=
  extracted_count ← load_u64 (g + off_extracted_count);
  if 0 <? extracted_count then mret true
  else
    total_appends ← load_u64 (g + off_total_appends);
    size ← load_u64 (g + off_size);
    mret (size <? total_appends).

Definition set_writable (g : Z) (writable : bool) (start_idx num_entries : Z) : K bool :=
  array ← load_u64 (g + off_array);
  if array =? 0 then mret false
  else
    let start_byte := page_start_of_index start_idx in
    let stop_byte := page_end_of_index (u64 (start_idx + num_entries)) in
    let byte_len := u64 (stop_byte - start_byte) in
    rc ← mprotect (u64 (array + start_byte)) byte_len (Z.lor PROT_READ (if writable then PROT_WRITE else 0));
    mret (rc =? 0).

(** The first of the [n] entries from [src] on that has no function. *)
Fixpoint skip_live (n : nat) (array src : Z) : K Z :=
  match n with
  | O => mret src
  | Datatypes.S n' =>
      fn ← load_u64 (array + src * sizeof_AtexitEntry);
      if fn =? 0 then mret src else skip_live n' array (src + 1)
  end.

(** Moves the entries that have a function down to [dst]. *)
Fixpoint shift_live (n : nat) (array src dst : Z) : K Z :=
  match n with
  | O => mret dst
  | Datatypes.S n' =>
      entry ← load 24 (array + src * sizeof_AtexitEntry);
      store (array + src * sizeof_AtexitEntry) (replicate 24 0);;
      if le_Z (take 8 entry) =? 0 then shift_live n' array (src + 1) dst
      else
        store (array + dst * sizeof_AtexitEntry) entry;;
        shift_live n' array (src + 1) (dst + 1)
  end.

(** The part of [recompact] that needs the pages of the array; [None] if they
    could not be made writable, else whether they were protected again. *)
Definition compact_entries (g : Z) : K (option bool) :=
  size ← load_u64 (g + off_size);
  writable ← set_writable g true 0 size;
  if negb writable then mret None
  else
    array ← load_u64 (g + off_array);
    src ← skip_live (Z.to_nat size) array 0;
    dst ← shift_live (Z.to_nat (size - src)) array src src;
    let old_bytes := page_end_of_index size in
    let new_bytes := page_end_of_index dst in
    (if new_bytes <? old_bytes then madvise_dontneed (u64 (array + new_bytes)) (old_bytes - new_bytes)
     else mret tt);;
    restored ← set_writable g false 0 size;
    store_u64 (g + off_size) dst;;
    store_u64 (g + off_extracted_count) 0;;
    mret (Some restored).

(** [protect_errno] is only logged. *)
Definition recompact (g : Z) : K ScrubStatus :=
  has ← has_fingerprint g;
  if negb has then mret kNothingToScrub
  else
    extracted_count ← load_u64 (g + off_extracted_count);
    o ← (if 0 <? extracted_count then compact_entries g else mret (Some true));
    match o with
    | None => mret kNotWritable
    | Some restored =>
        size ← load_u64 (g + off_size);
        store_u64 (g + off_total_appends) size;;
        mret (if restored : bool then kDone else kLeftWritable)
    end.

Definition findArray (libc : ElfImage) : K (Z * ElfImage) :=
  '(p_array_start, libc) ← findSymbolAddress fuel libc (B "_ZL7g_array.0");
  '(g_array, libc) ← (if negb (p_array_start =? 0) then mret (p_array_start, libc)
                      else findSymbolAddress fuel libc (B "_ZL7g_array"));
  if g_array =? 0 then mret (0, libc)
  else
    size ← load_u64 (g_array + off_size);
    mret (if size <? MAX_REASONABLE_ATEXIT_ENTRIES then g_array else 0, libc).

Definition findLock (libc : ElfImage) : K (Z * ElfImage) :=
  '(lock, libc) ← findSymbolAddress fuel libc (B "_ZL13g_atexit_lock");
  if negb (lock =? 0) then mret (lock, libc)
  else
    '(name, libc) ← findSymbolNameByPrefix fuel libc (B "_ZL13g_atexit_lock");
    if bool_decide (name = []) then mret (0, libc) else findSymbolAddress fuel libc name.

Fixpoint take_lock (attempts : nat) (lock : Z) : K bool :=
  match attempts with
  | O => mret false
  | Datatypes.S n' =>
      r ← syscall (CTrylock lock);
      if r_ret r =? 0 then mret true else do_ CSchedYield;; take_lock n' lock
  end.

(** Once the array and the lock were found. *)
Definition scrub_locked (g_array lock : Z) : K ScrubStatus :=
  locked ← take_lock kLockAttempts lock;
  if negb locked then mret kLockBusy
  else
    status ← recompact g_array;
    do_ (CUnlock lock);;
    mret status.

(** The image of libc is destroyed on every way out. *)
Definition scrubFingerprint : K ScrubStatus :=
  libc ← new_ElfImage fuel (B "libc.so");
  '(status, libc) ←
    (if negb (isValid libc) then mret (kNoArray, libc)
     else
       '(g_array, libc) ← findArray libc;
       if g_array =? 0 then mret (kNoArray, libc)
       else
         '(lock, libc) ← findLock libc;
         if lock =? 0 then mret (kNoLock, libc)
         else status ← scrub_locked g_array lock; mret (status, libc));
  delete_ElfImage libc;;
  mret status.

(** clean.cpp: the status is only logged. *)
Definition clean_libc_trace : K unit := scrubFingerprint;; mret tt.
End Atexit.

(** ** The loops *)

Definition live (e : list Z) : bool := negb (le_Z (take 8 e) =? 0).
Definition zero_entry : list Z := replicate 24 0.
Definition entries (es : list (list Z)) : Prop := Forall (fun e => length e = 24%nat) es.

(** How many entries have a function before the first that has none. *)
Fixpoint live_prefix (es : list (list Z)) : nat :=
  match es with
  | [] => 0
  | e :: es' => if live e then S (live_prefix es') else 0
  end.

Lemma length_entries es : entries es -> length (concat es) = (24 * length es)%nat.
Proof. induction 1 as [|e es He Hes IH]; cbn [concat length]; [done|]. rewrite length_app, He, IH. lia. Qed.

Lemma entries_zero k : entries (replicate k zero_entry).
Proof. by apply Forall_replicate. Qed.

Lemma live_zero : live zero_entry = false.
Proof. done. Qed.

Lemma filter_prefix es :
  filter (fun e => live e = true) es = take (live_prefix es) es ++ filter (fun e => live e = true) (drop (live_prefix es) es).
Proof.
  induction es as [|e es IH]; cbn [live_prefix]; [done|]. destruct (live e) eqn:E.
  - cbn [take drop app]. rewrite filter_cons_True by done. by f_equal.
  - done.
Qed.

Lemma live_prefix_le es : (live_prefix es <= length es)%nat.
Proof. induction es as [|e es IH]; cbn; [lia|]. destruct (live e); lia. Qed.

Section Loops.
Context {W : Type} `{!World W} {S : Type} `{!HasMem S}.
Abbreviation K := (M W S).
Abbreviation mm := (fun s : st W S => the_mem (st_s s)).

Lemma skip_live_spec es : forall a src (s : st W S),
  entries es -> holds (mm s) (a + src * 24) (concat es) ->
  0 <= a + src * 24 -> a + src * 24 + Z.of_nat (24 * length es) <= 2 ^ 64 ->
  wp (skip_live (length es) a src) (fun o s' => o = Ret (src + Z.of_nat (live_prefix es)) /\ s' = s) s.
Proof.
  induction es as [|e es IH]; intros a src s He Hh H0 H1; cbn [skip_live length live_prefix concat] in *.
  { wrun. split; [f_equal; lia|done]. }
  apply Forall_cons in He as [He Hes]. apply holds_app in Hh as [Hh1 Hh2]. rewrite He in Hh2.
  unfold sizeof_AtexitEntry, load_u64. wstep. wstep.
  rewrite <- (take_drop 8 e) in Hh1. apply holds_app in Hh1 as [Hh1 _].
  eapply wp_load; [exact Hh1|rewrite length_take; lia|lia|lia|]. wrun. unfold live.
  destruct (Z.eqb_spec (le_Z (take 8 e)) 0); cbn [negb]; wrun; [split; [f_equal; lia|done]|].
  eapply wp_mono; [apply IH; [done| |lia|lia]|].
  - eapply holds_at; [exact Hh2|lia].
  - intros o s' [-> ->]. split; [f_equal; lia|done].
Qed.

(** The array after the entries were moved, with everything else as it was. *)
Definition array_only (a : Z) (n : nat) (s s' : st W S) : Prop :=
  st_w s' = st_w s /\ st_log s' = st_log s /\ (exists m, st_s s' = put_mem m (st_s s))
  /\ (forall x, ~ a <= x < a + Z.of_nat n -> mm s' !! x = mm s !! x)
  /\ (forall x, c_prot <$> mm s' !! x = c_prot <$> mm s !! x).

#[local] Instance array_only_preorder a n : PreOrder (array_only a n).
Proof.
  split.
  - intros s. repeat split; try done. exists (mm s). by rewrite put_mem_id.
  - intros s1 s2 s3 (A1 & A2 & [m1 A3] & A4 & A5) (B1 & B2 & [m2 B3] & B4 & B5).
    split; [congruence|]. split; [congruence|]. split; [exists m2; rewrite B3, A3; apply put_put|].
    split; [intros x Hx; rewrite B4 by done; by apply A4|intros x; rewrite B5; apply A5].
Qed.

Lemma array_only_stored a n p bs s m' :
  stored p bs (mm s) m' -> a <= p -> p + Z.of_nat (length bs) <= a + Z.of_nat n ->
  array_only a n s (St (st_w s) (st_log s) (st_errno s) (put_mem m' (st_s s))).
Proof.
  intros Hs H1 H2. split; [done|]. split; [done|]. split; [by exists m'|]. cbn [st_s]. rewrite mem_put.
  split; intros x; rewrite Hs.
  - intros Hx. zcase; try lia; done.
  - zcase; try done. by destruct (the_mem (st_s s) !! x).
Qed.

(** A store over an entry. *)
Lemma wp_store_entry a pre e post e' (Q : outcome unit -> st W S -> Prop) s :
  owned (mm s) a (concat (pre ++ e :: post)) -> entries pre -> length e = 24%nat -> length e' = 24%nat ->
  0 <= a -> a + Z.of_nat (24 * length (pre ++ e :: post)) <= 2 ^ 64 -> entries post ->
  (forall s', array_only a (24 * length (pre ++ e :: post)) s s' ->
     owned (mm s') a (concat (pre ++ e' :: post)) -> Q (Ret tt) s') ->
  wp (store (a + Z.of_nat (length pre) * 24) e') Q s.
Proof.
  intros Ho Hp He He' H0 H1 Hpost HQ. rewrite concat_app in Ho. cbn [concat] in Ho.
  pose proof (length_entries _ Hp) as Lp. rewrite length_app in *. cbn [length] in *.
  assert (Ho1 : owned (mm s) (a + Z.of_nat (length pre) * 24) e).
  { apply owned_app in Ho as [_ Ho]. apply owned_app in Ho as [Ho _]. eapply owned_at; [exact Ho|lia]. }
  eapply wp_store; [exact Ho1|lia|lia|lia|]. intros m' Hs. apply HQ.
  - eapply array_only_stored; [exact Hs|lia|lia].
  - cbn [st_s]. rewrite mem_put, concat_app. cbn [concat]. eapply owned_stored; [exact Ho|lia|].
    rewrite Lp. replace (a + Z.of_nat (24 * length pre)) with (a + Z.of_nat (length pre) * 24) by lia. done.
Qed.

Lemma zeros_snoc k (t : list (list Z)) : replicate k zero_entry ++ zero_entry :: t = replicate (Datatypes.S k) zero_entry ++ t.
Proof. rewrite replicate_S_end, <- app_assoc. done. Qed.

Lemma shift_live_spec todo : forall a (dn : list (list Z)) k (s : st W S),
  let n := (24 * (length dn + k + length todo))%nat in
  entries dn -> entries todo -> owned (mm s) a (concat (dn ++ replicate k zero_entry ++ todo)) ->
  0 <= a -> a + Z.of_nat n <= 2 ^ 64 ->
  wp (shift_live (length todo) a (Z.of_nat (length dn + k)) (Z.of_nat (length dn)))
    (fun o s' => let f := filter (fun e => live e = true) todo in
       o = Ret (Z.of_nat (length dn + length f)) /\ array_only a n s s'
       /\ owned (mm s') a (concat (dn ++ f ++ replicate (k + (length todo - length f)) zero_entry))) s.
Proof.
  induction todo as [|e todo IH]; intros a dn k s n Hd Ht Ho H0 H1; cbn [shift_live length].
  { wrun. cbn [length filter list_filter]. split; [f_equal; lia|]. split; [reflexivity|].
    rewrite app_nil_r in Ho. by rewrite Nat.sub_0_r, Nat.add_0_r. }
  apply Forall_cons in Ht as [He Ht]. pose proof (entries_zero k) as Hz. unfold sizeof_AtexitEntry.
  pose proof (length_entries _ Hd) as Ld. pose proof (length_entries _ Hz) as Lz. rewrite length_replicate in Lz.
  assert (Hh : holds (mm s) (a + Z.of_nat (length dn + k) * 24) e).
  { apply owned_holds. rewrite !concat_app in Ho. cbn [concat] in Ho. apply owned_app in Ho as [_ Ho].
    apply owned_app in Ho as [_ Ho]. apply owned_app in Ho as [Ho _]. eapply owned_at; [exact Ho|]. lia. }
  wstep. eapply wp_load; [exact Hh|done|lia|subst n; cbn [length] in *; lia|]. cbn [wp_cont].
  assert (Hpre : entries (dn ++ replicate k zero_entry)) by (by apply Forall_app).
  rewrite app_assoc in Ho. assert (Ln : (24 * length ((dn ++ replicate k zero_entry) ++ e :: todo))%nat = n).
  { subst n. rewrite !length_app, length_replicate. cbn [length]. lia. }
  wstep. replace (Z.of_nat (length dn + k)) with (Z.of_nat (length (dn ++ replicate k zero_entry)))
    by (rewrite length_app, length_replicate; lia).
  eapply (wp_store_entry a (dn ++ replicate k zero_entry) e todo zero_entry); try done; [lia|].
  rewrite Ln. intros s1 A1 O1. cbn [wp_cont]. rewrite length_app, length_replicate.
  rewrite <- app_assoc, zeros_snoc in O1. fold (live e). destruct (le_Z (take 8 e) =? 0) eqn:El.
  - assert (Hl : live e = false) by (unfold live; by rewrite El).
    replace (Z.of_nat (length dn + k) + 1) with (Z.of_nat (length dn + Datatypes.S k)) by lia.
    eapply wp_mono; [apply (IH a dn (Datatypes.S k) s1); [done|done|done|done|subst n; cbn [length] in *; lia]|].
    intros o s2 (-> & A2 & O2). cbn zeta. rewrite filter_cons_False by (by rewrite Hl).
    replace (24 * (length dn + Datatypes.S k + length todo))%nat with n in A2 by (subst n; cbn; lia).
    split; [done|]. split; [by etransitivity|].
    replace (k + (Datatypes.S (length todo) - length (filter (fun e => live e = true) todo)))%nat
      with (Datatypes.S k + (length todo - length (filter (fun e => live e = true) todo)))%nat; [done|].
    pose proof (length_filter (fun e => live e = true) todo). lia.
  - assert (Hl : live e = true) by (unfold live; by rewrite El).
    cbn [replicate app] in O1. pose proof (Forall_app_2 _ _ _ (entries_zero k) Ht) as Hpost.
    wstep. eapply (wp_store_entry a dn zero_entry (replicate k zero_entry ++ todo) e); try done.
    { subst n. rewrite !length_app. cbn [length]. rewrite length_app, length_replicate. cbn [length] in *. lia. }
    intros s2 A2 O2. cbn [wp_cont].
    replace (24 * length (dn ++ zero_entry :: replicate k zero_entry ++ todo))%nat with n in A2
      by (subst n; rewrite !length_app; cbn [length]; rewrite length_app, length_replicate; cbn [length]; lia).
    replace (dn ++ e :: replicate k zero_entry ++ todo) with ((dn ++ [e]) ++ replicate k zero_entry ++ todo) in O2
      by (by rewrite <- app_assoc).
    replace (Z.of_nat (length dn + k) + 1) with (Z.of_nat (length (dn ++ [e]) + k)) by (rewrite length_app; cbn; lia).
    replace (Z.of_nat (length dn) + 1) with (Z.of_nat (length (dn ++ [e]))) by (rewrite length_app; cbn; lia).
    assert (Ln2 : (24 * (length (dn ++ [e]) + k + length todo))%nat = n) by (subst n; rewrite length_app; cbn; lia).
    eapply wp_mono; [apply (IH a (dn ++ [e]) k s2); [apply Forall_app; split; [done|by constructor]|done|done|done|lia]|].
    intros o s3 (-> & A3 & O3). cbn zeta. rewrite filter_cons_True by done. rewrite Ln2 in A3.
    split; [f_equal; rewrite length_app; cbn; lia|]. split; [etransitivity; [exact A1|by etransitivity]|].
    rewrite <- app_assoc in O3. cbn [app length]. exact O3.
Qed.
End Loops.

(** ** Compaction *)

Definition record_bytes (a size extracted cap total : Z) : list Z :=
  le_bytes 8 a ++ le_bytes 8 size ++ le_bytes 8 extracted ++ le_bytes 8 cap ++ le_bytes 8 total.

Lemma length_record a n e c t : length (record_bytes a n e c t) = 40%nat.
Proof. unfold record_bytes. by rewrite !length_app, !length_le_bytes. Qed.

Lemma zero_entries k : concat (replicate k zero_entry) = replicate (24 * k) 0.
Proof.
  induction k as [|k IH]; [done|]. cbn [replicate concat]. rewrite IH. unfold zero_entry.
  rewrite <- replicate_add. f_equal. lia.
Qed.

Lemma owned_zeroed m p l j q n :
  owned m p (l ++ replicate j 0) -> p + Z.of_nat (length l) <= q -> owned (zero_range n q m) p (l ++ replicate j 0).
Proof.
  intros Ho Hq i b Hi. destruct (Ho i b Hi) as (c & E & Eb & Hr). unfold zero_range. rewrite lookup_upd_range, E.
  destruct (_ && _) eqn:Hx; [|by exists c]. eexists. split; [reflexivity|]. cbn [c_byte c_prot]. split; [|done].
  apply andb_true_iff in Hx as [Hx _]. apply Z.leb_le in Hx.
  rewrite lookup_app_r in Hi by lia. by apply lookup_replicate in Hi as [-> _].
Qed.

Lemma owned_protected m p bs n a prot :
  holds m p bs -> (prot &? PROT_READ) = true -> (prot &? PROT_WRITE) = true ->
  a <= p -> p + Z.of_nat (length bs) <= a + Z.of_nat n -> owned (protect_range prot n a m) p bs.
Proof.
  intros Hh Hr Hw H1 H2 i b Hi. destruct (Hh i b Hi) as (c & E & Eb & _). apply lookup_lt_Some in Hi.
  unfold protect_range. rewrite lookup_upd_range, E. zcase. eexists. split; [reflexivity|]. done.
Qed.

Lemma holds_protected m p bs n a prot :
  holds m p bs -> (prot &? PROT_READ) = true -> holds (protect_range prot n a m) p bs.
Proof.
  intros Hh Hr i b Hi. destruct (Hh i b Hi) as (c & E & Eb & Ec).
  unfold protect_range. rewrite lookup_upd_range, E. destruct (_ && _); [|by exists c].
  eexists. split; [reflexivity|]. done.
Qed.

(** Bytes that an operation on a range elsewhere leaves alone. *)
Lemma owned_range_far f m p bs n a :
  owned m p bs -> p + Z.of_nat (length bs) <= a \/ a + Z.of_nat n <= p -> owned (upd_range f n a m) p bs.
Proof.
  intros Ho Hd i b Hi. destruct (Ho i b Hi) as (c & E & Hc). exists c. split; [|done].
  apply lookup_lt_Some in Hi. rewrite lookup_upd_range, E. zcase; try lia; done.
Qed.

Lemma holds_stored_far m m' p l q bs :
  holds m p l -> stored q bs m m' ->
  p + Z.of_nat (length l) <= q \/ q + Z.of_nat (length bs) <= p -> holds m' p l.
Proof.
  intros Ho Hs Hd i b Hi. destruct (Ho i b Hi) as (c & E & Hc). exists c. split; [|done].
  apply lookup_lt_Some in Hi. rewrite Hs. zcase; try lia; done.
Qed.

Section Compaction.
Context {W : Type} `{!World W} {S : Type} `{!HasMem S} (pg : Z).
Abbreviation K := (M W S).
Abbreviation mm := (fun s : st W S => the_mem (st_s s)).

(** libc's table at [g]: its array of entries [es] at [a], and its counters. *)
Record atexit_at (m : mem) (g a : Z) (es : list (list Z)) (extracted cap total : Z) : Prop := {
  ax_record : owned m g (record_bytes a (Z.of_nat (length es)) extracted cap total);
  ax_entries : holds m a (concat es);
  ax_shape : entries es;
  ax_counters : fits_u 64 extracted /\ fits_u 64 total;
  ax_place : 0 <= g /\ g + 40 <= 2 ^ 64;
  ax_room : 0 < a /\ a + 24 * Z.of_nat (length es) + pg <= 2 ^ 64;
  ax_apart : g + 40 <= a \/ a + page_end_of_index pg (Z.of_nat (length es)) <= g }.

(** The pages of the array are read-only. *)
Definition read_only (m m' : mem) (a : Z) (n : nat) : Prop :=
  forall x, a <= x < a + page_end_of_index pg (Z.of_nat n) ->
    c_prot <$> m' !! x = (fun _ => PROT_READ) <$> m !! x.

(** The table after it was compacted, in a memory that was [m]: the live
    entries in their order, then zeros; their number as the size; behind the
    entries, up to the end of their last page, unused bytes may be zeroed; the
    rest of memory as it was. *)
Record compacted (m m' : mem) (g a : Z) (es : list (list Z)) (cap total : Z) : Prop := {
  cx_record : owned m' g (record_bytes a (Z.of_nat (length (filter (fun e => live e = true) es))) 0 cap total);
  cx_entries : let f := filter (fun e => live e = true) es in
    holds m' a (concat (f ++ replicate (length es - length f) zero_entry));
  cx_unused : forall x, a + 24 * Z.of_nat (length es) <= x < a + page_end_of_index pg (Z.of_nat (length es)) ->
    contents m' !! x = contents m !! x \/ contents m' !! x = Some 0;
  cx_rest : forall x, ~ g <= x < g + 40 ->
    ~ a <= x < a + page_end_of_index pg (Z.of_nat (length es)) -> m' !! x = m !! x }.

Lemma record_parts m g a n e c t :
  owned m g (record_bytes a n e c t) ->
  owned m g (le_bytes 8 a) /\ owned m (g + 8) (le_bytes 8 n) /\ owned m (g + 16) (le_bytes 8 e)
  /\ owned m (g + 24) (le_bytes 8 c) /\ owned m (g + 32) (le_bytes 8 t).
Proof.
  unfold record_bytes. rewrite !owned_app, !length_le_bytes. intros (H1 & H2 & H3 & H4 & H5).
  repeat split; [done|..]; (eapply owned_at; [eassumption|lia]).
Qed.

Lemma wp_field g x off (Q : outcome Z -> st W S -> Prop) s :
  owned (mm s) (g + off) (le_bytes 8 x) -> 0 <= g -> g + 40 <= 2 ^ 64 -> 0 <= off <= 32 -> fits_u 64 x ->
  Q (Ret x) s -> wp (load_u64 (g + off)) Q s.
Proof. intros Ho H0 H1 H2 Hx HQ. eapply wp_load_u64; [by apply owned_holds|lia|lia|done|done]. Qed.

Lemma page_end_bounds n :
  pow2 pg -> 0 <= n -> 24 * n + pg <= 2 ^ 64 -> n * 24 <= page_end_of_index pg n < n * 24 + pg.
Proof.
  intros Hpg N0 A1. pose proof (pow2_pos _ Hpg) as Hpp. unfold page_end_of_index, page_end, sizeof_AtexitEntry.
  rewrite (u64_small (n * 24)) by lia. by apply PageEnd_spec; [|lia|lia].
Qed.

(** Changing the pages' protection. *)
Lemma set_writable_spec (b : bool) g a n e c t (Q : outcome bool -> st W S -> Prop) s :
  pow2 pg -> owned (mm s) g (record_bytes a n e c t) -> 0 <= g -> g + 40 <= 2 ^ 64 ->
  0 < a -> 0 <= n -> a + 24 * n + pg <= 2 ^ 64 ->
  (forall r w err (k : Z), 0 <= k <= page_end_of_index pg n -> (r_ret r = 0 -> k = page_end_of_index pg n) ->
     Q (Ret (r_ret r =? 0))
       (St w ((CMprotect a (page_end_of_index pg n) (Z.lor PROT_READ (if b then PROT_WRITE else 0)), r) :: st_log s)
          err (put_mem (protect_range (Z.lor PROT_READ (if b then PROT_WRITE else 0)) (Z.to_nat k) a (mm s)) (st_s s)))) ->
  wp (set_writable pg g b 0 n) Q s.
Proof.
  intros Hpg Ho G0 G1 A0 N0 A1 HQ. pose proof (pow2_pos _ Hpg) as Hpp. unfold set_writable.
  destruct (record_parts _ _ _ _ _ _ _ Ho) as (Oa & _).
  wstep. replace (g + off_array) with (g + 0) by (unfold off_array; lia).
  eapply wp_field; [rewrite Z.add_0_r; exact Oa|done|done|lia|fits|]. cbn [wp_cont].
  rewrite (proj2 (Z.eqb_neq a 0)) by lia.
  assert (Hb : page_start_of_index pg 0 = 0).
  { unfold page_start_of_index, page_start, sizeof_AtexitEntry.
    pose proof (PageStart_spec (u64 (0 * 24)) pg Hpg) as [Hs [q Hq]]. change (u64 (0 * 24)) with 0 in *.
    assert (q = 0) by nia. lia. }
  assert (Hn : u64 (0 + n) = n) by (apply uwrap_id; fits).
  pose proof (page_end_bounds n Hpg N0 ltac:(lia)) as Hpe.
  rewrite Hb, Hn, Z.add_0_r, Z.sub_0_r, (u64_small a), (u64_small (page_end_of_index pg n)) by lia.
  unfold mprotect. wrun. apply wp_syscall. intros r w err. wrun.
  destruct (Z.eqb_spec (r_ret r) 0) as [Hr|Hr].
  - specialize (HQ r w err (page_end_of_index pg n)). rewrite Hr in HQ. apply HQ; lia.
  - specialize (HQ r w err (Z.max 0 (Z.min (page_end_of_index pg n) (nth 0 (r_aux r) 0)))).
    rewrite (proj2 (Z.eqb_neq _ _) Hr) in HQ.
    replace (Z.to_nat (Z.max 0 (Z.min (page_end_of_index pg n) (nth 0 (r_aux r) 0))))
      with (Z.to_nat (Z.min (page_end_of_index pg n) (nth 0 (r_aux r) 0))) in HQ by lia.
    apply HQ; [lia|done].
Qed.

(** The entries are in place, in a memory that was [m]; pages still writable. *)
Record arranged (m m' : mem) (g a : Z) (es : list (list Z)) (e cap total : Z) : Prop := {
  ar_record : owned m' g (record_bytes a (Z.of_nat (length es)) e cap total);
  ar_entries : let f := filter (fun e => live e = true) es in
    owned m' a (concat (f ++ replicate (length es - length f) zero_entry));
  ar_unused : forall x, a + 24 * Z.of_nat (length es) <= x < a + page_end_of_index pg (Z.of_nat (length es)) ->
    contents m' !! x = contents m !! x \/ contents m' !! x = Some 0;
  ar_rest : forall x, ~ a <= x < a + page_end_of_index pg (Z.of_nat (length es)) -> m' !! x = m !! x;
  ar_dom : forall x, is_Some (m' !! x) <-> is_Some (m !! x) }.

Lemma entries_live es : entries es -> entries (filter (fun e => live e = true) es).
Proof. intros H. apply Forall_forall. intros x Hx. apply list_elem_of_filter in Hx as [_ Hx]. by eapply Forall_forall in H. Qed.

Lemma length_compacted es :
  entries es -> let f := filter (fun e => live e = true) es in
  length (concat (f ++ replicate (length es - length f) zero_entry)) = (24 * length es)%nat.
Proof.
  intros Hes f. assert (length f <= length es)%nat by apply length_filter.
  rewrite length_entries by (apply Forall_app; split; [by apply entries_live|apply entries_zero]).
  rewrite length_app, length_replicate. lia.
Qed.

(** The end of a compaction: protecting the pages and updating the record. *)
Lemma finish_spec g a es e cap total m s :
  let n := Z.of_nat (length es) in let f := filter (fun e => live e = true) es in
  pow2 pg -> atexit_at m g a es e cap total -> arranged m (mm s) g a es e cap total ->
  wp (restored ← set_writable pg g false 0 n;
      store_u64 (g + off_size) (Z.of_nat (length f));;
      store_u64 (g + off_extracted_count) 0;;
      mret (Some restored))
    (fun o s' => exists restored, o = Ret (Some restored) /\ compacted m (mm s') g a es cap total
       /\ (restored = true -> read_only m (mm s') a (length es))) s.
Proof.
  intros n f Hpg [_ _ Hes [He Ht] [G0 G1] [A0 A1] Hd] [Or Oa Hun Hrest Hdom]. fold n in A1, Hd, Or, Hun, Hrest. fold f in Oa.
  pose proof (page_end_bounds n Hpg ltac:(lia) ltac:(lia)) as Hpe. wstep.
  eapply set_writable_spec; try done; [lia|]. intros r w err k Hk Hk0. cbn [wp_cont].
  set (m1 := protect_range _ _ _ _). change (Z.lor PROT_READ 0) with PROT_READ in *.
  assert (O1 : owned m1 g (record_bytes a n e cap total)).
  { apply owned_range_far; [done|]. rewrite length_record. lia. }
  assert (H1 : holds m1 a (concat (f ++ replicate (length es - length f) zero_entry))).
  { apply holds_protected; [by apply owned_holds|done]. }
  unfold store_u64. wstep. destruct (record_parts _ _ _ _ _ _ _ O1) as (_ & O1n & _).
  eapply (wp_store (g + off_size) (le_bytes 8 (Z.of_nat (length f))) (le_bytes 8 n));
    [cbn [st_s]; rewrite mem_put; exact O1n|by rewrite !length_le_bytes|unfold off_size; lia|
     rewrite length_le_bytes; unfold off_size; lia|].
  intros m2 S2. cbn [wp_cont st_s] in *. rewrite mem_put in S2. unfold off_size in S2.
  assert (O2 : owned m2 g (record_bytes a (Z.of_nat (length f)) e cap total)).
  { eapply (owned_stored _ _ _ (le_bytes 8 a)); [exact O1|by rewrite !length_le_bytes|by rewrite length_le_bytes]. }
  wstep. destruct (record_parts _ _ _ _ _ _ _ O2) as (_ & _ & O2e & _).
  eapply (wp_store (g + off_extracted_count) (le_bytes 8 0) (le_bytes 8 e));
    [cbn [st_s]; rewrite mem_put; exact O2e|done|unfold off_extracted_count; lia|
     rewrite length_le_bytes; unfold off_extracted_count; lia|].
  intros m3 S3. cbn [wp_cont st_s] in *. rewrite mem_put in S3. unfold off_extracted_count in S3.
  assert (O3 : owned m3 g (record_bytes a (Z.of_nat (length f)) 0 cap total)).
  { unfold record_bytes in *. rewrite (app_assoc (le_bytes 8 a)) in O2 |- *.
    eapply (owned_stored m2); [exact O2|done|]. rewrite length_app, !length_le_bytes. done. }
  wrun. exists (r_ret r =? 0). split; [done|]. cbn [st_s]. rewrite mem_put.
  pose proof (length_compacted es Hes) as Hlen. cbn zeta in Hlen. fold f in Hlen.
  assert (Hcell : forall x, ~ g <= x < g + 40 -> m3 !! x = m1 !! x).
  { intros x Hx. rewrite S3, S2, !length_le_bytes. zcase; done. }
  split; [|intros Hr; apply Z.eqb_eq in Hr; specialize (Hk0 Hr); rewrite Hk0 in *; unfold read_only; fold n].
  - split; fold n; fold f; [done|..].
    + eapply holds_stored_far; [eapply holds_stored_far; [exact H1|exact S2|]|exact S3|];
        rewrite Hlen, length_le_bytes; lia.
    + intros x Hx. unfold contents. rewrite !lookup_fmap, Hcell by lia.
      rewrite <- (lookup_fmap c_byte m1), <- (lookup_fmap c_byte m). fold (contents m1) (contents m).
      unfold m1. rewrite contents_protect. by apply Hun.
    + intros x Hg Hx. rewrite Hcell by done. rewrite <- Hrest by done. unfold m1, protect_range.
      rewrite lookup_upd_range. zcase; try lia; done.
  - intros x Hx. rewrite Hcell by lia. unfold m1, protect_range. rewrite lookup_upd_range. zcase. specialize (Hdom x).
    destruct (the_mem (st_s s) !! x), (m !! x); cbn; try done; destruct Hdom as [D1 D2];
      [by destruct D1 as [? ?]; [eauto|]|by destruct D2 as [? ?]; [eauto|]].
Qed.

(** Dropping the pages that are no longer used. *)
Lemma drop_pages_spec g a es e cap total m s :
  let n := Z.of_nat (length es) in let f := filter (fun e => live e = true) es in
  pow2 pg -> atexit_at m g a es e cap total -> arranged m (mm s) g a es e cap total ->
  wp (if page_end_of_index pg (Z.of_nat (length f)) <? page_end_of_index pg n
      then madvise_dontneed (u64 (a + page_end_of_index pg (Z.of_nat (length f))))
             (page_end_of_index pg n - page_end_of_index pg (Z.of_nat (length f)))
      else mret tt)
    (fun o s' => o = Ret tt /\ arranged m (mm s') g a es e cap total) s.
Proof.
  intros n f Hpg [_ _ Hes _ [G0 G1] [A0 A1] Hd] Har. fold n in Hd, A1. destruct (Z.ltb_spec (page_end_of_index pg (Z.of_nat (length f))) (page_end_of_index pg n)) as [Hlt|Hge].
  2:{ by wrun. }
  assert (Hf : (length f <= length es)%nat) by apply length_filter.
  pose proof (page_end_bounds n Hpg ltac:(lia) ltac:(lia)) as Hpe.
  pose proof (page_end_bounds (Z.of_nat (length f)) Hpg ltac:(lia) ltac:(lia)) as Hpf.
  pose proof (pow2_pos _ Hpg). unfold madvise_dontneed. rewrite (u64_small (a + _)) by lia.
  wrun. apply wp_syscall. intros rm w err. wrun. destruct (r_ret rm =? 0); wrun; [|done]. split; [done|].
  destruct Har as [Or Oa Hun Hrest Hdom]. cbn [st_s]. rewrite mem_put. fold n in Or, Oa, Hun, Hrest. fold f in Oa.
  split; fold n; fold f.
  - apply owned_range_far; [done|]. rewrite length_record. lia.
  - cbn zeta in Oa |- *. fold f in Oa. rewrite concat_app, zero_entries in Oa |- *. apply owned_zeroed; [done|].
    rewrite (length_entries f) by (by apply entries_live). lia.
  - intros x Hx. specialize (Hun x Hx). unfold contents, zero_range in *. rewrite !lookup_fmap, lookup_upd_range in *.
    destruct (_ && _); [|done]. destruct (the_mem (st_s s) !! x); [by right|exact Hun].
  - intros x Hx. unfold zero_range. rewrite lookup_upd_range. zcase; try lia; by apply Hrest.
  - intros x. unfold zero_range. rewrite lookup_upd_range, <- Hdom. destruct (_ && _); [apply fmap_is_Some|done].
Qed.

(** The entries moved, once the pages are writable. *)
Lemma arrange_spec g a es e cap total m (s1 : st W S) :
  pow2 pg -> atexit_at m g a es e cap total ->
  mm s1 = protect_range 3 (Z.to_nat (page_end_of_index pg (Z.of_nat (length es)))) a m ->
  wp (src ← skip_live (length es) a 0; shift_live (Z.to_nat (Z.of_nat (length es) - src)) a src src)
    (fun o s' => o = Ret (Z.of_nat (length (filter (fun e => live e = true) es)))
       /\ arranged m (mm s') g a es e cap total) s1.
Proof.
  intros Hpg [Or Hh Hes [He Ht] [G0 G1] [A0 A1] Hd] Em1. set (n := Z.of_nat (length es)) in *.
  set (m1 := protect_range _ _ _ _) in Em1.
  pose proof (page_end_bounds n Hpg ltac:(lia) ltac:(lia)) as Hpe. pose proof (length_entries _ Hes) as Les.
  pose proof (pow2_pos _ Hpg). assert (A1o : owned m1 a (concat es)) by (apply owned_protected; [done|done|done|lia|lia]).
  wstep. eapply wp_mono; [apply (skip_live_spec es a 0 s1); [done|rewrite Em1; apply owned_holds;
    eapply owned_at; [exact A1o|lia]|lia|lia]|]. intros o s1' [-> ->]. cbn [wp_cont]. rewrite Z.add_0_l.
  set (k := live_prefix es). pose proof (live_prefix_le es) as Hkl. fold k in Hkl.
  replace (Z.to_nat (n - Z.of_nat k)) with (length (drop k es)) by (rewrite length_drop; lia).
  pose proof (shift_live_spec (drop k es) a (take k es) 0 s1) as Hsh. cbn zeta in Hsh.
  rewrite length_take, length_drop, Nat.min_l, Nat.add_0_r in Hsh by lia.
  replace (k + (length es - k))%nat with (length es) in Hsh by lia. cbn [replicate app] in Hsh.
  rewrite take_drop, Em1, length_drop in *. eapply wp_mono; [apply Hsh; [by apply Forall_take|by apply Forall_drop|done|lia|lia]|].
  clear Hsh. intros o s2 (-> & (_ & _ & _ & F2 & P2) & O2). rewrite Em1 in F2, P2.
  pose proof (filter_prefix es) as Hfp. fold k in Hfp. set (f := filter (fun e => live e = true) es) in *.
  set (fd := filter _ (drop k es)) in *.
  assert (Lf : (k + length fd = length f)%nat) by (rewrite Hfp, length_app, length_take; lia).
  rewrite Lf in *. rewrite app_assoc, <- Hfp in O2. split; [done|].
  replace (0 + (length es - k - length fd))%nat with (length es - length f)%nat in O2 by lia.
  assert (Hc1 : contents m1 = contents m) by apply contents_protect.
  split; fold n; fold f; [|exact O2|..].
  - intros i b Hi. pose proof (lookup_lt_Some _ _ _ Hi) as Hi'. rewrite length_record in Hi'.
    rewrite F2 by lia. assert (O1 : owned m1 g (record_bytes a n e cap total)); [|by apply O1].
    apply owned_range_far; [done|]. rewrite length_record. lia.
  - intros x Hx. left. rewrite <- Hc1. unfold contents. by rewrite !lookup_fmap, F2 by lia.
  - intros x Hx. rewrite F2 by lia. unfold m1, protect_range. rewrite lookup_upd_range. zcase; try lia; done.
  - intros x. rewrite <- (fmap_is_Some c_prot), P2, fmap_is_Some. unfold m1, protect_range. rewrite lookup_upd_range.
    destruct (_ && _); [apply fmap_is_Some|done].
Qed.

Lemma compact_entries_spec g a es e cap total s :
  pow2 pg -> atexit_at (mm s) g a es e cap total ->
  wp (compact_entries pg g)
    (fun o s' => o = Ret None /\ contents (mm s') = contents (mm s)
       \/ exists restored, o = Ret (Some restored) /\ compacted (mm s) (mm s') g a es cap total
            /\ (restored = true -> read_only (mm s) (mm s') a (length es))) s.
Proof.
  intros Hpg Hat. pose proof Hat as [Or Hh Hes [He Ht] [G0 G1] [A0 A1] Hd]. unfold compact_entries.
  set (n := Z.of_nat (length es)) in *. pose proof (pow2_pos _ Hpg) as Hpp.
  pose proof (page_end_bounds n Hpg ltac:(lia) ltac:(lia)) as Hpe.
  destruct (record_parts _ _ _ _ _ _ _ Or) as (_ & On & _).
  wstep. unfold off_size at 1. eapply wp_field; [exact On|done|done|lia|fits|]. cbn [wp_cont].
  wstep. eapply set_writable_spec; try done; [lia|]. intros r w err k Hk Hk0. cbn [wp_cont].
  change (Z.lor PROT_READ PROT_WRITE) with 3. destruct (Z.eqb_spec (r_ret r) 0) as [Hr|Hr]; cbn [negb].
  2:{ wrun. left. split; [done|]. cbn [st_s]. rewrite mem_put. apply contents_protect. }
  specialize (Hk0 Hr). subst k. set (s1 := St w _ err _).
  assert (Em1 : mm s1 = protect_range 3 (Z.to_nat (page_end_of_index pg n)) a (mm s)) by apply mem_put.
  wstep. replace (g + off_array) with (g + 0) by (unfold off_array; lia).
  assert (O1 : owned (mm s1) g (record_bytes a n e cap total)).
  { rewrite Em1. apply owned_range_far; [done|]. rewrite length_record. lia. }
  destruct (record_parts _ _ _ _ _ _ _ O1) as (O1a & _).
  eapply wp_field; [rewrite Z.add_0_r; exact O1a|done|done|lia|fits|]. cbn [wp_cont].
  pose proof (arrange_spec g a es e cap total (mm s) s1 Hpg Hat Em1) as Har. fold n in Har.
  apply wp_bind_inv in Har. wstep. replace (Z.to_nat n) with (length es) by lia.
  eapply wp_mono; [exact Har|]. clear Har. intros [src| | |] s2 Har; cbn [wp_cont] in *; try (by destruct Har).
  wstep. eapply wp_mono; [exact Har|]. intros o s3 [-> Har3]. cbn [wp_cont].
  wstep. eapply wp_mono; [by apply drop_pages_spec|]. intros o s4 [-> Har4]. cbn [wp_cont].
  eapply wp_mono; [apply (finish_spec g a es e cap total (mm s) s4); done|]. intros o s5 H5. right. exact H5.
Qed.

(** Rewinding the append counter of a compacted table. *)
Lemma compacted_total m m1 m2 g a es e cap t total t' :
  pow2 pg -> atexit_at m g a es e cap t -> compacted m m1 g a es cap total ->
  stored (g + 32) (le_bytes 8 t') m1 m2 ->
  compacted m m2 g a es cap t' /\ (read_only m m1 a (length es) -> read_only m m2 a (length es)).
Proof.
  intros Hpg [_ _ Hes _ [G0 G1] [A0 A1] Hd] [Cr Ce Cu Cx] Hs.
  pose proof (page_end_bounds (Z.of_nat (length es)) Hpg ltac:(lia) ltac:(lia)) as Hpe.
  assert (Hcell : forall x, ~ g <= x < g + 40 -> m2 !! x = m1 !! x).
  { intros x Hx. rewrite Hs, length_le_bytes. zcase; done. }
  split; [split|].
  - unfold record_bytes in *. rewrite !app_assoc in Cr |- *. rewrite <- (app_nil_r (le_bytes 8 total)) in Cr.
    rewrite <- (app_nil_r (le_bytes 8 t')). eapply owned_stored; [exact Cr|by rewrite !length_le_bytes|].
    rewrite !length_app, !length_le_bytes. exact Hs.
  - eapply holds_stored_far; [exact Ce|exact Hs|]. rewrite length_compacted, length_le_bytes by done. lia.
  - intros x Hx. specialize (Cu x Hx). unfold contents in *. rewrite !lookup_fmap in *. by rewrite Hcell by lia.
  - intros x Hg Hx. rewrite Hcell by done. by apply Cx.
  - intros Hro x Hx. rewrite Hcell by lia. by apply Hro.
Qed.

(** What a pass that reports [status] has done to the table. *)
Definition scrubbed (g a : Z) (es : list (list Z)) (e cap total : Z) (s s' : st W S) (status : ScrubStatus) : Prop :=
  let m := the_mem (st_s s) in
  let m' := the_mem (st_s s') in
  let n := Z.of_nat (length (filter (fun e => live e = true) es)) in
  match status with
  | kNothingToScrub => e = 0 /\ total <= Z.of_nat (length es) /\ s' = s
  | kNotWritable => 0 < e /\ contents m' = contents m
  | kDone =>
      if 0 <? e then compacted m m' g a es cap n /\ read_only m m' a (length es)
      else stored (g + off_total_appends) (le_bytes 8 (Z.of_nat (length es))) m m'
  | kLeftWritable => 0 < e /\ compacted m m' g a es cap n
  | kNoArray | kNoLock | kLockBusy => False
  end.

(** C11. Scrubbing libc's table of exit handlers, on every table in memory:
    either nothing happens because the table shows no trace, or because its
    pages cannot be made writable; or exactly the entries without a function
    are gone, the others keep their order, the counters tell no more entries
    than there are, no memory but the table and the unused rest of its pages
    changed, and a success means that the pages are read-only again. *)
Theorem recompact_exact g a es e cap total (s : st W S) :
  pow2 pg -> atexit_at (the_mem (st_s s)) g a es e cap total ->
  exists status s', recompact pg g s = (Ret status, s') /\ scrubbed g a es e cap total s s' status.
Proof.
  intros Hpg Hat. pose proof Hat as [Or Hh Hes [He Ht] [G0 G1] [A0 A1] Hd]. pose proof (pow2_pos _ Hpg) as Hpp.
  destruct (record_parts _ _ _ _ _ _ _ Or) as (_ & On & Oe & _ & Ot). set (n := Z.of_nat (length es)) in *.
  set (Q := scrubbed g a es e cap total s).
  assert (Hwp : wp (recompact pg g) (fun o s' => exists status, o = Ret status /\ Q s' status) s).
  2:{ unfold wp in Hwp. destruct (recompact pg g s) as [o s']. destruct Hwp as (status & Eo & HQ).
      cbn in Eo. subst o. by exists status, s'. }
  unfold recompact, has_fingerprint. wstep. wstep. unfold off_extracted_count, off_total_appends, off_size.
  eapply wp_field; [exact Oe|done|done|lia|done|]. cbn [wp_cont]. subst Q. unfold scrubbed. cbn zeta.
  destruct (Z.ltb_spec 0 e) as [Hpos|Hz]; wrun; cbn [negb].
  - wrun. eapply wp_field; [exact Oe|done|done|lia|done|]. cbn [wp_cont]. rewrite (proj2 (Z.ltb_lt _ _) Hpos).
    wrun. eapply wp_mono; [by eapply compact_entries_spec|].
    intros o s1 [[-> Hc]|(restored & -> & Hc & Hro)]; cbn [wp_cont]; wrun; [by exists kNotWritable|].
    pose proof Hc as [Cr _ _ _]. destruct (record_parts _ _ _ _ _ _ _ Cr) as (_ & Cn & _ & _ & Ct).
    set (k := Z.of_nat (length (filter (fun e => live e = true) es))) in *.
    assert (0 <= k <= n) by (pose proof (length_filter (fun e => live e = true) es); lia).
    eapply wp_field; [exact Cn|done|done|lia|fits|]. cbn [wp_cont]. unfold store_u64. wrun.
    eapply wp_store; [exact Ct|by rewrite !length_le_bytes|lia|rewrite length_le_bytes; lia|].
    intros m2 S2. wrun. cbn [st_s]. destruct (compacted_total _ _ _ _ _ _ _ _ _ _ _ Hpg Hat Hc S2) as [Hc2 Hro2].
    exists (if restored then kDone else kLeftWritable). split; [done|]. rewrite mem_put. destruct restored; [|done].
    split; [done|]. apply Hro2, Hro. done.
  - assert (e = 0) as -> by (unfold fits_u in He; lia).
    eapply wp_field; [exact Ot|done|done|lia|done|]. cbn [wp_cont]. wrun.
    eapply wp_field; [exact On|done|done|lia|fits|]. wrun. destruct (Z.ltb_spec n total); cbn [negb]; wrun; [|by exists kNothingToScrub].
    eapply wp_field; [exact Oe|done|done|lia|fits|]. wrun. cbn. wrun.
    eapply wp_field; [exact On|done|done|lia|fits|]. unfold store_u64. wrun.
    eapply wp_store; [exact Ot|by rewrite !length_le_bytes|lia|rewrite length_le_bytes; lia|].
    intros m2 S2. wrun. exists kDone. split; [done|]. cbn [st_s]. by rewrite mem_put.
Qed.
End Compaction.

(** ** The lock *)

(** Neither a change of protection or page contents, nor a lock taken or released. *)
Definition quiet (e : event) : Prop :=
  match e with
  | (CMprotect _ _ _, _) | (CMadvise _ _ _, _) | (CUnlock _, _) => False
  | (CTrylock _, r) => r_ret r <> 0
  | _ => True
  end.

Definition page_change (e : event) : Prop :=
  match e.1 with CMprotect _ _ _ | CMadvise _ _ _ => True | _ => False end.

Definition not_reached (status : ScrubStatus) : Prop := status = kNoArray \/ status = kNoLock \/ status = kLockBusy.

(** The calls [evs], newest first, of a pass that ended with [status]. *)
Definition locked_pass (status : ScrubStatus) (evs : list event) : Prop :=
  Forall quiet evs /\ not_reached status
  \/ exists lock post ru work rt pre,
       evs = post ++ (CUnlock lock, ru) :: work ++ (CTrylock lock, rt) :: pre /\ r_ret rt = 0
       /\ Forall quiet pre /\ Forall page_change work /\ Forall quiet post /\ ~ not_reached status.

Section Locking.
Context {W : Type} `{!World W} {S : Type} `{!HasMem S} `{!HashOrder} (fuel : nat) (pg : Z).
Abbreviation K := (M W S).

Lemma take_lock_spec n lock : forall s : st W S,
  wp (take_lock n lock) (fun o s' => exists evs, st_s s' = st_s s /\
     (o = Ret false /\ st_log s' = evs ++ st_log s /\ Forall quiet evs
      \/ exists rt, o = Ret true /\ st_log s' = (CTrylock lock, rt) :: evs ++ st_log s /\ r_ret rt = 0 /\ Forall quiet evs)) s.
Proof.
  induction n as [|n IH]; intros s; cbn [take_lock].
  { wrun. exists []. split; [done|]. by left. }
  wrun. apply wp_syscall. intros r w e. wrun. destruct (Z.eqb_spec (r_ret r) 0) as [Hr|Hr].
  { wrun. exists []. split; [done|]. right. by exists r. }
  wrun. apply wp_do. intros ry w2 e2. wrun. eapply wp_mono; [apply IH|].
  intros o s' (evs & Es & Hx). exists (evs ++ [(CSchedYield, ry); (CTrylock lock, r)]). split; [done|]. cbn [st_log] in Hx.
  assert (Hq : Forall quiet [(CSchedYield, ry); (CTrylock lock, r)]) by (repeat constructor; done).
  destruct Hx as [(-> & El & HF)|(rt & -> & El & Hrt & HF)]; [left|right; exists rt];
    rewrite El, <- app_assoc; repeat split; try done; by apply Forall_app.
Qed.

Lemma emits_recompact g : emits page_change (recompact pg g : K ScrubStatus).
Proof.
  assert (Hsk : forall n a i, emits page_change (skip_live n a i : K Z)).
  { intros n a i. apply emits_pure. intros s. revert s i. induction n as [|n IH]; intros s i; cbn [skip_live]; [done|].
    apply reads_bind; [apply reads_u64|]. intros fn. destruct (fn =? 0); [done|]. intros s0. apply IH. }
  assert (Hst : forall p bs, emits page_change (store p bs : K unit)).
  { intros p bs. unfold store. emits_tac. }
  assert (Hsh : forall n a i j, emits page_change (shift_live n a i j : K Z)).
  { induction n as [|n IH]; intros a i j; cbn [shift_live]; [by apply emits_pure|].
    apply emits_bind; [apply emits_pure, reads_load|]. intros en. apply emits_bind; [apply Hst|]. intros _.
    destruct (_ =? 0); [apply IH|]. apply emits_bind; [apply Hst|]. intros _. apply IH. }
  assert (Hu : forall p, emits page_change (load_u64 p : K Z)) by (intros p; apply emits_pure, reads_u64).
  assert (Hsw : forall b i n, emits page_change (set_writable pg g b i n : K bool)).
  { intros b i n. unfold set_writable, mprotect. apply emits_bind; [apply Hu|]. intros a. emits_tac. done. }
  assert (Hce : emits page_change (compact_entries pg g : K (option bool))).
  { unfold compact_entries. apply emits_bind; [apply Hu|]. intros n. apply emits_bind; [apply Hsw|]. intros b.
    destruct (negb b); [by apply emits_pure|]. apply emits_bind; [apply Hu|]. intros a. apply emits_bind; [apply Hsk|].
    intros i. apply emits_bind; [apply Hsh|]. intros j. apply emits_bind.
    { unfold madvise_dontneed. emits_tac. done. }
    intros _. apply emits_bind; [apply Hsw|]. intros b'. apply emits_bind; [apply Hst|]. intros _.
    apply emits_bind; [apply Hst|]. intros _. by apply emits_pure. }
  unfold recompact, has_fingerprint. apply emits_bind.
  { apply emits_bind; [apply Hu|]. intros e. destruct (0 <? e); [by apply emits_pure|].
    apply emits_bind; [apply Hu|]. intros t. apply emits_bind; [apply Hu|]. intros n. by apply emits_pure. }
  intros b. destruct (negb b); [by apply emits_pure|]. apply emits_bind; [apply Hu|]. intros e.
  apply emits_bind; [destruct (0 <? e); [apply Hce|by apply emits_pure]|]. intros [r|]; [|by apply emits_pure].
  apply emits_bind; [apply Hu|]. intros n. apply emits_bind; [apply Hst|]. intros _. by apply emits_pure.
Qed.

Lemma recompact_status g (s : st W S) : wp (recompact pg g) (on_ret (fun status _ => ~ not_reached status)) s.
Proof.
  assert (Hn : forall st, st = kDone \/ st = kNothingToScrub \/ st = kNotWritable \/ st = kLeftWritable -> ~ not_reached st).
  { intros st Hst Hx. destruct Hst as [->|[->|[->| ->]]]; destruct Hx as [Hx|[Hx|Hx]]; discriminate. }
  assert (Hskip : forall A B (m : K A) (f : A -> K B) Q (s : st W S), (forall a s', wp (f a) (on_ret Q) s') -> wp (m ≫= f) (on_ret Q) s).
  { intros A C m f Q s0 Hx. apply wp_bind. unfold wp. destruct (m s0) as [[a| | |] s1]; cbn [fst snd wp_cont]; [apply Hx|done..]. }
  unfold recompact. apply Hskip. intros b s1. destruct (negb b); [wrun; apply Hn; auto|]. apply Hskip. intros e s2.
  apply Hskip. intros [r|] s3; [|wrun; apply Hn; auto]. apply Hskip. intros n s4. apply Hskip. intros _ s5. wrun.
  apply Hn. destruct r; auto.
Qed.

Lemma scrub_locked_spec g lock (s : st W S) :
  wp (scrub_locked pg g lock) (on_ret (fun status s' => exists evs, st_log s' = evs ++ st_log s /\ locked_pass status evs)) s.
Proof.
  unfold scrub_locked. wstep. eapply wp_mono; [apply take_lock_spec|].
  intros o s1 (evs & _ & [(-> & El & HF)|(rt & -> & El & Hrt & HF)]); cbn [wp_cont negb]; wrun.
  { exists evs. split; [done|]. left. split; [done|]. right. by right. }
  eapply wp_mono; [apply wp_and; [apply (emits_recompact g)|apply (recompact_status g)]|].
  intros [status| | |] s2 [(work & E2 & HF2) Hst]; cbn in *; try done. apply wp_bind, wp_do. intros ru w e. wrun.
  exists ((CUnlock lock, ru) :: work ++ (CTrylock lock, rt) :: evs). cbn [st_log].
  split; [rewrite E2, El; cbn [app]; by rewrite <- app_assoc|]. right. exists lock, [], ru, work, rt, evs. done.
Qed.

(** libc's table is only touched under libc's lock, and the lock is never
    waited for nor kept: in a pass that returns, the calls that change the
    protection or the contents of the table's pages all lie between the one
    lock attempt that succeeded and the unlock; when the array or the lock is
    missing, or the lock is held by another thread, there are none. *)
Theorem scrub_under_lock (s s' : st W S) status :
  scrubFingerprint fuel pg s = (Ret status, s') ->
  exists evs, st_log s' = evs ++ st_log s /\ locked_pass status evs.
Proof.
  assert (Hi : forall c r, image_call c -> quiet (c, r)) by (intros [] r; done).
  wp_of_run. unfold scrubFingerprint. wstep. eapply wp_mono; [apply (emits_new_image fuel quiet); exact Hi|].
  intros [libc| | |] s1 (pre & E1 & HF1); cbn [wp_cont]; try done. wstep.
  match goal with |- wp ?m _ _ => set (body := m) end.
  assert (Hb : wp body (on_ret (fun x s2 => exists evs, st_log s2 = evs ++ st_log s1 /\ locked_pass x.1 evs)) s1).
  { assert (Hno : forall st (l : ElfImage), not_reached st -> exists evs, st_log s1 = evs ++ st_log s1 /\ locked_pass (st, l).1 evs)
      by (intros st l Hx; exists []; split; [done|]; by left).
    subst body. destruct (isValid libc); cbn [negb]; [|wrun; apply Hno; by left].
    wstep. apply wp_reads; [unfold findArray; reads_tac|]. intros [[g l1]| | |] _; cbn [wp_cont]; try done.
    destruct (g =? 0); [wrun; apply Hno; by left|].
    wstep. apply wp_reads; [unfold findLock; reads_tac|]. intros [[lock l2]| | |] _; cbn [wp_cont]; try done.
    destruct (lock =? 0); [wrun; apply Hno; by right; left|]. wstep.
    eapply wp_mono; [apply scrub_locked_spec|]. intros [st| | |] s2 Hx; cbn in *; try done. }
  eapply wp_mono; [exact Hb|]. intros [[st l]| | |] s2 Hx; cbn [wp_cont on_ret fst] in *; try done.
  destruct Hx as (evs & E2 & Hp). wstep. eapply wp_mono; [apply (emits_delete_image quiet l); exact Hi|].
  intros [[]| | |] s3 (post & E3 & HF3); cbn [wp_cont]; try done. wrun. exists (post ++ evs ++ pre).
  split; [rewrite E3, E2, E1, !app_assoc; done|]. destruct Hp as [[HF Hn]|(lock & p2 & ru & work & rt & p1 & -> & Hrt & H1 & H2 & H3 & Hn)].
  - left. split; [|done]. by repeat (apply Forall_app; split).
  - right. exists lock, (post ++ p2), ru, work, rt, (p1 ++ pre). split.
    + rewrite <- !app_assoc. cbn [app]. by rewrite <- !app_assoc.
    + repeat split; try done; by apply Forall_app.
Qed.
End Locking.

(** ** A table to scrub *)

Definition demo_entries : list (list Z) :=
  [le_bytes 8 0x7100 ++ le_bytes 8 1 ++ le_bytes 8 2; zero_entry; le_bytes 8 0x7200 ++ le_bytes 8 3 ++ le_bytes 8 4].
Definition demo_libc_mem : mem :=
  map_range 3 40 0x100 (record_bytes 0x2000 3 1 170 5) (map_range 1 72 0x2000 (concat demo_entries) ∅).
Definition demo_table_state : st script mem := St [ans 0; ans 0] [] 0 demo_libc_mem.

Lemma demo_atexit : atexit_at 4096 demo_libc_mem 0x100 0x2000 demo_entries 1 170 5.
Proof.
  split; [apply owned_check; vm_compute; reflexivity|apply holds_check; vm_compute; reflexivity|..].
  - repeat constructor.
  - split; fits.
  - lia.
  - cbn. lia.
  - left. lia.
Qed.

Lemma recompact_exact_witness :
  exists s', recompact 4096 0x100 demo_table_state = (Ret kDone, s')
    /\ compacted 4096 demo_libc_mem (st_s s') 0x100 0x2000 demo_entries 170 2.
Proof.
  destruct (recompact_exact 4096 0x100 0x2000 demo_entries 1 170 5 demo_table_state) as (status & s' & E & H).
  - exists 12. lia.
  - exact demo_atexit.
  - assert (Hs : (recompact 4096 0x100 demo_table_state).1 = Ret kDone) by (vm_compute; reflexivity).
    rewrite E in Hs. injection Hs as ->. exists s'. split; [exact E|]. destruct H as [H _]. exact H.
Defined.

(** A libc.so whose .symtab names the table and the lock. *)
Definition section (name type off size entsize : Z) : list Z :=
  le_bytes 4 name ++ le_bytes 4 type ++ replicate 16 0 ++ le_bytes 8 off ++ le_bytes 8 size ++ replicate 16 0
  ++ le_bytes 8 entsize.
Definition libc_names : list Z := [0] ++ B "_ZL7g_array.0" ++ [0] ++ B "_ZL13g_atexit_lock" ++ [0].
Definition libc_file : list Z :=
  replicate 40 0 ++ le_bytes 8 64 ++ replicate 12 0 ++ le_bytes 2 3 ++ le_bytes 2 2
  ++ section 0 SHT_SYMTAB 256 48 24 ++ section 1 SHT_STRTAB 304 34 0 ++ section 0 SHT_STRTAB 338 9 0
  ++ sym_bytes 1 1 0x7f 40 ++ sym_bytes 15 1 0x8f 40 ++ libc_names ++ [0] ++ B ".strtab" ++ [0].
Definition scrub_script : script :=
  [Reply 1 0 (B "/apex/libc.so") [0x80; 0; 0]; ans 3; Reply 0 0 [] [347]; Reply 0x10000 0 libc_file []; ans 0;
   ans 0; ans 0; ans 0; ans 0; ans 0].

#[local] Instance insertion_order : HashOrder.
Proof. refine {| visit c := c |}. done. Defined.

Lemma scrub_under_lock_witness :
  exists s' evs, scrubFingerprint 64 4096 (St scrub_script [] 0 demo_libc_mem : st script mem) = (Ret kDone, s')
    /\ st_log s' = evs ++ [] /\ locked_pass kDone evs.
Proof.
  set (s' := (scrubFingerprint 64 4096 (St scrub_script [] 0 demo_libc_mem : st script mem)).2).
  assert (E : scrubFingerprint 64 4096 (St scrub_script [] 0 demo_libc_mem : st script mem) = (Ret kDone, s')).
  { assert (Hs : (scrubFingerprint 64 4096 (St scrub_script [] 0 demo_libc_mem : st script mem)).1 = Ret kDone)
      by (vm_compute; reflexivity). unfold s'. by rewrite <- Hs, <- surjective_pairing. }
  destruct (scrub_under_lock 64 4096 _ s' kDone E) as (evs & H1 & H2).
  exists s', evs. split; [exact E|]. split; [exact H1|exact H2].
Defined.
