(* ===== verification/SoList.v ===== *)
(** The dynamic linker's own list of loaded objects, and dropping records from
    it (loader/src/injector/solist.cpp, include/solist.hpp, clean_linker_trace
    of injector/clean.cpp).

    The records are the linker's: structures in its memory whose fields are
    found by offsets, of which some are guessed from the records themselves.
    They are read-only except between the constructor and the destructor of
    the linker's ProtectedDataGuard; all four functions that change them are
    code of the linker, called at addresses that its symbol table gives. Their
    effect is arbitrary here: they may change, map, unmap and protect any
    byte. *)
From S2P Require Import Prelude Sys Mem Owned Linker ModLoader Sort ElfParser.
Open Scope Z_scope.

(** The variables of namespace Linker and the static members of SoInfoWrapper
    and ProtectedDataGuard. Pointers are addresses, 0 for null. *)
Record so_state := So {
  solinker : Z; somain : Z; g_module_load_counter : Z; g_module_unload_counter : Z;
  field_base_offset : Z; field_size_offset : Z; field_next_offset : Z;
  field_constructor_called_offset : Z; field_realpath_offset : Z;
  get_realpath_sym : Z; soinfo_free : Z; soinfo_unload : Z; guard_ctor : Z; guard_dtor : Z }.

(** The initial offsets are those of the soinfo that linker_soinfo.h declares,
    on a 64-bit target. *)
Definition so_init : so_state := So 0 0 0 0 16 24 40 248 416 0 0 0 0 0.

Definition set_solinker (x : Z) (s : so_state) : so_state :=
  So x (somain s) (g_module_load_counter s) (g_module_unload_counter s) (field_base_offset s)
    (field_size_offset s) (field_next_offset s) (field_constructor_called_offset s) (field_realpath_offset s)
    (get_realpath_sym s) (soinfo_free s) (soinfo_unload s) (guard_ctor s) (guard_dtor s).
Definition set_somain (x : Z) (s : so_state) : so_state :=
  So (solinker s) x (g_module_load_counter s) (g_module_unload_counter s) (field_base_offset s)
    (field_size_offset s) (field_next_offset s) (field_constructor_called_offset s) (field_realpath_offset s)
    (get_realpath_sym s) (soinfo_free s) (soinfo_unload s) (guard_ctor s) (guard_dtor s).
Definition set_load_counter (x : Z) (s : so_state) : so_state :=
  So (solinker s) (somain s) x (g_module_unload_counter s) (field_base_offset s)
    (field_size_offset s) (field_next_offset s) (field_constructor_called_offset s) (field_realpath_offset s)
    (get_realpath_sym s) (soinfo_free s) (soinfo_unload s) (guard_ctor s) (guard_dtor s).
Definition set_unload_counter (x : Z) (s : so_state) : so_state :=
  So (solinker s) (somain s) (g_module_load_counter s) x (field_base_offset s)
    (field_size_offset s) (field_next_offset s) (field_constructor_called_offset s) (field_realpath_offset s)
    (get_realpath_sym s) (soinfo_free s) (soinfo_unload s) (guard_ctor s) (guard_dtor s).
Definition set_size_offset (base size : Z) (s : so_state) : so_state :=
  So (solinker s) (somain s) (g_module_load_counter s) (g_module_unload_counter s) base size
    (field_next_offset s) (field_constructor_called_offset s) (field_realpath_offset s)
    (get_realpath_sym s) (soinfo_free s) (soinfo_unload s) (guard_ctor s) (guard_dtor s).
Definition set_next_offset (x : Z) (s : so_state) : so_state :=
  So (solinker s) (somain s) (g_module_load_counter s) (g_module_unload_counter s) (field_base_offset s)
    (field_size_offset s) x (field_constructor_called_offset s) (field_realpath_offset s)
    (get_realpath_sym s) (soinfo_free s) (soinfo_unload s) (guard_ctor s) (guard_dtor s).
Definition set_constructor_offset (x : Z) (s : so_state) : so_state :=
  So (solinker s) (somain s) (g_module_load_counter s) (g_module_unload_counter s) (field_base_offset s)
    (field_size_offset s) (field_next_offset s) x (field_realpath_offset s)
    (get_realpath_sym s) (soinfo_free s) (soinfo_unload s) (guard_ctor s) (guard_dtor s).
Definition set_realpath_offset (x : Z) (s : so_state) : so_state :=
  So (solinker s) (somain s) (g_module_load_counter s) (g_module_unload_counter s) (field_base_offset s)
    (field_size_offset s) (field_next_offset s) (field_constructor_called_offset s) x
    (get_realpath_sym s) (soinfo_free s) (soinfo_unload s) (guard_ctor s) (guard_dtor s).
Definition set_functions (realpath free unload ctor dtor : Z) (s : so_state) : so_state :=
  So (solinker s) (somain s) (g_module_load_counter s) (g_module_unload_counter s) (field_base_offset s)
    (field_size_offset s) (field_next_offset s) (field_constructor_called_offset s) (field_realpath_offset s)
    realpath free unload ctor dtor.

(** A component whose state contains these variables next to the memory. *)
Class HasSo (S : Type) `{!HasMem S} := {
  the_so : S -> so_state;
  put_so : so_state -> S -> S;
  so_put x s : the_so (put_so x s) = x;
  so_put_mem m s : the_so (put_mem m s) = the_so s;
  mem_put_so x s : the_mem (put_so x s) = the_mem s }.

(** The memory with the variables. *)
#[export] Instance pair_mem : HasMem (so_state * mem).
Proof. refine {| the_mem s := s.2; put_mem m s := (s.1, m) |}; [done|done|by intros []]. Defined.
#[export] Instance pair_so : HasSo (so_state * mem).
Proof. refine {| the_so s := s.1; put_so x s := (x, s.2) |}; done. Defined.

(** What foreign code did to memory: triples of an address, a byte and its
    protection, which is negative if the address is no longer mapped. *)
Fixpoint relink (changes : list Z) (m : mem) : mem :=
  match changes with
  | a :: b :: p :: changes' => relink changes' (if p <? 0 then delete a m else <[a := Cell b p]> m)
  | _ => m
  end.

Definition size_block_range : Z := 1024.
Definition size_maximal : Z := 0x100000.
Definition size_minimal : Z := 0x100.
Definition sizeof_ptr : Z := 8.
(** sizeof(link_map) is 40. *)
Definition index_gap : Z := (40 + sizeof_ptr - 1) / sizeof_ptr.

Section Solist.
Context {W : Type} `{!World W} {S : Type} `{!HasMem S} `{!HasSo S} `{!HashOrder} `{!StdSort} (fuel : nat).
Abbreviation K := (M W S).

Definition var {A} (f : so_state -> A) : K A := s ← get; mret (f (the_so s)).
Definition set_var (f : so_state -> so_state) : K unit := modify (fun s => put_so (f (the_so s)) s).

(** A call through a function pointer into the linker. *)
Definition call_linker (fn : Z) (args : list Z) : K Z :=
  if fn =? 0 then crash
  else
    r ← syscall (CCall fn args);
    modify (fun s => put_mem (relink (r_aux r) (the_mem s)) s);;
    mret (u64 (r_ret r)).

(** libc++'s [std::string]: the low bit of its first byte tells a string on
    the heap from one inside the object. *)
Definition string_size (p : Z) : K Z :=
  b ← load_u8 p; if Z.even b then mret (Z.shiftr b 1) else load_u64 (p + 8).
Definition string_c_str (p : Z) : K Z :=
  b ← load_u8 p; if Z.even b then mret (p + 1) else load_u64 (p + 16).

(** ** SoInfoWrapper *)

Definition getBase (this : Z) : K Z := o ← var field_base_offset; load_u64 (this + o).
Definition getSize (this : Z) : K Z := o ← var field_size_offset; load_u64 (this + o).
Definition getNext (this : Z) : K Z := o ← var field_next_offset; load_u64 (this + o).
Definition getPath (this : Z) : K Z :=
  f ← var get_realpath_sym;
  if negb (f =? 0) then call_linker f [this]
  else o ← var field_realpath_offset; string_c_str (this + o).
Definition setSize (this size : Z) : K unit := o ← var field_size_offset; store_u64 (this + o) size.
(** A whole word is written, not only the [bool]. *)
Definition setConstructorCalled (this : Z) (called : bool) : K unit :=
  o ← var field_constructor_called_offset; store_u64 (this + o) (Z.b2z called).

(** ** ProtectedDataGuard *)

(** The guard of a scope; its own address, which the linker does not use, is
    left out. *)
Definition with_guard {A} (body : K A) : K A :=
  ctor ← var guard_ctor;
  (if negb (ctor =? 0) then call_linker ctor [];; mret tt else mret tt);;
  r ← body;
  dtor ← var guard_dtor;
  (if negb (dtor =? 0) then call_linker dtor [];; mret tt else mret tt);;
  mret r.

Definition resolve (linker : ElfImage) (primary fallback : list Z) : K (Z * ElfImage) :=
  '(addr, linker) ← findSymbolAddress fuel linker primary;
  if negb (addr =? 0) then mret (addr, linker) else findSymbolAddress fuel linker fallback.

Definition guard_setup (linker : ElfImage) : K (bool * ElfImage) :=
  '(ctor, linker) ← resolve linker (B "__dl__ZN18ProtectedDataGuardC2Ev") (B "__dl__ZN18ProtectedDataGuardC1Ev");
  '(dtor, linker) ← resolve linker (B "__dl__ZN18ProtectedDataGuardD2Ev") (B "__dl__ZN18ProtectedDataGuardD1Ev");
  set_var (fun s => set_functions (get_realpath_sym s) (soinfo_free s) (soinfo_unload s) ctor dtor s);;
  mret (negb (ctor =? 0) && negb (dtor =? 0), linker).

(** ** Offsets *)

(** Which of the fields size, next and constructor_called were found. *)
Record found := Found { f_size : bool; f_next : bool; f_constructor : bool }.

(** One iteration at word [i]: what is found now, the next index, and whether
    the loop ends here. *)
Definition heuristic_step (linker_name : list Z) (vdso i : Z) (f : found) : K (found * Z * bool) :=
  let off := i * sizeof_ptr in
  main ← var somain;
  size_of_somain ← load_u64 (main + off);
  if negb (f_size f) && (size_of_somain <? size_maximal) && (size_minimal <? size_of_somain) then
    set_var (set_size_offset (u64 (off - 8)) off);;
    mret (Found true (f_next f) (f_constructor f), i + 1, false)
  else if negb (f_size f) then mret (f, i + 1, false)
  else
    linker ← var solinker;
    let field_of_solinker := linker + off in
    is_next ← (if f_next f then mret false
               else
                 next ← load_u64 field_of_solinker;
                 mret ((next =? main) || (negb (vdso =? 0) && (next =? vdso))));
    if is_next : bool then
      set_var (set_next_offset off);;
      mret (Found true true (f_constructor f), i + 1, false)
    else if negb (f_next f) then mret (f, i + 1, false)
    else
      let look_forward := field_of_solinker + index_gap * sizeof_ptr in
      is_map ← (if f_constructor f then mret false
                else
                  called ← load_u8 look_forward;
                  if negb (called =? 1) then mret false
                  else
                    l_addr ← load_u64 field_of_solinker;
                    if l_addr =? 0 then mret false
                    else
                      l_name ← load_u64 (field_of_solinker + 8);
                      if l_name =? 0 then mret false else str_eq l_name linker_name);
      if is_map : bool then
        set_var (set_constructor_offset (u64 (look_forward - linker)));;
        mret (Found true true true, i + index_gap + 1, false)
      else if negb (f_constructor f) then mret (f, i + 1, false)
      else
        realpath ← var get_realpath_sym;
        if negb (realpath =? 0) then mret (f, i, true)
        else
          size ← string_size field_of_solinker;
          if size =? Z.of_nat (length linker_name) then
            str ← string_c_str field_of_solinker;
            same ← str_eq str linker_name;
            if same : bool then set_var (set_realpath_offset off);; mret (f, i, true)
            else mret (f, i + 1, false)
          else mret (f, i + 1, false).

(** The index grows in every iteration: 128 are enough. *)
Fixpoint heuristic_loop (n : nat) (linker_name : list Z) (vdso i : Z) (f : found) : K found :=
  match n with
  | O => mret f
  | Datatypes.S n' =>
      if size_block_range / sizeof_ptr <=? i then mret f
      else
        '(f, i, stop) ← heuristic_step linker_name vdso i f;
        if stop : bool then mret f else heuristic_loop n' linker_name vdso i f
  end.

Definition findHeuristicOffsets (linker_name : list Z) (vdso : Z) : K bool :=
  f ← heuristic_loop (Z.to_nat (size_block_range / sizeof_ptr)) linker_name vdso 0 (Found false false false);
  mret (f_size f && f_next f && f_constructor f).

(** ** Initialisation *)

(** The part that looks the two counters and [somain] up. *)
Definition initialize_rest (somain_sym_name : list Z) (vdso : Z) (linker : ElfImage) : K (bool * ElfImage) :=
  '(a, linker) ← findSymbolAddress fuel linker (B "__dl__ZL21g_module_load_counter");
  set_var (set_load_counter a);;
  '(a, linker) ← findSymbolAddress fuel linker (B "__dl__ZL23g_module_unload_counter");
  set_var (set_unload_counter a);;
  '(a, linker) ← resolveSymbolPointer fuel linker somain_sym_name;
  set_var (set_somain a);;
  if a =? 0 then mret (false, linker)
  else ok ← findHeuristicOffsets (library_path_ linker) vdso; mret (ok, linker).

(** The functions of soinfo. *)
Definition initialize_functions (soinfo_free_name soinfo_unload_name somain_sym_name : list Z) (vdso : Z)
  (linker : ElfImage) : K (bool * ElfImage) :=
  '(realpath, linker) ← findSymbolAddress fuel linker (B "__dl__ZNK6soinfo12get_realpathEv");
  set_var (fun s => set_functions realpath (soinfo_free s) (soinfo_unload s) (guard_ctor s) (guard_dtor s) s);;
  '(free, linker) ← findSymbolAddress fuel linker soinfo_free_name;
  set_var (fun s => set_functions (get_realpath_sym s) free (soinfo_unload s) (guard_ctor s) (guard_dtor s) s);;
  if free =? 0 then mret (false, linker)
  else
    '(unload, linker) ← findSymbolAddress fuel linker soinfo_unload_name;
    set_var (fun s => set_functions (get_realpath_sym s) (soinfo_free s) unload (guard_ctor s) (guard_dtor s) s);;
    if unload =? 0 then mret (false, linker)
    else initialize_rest somain_sym_name vdso linker.

Definition initialize_with (linker : ElfImage) : K (bool * ElfImage) :=
  '(ok, linker) ← guard_setup linker;
  if negb ok then mret (false, linker)
  else
    '(somain_sym_name, linker) ← findSymbolNameByPrefix fuel linker (B "__dl__ZL6somain");
    if bool_decide (somain_sym_name = []) then mret (false, linker)
    else
      '(soinfo_free_name, linker) ← findSymbolNameByPrefix fuel linker (B "__dl__ZL11soinfo_freeP6soinfo");
      if bool_decide (soinfo_free_name = []) then mret (false, linker)
      else
        '(soinfo_unload_name, linker) ← findSymbolNameByPrefix fuel linker (B "__dl__ZL13soinfo_unloadP6soinfo");
        if bool_decide (soinfo_unload_name = []) then mret (false, linker)
        else
          let llvm_sufix := drop (length (B "__dl__ZL6somain")) somain_sym_name in
          '(a, linker) ← resolveSymbolPointer fuel linker (B "__dl__ZL8solinker" ++ llvm_sufix);
          set_var (set_solinker a);;
          '(a, linker) ← (if a =? 0 then
                            '(a, linker) ← resolveSymbolPointer fuel linker (B "__dl__ZL6solist" ++ llvm_sufix);
                            set_var (set_solinker a);;
                            mret (a, linker)
                          else mret (a, linker));
          if a =? 0 then mret (false, linker)
          else
            '(vdso, linker) ← resolveSymbolPointer fuel linker (B "__dl__ZL4vdso" ++ llvm_sufix);
            initialize_functions soinfo_free_name soinfo_unload_name somain_sym_name vdso linker.

(** The image of the linker is destroyed on every way out. *)
Definition initialize : K bool :=
  linker ← new_ElfImage fuel (B "/linker");
  '(ok, linker) ← initialize_with linker;
  delete_ElfImage linker;;
  mret ok.

(** The guard of every operation: [solinker == nullptr && !initialize()]. *)
Definition ready : K bool :=
  linker ← var solinker;
  if linker =? 0 then initialize else mret true.

(** ** Dropping records *)

Definition path_matches (iter : Z) (target_path : list Z) : K bool :=
  p ← getPath iter;
  if p =? 0 then mret false
  else p ← getPath iter; path ← load_cstr fuel p; mret (contains path target_path).

(** The records from [iter] on whose path contains [target_path]. *)
Fixpoint collect_targets (n : nat) (target_path : list Z) (iter : Z) : K (list Z) :=
  match n with
  | O => out_of_fuel
  | Datatypes.S n' =>
      if iter =? 0 then mret []
      else
        hit ← path_matches iter target_path;
        hit ← (if hit : bool then size ← getSize iter; mret (0 <? size) else mret false);
        next ← getNext iter;
        rest ← collect_targets n' target_path next;
        mret (if hit : bool then iter :: rest else rest)
  end.

Fixpoint is_linked (n : nat) (target iter : Z) : K bool :=
  match n with
  | O => out_of_fuel
  | Datatypes.S n' =>
      if iter =? 0 then mret false
      else if iter =? target then mret true
      else next ← getNext iter; is_linked n' target next
  end.

(** [*out_base], [*out_size] (absent if the pointer is null) and path_found. *)
Record dropped := Dropped { out_base : option Z; out_size : option Z; path_found : bool }.

Definition drop_guarded (unload : bool) (target : Z) (d : dropped) : K dropped :=
  size ← getSize target;
  if size =? 0 then mret d
  else
    ob ← (match out_base d with
          | Some 0 => b ← getBase target; mret (Some b)
          | o => mret o
          end);
    let os := match out_size d with Some 0 => Some size | o => o end in
    setSize target 0;;
    (if unload then
       base ← getBase target;
       cfi_backup ← backup_cfi_shadow base size;
       setConstructorCalled target false;;
       f ← var soinfo_unload;
       call_linker f [target];;
       setConstructorCalled target true;;
       restore_cfi_shadow cfi_backup;;
       mret tt
     else
       f ← var soinfo_free;
       call_linker f [target];;
       setSize target size);;
    mret (Dropped ob os true).

Definition drop_one (unload : bool) (target : Z) (d : dropped) : K dropped :=
  first ← var solinker;
  still_linked ← is_linked fuel target first;
  if negb still_linked then mret d else with_guard (drop_guarded unload target d).

Fixpoint drop_all (unload : bool) (targets : list Z) (d : dropped) : K dropped :=
  match targets with
  | [] => mret d
  | target :: targets' => d ← drop_one unload target d; drop_all unload targets' d
  end.

Definition dropSoPath (target_path : list Z) (unload : bool) (base size : option Z) : K dropped :=
  ok ← ready;
  if negb ok then mret (Dropped base size false)
  else
    first ← var solinker;
    targets ← collect_targets fuel target_path first;
    drop_all unload (std_sort (fun a b => b <? a) targets) (Dropped base size false).

(** ** Counters *)

Definition lower_counter (counter by_ : Z) (current : Z) : K unit :=
  if by_ <=? current then store_u64 counter (current - by_) else mret tt.

Definition resetCounters (load unload : Z) : K unit :=
  ok ← ready;
  if negb ok then mret tt
  else
    lc ← var g_module_load_counter;
    uc ← var g_module_unload_counter;
    if (lc =? 0) || (uc =? 0) then mret tt
    else
      loaded_modules ← load_u64 lc;
      unloaded_modules ← load_u64 uc;
      lower_counter lc load loaded_modules;;
      lower_counter uc unload unloaded_modules.

(** clean.cpp; [path_found] is dropped. *)
Definition clean_linker_trace (path : list Z) (loaded_modules unloaded_modules : Z) (unload_soinfo : bool)
  (base size : option Z) : K (option Z * option Z) :=
  d ← dropSoPath path unload_soinfo base size;
  (if unload_soinfo then resetCounters loaded_modules loaded_modules
   else resetCounters loaded_modules unloaded_modules);;
  mret (out_base d, out_size d).
End Solist.

(** ** Which functions of the linker run, and in which order *)

(** The functions that change the list or its protection. *)
Definition changing (so : so_state) : list Z := [guard_ctor so; guard_dtor so; soinfo_free so; soinfo_unload so].

Definition is_changing (so : so_state) (c : call) : bool :=
  match c with CCall fn _ => bool_decide (fn ∈ changing so) | _ => false end.

(** The calls of these functions among [evs], oldest first. *)
Definition changing_calls (so : so_state) (evs : list event) : list call :=
  filter (fun c => is_changing so c = true) (reverse (evs.*1)).

Lemma changing_app so evs evs' :
  changing_calls so (evs' ++ evs) = changing_calls so evs ++ changing_calls so evs'.
Proof. unfold changing_calls. by rewrite fmap_app, reverse_app, filter_app. Qed.

Section Trace.
Context {W : Type} `{!World W} {S : Type} `{!HasMem S} `{!HasSo S} `{!HashOrder} `{!StdSort} (fuel : nat).
Context (so : so_state).
Abbreviation K := (M W S).

(** Run with the variables [so], the code leaves them alone, and if it returns
    [a] after the calls [l], then [P a l]. *)
Definition traces {A} (P : A -> list call -> Prop) (m : K A) : Prop :=
  forall s, the_so (st_s s) = so ->
    wp m (fun o s' => the_so (st_s s') = so
      /\ exists evs, st_log s' = evs ++ st_log s
         /\ match o with Ret a => P a (changing_calls so evs) | _ => True end) s.

Definition quiet {A} (m : K A) : Prop := traces (fun _ l => l = []) m.

Lemma traces_weaken {A} (P Q : A -> list call -> Prop) (m : K A) :
  traces P m -> (forall a l, P a l -> Q a l) -> traces Q m.
Proof.
  intros Hm HPQ s Hs. eapply wp_mono; [by apply Hm|].
  intros o s1 (E1 & evs & El & HP). split; [done|]. exists evs. split; [done|]. destruct o; auto.
Qed.

Lemma traces_bind {A C} (P : A -> list call -> Prop) (Q : C -> list call -> Prop) (m : K A) f :
  traces P m -> (forall a l, P a l -> traces (fun b l' => Q b (l ++ l')) (f a)) -> traces Q (m ≫= f).
Proof.
  intros Hm Hf s Hs. wstep. eapply wp_mono; [by apply Hm|].
  intros [a| | |] s1 (E1 & evs & El & HP); cbn; [|split; [done|]; by exists evs..].
  eapply wp_mono; [by apply (Hf a _ HP)|]. intros o s2 (E2 & evs' & El' & HQ). split; [done|].
  exists (evs' ++ evs). split; [by rewrite El', El, app_assoc|]. rewrite changing_app. done.
Qed.

Lemma traces_quiet {A C} (Q : C -> list call -> Prop) (m : K A) f :
  quiet m -> (forall a, traces Q (f a)) -> traces Q (m ≫= f).
Proof. intros Hm Hf. eapply traces_bind; [exact Hm|]. intros a l ->. apply Hf. Qed.

Lemma traces_ret {A} (P : A -> list call -> Prop) a : P a [] -> traces P (mret a).
Proof. intros HP s Hs. wrun. split; [done|]. by exists []. Qed.

Lemma quiet_reads {A} (m : K A) : reads m -> quiet m.
Proof.
  intros Hr s Hs. apply wp_reads; [done|]. intros o _. split; [done|]. exists []. split; [done|]. by destruct o.
Qed.

Lemma unchanging_syscall c : is_changing so c = false -> quiet (syscall c).
Proof.
  intros Hc s Hs. apply wp_syscall. intros r w e. split; [done|]. exists [(c, r)]. split; [done|].
  unfold changing_calls. change (reverse _) with [c]. by rewrite filter_cons_False by (by rewrite Hc).
Qed.

Lemma traces_syscall c : is_changing so c = true -> traces (fun _ l => l = [c]) (syscall c : K reply).
Proof.
  intros Hc s Hs. apply wp_syscall. intros r w e. split; [done|]. exists [(c, r)]. split; [done|].
  unfold changing_calls. change (reverse _) with [c]. by rewrite filter_cons_True.
Qed.

Lemma quiet_mem f : quiet (modify (fun s => put_mem (f s) s) : K unit).
Proof. intros s Hs. wrun. split; [by rewrite so_put_mem|]. by exists []. Qed.

Lemma quiet_store p bs : quiet (store p bs : K unit).
Proof.
  apply traces_quiet; [by apply quiet_reads|]. intros s. destruct (write_bytes _ _ _) as [m|].
  - apply (quiet_mem (fun _ => m)).
  - by apply quiet_reads.
Qed.

Lemma quiet_var {A} (f : so_state -> A) : quiet (var f : K A).
Proof. by apply quiet_reads. Qed.

Lemma traces_var {A C} (Q : C -> list call -> Prop) (f : so_state -> A) (g : A -> K C) :
  traces Q (g (f so)) -> traces Q (var f ≫= g).
Proof. intros Hg s Hs. unfold var. wrun. rewrite Hs. by apply Hg. Qed.

Lemma quiet_mprotect p n prot : quiet (mprotect p n prot : K Z).
Proof.
  apply traces_quiet; [by apply unchanging_syscall|]. intros r. cbn zeta.
  apply traces_quiet; [apply quiet_mem|]. intros _. by apply traces_ret.
Qed.
End Trace.

Create HintDb quiet.
#[export] Hint Resolve quiet_store quiet_var quiet_mprotect quiet_mem : quiet.

(** Closes [quiet] goals structurally. *)
Ltac quiet_tac :=
  repeat match goal with
  | |- quiet _ (mbind _ _) => apply traces_quiet; [|intros ?]
  | |- traces ?so (fun _ l => l = []) ?m => change (quiet so m)
  | |- quiet _ (syscall _) => by apply unchanging_syscall
  | |- quiet _ (if ?b then _ else _) => destruct b
  | |- quiet _ (match ?x with _ => _ end) => destruct x
  | |- quiet _ (mret _) => by apply quiet_reads
  | |- quiet _ _ => first [solve [eauto with quiet] | apply quiet_reads; by reads_tac]
  end.

Section Calls.
Context {W : Type} `{!World W} {S : Type} `{!HasMem S} `{!HasSo S} `{!HashOrder} `{!StdSort} (fuel : nat).
Context (so : so_state).
Abbreviation K := (M W S).
Abbreviation quiet := (quiet so).
Abbreviation traces := (traces so).

Lemma quiet_find_shadow : quiet (find_cfi_shadow : K (option CfiShadowRange)).
Proof. unfold find_cfi_shadow. quiet_tac. Qed.

Lemma quiet_with_writable sh dst dst_end body : quiet body -> quiet (with_writable sh dst dst_end body : K bool).
Proof. intros Hb. unfold with_writable, page_size. quiet_tac. Qed.
#[local] Hint Resolve quiet_find_shadow quiet_with_writable : quiet.

Lemma quiet_backup base size : quiet (backup_cfi_shadow base size : K SavedCfiShadow).
Proof. unfold backup_cfi_shadow. quiet_tac. Qed.

Lemma quiet_restore saved : quiet (restore_cfi_shadow saved : K bool).
Proof. unfold restore_cfi_shadow. quiet_tac. Qed.
#[local] Hint Resolve quiet_backup quiet_restore : quiet.

Lemma traces_call fn args :
  fn <> 0 -> fn ∈ changing so -> traces (fun _ l => l = [CCall fn args]) (call_linker fn args : K Z).
Proof.
  intros Hne Hin. unfold call_linker. rewrite (proj2 (Z.eqb_neq fn 0) Hne).
  eapply traces_bind; [apply traces_syscall; by apply bool_decide_eq_true|]. intros r l ->.
  apply traces_quiet; [apply quiet_mem|]. intros _. by apply traces_ret.
Qed.

Lemma quiet_call fn args : fn ∉ changing so -> quiet (call_linker fn args : K Z).
Proof.
  intros Hin. unfold call_linker. destruct (fn =? 0); [by apply quiet_reads|].
  apply traces_quiet; [apply unchanging_syscall; by apply bool_decide_eq_false|]. intros r.
  apply traces_quiet; [apply quiet_mem|]. intros _. by apply traces_ret.
Qed.

(** The functions of the linker are known, and are not the getter. *)
Definition resolved : Prop :=
  solinker so <> 0 /\ guard_ctor so <> 0 /\ guard_dtor so <> 0 /\ soinfo_free so <> 0 /\ soinfo_unload so <> 0
  /\ get_realpath_sym so ∉ changing so.

Context (Hso : resolved).

Lemma quiet_path iter : quiet (getPath iter : K Z).
Proof.
  destruct Hso as (_ & _ & _ & _ & _ & Hg). unfold getPath. apply traces_var. case_match; [by apply quiet_call|].
  unfold string_c_str. quiet_tac.
Qed.
#[local] Hint Resolve quiet_path : quiet.

Lemma quiet_collect n target_path : forall iter, quiet (collect_targets fuel n target_path iter : K (list Z)).
Proof.
  induction n as [|n IH]; intros iter; cbn [collect_targets]; [by apply quiet_reads|].
  unfold path_matches, getSize, getNext. quiet_tac.
Qed.

Lemma quiet_linked n target : forall iter, quiet (is_linked n target iter : K bool).
Proof.
  induction n as [|n IH]; intros iter; cbn [is_linked]; [by apply quiet_reads|]. unfold getNext. quiet_tac.
Qed.

(** The function that drops a record. *)
Definition drop_fn (unload : bool) : Z := if unload then soinfo_unload so else soinfo_free so.

Lemma drop_guarded_calls unload target d :
  traces (fun d' l => d' = d /\ l = [] \/ path_found d' = true /\ l = [CCall (drop_fn unload) [target]])
    (drop_guarded unload target d : K dropped).
Proof.
  destruct Hso as (_ & _ & _ & Hf & Hu & _). unfold drop_guarded, getSize, setSize.
  apply traces_quiet; [quiet_tac|]. intros size. case_match; [apply traces_ret; by left|].
  apply traces_quiet; [unfold getBase; quiet_tac|]. intros ob.
  apply traces_quiet; [quiet_tac|]. intros _.
  eapply (traces_bind _ (fun _ l => l = [CCall (drop_fn unload) [target]])).
  - destruct unload; cbn [drop_fn].
    + unfold getBase, setConstructorCalled. do 3 (apply traces_quiet; [quiet_tac|]; intros ?). apply traces_var.
      eapply traces_bind; [apply traces_call; [done|set_solver]|]. intros r l ->.
      do 2 (apply traces_quiet; [quiet_tac|]; intros ?). by apply traces_ret.
    + apply traces_var. eapply traces_bind; [apply traces_call; [done|set_solver]|]. intros r l ->.
      eapply (traces_weaken _ (fun _ l => l = [])); [quiet_tac|]. by intros ? ? ->.
  - intros _ l ->. apply traces_ret. by right.
Qed.

Lemma guard_calls {A} (P : A -> list call -> Prop) (body : K A) :
  traces P body ->
  traces (fun a l => exists l0, P a l0 /\ l = CCall (guard_ctor so) [] :: l0 ++ [CCall (guard_dtor so) []])
    (with_guard body).
Proof.
  destruct Hso as (_ & Hc & Hd & _). intros Hb. unfold with_guard. apply traces_var.
  rewrite (proj2 (Z.eqb_neq _ 0) Hc). cbn [negb].
  eapply (traces_bind _ (fun _ l => l = [CCall (guard_ctor so) []])).
  { eapply traces_bind; [apply traces_call; [done|set_solver]|]. intros ? l ->. by apply traces_ret. }
  intros _ l ->. eapply traces_bind; [exact Hb|]. intros a l HP. apply traces_var.
  rewrite (proj2 (Z.eqb_neq _ 0) Hd). cbn [negb].
  eapply (traces_bind _ (fun _ l => l = [CCall (guard_dtor so) []])).
  { eapply traces_bind; [apply traces_call; [done|set_solver]|]. intros ? l' ->. by apply traces_ret. }
  intros _ l' ->. apply traces_ret. exists l. split; [done|]. by rewrite app_nil_r.
Qed.

(** What happens under one guard: a record is dropped, or nothing. *)
Definition block (unload : bool) (o : option Z) : list call :=
  CCall (guard_ctor so) []
  :: match o with Some t => [CCall (drop_fn unload) [t]] | None => [] end ++ [CCall (guard_dtor so) []].

(** Guarded blocks that drop some of [targets], in their order. *)
Definition guarded_drops (unload : bool) (targets : list Z) (l : list call) (ts : list Z) : Prop :=
  exists blocks, l = concat (block unload <$> blocks) /\ ts = omap id blocks /\ sublist ts targets.

Lemma drop_one_calls unload target d :
  traces (fun d' l => exists ts, guarded_drops unload [target] l ts
    /\ path_found d' = path_found d || negb (bool_decide (ts = []))) (drop_one fuel unload target d : K dropped).
Proof.
  unfold drop_one. apply traces_var. apply traces_quiet; [apply quiet_linked|]. intros linked. case_match.
  - apply traces_ret. exists []. split; [exists []; repeat split; apply sublist_nil_l|]. cbn. by rewrite orb_false_r.
  - eapply traces_weaken; [apply guard_calls, drop_guarded_calls|].
    intros d' l (l0 & [[-> ->]|[Hd ->]] & ->).
    + exists []. split; [|cbn; by rewrite orb_false_r]. exists [None]. repeat split. apply sublist_nil_l.
    + exists [target]. split; [|by rewrite Hd, orb_true_r]. exists [Some target]. by repeat split.
Qed.

Lemma guarded_drops_app unload t targets l l' ts ts' :
  guarded_drops unload [t] l ts -> guarded_drops unload targets l' ts' ->
  guarded_drops unload (t :: targets) (l ++ l') (ts ++ ts').
Proof.
  intros (bs & -> & -> & H1) (bs' & -> & -> & H2). exists (bs ++ bs').
  split; [by rewrite fmap_app, concat_app|]. split; [by rewrite omap_app|].
  change (t :: targets) with ([t] ++ targets). by apply sublist_app.
Qed.

Lemma drop_all_calls unload targets : forall d,
  traces (fun d' l => exists ts, guarded_drops unload targets l ts
    /\ path_found d' = path_found d || negb (bool_decide (ts = []))) (drop_all fuel unload targets d : K dropped).
Proof.
  induction targets as [|t targets IH]; intros d; cbn [drop_all].
  - apply traces_ret. exists []. split; [exists []; by repeat split|]. cbn. by rewrite orb_false_r.
  - eapply traces_bind; [apply drop_one_calls|]. intros d1 l (ts & H1 & E1).
    eapply traces_weaken; [apply IH|]. intros d2 l' (ts' & H2 & E2). exists (ts ++ ts').
    split; [by apply guarded_drops_app|]. rewrite E2, E1. by destruct (path_found d), ts, ts'.
Qed.
End Calls.

Lemma sublist_sorted {A} (R : A -> A -> Prop) l l' : sublist l l' -> StronglySorted R l' -> StronglySorted R l.
Proof.
  induction 1 as [|x l l' Hl IH|x l l' Hl IH]; intros Hs; [done|..]; apply StronglySorted_inv in Hs as [Hs Hx].
  - constructor; [by apply IH|]. rewrite Forall_forall in Hx |- *. intros y Hy. apply Hx. by eapply elem_of_sublist.
  - by apply IH.
Qed.

Lemma descending {SS : StdSort} (l : list Z) : StronglySorted Z.ge (std_sort (fun a b => b <? a) l).
Proof.
  eapply StronglySorted_weaken; [|apply std_sort_sorted, (strict_weak_key_desc id)].
  intros x y H%Z.ltb_ge. unfold id in H. lia.
Qed.

(** Any code, with the run itself as its postcondition. *)
Lemma wp_run {W S A} `{!World W} (m : M W S A) s : wp m (fun o s' => m s = (o, s')) s.
Proof. unfold wp. by destruct (m s). Qed.

(** A run given by its weakest precondition. *)
Lemma wp_exact {W S A} `{!World W} (m : M W S A) o s s' : wp m (fun o1 s1 => (o1, s1) = (o, s')) s -> m s = (o, s').
Proof. unfold wp. by destruct (m s). Qed.

Section Order.
Context {W : Type} `{!World W} {S : Type} `{!HasMem S} `{!HasSo S} `{!HashOrder} `{!StdSort} (fuel : nat).

(** C26. Once the linker's functions are known, dropping a path changes the
    linker's list only under its guard: the calls that change the list or its
    protection are blocks, each the guard's constructor, at most one record
    dropped with soinfo_unload (or soinfo_free), and the guard's destructor,
    whatever these functions do to memory. The records dropped are among
    those whose path matched when the list was walked, highest address first,
    and the result says whether there was one. *)
Theorem linker_calls_guarded target_path unload base size (s s' : st W S) d :
  let so := the_so (st_s s) in
  resolved so ->
  dropSoPath fuel target_path unload base size s = (Ret d, s') ->
  exists targets s1 evs ts,
    collect_targets fuel fuel target_path (solinker so) s = (Ret targets, s1)
    /\ st_log s' = evs ++ st_log s
    /\ guarded_drops so unload (std_sort (fun a b => b <? a) targets) (changing_calls so evs) ts
    /\ StronglySorted Z.ge ts /\ ts ⊆ targets
    /\ path_found d = negb (bool_decide (ts = [])).
Proof.
  intros so Hso. wp_of_run. unfold dropSoPath, ready, var. fold so. wrun.
  fold so. rewrite (proj2 (Z.eqb_neq _ 0) (proj1 Hso)). wrun. cbn [negb]. wrun. fold so.
  pose proof (wp_and _ _ _ _ (quiet_collect fuel so Hso fuel target_path (solinker so) s eq_refl) (wp_run _ s)) as Hc.
  eapply wp_mono; [exact Hc|].
  intros [targets| | |] s1 ((E1 & evs1 & El1 & Hq) & Ec); try exact I. cbn [wp_cont].
  eapply wp_mono; [refine (drop_all_calls fuel so Hso unload _ _ s1 E1)|].
  intros [d'| | |] s2 (_ & evs2 & El2 & Hd); try exact I. destruct Hd as (ts & Hts & Ef).
  exists targets, s1, (evs2 ++ evs1), ts. rewrite changing_app, Hq. split; [done|].
  split; [by rewrite El2, El1, app_assoc|]. split; [exact Hts|]. destruct Hts as (bs & _ & _ & Hsub).
  split; [eapply sublist_sorted; [exact Hsub|apply descending]|]. split; [|exact Ef].
  intros t Ht. eapply elem_of_sublist in Ht; [|exact Hsub].
  rewrite std_sort_perm in Ht; [exact Ht|]. apply (strict_weak_key_desc id).
Qed.
End Order.

(** ** What the walk finds *)

(** A record as the walk sees it: its address, its path, its size. *)
Record soinfo := Soinfo { so_addr : Z; so_path : list Z; so_size : Z }.

(** A [std::string] that holds [str], inside the object or on the heap. *)
Definition string_at (m : mem) (p : Z) (str : list Z) : Prop :=
  Forall (fun c => c <> 0) str /\
  (exists rest, (length str < 23)%nat /\ 0 <= p /\ p + 24 <= 2 ^ 64
     /\ holds m p (2 * Z.of_nat (length str) :: (str ++ [0]) ++ rest))
  \/ Forall (fun c => c <> 0) str /\
  (exists cap data, Z.odd cap = true /\ 0 <= p /\ p + 24 <= 2 ^ 64 /\ 0 < data
     /\ data + Z.of_nat (length str) + 1 <= 2 ^ 64
     /\ holds m p (le_bytes 8 cap ++ le_bytes 8 (Z.of_nat (length str)) ++ le_bytes 8 data)
     /\ holds m data (str ++ [0])).

(** The list of records from [p] on, with the offsets of [so]. *)
Fixpoint list_at (so : so_state) (m : mem) (p : Z) (rs : list soinfo) : Prop :=
  match rs with
  | [] => p = 0
  | r :: rs' =>
      p = so_addr r /\ 0 < p /\ fits_u 64 (so_size r)
      /\ string_at m (p + field_realpath_offset so) (so_path r)
      /\ 0 <= p + field_size_offset so /\ p + field_size_offset so + 8 <= 2 ^ 64
      /\ holds m (p + field_size_offset so) (le_bytes 8 (so_size r))
      /\ 0 <= p + field_next_offset so /\ p + field_next_offset so + 8 <= 2 ^ 64
      /\ exists next, fits_u 64 next /\ holds m (p + field_next_offset so) (le_bytes 8 next) /\ list_at so m next rs'
  end.

Definition matching (target_path : list Z) (r : soinfo) : bool :=
  contains (so_path r) target_path && (0 <? so_size r).

Section Walk.
Context {W : Type} `{!World W} {S : Type} `{!HasMem S} `{!HasSo S} (fuel : nat).
Abbreviation K := (M W S).

Lemma wp_cstr n p str Q (s : st W S) :
  holds (the_mem (st_s s)) p (str ++ [0]) -> 0 <= p -> p + Z.of_nat (length str) + 1 <= 2 ^ 64 ->
  Forall (fun c => c <> 0) str -> (length str < n)%nat -> Q (Ret str) s -> wp (load_cstr n p) Q s.
Proof.
  revert n p Q. induction str as [|c str IH]; intros n p Q Hh H1 H2 Hn Hl HQ;
    (destruct n as [|n]; [cbn in Hl; lia|]); cbn [load_cstr app length] in *; wstep;
    (eapply wp_load_u8; [exact Hh|lia|lia|]; wrun).
  - done.
  - apply Forall_cons in Hn as [Hc Hn]. rewrite (proj2 (Z.eqb_neq c 0) Hc).
    apply holds_cons in Hh as [_ Hh]. wstep. apply IH; [done|lia|lia|done|lia|]. by wrun.
Qed.

(** The path of a record, as the address of its bytes. *)
Lemma wp_c_str p str Q (s : st W S) :
  string_at (the_mem (st_s s)) p str ->
  (forall q, 0 < q -> q + Z.of_nat (length str) + 1 <= 2 ^ 64 -> Forall (fun c => c <> 0) str ->
     holds (the_mem (st_s s)) q (str ++ [0]) -> Q (Ret q) s) ->
  wp (string_c_str p) Q s.
Proof.
  intros [(Hn & rest & Hl & H1 & H2 & Hh)|(Hn & cap & data & Ho & H1 & H2 & H3 & H4 & Hh & Hd)] HQ; unfold string_c_str; wstep.
  - eapply wp_load_u8; [exact Hh|lia|lia|]. wrun. rewrite Z.even_mul. cbn [Z.even orb]. wrun.
    apply holds_cons in Hh as [_ Hh]. apply holds_app in Hh as [Hh _]. apply HQ; [lia|lia|done|done].
  - pose proof Hh as Hh0. apply holds_app in Hh as [Hc Hh]. apply holds_app in Hh as [_ Hh].
    rewrite !length_le_bytes in Hh. change (le_bytes 8 cap) with (cap mod 256 :: le_bytes 7 (cap / 256)) in Hc.
    eapply wp_load_u8; [exact Hc|lia|lia|]. wrun.
    assert (He : Z.even (cap mod 256) = false).
    { rewrite <- Z.negb_odd. replace (cap mod 256) with (cap - 2 * (128 * (cap / 256))) by (pose proof (Z.div_mod cap 256); lia).
      rewrite Z.odd_sub, Ho, Z.odd_mul. done. }
    rewrite He. eapply wp_load_u64; [eapply holds_at; [exact Hh|lia]|lia|lia|fits|]. by apply HQ.
Qed.

Lemma wp_next so m p r rs Q (s : st W S) :
  the_so (st_s s) = so -> the_mem (st_s s) = m -> list_at so m p (r :: rs) ->
  (forall next, list_at so m next rs -> Q (Ret next) s) -> wp (getNext p) Q s.
Proof.
  intros <- <- (-> & _ & _ & _ & _ & _ & _ & H1 & H2 & next & Hf & Hn & Hl) HQ. unfold getNext, var. wrun.
  eapply wp_load_u64; [exact Hn|done|lia|exact Hf|]. by apply HQ.
Qed.

Lemma collect_exact so target_path rs : forall n p Q (s : st W S),
  the_so (st_s s) = so -> get_realpath_sym so = 0 -> list_at so (the_mem (st_s s)) p rs ->
  (length rs < n)%nat -> Forall (fun r => length (so_path r) < fuel)%nat rs ->
  Q (Ret (so_addr <$> filter (fun r => matching target_path r = true) rs)) s ->
  wp (collect_targets fuel n target_path p) Q s.
Proof.
  induction rs as [|r rs IH]; intros n p Q s Es Hg Hl Hn Hp HQ; (destruct n as [|n]; [cbn in Hn; lia|]);
    cbn [collect_targets].
  { cbn in Hl. subst p. by wrun. }
  pose proof Hl as (-> & H1 & Hf & Hs & H2 & H3 & Hz & _). apply Forall_cons in Hp as [Hp Hps]. cbn [length] in Hn.
  rewrite (proj2 (Z.eqb_neq (so_addr r) 0)) by lia. unfold path_matches, getPath, getSize, var. wrun. rewrite Es, Hg.
  cbn [negb Z.eqb]. wrun. rewrite Es. eapply wp_c_str; [exact Hs|]. intros q Hq1 Hq2 Hnn Hq. wrun.
  rewrite (proj2 (Z.eqb_neq q 0)) by lia. wrun. rewrite Es, Hg. cbn [negb Z.eqb]. wrun. rewrite Es.
  eapply wp_c_str; [exact Hs|]. intros q' Hq1' Hq2' _ Hq'. wrun.
  eapply wp_cstr; [exact Hq'|lia|done|done|done|]. wrun.
  assert (Hgo : forall hit, hit = matching target_path r ->
    wp (next ← getNext (so_addr r); rest ← collect_targets fuel n target_path next;
        mret (if hit : bool then so_addr r :: rest else rest)) Q s).
  { intros hit ->. wstep. eapply wp_next; [exact Es|done|exact Hl|]. intros next Hnext. wrun.
    eapply IH; [exact Es|done|done|lia|done|]. wrun. destruct (matching target_path r) eqn:E.
    - rewrite filter_cons_True in HQ by done. done.
    - rewrite filter_cons_False in HQ by (by rewrite E). done. }
  unfold matching in Hgo. destruct (contains (so_path r) target_path).
  - wrun. rewrite Es. eapply wp_load_u64; [exact Hz|done|lia|exact Hf|]. wrun. by apply wp_bind_inv, Hgo.
  - wrun. exact (wp_bind_inv _ _ _ _ (Hgo false eq_refl)).
Qed.

Lemma linked_exact so target rs : forall n p Q (s : st W S),
  the_so (st_s s) = so -> list_at so (the_mem (st_s s)) p rs -> (length rs < n)%nat ->
  Q (Ret (bool_decide (target ∈ so_addr <$> rs))) s -> wp (is_linked n target p) Q s.
Proof.
  induction rs as [|r rs IH]; intros n p Q s Es Hl Hn HQ; (destruct n as [|n]; [cbn in Hn; lia|]); cbn [is_linked].
  { cbn in Hl. subst p. by wrun. }
  pose proof Hl as (-> & H1 & _). cbn [length] in Hn. rewrite (proj2 (Z.eqb_neq (so_addr r) 0)) by lia.
  destruct (Z.eqb_spec (so_addr r) target) as [E|E].
  - wrun. rewrite bool_decide_eq_true_2 in HQ; [done|]. rewrite fmap_cons, <- E. left.
  - wstep. eapply wp_next; [exact Es|done|exact Hl|]. intros next Hnext. wrun.
    eapply IH; [exact Es|done|lia|]. erewrite bool_decide_ext; [exact HQ|].
    rewrite fmap_cons, elem_of_cons. split; [by right|by intros [->|]].
Qed.

(** On a well-formed list of records, short enough for the fuel, whose
    paths are C++ strings (short or on the heap): the walk collects exactly
    the records whose path contains the needle and whose size is not 0, in
    list order, without changing anything; and a collected record that is no
    longer on the list, because an earlier unload took it, is passed over
    without any call or change. *)
Theorem targets_exact so target_path rs unload t d (s : st W S) :
  the_so (st_s s) = so -> get_realpath_sym so = 0 -> list_at so (the_mem (st_s s)) (solinker so) rs ->
  (length rs < fuel)%nat -> Forall (fun r => length (so_path r) < fuel)%nat rs ->
  collect_targets fuel fuel target_path (solinker so) s
    = (Ret (so_addr <$> filter (fun r => matching target_path r = true) rs), s)
  /\ (t ∉ so_addr <$> rs -> drop_one fuel unload t d s = (Ret d, s)).
Proof.
  intros Es Hg Hl Hn Hp. split.
  - apply (wp_exact _ _ s). eapply collect_exact; eauto.
  - intros Ht. apply (wp_exact _ _ s). unfold drop_one, var. wrun. rewrite Es.
    eapply linked_exact; [exact Es|exact Hl|exact Hn|]. wrun. rewrite bool_decide_eq_false_2 by done. by wrun.
Qed.
End Walk.

(** ** Counters *)

Definition lowered (by_ current : Z) : Z := if by_ <=? current then current - by_ else current.

Section Counters.
Context {W : Type} `{!World W} {S : Type} `{!HasMem S} `{!HasSo S} `{!HashOrder} (fuel : nat).

(** The counter at [p] goes from [x] to [y]; the rest of memory stays. *)
Definition counted (p x y : Z) (m m' : mem) : Prop :=
  owned m p (le_bytes 8 x) /\ owned m' p (le_bytes 8 y) /\ forall q, ~ p <= q < p + 8 -> m' !! q = m !! q.

Lemma wp_lower p by_ x (Q : outcome unit -> st W S -> Prop) s :
  owned (the_mem (st_s s)) p (le_bytes 8 x) -> 0 <= p -> p + 8 <= 2 ^ 64 -> fits_u 64 x -> 0 <= by_ ->
  (forall m', counted p x (lowered by_ x) (the_mem (st_s s)) m' ->
     Q (Ret tt) (St (st_w s) (st_log s) (st_errno s) (put_mem m' (st_s s)))) ->
  wp (lower_counter p by_ x) Q s.
Proof.
  intros Ho H1 H2 Hx Hb HQ. unfold lower_counter. unfold lowered in HQ. case_match.
  - unfold store_u64. eapply wp_store; [exact Ho|by rewrite !length_le_bytes|done|by rewrite length_le_bytes|].
    intros m' Hs. apply HQ. split; [done|]. split.
    + rewrite <- (app_nil_r (le_bytes 8 (x - by_))), <- (app_nil_l (_ ++ [])).
      apply (owned_stored (the_mem (st_s s)) m' p [] (le_bytes 8 x)); [by rewrite app_nil_r|by rewrite !length_le_bytes|].
      by rewrite Z.add_0_r.
    + intros q Hq. rewrite Hs, length_le_bytes. zcase; try lia; done.
  - wrun. specialize (HQ (the_mem (st_s s))). rewrite put_mem_id in HQ. destruct s. apply HQ. by split.
Qed.

(** C36. Resetting the linker's counters, when both are known, lowers each by
    the given number unless it is smaller than that, in which case it keeps
    its value: no counter wraps around. Nothing else changes and no call is
    made. *)
Theorem counters_exact load unload x y (s : st W S) :
  let so := the_so (st_s s) in
  let m := the_mem (st_s s) in
  let lc := g_module_load_counter so in
  let uc := g_module_unload_counter so in
  solinker so <> 0 -> 0 < lc -> lc + 8 <= 2 ^ 64 -> 0 < uc -> uc + 8 <= 2 ^ 64 -> lc + 8 <= uc \/ uc + 8 <= lc ->
  owned m lc (le_bytes 8 x) -> owned m uc (le_bytes 8 y) -> fits_u 64 x -> fits_u 64 y ->
  0 <= load -> 0 <= unload ->
  exists m1 m2, resetCounters fuel load unload s
                = (Ret tt, St (st_w s) (st_log s) (st_errno s) (put_mem m2 (st_s s)))
    /\ counted lc x (lowered load x) m m1 /\ counted uc y (lowered unload y) m1 m2.
Proof.
  intros so m lc uc Hs L1 L2 U1 U2 Hd Ho Hu Hx Hy H1 H2.
  enough (Hw : wp (resetCounters fuel load unload)
    (fun o s' => exists m1 m2, (o, s') = (Ret tt, St (st_w s) (st_log s) (st_errno s) (put_mem m2 (st_s s)))
      /\ counted lc x (lowered load x) m m1 /\ counted uc y (lowered unload y) m1 m2) s).
  { unfold wp in Hw. destruct (resetCounters _ _ _ _). exact Hw. }
  unfold resetCounters, ready, var. wrun. fold so. rewrite (proj2 (Z.eqb_neq _ 0) Hs). wrun. cbn [negb]. wrun.
  fold so. fold lc. fold uc. rewrite (proj2 (Z.eqb_neq lc 0)), (proj2 (Z.eqb_neq uc 0)) by lia. cbn [orb]. wrun.
  eapply wp_load_u64; [apply owned_holds; exact Ho|lia|lia|exact Hx|]. wrun.
  eapply wp_load_u64; [apply owned_holds; exact Hu|lia|lia|exact Hy|]. wrun.
  eapply wp_lower; [exact Ho|lia|lia|exact Hx|done|]. intros m1 Hc. wrun.
  eapply wp_lower; [cbn [st_s]; rewrite mem_put|lia|lia|exact Hy|done|].
  - intros i b Hi. destruct (Hu i b Hi) as (c & E & Hc'). exists c. split; [|done].
    destruct Hc as (_ & _ & Hc). rewrite Hc; [done|]. apply lookup_lt_Some in Hi. rewrite length_le_bytes in Hi. lia.
  - cbn [st_s]. rewrite mem_put. intros m2 Hc2. exists m1, m2. cbn [st_w st_log st_errno st_s]. rewrite put_put. done.
Qed.
End Counters.

(** ** Examples *)

(** Two records with short paths at 0x1000 and 0x2000 in read-write memory,
    the list starting at the second; and the counters. *)
Definition demo_record (path : list Z) (size next : Z) : list Z :=
  replicate 16 0 ++ le_bytes 8 0x7000 ++ le_bytes 8 size ++ replicate 8 0 ++ le_bytes 8 next
  ++ (2 * Z.of_nat (length path) :: path ++ [0]) ++ replicate 22 0.
Definition demo_list : mem :=
  map_range 3 80 0x1000 (demo_record (B "/x/mod") 0x3000 0)
    (map_range 3 80 0x2000 (demo_record (B "/x/mod2") 0x4000 0x1000)
      (map_range 3 16 0x3000 (le_bytes 8 5 ++ le_bytes 8 2) ∅)).
Definition demo_so : so_state := So 0x2000 0 0x3000 0x3008 16 24 40 248 48 0 0x10 0x20 0x30 0x40.
Definition so_demo : st script (so_state * mem) := St [] [] 0 (demo_so, demo_list).
Definition demo_records : list soinfo := [Soinfo 0x2000 (B "/x/mod2") 0x4000; Soinfo 0x1000 (B "/x/mod") 0x3000].

#[local] Instance id_order : HashOrder.
Proof. refine {| visit l := l |}. done. Defined.

Lemma linker_calls_guarded_witness :
  exists d s', resolved demo_so
    /\ dropSoPath 30 (B "mod") false (Some 0) None so_demo = (Ret d, s')
    /\ path_found d = true /\ out_base d = Some 0x7000
    /\ exists targets s1 evs ts,
      collect_targets 30 30 (B "mod") (solinker demo_so) so_demo = (Ret targets, s1)
      /\ st_log s' = evs ++ st_log so_demo
      /\ guarded_drops demo_so false (std_sort (fun a b => b <? a) targets) (changing_calls demo_so evs) ts
      /\ StronglySorted Z.ge ts /\ ts ⊆ targets
      /\ path_found d = negb (bool_decide (ts = [])).
Proof.
  assert (Hr : resolved demo_so).
  { unfold resolved. repeat (split; [done|]). apply (bool_decide_unpack _). vm_compute. exact I. }
  eexists _, _. split; [exact Hr|]. split; [vm_compute; reflexivity|]. split; [reflexivity|]. split; [reflexivity|].
  refine (linker_calls_guarded 30 (B "mod") false (Some 0) None so_demo _ _ Hr _). vm_compute. reflexivity.
Defined.

Lemma demo_list_at : list_at demo_so demo_list 0x2000 demo_records.
Proof.
  cbn [list_at demo_records so_addr so_size so_path field_realpath_offset field_size_offset field_next_offset demo_so].
  repeat match goal with
  | |- _ /\ _ => split
  | |- holds _ _ _ => apply holds_check; vm_compute; reflexivity
  | |- string_at _ _ _ => left; split; [apply (bool_decide_unpack _); vm_compute; exact I|]; exists []
  | |- fits_u _ _ => fits
  | |- exists next, fits_u _ next /\ _ /\ next = 0 => exists 0
  | |- exists next, fits_u _ next /\ _ => exists 0x1000
  | |- (_ < _)%nat => vm_compute; lia
  | |- _ => first [reflexivity|lia]
  end.
Qed.

Lemma targets_exact_witness :
  the_so (st_s so_demo) = demo_so /\ list_at demo_so demo_list 0x2000 demo_records
  /\ collect_targets 30 30 (B "mod2") 0x2000 so_demo = (Ret [0x2000], so_demo)
  /\ (0x5000 ∉ so_addr <$> demo_records -> drop_one 30 true 0x5000 (Dropped None None false) so_demo
      = (Ret (Dropped None None false), so_demo)).
Proof.
  split; [reflexivity|]. split; [apply demo_list_at|].
  assert (Hp : Forall (fun r => length (so_path r) < 30)%nat demo_records)
    by (apply (bool_decide_unpack _); vm_compute; exact I).
  exact (targets_exact 30 demo_so (B "mod2") demo_records true 0x5000 (Dropped None None false) so_demo eq_refl eq_refl
    demo_list_at (ltac:(vm_compute; lia)) Hp).
Defined.

Lemma counters_exact_witness :
  exists m1 m2, resetCounters 30 3 4 so_demo = (Ret tt, St [] [] 0 (demo_so, m2))
    /\ counted 0x3000 5 2 demo_list m1 /\ counted 0x3008 2 2 m1 m2.
Proof.
  refine (counters_exact 30 3 4 5 2 so_demo _ _ _ _ _ _ _ _ _ _ _ _); try (cbn; lia); try fits; try done;
    apply owned_check; vm_compute; reflexivity.
Defined.
