(* ===== verification/Context.v ===== *)
(** The context of a process specialisation and the API it gives to modules
    (loader/src/injector/module.hpp, module.cpp, the JNI part of hook.cpp and
    ArtMethod of android_util.hpp).

    Module libraries are third-party code. A module is whatever program over
    the API one likes: at each call of one of its functions the environment
    first overwrites memory as it pleases (Mem.call_code), then the module runs
    a program of API calls chosen by [module_code] from the function and
    everything that happened so far.

    LSPlt, regcomp and the Java runtime are environment: their calls are
    events with arbitrary answers. Deleting local references of the Java
    runtime and the lock of the hook lists have no effect here and are left
    out. *)
From S2P Require Import Prelude Sys Text Mem Linker ModLoader Sort ElfParser Unmount Daemon SoList.
Open Scope Z_scope.

(** ** Flags *)

Definition ZYGISK_API_VERSION : Z := 5.

(** ZygiskContext::flags *)
Definition POST_SPECIALIZE : Z := Z.shiftl 1 0.
Definition APP_FORK_AND_SPECIALIZE : Z := Z.shiftl 1 1.
Definition APP_SPECIALIZE : Z := Z.shiftl 1 2.
Definition SERVER_FORK_AND_SPECIALIZE : Z := Z.shiftl 1 3.
Definition DO_REVERT_UNMOUNT : Z := Z.shiftl 1 4.
Definition SKIP_CLOSE_LOG_PIPE : Z := Z.shiftl 1 5.

(** ZygiskContext::info_flags, what the daemon says of a process *)
Definition PROCESS_GRANTED_ROOT : Z := Z.shiftl 1 0.
Definition PROCESS_ON_DENYLIST : Z := Z.shiftl 1 1.
Definition PROCESS_EXCLUDED : Z := Z.shiftl 1 26.
Definition PROCESS_IS_MANAGER : Z := Z.shiftl 1 27.
Definition PROCESS_ROOT_IS_APATCH : Z := Z.shiftl 1 28.
Definition PROCESS_ROOT_IS_KSU : Z := Z.shiftl 1 29.
Definition PROCESS_ROOT_IS_MAGISK : Z := Z.shiftl 1 30.
Definition PRIVATE_MASK : Z :=
  Z.lor PROCESS_EXCLUDED (Z.lor PROCESS_IS_MANAGER (Z.lor PROCESS_ROOT_IS_APATCH
    (Z.lor PROCESS_ROOT_IS_KSU PROCESS_ROOT_IS_MAGISK))).
Definition UNMOUNT_MASK : Z := PROCESS_ON_DENYLIST.

(** [~x] of a uint32_t. *)
Definition not32 (x : Z) : Z := Z.lxor x (2 ^ 32 - 1).

(** ** Data *)

(** A row of the process's memory map, as lsplt::MapInfo has it. *)
Record map_info := MapInfo_mk {
  mi_start : Z; mi_end : Z; mi_perms : Z; mi_private : bool; mi_offset : Z; mi_dev : Z; mi_inode : Z;
  mi_path : list Z }.

(** The arguments of a specialisation, as far as the code looks at them; a
    null [fds_to_ignore] pointer is [None]. *)
Record app_args := AppArgs_mk { a_uid : Z; a_nice_name : Z; a_app_data_dir : Z; a_fds_to_ignore : option Z }.
Inductive sargs := AppArgs (a : app_args) | ServerArgs.

Record JNINativeMethod := JMethod { j_name : list Z; j_signature : list Z; j_fnPtr : Z }.
Abbreviation jmethod := JNINativeMethod.
Definition set_fnPtr (x : Z) (m : jmethod) : jmethod := JMethod (j_name m) (j_signature m) x.

Record RegisterInfo := Reg { rg_regex : list Z; rg_symbol : list Z; rg_callback : Z; rg_backup : Z }.
Record IgnoreInfo := Ign { ig_regex : list Z; ig_symbol : list Z }.

(** The functions the API table can point to. *)
Inductive api_fn :=
| FHookJniNativeMethods
| FPltHookRegister | FPltHookExclude | FPltHookCommit
| FConnectCompanion | FSetOption | FGetModuleDir | FGetFlags
| FPltHookRegisterDev | FExemptFd | FPltHookCommitAll.

#[export] Instance api_fn_eq_dec : EqDecision api_fn.
Proof. solve_decision. Defined.

(** ZygiskModule. [has_register] is the registerModule entry of its API table,
    [api] the numbered entries after it, [mod_] the address of the module's
    own record (0 if it has none). *)
Record zmodule := ZMod {
  id_ : Z;
  unload : bool;
  handle : Z;
  entry : Z;
  has_register : bool;
  api : list (option api_fn);
  mod_ : Z }.

Definition set_unload (x : bool) (r : zmodule) : zmodule :=
  ZMod (id_ r) x (handle r) (entry r) (has_register r) (api r) (mod_ r) .
Definition set_has_register (x : bool) (r : zmodule) : zmodule :=
  ZMod (id_ r) (unload r) (handle r) (entry r) x (api r) (mod_ r) .
Definition set_api (x : list (option api_fn)) (r : zmodule) : zmodule :=
  ZMod (id_ r) (unload r) (handle r) (entry r) (has_register r) x (mod_ r) .
Definition set_mod_ (x : Z) (r : zmodule) : zmodule :=
  ZMod (id_ r) (unload r) (handle r) (entry r) (has_register r) (api r) x.

(** ZygiskContext; [process] is the address and the text of the name. *)
Record ctx := Ctx {
  env : Z;
  args : sargs;
  process : option (Z * list Z);
  modules : list zmodule;
  pid : Z;
  flags : Z;
  info_flags : Z;
  allowed_fds : list bool;
  exempted_fds : list Z;
  register_info : list RegisterInfo;
  ignore_info : list IgnoreInfo }.

Definition set_args (x : sargs) (r : ctx) : ctx :=
  Ctx (env r) x (process r) (modules r) (pid r) (flags r) (info_flags r) (allowed_fds r) (exempted_fds r)
    (register_info r) (ignore_info r) .
Definition set_process (x : option (Z * list Z)) (r : ctx) : ctx :=
  Ctx (env r) (args r) x (modules r) (pid r) (flags r) (info_flags r) (allowed_fds r) (exempted_fds r)
    (register_info r) (ignore_info r) .
Definition set_modules (x : list zmodule) (r : ctx) : ctx :=
  Ctx (env r) (args r) (process r) x (pid r) (flags r) (info_flags r) (allowed_fds r) (exempted_fds r)
    (register_info r) (ignore_info r) .
Definition set_pid (x : Z) (r : ctx) : ctx :=
  Ctx (env r) (args r) (process r) (modules r) x (flags r) (info_flags r) (allowed_fds r) (exempted_fds r)
    (register_info r) (ignore_info r) .
Definition set_flags (x : Z) (r : ctx) : ctx :=
  Ctx (env r) (args r) (process r) (modules r) (pid r) x (info_flags r) (allowed_fds r) (exempted_fds r)
    (register_info r) (ignore_info r) .
Definition set_info_flags (x : Z) (r : ctx) : ctx :=
  Ctx (env r) (args r) (process r) (modules r) (pid r) (flags r) x (allowed_fds r) (exempted_fds r)
    (register_info r) (ignore_info r) .
Definition set_allowed_fds (x : list bool) (r : ctx) : ctx :=
  Ctx (env r) (args r) (process r) (modules r) (pid r) (flags r) (info_flags r) x (exempted_fds r)
    (register_info r) (ignore_info r) .
Definition set_exempted_fds (x : list Z) (r : ctx) : ctx :=
  Ctx (env r) (args r) (process r) (modules r) (pid r) (flags r) (info_flags r) (allowed_fds r) x
    (register_info r) (ignore_info r) .
Definition set_register_info (x : list RegisterInfo) (r : ctx) : ctx :=
  Ctx (env r) (args r) (process r) (modules r) (pid r) (flags r) (info_flags r) (allowed_fds r)
    (exempted_fds r) x (ignore_info r) .
Definition set_ignore_info (x : list IgnoreInfo) (r : ctx) : ctx :=
  Ctx (env r) (args r) (process r) (modules r) (pid r) (flags r) (info_flags r) (allowed_fds r)
    (exempted_fds r) (register_info r) x.

(** HookContext; a row of [plt_backup] has the address of the variable that
    holds the function to restore. *)
Record hook := Hook_mk {
  zygote_methods : list jmethod;
  start_addr : Z;
  block_size : Z;
  should_spoof_maps : bool;
  anonymous_memory_enabled : bool;
  should_unmap : bool;
  skip_hooking_unloader : bool;
  zygote_unmounted_times : Z;
  MODIFIER_NATIVE : Z;
  member_getModifiers : Z;
  cached_map_infos : list map_info;
  plt_backup : list (Z * Z * list Z * Z);
  zygote_traces : list mount_info }.

Definition set_zygote_methods (x : list jmethod) (r : hook) : hook :=
  Hook_mk x (start_addr r) (block_size r) (should_spoof_maps r) (anonymous_memory_enabled r)
    (should_unmap r) (skip_hooking_unloader r) (zygote_unmounted_times r) (MODIFIER_NATIVE r)
    (member_getModifiers r) (cached_map_infos r) (plt_backup r) (zygote_traces r) .
Definition set_block_size (x : Z) (r : hook) : hook :=
  Hook_mk (zygote_methods r) (start_addr r) x (should_spoof_maps r) (anonymous_memory_enabled r)
    (should_unmap r) (skip_hooking_unloader r) (zygote_unmounted_times r) (MODIFIER_NATIVE r)
    (member_getModifiers r) (cached_map_infos r) (plt_backup r) (zygote_traces r) .
Definition set_should_spoof_maps (x : bool) (r : hook) : hook :=
  Hook_mk (zygote_methods r) (start_addr r) (block_size r) x (anonymous_memory_enabled r) (should_unmap r)
    (skip_hooking_unloader r) (zygote_unmounted_times r) (MODIFIER_NATIVE r) (member_getModifiers r)
    (cached_map_infos r) (plt_backup r) (zygote_traces r) .
Definition set_anonymous_memory_enabled (x : bool) (r : hook) : hook :=
  Hook_mk (zygote_methods r) (start_addr r) (block_size r) (should_spoof_maps r) x (should_unmap r)
    (skip_hooking_unloader r) (zygote_unmounted_times r) (MODIFIER_NATIVE r) (member_getModifiers r)
    (cached_map_infos r) (plt_backup r) (zygote_traces r) .
Definition set_should_unmap (x : bool) (r : hook) : hook :=
  Hook_mk (zygote_methods r) (start_addr r) (block_size r) (should_spoof_maps r)
    (anonymous_memory_enabled r) x (skip_hooking_unloader r) (zygote_unmounted_times r) (MODIFIER_NATIVE r)
    (member_getModifiers r) (cached_map_infos r) (plt_backup r) (zygote_traces r) .
Definition set_skip_hooking_unloader (x : bool) (r : hook) : hook :=
  Hook_mk (zygote_methods r) (start_addr r) (block_size r) (should_spoof_maps r)
    (anonymous_memory_enabled r) (should_unmap r) x (zygote_unmounted_times r) (MODIFIER_NATIVE r)
    (member_getModifiers r) (cached_map_infos r) (plt_backup r) (zygote_traces r) .
Definition set_zygote_unmounted_times (x : Z) (r : hook) : hook :=
  Hook_mk (zygote_methods r) (start_addr r) (block_size r) (should_spoof_maps r)
    (anonymous_memory_enabled r) (should_unmap r) (skip_hooking_unloader r) x (MODIFIER_NATIVE r)
    (member_getModifiers r) (cached_map_infos r) (plt_backup r) (zygote_traces r) .
Definition set_MODIFIER_NATIVE (x : Z) (r : hook) : hook :=
  Hook_mk (zygote_methods r) (start_addr r) (block_size r) (should_spoof_maps r)
    (anonymous_memory_enabled r) (should_unmap r) (skip_hooking_unloader r) (zygote_unmounted_times r) x
    (member_getModifiers r) (cached_map_infos r) (plt_backup r) (zygote_traces r) .
Definition set_member_getModifiers (x : Z) (r : hook) : hook :=
  Hook_mk (zygote_methods r) (start_addr r) (block_size r) (should_spoof_maps r)
    (anonymous_memory_enabled r) (should_unmap r) (skip_hooking_unloader r) (zygote_unmounted_times r)
    (MODIFIER_NATIVE r) x (cached_map_infos r) (plt_backup r) (zygote_traces r) .
Definition set_cached_map_infos (x : list map_info) (r : hook) : hook :=
  Hook_mk (zygote_methods r) (start_addr r) (block_size r) (should_spoof_maps r)
    (anonymous_memory_enabled r) (should_unmap r) (skip_hooking_unloader r) (zygote_unmounted_times r)
    (MODIFIER_NATIVE r) (member_getModifiers r) x (plt_backup r) (zygote_traces r) .
Definition set_plt_backup (x : list (Z * Z * list Z * Z)) (r : hook) : hook :=
  Hook_mk (zygote_methods r) (start_addr r) (block_size r) (should_spoof_maps r)
    (anonymous_memory_enabled r) (should_unmap r) (skip_hooking_unloader r) (zygote_unmounted_times r)
    (MODIFIER_NATIVE r) (member_getModifiers r) (cached_map_infos r) x (zygote_traces r) .
Definition set_zygote_traces (x : list mount_info) (r : hook) : hook :=
  Hook_mk (zygote_methods r) (start_addr r) (block_size r) (should_spoof_maps r)
    (anonymous_memory_enabled r) (should_unmap r) (skip_hooking_unloader r) (zygote_unmounted_times r)
    (MODIFIER_NATIVE r) (member_getModifiers r) (cached_map_infos r) (plt_backup r) x.

(** A pointer to an object that may have been deleted. *)
Inductive pointer (A : Type) := Null | Live (x : A) | Freed.
Arguments Null {A}. Arguments Live {A} x. Arguments Freed {A}.

(** ArtMethod's static members. *)
Record art_state := Art { art_method_field_id_ : Z; art_method_size : Z; data_offset : Z }.

(** The process: memory and the module linker, the variables of the other
    components, the context (with whether g_ctx points to it), g_hook, the
    variables old_* that the hooks fill, and the static variables of hook.cpp. *)
Record zs := ZS {
  z_lk : lk;
  z_so : so_state;
  z_daemon : daemon_state;
  z_status_fds : list Z;
  z_ctx : option ctx;
  z_gctx : bool;
  z_hook : pointer hook;
  z_olds : gmap Z Z;
  z_art : art_state;
  z_props : gmap (list Z) (list Z);
  z_zygote_hooked : bool;
  z_unloader_triggered : bool }.

Definition zset_lk (x : lk) (s : zs) : zs :=
  ZS x (z_so s) (z_daemon s) (z_status_fds s) (z_ctx s) (z_gctx s) (z_hook s) (z_olds s) (z_art s)
    (z_props s) (z_zygote_hooked s) (z_unloader_triggered s) .
Definition zset_so (x : so_state) (s : zs) : zs :=
  ZS (z_lk s) x (z_daemon s) (z_status_fds s) (z_ctx s) (z_gctx s) (z_hook s) (z_olds s) (z_art s)
    (z_props s) (z_zygote_hooked s) (z_unloader_triggered s) .
Definition zset_daemon (x : daemon_state) (s : zs) : zs :=
  ZS (z_lk s) (z_so s) x (z_status_fds s) (z_ctx s) (z_gctx s) (z_hook s) (z_olds s) (z_art s) (z_props s)
    (z_zygote_hooked s) (z_unloader_triggered s) .
Definition zset_status_fds (x : list Z) (s : zs) : zs :=
  ZS (z_lk s) (z_so s) (z_daemon s) x (z_ctx s) (z_gctx s) (z_hook s) (z_olds s) (z_art s) (z_props s)
    (z_zygote_hooked s) (z_unloader_triggered s) .
Definition zset_ctx (x : option ctx) (s : zs) : zs :=
  ZS (z_lk s) (z_so s) (z_daemon s) (z_status_fds s) x (z_gctx s) (z_hook s) (z_olds s) (z_art s)
    (z_props s) (z_zygote_hooked s) (z_unloader_triggered s) .
Definition zset_gctx (x : bool) (s : zs) : zs :=
  ZS (z_lk s) (z_so s) (z_daemon s) (z_status_fds s) (z_ctx s) x (z_hook s) (z_olds s) (z_art s) (z_props s)
    (z_zygote_hooked s) (z_unloader_triggered s) .
Definition zset_hook (x : pointer hook) (s : zs) : zs :=
  ZS (z_lk s) (z_so s) (z_daemon s) (z_status_fds s) (z_ctx s) (z_gctx s) x (z_olds s) (z_art s) (z_props s)
    (z_zygote_hooked s) (z_unloader_triggered s) .
Definition zset_olds (x : gmap Z Z) (s : zs) : zs :=
  ZS (z_lk s) (z_so s) (z_daemon s) (z_status_fds s) (z_ctx s) (z_gctx s) (z_hook s) x (z_art s) (z_props s)
    (z_zygote_hooked s) (z_unloader_triggered s) .
Definition zset_art (x : art_state) (s : zs) : zs :=
  ZS (z_lk s) (z_so s) (z_daemon s) (z_status_fds s) (z_ctx s) (z_gctx s) (z_hook s) (z_olds s) x
    (z_props s) (z_zygote_hooked s) (z_unloader_triggered s) .
Definition zset_props (x : gmap (list Z) (list Z)) (s : zs) : zs :=
  ZS (z_lk s) (z_so s) (z_daemon s) (z_status_fds s) (z_ctx s) (z_gctx s) (z_hook s) (z_olds s) (z_art s) x
    (z_zygote_hooked s) (z_unloader_triggered s) .
Definition zset_zygote_hooked (x : bool) (s : zs) : zs :=
  ZS (z_lk s) (z_so s) (z_daemon s) (z_status_fds s) (z_ctx s) (z_gctx s) (z_hook s) (z_olds s) (z_art s)
    (z_props s) x (z_unloader_triggered s) .
Definition zset_unloader_triggered (x : bool) (s : zs) : zs :=
  ZS (z_lk s) (z_so s) (z_daemon s) (z_status_fds s) (z_ctx s) (z_gctx s) (z_hook s) (z_olds s) (z_art s)
    (z_props s) (z_zygote_hooked s) x.

#[export] Instance zs_mem : HasMem zs.
Proof.
  refine {| the_mem s := k_mem (z_lk s); put_mem m s := zset_lk (put_mem m (z_lk s)) s |};
    [done|done|by intros [[]]].
Defined.
#[export] Instance zs_so : HasSo zs.
Proof. refine {| the_so := z_so; put_so x s := zset_so x s |}; done. Defined.

(** POSIX regular expressions, compiled with REG_NOSUB. *)
Class Regex := { regcomp : list Z -> bool; regexec : list Z -> list Z -> bool }.

(** lsplt::MapInfo::Scan on the text of /proc/self/maps. *)
Class Lsplt := lsplt_parse : list Z -> list map_info.

(** ** Programs of modules *)

(** [zygisk::Option] *)
Definition FORCE_DENYLIST_UNMOUNT : Z := 0.
Definition DLCLOSE_MODULE_LIBRARY : Z := 1.

(** What a module passes to an entry of the table. *)
Inductive api_args :=
| ArgsJni (clz : list Z) (methods : list jmethod)
| ArgsRegex (regex symbol : option (list Z)) (fn backup : Z)
| ArgsExclude (regex symbol : option (list Z))
| ArgsNone
| ArgsOption (opt : Z)
| ArgsDev (dev inode : Z) (symbol : option (list Z)) (fn backup : Z)
| ArgsFd (fd : Z).

Inductive module_step :=
| MRegister (module : Z)
| MApi (slot : nat) (a : api_args)
| MWriteArgs (a : app_args).

Inductive module_prog :=
| MDone
| MStep (x : module_step) (k : Z -> module_prog).

Class ModuleCode := module_code : Z -> list event -> module_prog.

Definition get_log {W S} : M W S (list event) := fun s => (Ret (st_log s), s).

Section Ops.
Context {W : Type} `{!World W} `{!Regex} `{!Lsplt} `{!ModuleCode} (fuel : nat).
Abbreviation K := (M W zs).

Definition in_lk {A} (m : M W lk A) : K A := zoom z_lk zset_lk m.
Definition in_daemon {A} (m : M W daemon_state A) : K A := zoom z_daemon zset_daemon m.

(** [this] of the context's methods. *)
Definition get_ctx : K ctx := s ← get; match z_ctx s with Some c => mret c | None => crash end.
Definition upd_ctx (f : ctx -> ctx) : K unit :=
  s ← get; match z_ctx s with Some c => put (zset_ctx (Some (f c)) s) | None => crash end.
Definition g_ctx : K bool := s ← get; mret (z_gctx s).

(** [g_hook->...] *)
Definition get_hook : K hook := s ← get; match z_hook s with Live h => mret h | _ => crash end.
Definition upd_hook (f : hook -> hook) : K unit :=
  s ← get; match z_hook s with Live h => put (zset_hook (Live (f h)) s) | _ => crash end.

Definition get_module (i : nat) : K zmodule :=
  c ← get_ctx; match modules c !! i with Some m => mret m | None => crash end.
Definition upd_module (i : nat) (f : zmodule -> zmodule) : K unit :=
  upd_ctx (fun c => set_modules (alter f i (modules c)) c).

(** ** LSPlt *)

Fixpoint fill_backups (l : list Z) (olds : gmap Z Z) : gmap Z Z :=
  match l with
  | var :: fn :: l' => fill_backups l' (<[var := fn]> olds)
  | _ => olds
  end.

Definition lsplt_RegisterHook (dev inode : Z) (symbol : list Z) (fn backup : Z) : K bool :=
  r ← syscall (CRegisterHook dev inode symbol fn backup); mret (negb (r_ret r =? 0)).
Definition lsplt_CommitHook (unhook : bool) : K bool :=
  r ← syscall (CCommitHook unhook);
  modify (fun s => zset_olds (fill_backups (r_aux r) (z_olds s)) s);;
  mret (negb (r_ret r =? 0)).
Definition lsplt_Scan : K (list map_info) :=
  r ← syscall (CFile (B "/proc/self/maps")); mret (lsplt_parse (r_data r)).

(** ** Java *)

Definition jni_ (c : jni) : K reply := syscall (CJni c).

(** util::jni::SafeInvoke: an exception that is pending afterwards (a nonzero
    [r_errno]) is cleared, and the result is null. *)
Definition safe (c : jni) : K Z := r ← jni_ c; mret (if r_errno r =? 0 then r_ret r else 0).

Definition FromReflectedMethod_ (method : Z) : K Z :=
  s ← get;
  if art_method_field_id_ (z_art s) =? 0 then r ← jni_ (FromReflectedMethod method); mret (r_ret r)
  else safe (GetLongField method (art_method_field_id_ (z_art s))).

Definition GetData (art_method : Z) : K Z := s ← get; load_u64 (art_method + data_offset (z_art s)).

Definition find_art_field : K unit :=
  executable_class ← safe (FindClass (B "java/lang/reflect/Executable"));
  if executable_class =? 0 then jni_ ExceptionClear;; mret tt
  else
    field ← safe (GetFieldID executable_class (B "artMethod") (B "J"));
    modify (fun s => zset_art (Art field (art_method_size (z_art s)) (data_offset (z_art s))) s);;
    if field =? 0 then jni_ ExceptionClear;; mret tt else mret tt.

Definition ArtMethod_Init : K bool :=
  s ← get;
  if negb (art_method_field_id_ (z_art s) =? 0) then mret true
  else
    find_art_field;;
    throwable_class ← safe (FindClass (B "java/lang/Throwable"));
    if throwable_class =? 0 then mret false
    else
      class_class ← safe (FindClass (B "java/lang/Class"));
      get_constructors_method ← safe (GetMethodID class_class (B "getDeclaredConstructors")
                                        (B "()[Ljava/lang/reflect/Constructor;"));
      constructors_array ← safe (CallObjectMethod throwable_class get_constructors_method);
      enough ← (if constructors_array =? 0 then mret false
                else n ← jni_ (GetArrayLength constructors_array); mret (2 <=? r_ret n));
      if negb enough then mret false
      else
        first_ctor ← jni_ (GetObjectArrayElement constructors_array 0);
        second_ctor ← jni_ (GetObjectArrayElement constructors_array 1);
        first ← FromReflectedMethod_ (r_ret first_ctor);
        second ← FromReflectedMethod_ (r_ret second_ctor);
        if (first =? 0) || (second =? 0) then mret false
        else
          let size := u64 (second - first) in
          modify (fun s => zset_art (Art (art_method_field_id_ (z_art s)) size (u64 (u64 (size - 8) - 8))) s);;
          mret true.

(** ** HookContext::hook_jni_methods *)

(** A method of the class, if it has one of this name and signature. *)
Definition find_method (clazz : Z) (m : jmethod) : K (Z * bool) :=
  r ← jni_ (GetMethodID clazz (j_name m) (j_signature m));
  if negb (r_ret r =? 0) then mret (r_ret r, false)
  else
    jni_ ExceptionClear;;
    r ← jni_ (GetStaticMethodID clazz (j_name m) (j_signature m));
    mret (r_ret r, true).

(** One row: the row afterwards, and the hook to install. *)
Definition hook_row (clazz : Z) (m : jmethod) : K (jmethod * list jmethod) :=
  if j_fnPtr m =? 0 then mret (m, [])
  else
    '(method_id, is_static) ← find_method clazz m;
    if method_id =? 0 then jni_ ExceptionClear;; mret (set_fnPtr 0 m, [])
    else
      method ← safe (ToReflectedMethod clazz method_id is_static);
      h ← get_hook;
      modifier ← safe (CallIntMethod method (member_getModifiers h));
      h ← get_hook;
      if Z.land modifier (MODIFIER_NATIVE h) =? 0 then mret (set_fnPtr 0 m, [])
      else
        art_method ← FromReflectedMethod_ method;
        original_method ← GetData art_method;
        mret (set_fnPtr original_method m, [m]).

Fixpoint hook_rows (clazz : Z) (ms : list jmethod) : K (list jmethod * list jmethod) :=
  match ms with
  | [] => mret ([], [])
  | m :: ms' =>
      '(m, hook) ← hook_row clazz m;
      '(ms, hooks) ← hook_rows clazz ms';
      mret (m :: ms, hook ++ hooks)
  end.

(** The table as the call leaves it; the runtime changes its own records. *)
Definition hook_jni_methods (clz : list Z) (methods : list jmethod) : K (list jmethod) :=
  clazz ← jni_ (FindClass clz);
  if r_ret clazz =? 0 then jni_ ExceptionClear;; mret (set_fnPtr 0 <$> methods)
  else
    '(methods, hooks) ← hook_rows (r_ret clazz) methods;
    match hooks with
    | [] => mret methods
    | _ =>
        r ← jni_ (RegisterNatives (r_ret clazz) ((fun m => (j_name m, j_signature m, j_fnPtr m)) <$> hooks));
        modify (fun s => put_mem (poke (r_aux r) (the_mem s)) s);;
        mret methods
    end.

(** ** PLT hooks *)

Definition plt_hook_register (regex symbol : option (list Z)) (fn backup : Z) : K unit :=
  match regex, symbol with
  | Some regex, Some symbol =>
      if (fn =? 0) || negb (regcomp regex) then mret tt
      else upd_ctx (fun c => set_register_info (register_info c ++ [Reg regex symbol fn backup]) c)
  | _, _ => mret tt
  end.

Definition plt_hook_exclude (regex symbol : option (list Z)) : K unit :=
  match regex with
  | None => mret tt
  | Some regex =>
      if negb (regcomp regex) then mret tt
      else upd_ctx (fun c => set_ignore_info (ignore_info c ++ [Ign regex (default [] symbol)]) c)
  end.

(** Whether an exclusion covers the symbol in this library. *)
Definition ignored (ign : list IgnoreInfo) (symbol path : list Z) : bool :=
  existsb (fun i => (bool_decide (ig_symbol i = []) || beq (ig_symbol i) symbol) && regexec (ig_regex i) path) ign.

Fixpoint register_matching (map : map_info) (regs : list RegisterInfo) (ign : list IgnoreInfo) : K unit :=
  match regs with
  | [] => mret tt
  | reg :: regs' =>
      (if regexec (rg_regex reg) (mi_path map) && negb (ignored ign (rg_symbol reg) (mi_path map))
       then lsplt_RegisterHook (mi_dev map) (mi_inode map) (rg_symbol reg) (rg_callback reg) (rg_backup reg);; mret tt
       else mret tt);;
      register_matching map regs' ign
  end.

(** A readable private mapping of the beginning of a file. *)
Definition hookable (map : map_info) : bool :=
  (mi_offset map =? 0) && mi_private map && (mi_perms map &? PROT_READ).

Fixpoint process_maps (maps : list map_info) (regs : list RegisterInfo) (ign : list IgnoreInfo) : K unit :=
  match maps with
  | [] => mret tt
  | map :: maps' =>
      (if hookable map then register_matching map regs ign else mret tt);;
      process_maps maps' regs ign
  end.

Definition plt_hook_process_regex : K unit :=
  c ← get_ctx;
  if bool_decide (register_info c = []) then mret tt
  else h ← get_hook; process_maps (cached_map_infos h) (register_info c) (ignore_info c).

Definition plt_hook_commit : K bool :=
  plt_hook_process_regex;;
  upd_ctx (fun c => set_ignore_info [] (set_register_info [] c));;
  get_hook;;
  lsplt_CommitHook false.

(** ** Descriptors and flags *)

Definition can_exempt_fd : K bool :=
  c ← get_ctx;
  if negb (flags c &? APP_FORK_AND_SPECIALIZE) then mret false
  else match args c with
       | AppArgs a => mret (bool_decide (a_fds_to_ignore a <> None))
       | ServerArgs => crash
       end.

Definition exempt_fd (fd : Z) : K bool :=
  c ← get_ctx;
  if (flags c &? POST_SPECIALIZE) || (flags c &? SKIP_CLOSE_LOG_PIPE) then mret true
  else
    can ← can_exempt_fd;
    if negb can then mret false
    else upd_ctx (fun c => set_exempted_fds (exempted_fds c ++ [fd]) c);; mret true.

(** ** ZygiskModule *)

Definition new_ZygiskModule (id handle entry : Z) : zmodule := ZMod id false handle entry true (replicate 8 None) 0.

Definition connectCompanion (m : zmodule) : K Z := in_daemon (ConnectCompanion fuel (id_ m)).
Definition getModuleDir (m : zmodule) : K Z := in_daemon (GetModuleDir fuel (id_ m)).

Definition setOption (i : nat) (opt : Z) : K unit :=
  g ← g_ctx;
  if negb g then mret tt
  else if opt =? FORCE_DENYLIST_UNMOUNT then upd_ctx (fun c => set_flags (Z.lor (flags c) DO_REVERT_UNMOUNT) c)
  else if opt =? DLCLOSE_MODULE_LIBRARY then upd_module i (set_unload true)
  else mret tt.

Definition getFlags : K Z :=
  g ← g_ctx;
  if g : bool then c ← get_ctx; mret (Z.land (info_flags c) (not32 PRIVATE_MASK)) else mret 0.

Definition clearApi (m : zmodule) : zmodule := set_has_register false (set_api (replicate 8 None) m).

(** The entries a module of this version gets; the tables of versions 1 and 4
    share their storage. *)
Definition fill_api (version : Z) (t : list (option api_fn)) : list (option api_fn) :=
  let t := if 1 <=? version then
             <[0%nat := Some FHookJniNativeMethods]> (<[1%nat := Some FPltHookRegister]>
               (<[2%nat := Some FPltHookExclude]> (<[3%nat := Some FPltHookCommit]>
                 (<[4%nat := Some FConnectCompanion]> (<[5%nat := Some FSetOption]> t)))))
           else t in
  let t := if 2 <=? version then <[6%nat := Some FGetModuleDir]> (<[7%nat := Some FGetFlags]> t) else t in
  if 4 <=? version then
    <[3%nat := Some FPltHookCommitAll]> (<[1%nat := Some FPltHookRegisterDev]> (<[2%nat := Some FExemptFd]> t))
  else t.

(** [*module] is a [long]. *)
Definition load_long (p : Z) : K Z := x ← load_u64 p; mret (swrap 64 x).

Definition RegisterModuleImpl (i : nat) (module : Z) : K bool :=
  if module =? 0 then mret false
  else
    api_version ← load_long module;
    if ZYGISK_API_VERSION <? api_version then mret false
    else
      upd_module i (fun m => set_api (fill_api api_version (api m)) (set_mod_ module m));;
      mret true.

(** Fields of module_abi_v1. *)
Definition off_impl : Z := 8.
Definition off_preAppSpecialize : Z := 16.
Definition off_postAppSpecialize : Z := 24.
Definition off_preServerSpecialize : Z := 32.
Definition off_postServerSpecialize : Z := 40.

Fixpoint all_nonnull (ps : list Z) : K bool :=
  match ps with
  | [] => mret true
  | p :: ps' => x ← load_u64 p; if x =? 0 then mret false else all_nonnull ps'
  end.

(** Declared and defined, but called nowhere. *)
Definition valid (m : zmodule) : K bool :=
  if mod_ m =? 0 then mret false
  else
    v ← load_long (mod_ m);
    if (1 <=? v) && (v <=? 5)
    then all_nonnull ((fun o => mod_ m + o) <$> [off_impl; off_preAppSpecialize; off_postAppSpecialize;
                        off_preServerSpecialize; off_postServerSpecialize])
    else mret false.

(** ** The API *)

Definition b2z (m : K bool) : K Z := b ← m; mret (Z.b2z b).

(** A call of [fn] by module [i]; the arguments of another entry are
    undefined behaviour. *)
Definition api_call (i : nat) (fn : api_fn) (a : api_args) : K Z :=
  match fn, a with
  | FHookJniNativeMethods, ArgsJni clz methods => hook_jni_methods clz methods;; mret 0
  | FPltHookRegister, ArgsRegex regex symbol fn backup =>
      g ← g_ctx; (if g : bool then plt_hook_register regex symbol fn backup else mret tt);; mret 0
  | FPltHookExclude, ArgsExclude regex symbol =>
      g ← g_ctx; (if g : bool then plt_hook_exclude regex symbol else mret tt);; mret 0
  | FPltHookCommit, ArgsNone => g ← g_ctx; if g : bool then b2z plt_hook_commit else mret 0
  | FConnectCompanion, ArgsNone => m ← get_module i; connectCompanion m
  | FSetOption, ArgsOption opt => setOption i opt;; mret 0
  | FGetModuleDir, ArgsNone => m ← get_module i; getModuleDir m
  | FGetFlags, ArgsNone => getFlags
  | FPltHookCommitAll, ArgsNone => get_hook;; b2z (lsplt_CommitHook false)
  | FPltHookRegisterDev, ArgsDev dev inode symbol fn backup =>
      match symbol with
      | Some symbol =>
          if (dev =? 0) || (inode =? 0) || (fn =? 0) then mret 0
          else lsplt_RegisterHook dev inode symbol fn backup;; mret 0
      | None => mret 0
      end
  | FExemptFd, ArgsFd fd => g ← g_ctx; if g : bool then b2z (exempt_fd fd) else mret 0
  | _, _ => crash
  end.

(** One step of a module; an entry that is null ends the process. *)
Definition module_do (i : nat) (x : module_step) : K Z :=
  match x with
  | MRegister module =>
      m ← get_module i; if has_register m then b2z (RegisterModuleImpl i module) else crash
  | MApi slot a =>
      m ← get_module i;
      match api m !! slot with Some (Some fn) => api_call i fn a | _ => crash end
  | MWriteArgs a =>
      upd_ctx (fun c => match args c with AppArgs _ => set_args (AppArgs a) c | ServerArgs => c end);; mret 0
  end.

Fixpoint run_prog (i : nat) (p : module_prog) : K unit :=
  match p with
  | MDone => mret tt
  | MStep x k => r ← module_do i x; run_prog i (k r)
  end.

(** A call of a function of module [i]. *)
Definition call_module (i : nat) (fn : Z) (fn_args : list Z) : K unit :=
  if fn =? 0 then crash
  else
    call_code fn fn_args;;
    log ← get_log;
    run_prog i (module_code fn log).

Definition onLoad (i : nat) : K unit := m ← get_module i; call_module i (entry m) [].

(** The module's function at offset [off] of its record, with its object. *)
Definition call_abi (i : nat) (off : Z) : K unit :=
  m ← get_module i;
  if mod_ m =? 0 then crash
  else
    fn ← load_u64 (mod_ m + off);
    impl ← load_u64 (mod_ m + off_impl);
    call_module i fn [impl].

(** The macro call_app: modules of the versions 1 and 2 get a smaller record of
    the arguments, those of other versions than 1 to 5 are not called. *)
Definition call_app (i : nat) (off : Z) : K unit :=
  m ← get_module i;
  if mod_ m =? 0 then crash
  else
    v ← load_long (mod_ m);
    if (1 <=? v) && (v <=? 5) then call_abi i off else mret tt.

Definition preAppSpecialize (i : nat) : K unit := call_app i off_preAppSpecialize.
Definition postAppSpecialize (i : nat) : K unit := call_app i off_postAppSpecialize.
Definition preServerSpecialize (i : nat) : K unit := call_abi i off_preServerSpecialize.
Definition postServerSpecialize (i : nat) : K unit := call_abi i off_postServerSpecialize.

(** ** Namespaces *)

Definition CLONE_NEWNS : Z := 0x20000.

Definition update_mount_namespace (namespace_type : MountNamespace) : K bool :=
  ns_fd ← in_daemon (UpdateMountNamespace fuel namespace_type);
  if ns_fd <? 0 then mret false
  else
    ret ← syscall (CSetns ns_fd CLONE_NEWNS);
    do_ (CClose ns_fd);;
    mret (r_ret ret =? 0).
End Ops.

(** ** Code that keeps an invariant *)

Section Keeps.
Context {W S : Type} `{!World W} (I : S -> Prop).

(** The variables satisfy [I] throughout. *)
Definition keeps {A} (m : M W S A) : Prop := forall s, I (st_s s) -> wp m (fun _ s' => I (st_s s')) s.

Lemma keeps_bind {A C} (m : M W S A) (f : A -> M W S C) :
  keeps m -> (forall a, keeps (f a)) -> keeps (m ≫= f).
Proof. intros Hm Hf s Hs. wstep. eapply wp_mono; [by apply Hm|]. intros [a| | |] s1 H1; cbn; [by apply Hf|done..]. Qed.

Lemma keeps_get {A} (f : S -> M W S A) : (forall x, I x -> keeps (f x)) -> keeps (get ≫= f).
Proof. intros Hf s Hs. wrun. by apply Hf. Qed.

Lemma keeps_syscall c : keeps (syscall c : M W S reply).
Proof. intros s Hs. apply wp_syscall. done. Qed.

Lemma keeps_pure {A} (m : M W S A) : (forall s, (m s).2 = s) -> keeps m.
Proof. intros H s Hs. unfold wp. by rewrite H. Qed.

Lemma keeps_modify f : (forall x, I x -> I (f x)) -> keeps (modify f).
Proof. intros Hf s Hs. wrun. by apply Hf. Qed.

Lemma keeps_put x : I x -> keeps (put x).
Proof. intros Hx s Hs. by wrun. Qed.

Lemma keeps_zoom {T A} (g : S -> T) (p : T -> S -> S) (m : M W T A) :
  (forall x y, I x -> I (p y x)) -> keeps (zoom g p m).
Proof. intros Hp s Hs. apply wp_zoom. unfold wp. by apply Hp. Qed.
End Keeps.

Create HintDb keeps.

(** Closes [keeps] goals structurally; leaves what the variables become. *)
Ltac keeps_tac :=
  repeat match goal with
  | |- keeps _ (mbind _ get) => apply keeps_get; intros ? ?
  | |- keeps _ (mbind _ _) => apply keeps_bind; [|intros ?]
  | |- keeps _ (syscall _) => apply keeps_syscall
  | |- keeps _ (do_ _) => unfold do_
  | |- keeps _ (modify _) => apply keeps_modify; intros ? ?
  | |- keeps _ (if ?b then _ else _) => destruct b eqn:?
  | |- keeps _ (match ?x with _ => _ end) => destruct x eqn:?
  | |- keeps _ _ => first [by apply keeps_pure | solve [eauto with keeps]]
  end.

(** ** What a module can do to the context *)

Definition same_module (m m' : zmodule) : Prop := id_ m' = id_ m /\ handle m' = handle m /\ entry m' = entry m.

Definition confined (c c' : ctx) : Prop :=
  env c' = env c /\ process c' = process c /\ pid c' = pid c /\ info_flags c' = info_flags c
  /\ allowed_fds c' = allowed_fds c
  /\ (flags c' = flags c \/ flags c' = Z.lor (flags c) DO_REVERT_UNMOUNT)
  /\ exempted_fds c `prefix_of` exempted_fds c' /\ Forall2 same_module (modules c) (modules c').

#[export] Instance same_module_preorder : PreOrder same_module.
Proof. split; [by intros m|]. intros m1 m2 m3 (? & ? & ?) (? & ? & ?). repeat split; congruence. Qed.

#[export] Instance confined_preorder : PreOrder confined.
Proof.
  split.
  - intros c. repeat (split; [done|]). split; [by left|]. split; [done|]. done.
  - intros c1 c2 c3 (A1 & A2 & A3 & A4 & A5 & A6 & A7 & A8) (B1 & B2 & B3 & B4 & B5 & B6 & B7 & B8).
    do 5 (split; [congruence|]). split; [|split; [by etrans|by etrans]].
    destruct A6 as [A6|A6], B6 as [B6|B6]; rewrite B6, A6; auto.
    right. by rewrite <- Z.lor_assoc, Z.lor_diag.
Qed.

(** Seen from the state [x0]: the context is confined, and the rest of what
    modules must not touch is as it was. *)
Definition tame (x0 x : zs) : Prop :=
  z_gctx x = z_gctx x0 /\ z_hook x = z_hook x0
  /\ match z_ctx x0, z_ctx x with
     | Some c, Some c' => confined c c'
     | None, None => True
     | _, _ => False
     end.

#[export] Instance tame_preorder : PreOrder tame.
Proof.
  split.
  - intros x. split; [done|]. split; [done|]. destruct (z_ctx x); [reflexivity|done].
  - intros x y z (A1 & A2 & A3) (B1 & B2 & B3). split; [congruence|]. split; [congruence|].
    destruct (z_ctx x), (z_ctx y), (z_ctx z); try done. by etrans.
Qed.

Section Confined.
Context {W : Type} `{!World W} `{!Regex} `{!Lsplt} `{!ModuleCode} (fuel : nat) (x0 : zs).
Abbreviation K := (M W zs).
Abbreviation I := (tame x0).

Lemma keeps_in_lk {A} (m : M W lk A) : keeps I (in_lk m).
Proof. by apply keeps_zoom. Qed.

Lemma keeps_in_daemon {A} (m : M W daemon_state A) : keeps I (in_daemon m).
Proof. by apply keeps_zoom. Qed.

Lemma keeps_upd f : (forall c, confined c (f c)) -> keeps I (upd_ctx f : K unit).
Proof.
  intros Hf. unfold upd_ctx. apply keeps_get. intros x Hx. destruct (z_ctx x) as [c|] eqn:E; [|by apply keeps_pure].
  apply keeps_put. etrans; [exact Hx|]. split; [done|]. split; [done|]. cbn [z_ctx zset_ctx]. rewrite E. apply Hf.
Qed.

Lemma keeps_get_ctx : keeps I (get_ctx : K ctx).
Proof. apply keeps_get. intros x _. case_match; by apply keeps_pure. Qed.

Lemma keeps_get_hook : keeps I (get_hook : K hook).
Proof. apply keeps_get. intros x _. case_match; by apply keeps_pure. Qed.

Lemma keeps_module i : keeps I (get_module i : K zmodule).
Proof. apply keeps_bind; [apply keeps_get_ctx|]. intros c. case_match; by apply keeps_pure. Qed.

Lemma keeps_commit u : keeps I (lsplt_CommitHook u : K bool).
Proof. unfold lsplt_CommitHook. keeps_tac. done. Qed.

Lemma keeps_load n p : keeps I (load n p : K (list Z)).
Proof. apply keeps_pure, reads_load. Qed.

Lemma keeps_upd_module i f : (forall m, same_module m (f m)) -> keeps I (upd_module i f : K unit).
Proof.
  intros Hf. apply keeps_upd. intros c. repeat (split; [done|]). split; [by left|]. split; [done|]. cbn [modules set_modules].
  apply Forall2_same_length_lookup_2; [by rewrite length_alter|]. intros j m m' Hm Hm'.
  destruct (decide (i = j)) as [->|Hne].
  - rewrite list_lookup_alter_eq, Hm in Hm'. injection Hm' as <-. apply Hf.
  - rewrite list_lookup_alter_ne, Hm in Hm' by done. injection Hm' as <-. reflexivity.
Qed.
End Confined.

#[export] Hint Resolve keeps_in_lk keeps_in_daemon keeps_get_ctx keeps_get_hook keeps_module keeps_commit keeps_load : keeps.

Section Api.
Context {W : Type} `{!World W} `{!Regex} `{!Lsplt} `{!ModuleCode} (fuel : nat) (x0 : zs).
Abbreviation K := (M W zs).
Abbreviation I := (tame x0).

Lemma keeps_jni c : keeps I (jni_ c : K reply).
Proof. apply keeps_syscall. Qed.

Lemma keeps_safe c : keeps I (safe c : K Z).
Proof. unfold safe. pose proof keeps_jni. keeps_tac. Qed.
#[local] Hint Resolve keeps_jni keeps_safe : keeps.

Lemma keeps_from_reflected m : keeps I (FromReflectedMethod_ m : K Z).
Proof. unfold FromReflectedMethod_. apply keeps_get. intros x _. keeps_tac. Qed.
#[local] Hint Resolve keeps_from_reflected : keeps.

Lemma keeps_hook_row clazz m : keeps I (hook_row clazz m : K (jmethod * list jmethod)).
Proof.
  unfold hook_row, find_method, GetData, load_u64. keeps_tac.
Qed.

Lemma keeps_hook_rows clazz ms : keeps I (hook_rows clazz ms : K (list jmethod * list jmethod)).
Proof. induction ms as [|m ms IH]; cbn [hook_rows]; pose proof keeps_hook_row; keeps_tac. Qed.

Lemma keeps_hook_jni clz ms : keeps I (hook_jni_methods clz ms : K (list jmethod)).
Proof. unfold hook_jni_methods. pose proof keeps_hook_rows. keeps_tac. done. Qed.

Lemma keeps_register_matching map regs ign : keeps I (register_matching map regs ign : K unit).
Proof. induction regs as [|r regs IH]; cbn [register_matching]; unfold lsplt_RegisterHook; keeps_tac. Qed.

Lemma keeps_process_maps maps regs ign : keeps I (process_maps maps regs ign : K unit).
Proof. induction maps as [|m maps IH]; cbn [process_maps]; pose proof keeps_register_matching; keeps_tac. Qed.

Lemma keeps_plt_commit : keeps I (plt_hook_commit : K bool).
Proof.
  unfold plt_hook_commit, plt_hook_process_regex. pose proof keeps_process_maps. keeps_tac.
  apply keeps_upd. intros c. repeat (split; [done|]). split; [by left|]. by split.
Qed.

Lemma keeps_exempt fd : keeps I (exempt_fd fd : K bool).
Proof.
  unfold exempt_fd, can_exempt_fd. keeps_tac. apply keeps_upd. intros c'. repeat (split; [done|]). split; [by left|].
  split; [|done]. cbn. by exists [fd].
Qed.

Lemma keeps_set_option i opt : keeps I (setOption i opt : K unit).
Proof.
  unfold setOption, g_ctx. keeps_tac.
  - apply keeps_upd. intros c. repeat (split; [done|]). split; [by right|]. by split.
  - by apply keeps_upd_module.
Qed.

Lemma keeps_g_ctx : keeps I (g_ctx : K bool).
Proof. apply keeps_get. intros x _. by apply keeps_pure. Qed.
#[local] Hint Resolve keeps_hook_jni keeps_plt_commit keeps_exempt keeps_set_option keeps_g_ctx : keeps.

Lemma keeps_api_call i fn args : keeps I (api_call fuel i fn args : K Z).
Proof.
  destruct fn, args; cbn [api_call]; unfold b2z, plt_hook_register, plt_hook_exclude, connectCompanion, getModuleDir,
    getFlags, lsplt_RegisterHook; keeps_tac; apply keeps_upd; intros c; repeat (split; [done|]); (split; [by left|]); by split.
Qed.

Lemma keeps_register i p : keeps I (RegisterModuleImpl i p : K bool).
Proof. unfold RegisterModuleImpl, load_long, load_u64. keeps_tac. by apply keeps_upd_module. Qed.

Lemma keeps_module_do i x : keeps I (module_do fuel i x : K Z).
Proof.
  destruct x; cbn [module_do]; unfold b2z; pose proof keeps_api_call; pose proof keeps_register; keeps_tac.
  apply keeps_upd. intros c. destruct (args c); [|reflexivity]. repeat (split; [done|]). split; [by left|]. by split.
Qed.

Lemma keeps_run_prog i p : keeps I (run_prog fuel i p : K unit).
Proof.
  induction p as [|x k IH]; cbn [run_prog]; [by apply keeps_pure|].
  apply keeps_bind; [apply keeps_module_do|]. intros r. apply IH.
Qed.

Lemma keeps_call_module i fn args : keeps I (call_module fuel i fn args : K unit).
Proof.
  unfold call_module, call_code. keeps_tac; [done|]. apply keeps_run_prog.
Qed.

End Api.

(** C7. Modules are confined: whatever program a module runs when one of its
    functions is called, over whatever memory it overwrote, and however it
    ends, the context keeps its process, its pid, what the daemon said of the
    process and the table of allowed descriptors; of the flags a module can
    only set DO_REVERT_UNMOUNT; descriptors once exempted stay exempted; no
    module is added, removed or replaced; and the hook state is untouched. *)
Theorem modules_confined {W : Type} `{!World W, !Regex, !Lsplt, !ModuleCode} (fuel i : nat) fn fn_args c (s : st W zs) :
  z_ctx (st_s s) = Some c ->
  wp (call_module fuel i fn fn_args) (fun _ s' => exists c', z_ctx (st_s s') = Some c' /\ confined c c'
    /\ z_hook (st_s s') = z_hook (st_s s) /\ z_gctx (st_s s') = z_gctx (st_s s)) s.
Proof.
  intros Hc. eapply wp_mono; [apply (keeps_call_module fuel (st_s s) i fn fn_args); reflexivity|].
  intros o s' (Hg & Hh & Ht). rewrite Hc in Ht. destruct (z_ctx (st_s s')) as [c'|]; [|done]. by exists c'.
Qed.

(** The daemon's private flags never reach a module: in every state the
    answer to getFlags has none of the bits that say which root solution runs,
    whether the process is the manager or is excluded, and has all other bits
    of what the daemon said; outside a specialisation it is 0. *)
Theorem private_flags_hidden {W : Type} `{!World W, !Regex, !Lsplt, !ModuleCode} (fuel i : nat) (s s' : st W zs) r :
  api_call fuel i FGetFlags ArgsNone s = (Ret r, s') ->
  s' = s
  /\ (z_gctx (st_s s) = false -> r = 0)
  /\ forall c, z_gctx (st_s s) = true -> z_ctx (st_s s) = Some c ->
       forall k, 0 <= k < 32 ->
         Z.testbit r k = Z.testbit (info_flags c) k && negb (bool_decide (k ∈ [26; 27; 28; 29; 30])).
Proof.
  wp_of_run. cbn [api_call]. unfold getFlags, g_ctx, get_ctx. wrun. destruct (z_gctx (st_s s)) eqn:Eg; wrun.
  2: { split; [done|]. split; [done|]. intros c Hf; discriminate Hf. }
  destruct (z_ctx (st_s s)) as [c|]; [|by wrun]. wrun. split; [done|]. split; [intros Hf; discriminate Hf|].
  intros c1 _ [= <-] k Hk. rewrite Z.land_spec. f_equal.
  assert (Hb : forallb (fun j => bool_decide (Z.testbit (not32 PRIVATE_MASK) j = negb (bool_decide (j ∈ [26; 27; 28; 29; 30]))))
                (seqZ 0 32) = true) by (vm_compute; reflexivity).
  rewrite forallb_forall in Hb. specialize (Hb k). apply bool_decide_eq_true in Hb; [done|].
  apply list_elem_of_In, elem_of_seqZ. lia.
Qed.

(** ** Committing the hooks a module asked for *)

(** The hooks that the registrations and exclusions amount to. *)
Definition wanted_hook `{!Regex} (ign : list IgnoreInfo) (map : map_info) (reg : RegisterInfo) : list call :=
  if regexec (rg_regex reg) (mi_path map) && negb (ignored ign (rg_symbol reg) (mi_path map))
  then [CRegisterHook (mi_dev map) (mi_inode map) (rg_symbol reg) (rg_callback reg) (rg_backup reg)] else [].

Definition wanted_hooks `{!Regex} (maps : list map_info) (regs : list RegisterInfo) (ign : list IgnoreInfo) : list call :=
  map ← maps; if hookable map then reg ← regs; wanted_hook ign map reg else [].

Section Commit.
Context {W : Type} `{!World W} `{!Regex} `{!Lsplt}.
Abbreviation K := (M W zs).

(** The code makes exactly the calls [l] and changes no variable. *)
Definition just_calls (l : list call) (m : K unit) : Prop :=
  forall s, wp m (fun o s' => o = Ret tt /\ st_s s' = st_s s
    /\ exists evs, st_log s' = evs ++ st_log s /\ reverse evs.*1 = l) s.

Lemma just_ret : just_calls [] (mret tt).
Proof. intros s. wrun. split; [done|]. split; [done|]. by exists []. Qed.

Lemma just_then l l' (m m' : K unit) : just_calls l m -> just_calls l' m' -> just_calls (l ++ l') (m;; m').
Proof.
  intros Hm Hm' s. wstep. eapply wp_mono; [apply Hm|]. intros o s1 (-> & E1 & evs & El & Hl). cbn [wp_cont].
  eapply wp_mono; [apply Hm'|]. intros o s2 (-> & E2 & evs' & El' & Hl'). split; [done|]. split; [congruence|].
  exists (evs' ++ evs). split; [by rewrite El', El, app_assoc|]. by rewrite fmap_app, reverse_app, Hl, Hl'.
Qed.

Lemma register_matching_calls map regs ign :
  just_calls (reg ← regs; wanted_hook ign map reg) (register_matching map regs ign).
Proof.
  induction regs as [|reg regs IH]; [apply just_ret|]. cbn [register_matching]. rewrite bind_cons.
  apply just_then; [|exact IH]. unfold wanted_hook, lsplt_RegisterHook. case_match; [|apply just_ret].
  intros s. wrun. apply wp_syscall. intros r w e. wrun. split; [done|]. split; [done|]. by eexists [_].
Qed.

Lemma process_maps_calls maps regs ign : just_calls (wanted_hooks maps regs ign) (process_maps maps regs ign).
Proof.
  induction maps as [|map maps IH]; [apply just_ret|]. cbn [process_maps]. unfold wanted_hooks. rewrite bind_cons.
  apply just_then; [|exact IH]. destruct (hookable map); [apply register_matching_calls|apply just_ret].
Qed.

Lemma wanted_hooks_nil maps ign : wanted_hooks maps [] ign = [].
Proof. induction maps as [|map maps IH]; [done|]. unfold wanted_hooks. rewrite bind_cons. by destruct (hookable map). Qed.

End Commit.

(** ** Examples *)

#[local] Instance demo_regex : Regex := {| regcomp _ := true; regexec pat path := contains path pat |}.
#[local] Instance demo_lsplt : Lsplt := fun _ => [].
(** A module that registers itself and asks for the unmount. *)
#[local] Instance demo_code : ModuleCode := fun fn _ =>
  if fn =? 0x40 then MStep (MRegister 0x100) (fun _ => MStep (MApi 5 (ArgsOption FORCE_DENYLIST_UNMOUNT)) (fun _ => MDone))
  else MDone.

Definition api_ctx : ctx :=
  Ctx 1 (AppArgs (AppArgs_mk 10001 1 0 None)) None [new_ZygiskModule 0 7 0x40] 0 APP_SPECIALIZE 3 [] []
    [Reg (B "libart") (B "open") 0x900 0x910; Reg (B "libc") (B "read") 0x920 0x930] [Ign (B "libc") (B "read")].
Definition api_maps : list map_info :=
  [MapInfo_mk 0x1000 0x2000 1 true 0 8 77 (B "/libart.so"); MapInfo_mk 0x3000 0x4000 1 true 0 8 78 (B "/libc.so")].
Definition api_zs : zs :=
  ZS (LK (map_range 3 8 0x100 (le_bytes 8 5) ∅) 4096 ∅ []) so_init (DaemonSt [] 0 false) [] (Some api_ctx) true
    (Live (Hook_mk [] 0 0 false false false false 0 0 0 api_maps [] [])) ∅ (Art 0 0 0) ∅ false false.
Definition api_state : st script zs := St [] [] 0 api_zs.

Lemma modules_confined_witness :
  wp (call_module 4 0 0x40 []) (fun _ s' => exists c', z_ctx (st_s s') = Some c' /\ confined api_ctx c'
    /\ z_hook (st_s s') = z_hook api_zs /\ z_gctx (st_s s') = true) api_state
  /\ exists s', call_module 4 0 0x40 [] api_state = (Ret tt, s')
     /\ (flags <$> z_ctx (st_s s')) = Some (Z.lor APP_SPECIALIZE DO_REVERT_UNMOUNT).
Proof.
  split; [exact (modules_confined 4 0 0x40 [] api_ctx api_state eq_refl)|].
  eexists. split; vm_compute; reflexivity.
Defined.

Lemma private_flags_hidden_witness :
  exists r, api_call 4 0 FGetFlags ArgsNone
      (St [] [] 0 (zset_ctx (Some (set_info_flags (2 ^ 30 + 2 ^ 26 + 3) api_ctx)) api_zs) : st script zs)
    = (Ret r, St [] [] 0 (zset_ctx (Some (set_info_flags (2 ^ 30 + 2 ^ 26 + 3) api_ctx)) api_zs))
    /\ r = 3 /\ forall k, 0 <= k < 32 -> Z.testbit r k
       = Z.testbit (2 ^ 30 + 2 ^ 26 + 3) k && negb (bool_decide (k ∈ [26; 27; 28; 29; 30])).
Proof.
  eexists. split; [vm_compute; reflexivity|]. split; [reflexivity|].
  set (s := St [] [] 0 (zset_ctx (Some (set_info_flags (2 ^ 30 + 2 ^ 26 + 3) api_ctx)) api_zs) : st script zs).
  destruct (private_flags_hidden 4 0 s s 3 ltac:(vm_compute; reflexivity)) as (_ & _ & Hk).
  exact (Hk _ eq_refl eq_refl).
Defined.

