(* ===== verification/Fds.v ===== *)
(** The descriptors of a forked process (fork_pre, sanitize_fds and fork_post
    of loader/src/injector/module.cpp).

    The loader forks before the runtime does, records which descriptors are
    open, lets the modules run, and closes everything that was opened since
    and that nobody asked to keep. Both passes read /proc/self/fd with
    getdents64; the records are parsed from the bytes the kernel stores. *)
From S2P Require Import Prelude Sys Text Mem Linker ModLoader Sort ElfParser Unmount Daemon SoList Context.
Open Scope Z_scope.

(** [fast_atoi] on a buffer, from position [p] on; an [int] wraps. *)
Fixpoint fast_atoi_from (l : list Z) (val : Z) : Z :=
  match l with
  | c :: l' => if (48 <=? c) && (c <=? 57) then fast_atoi_from l' (swrap 32 (swrap 32 (val * 10) + (c - 48))) else val
  | [] => val
  end.
Definition fast_atoi (l : list Z) : Z := fast_atoi_from l 0.

(** struct linux_dirent64 *)
Definition off_d_reclen : nat := 16.
Definition off_d_name : nat := 19.

Definition sizeof_buf : Z := 4096.
(** The value on arm64; on x86-64 it is 0x10000. It is only handed to open. *)
Definition O_DIRECTORY : Z := 0x4000.
Definition SIGCHLD : Z := 17.
Definition SIG_BLOCK : Z := 0.
Definition SIG_UNBLOCK : Z := 1.
Definition JNI_ABORT : Z := 2.

Section Ops.
Context {W : Type} `{!World W} (fuel : nat).
Abbreviation K := (M W zs).

(** The loop over the records of one buffer, [visit] called with each
    descriptor; a record of length 0 never ends. *)
Fixpoint each_dirent (n : nat) (buf : list Z) (bpos nread : Z) (visit : Z -> K unit) : K unit :=
  match n with
  | O => out_of_fuel
  | S n' =>
      if nread <=? bpos then mret tt
      else
        let d := drop (Z.to_nat bpos) buf in
        let d_name := drop off_d_name d in
        (match d_name with
         | c :: _ => if (48 <=? c) && (c <=? 57) then visit (fast_atoi d_name) else mret tt
         | [] => mret tt
         end);;
        each_dirent n' buf (bpos + le_Z (take 2 (drop off_d_reclen d))) nread visit
  end.

Fixpoint each_fd (n : nat) (fd_dir : Z) (visit : Z -> K unit) : K unit :=
  match n with
  | O => out_of_fuel
  | S n' =>
      r ← syscall (CGetdents fd_dir sizeof_buf);
      let nread := r_ret r in
      if nread <=? 0 then mret tt
      else
        each_dirent (S (Z.to_nat nread)) (take (Z.to_nat nread) (r_data r)) 0 nread visit;;
        each_fd n' fd_dir visit
  end.

(** [fd >= 0 && fd < allowed_fds.size()] *)
Definition in_table (fd : Z) (allowed : list bool) : bool := (0 <=? fd) && (fd <? Z.of_nat (length allowed)).

Definition allow (fd : Z) : K unit :=
  upd_ctx (fun c => if in_table fd (allowed_fds c) then set_allowed_fds (<[Z.to_nat fd := true]> (allowed_fds c)) c else c).

Definition is_allowed (fd : Z) (allowed : list bool) : bool :=
  in_table fd allowed && nth (Z.to_nat fd) allowed false.

Definition is_child : K bool := c ← get_ctx; mret (pid c <=? 0).

Definition sigmask (how signum : Z) : K unit := do_ (CSigprocmask how [signum]).

(** Recording a descriptor that is open at the fork. *)
Definition record_fd (fd_dir fd : Z) : K unit :=
  c ← get_ctx;
  if in_table fd (allowed_fds c) then allow fd
  else if negb (fd =? fd_dir) then do_ (CClose fd) else mret tt.

(** [old_fork] is the C library's fork. *)
Definition fork_pre : K unit :=
  sigmask SIG_BLOCK SIGCHLD;;
  r ← syscall CFork;
  upd_ctx (set_pid (r_ret r));;
  child ← is_child;
  if negb child then mret tt
  else
    r ← syscall (COpen (B "/proc/self/fd") O_DIRECTORY 0);
    let fd_dir := r_ret r in
    if fd_dir <? 0 then mret tt
    else
      each_fd fuel fd_dir (record_fd fd_dir);;
      c ← get_ctx;
      if negb (in_table fd_dir (allowed_fds c)) then crash
      else
        upd_ctx (fun c => set_allowed_fds (<[Z.to_nat fd_dir := false]> (allowed_fds c)) c);;
        do_ (CClose fd_dir).

Definition fork_post : K unit := sigmask SIG_UNBLOCK SIGCHLD.

Fixpoint allow_all (fds : list Z) : K unit :=
  match fds with [] => mret tt | fd :: fds' => allow fd;; allow_all fds' end.

(** A new array that ends with the exempted descriptors; 0 if there is none. *)
Definition update_fd_array (old_len : Z) : K Z :=
  c ← get_ctx;
  let ex := exempted_fds c in
  array ← jni_ (NewIntArray (swrap 32 (old_len + Z.of_nat (length ex))));
  if r_ret array =? 0 then mret 0
  else
    jni_ (SetIntArrayRegion (r_ret array) old_len ex);;
    allow_all ex;;
    upd_ctx (fun c => match args c with
                      | AppArgs a => set_args (AppArgs (AppArgs_mk (a_uid a) (a_nice_name a) (a_app_data_dir a)
                                                          (Some (r_ret array)))) c
                      | ServerArgs => c
                      end);;
    mret (r_ret array).

(** The descriptors to keep: those of the array the runtime was given, and the
    exempted ones, which are added to it. *)
Definition keep_exempted : K unit :=
  c ← get_ctx;
  match args c with
  | AppArgs a =>
      match a_fds_to_ignore a with
      | Some fdsToIgnore =>
          if negb (fdsToIgnore =? 0) then
            arr ← jni_ (GetIntArrayElements fdsToIgnore);
            len ← jni_ (GetArrayLength fdsToIgnore);
            let n := Z.to_nat (r_ret len) in
            if (r_ret arr =? 0) && (0 <? r_ret len) then crash
            else
              let fds := take n (r_aux arr) in
              allow_all fds;;
              newFdList ← update_fd_array (r_ret len);
              (if negb (newFdList =? 0) then jni_ (SetIntArrayRegion newFdList 0 fds);; mret tt else mret tt);;
              jni_ (ReleaseIntArrayElements fdsToIgnore);;
              mret tt
          else update_fd_array 0;; mret tt
      | None => crash
      end
  | ServerArgs => crash
  end.

Definition close_forbidden (fd_dir fd : Z) : K unit :=
  c ← get_ctx;
  if negb (is_allowed fd (allowed_fds c)) && negb (fd =? fd_dir) then do_ (CClose fd) else mret tt.

Definition sanitize_fds : K unit :=
  child ← is_child;
  if negb child then mret tt
  else
    can ← can_exempt_fd;
    c ← get_ctx;
    (if can && negb (bool_decide (exempted_fds c = [])) then keep_exempted else mret tt);;
    r ← syscall (COpen (B "/proc/self/fd") O_DIRECTORY 0);
    let fd_dir := r_ret r in
    if fd_dir <? 0 then mret tt
    else
      each_fd fuel fd_dir (close_forbidden fd_dir);;
      do_ (CClose fd_dir).
End Ops.

(** ** The records of a directory *)

(** One record: the name is that of descriptor [Some fd], or no number. *)
Record dirent := Dirent { e_ino : Z; e_off : Z; e_type : Z; e_name : list Z; e_pad : list Z; e_fd : option Z }.

Definition reclen (e : dirent) : Z := 20 + Z.of_nat (length (e_name e)) + Z.of_nat (length (e_pad e)).

Definition dirent_bytes (e : dirent) : list Z :=
  le_bytes 8 (e_ino e) ++ le_bytes 8 (e_off e) ++ le_bytes 2 (reclen e) ++ [e_type e] ++ e_name e ++ [0] ++ e_pad e.

Definition dirent_ok (e : dirent) : Prop :=
  reclen e < 2 ^ 16 /\
  match e_fd e with
  | Some fd => e_name e <> [] /\ Forall (fun c => is_digit_of 10 c = true) (e_name e)
               /\ digits_val 10 (e_name e) = fd /\ 0 <= fd < 2 ^ 31
  | None => exists c l, e_name e = c :: l /\ ~ 48 <= c <= 57
  end.

Definition listed (es : list dirent) : list Z := omap e_fd es.

Lemma digit10 c : is_digit_of 10 c = true -> 48 <= c <= 57 /\ default 0 (digit_val c) = c - 48.
Proof.
  unfold is_digit_of, digit_val.
  destruct ((48 <=? c) && (c <=? 57)) eqn:E1; [|destruct ((97 <=? c) && (c <=? 102)) eqn:E2;
    [|destruct ((65 <=? c) && (c <=? 70)) eqn:E3; [|done]]]; cbn; intros Hx%Z.ltb_lt;
    match goal with E : _ && _ = true |- _ => apply andb_true_iff in E as [?%Z.leb_le ?%Z.leb_le] end; lia.
Qed.

Lemma digits_val_step acc l : fold_left (fun a c => a * 10 + default 0 (digit_val c)) l acc
  = acc * 10 ^ Z.of_nat (length l) + fold_left (fun a c => a * 10 + default 0 (digit_val c)) l 0.
Proof.
  revert acc. induction l as [|c l IH]; intros acc; cbn [fold_left length]; [lia|].
  rewrite (IH (acc * 10 + _)), (IH (0 * 10 + _)). rewrite Nat2Z.inj_succ, Z.pow_succ_r by lia. lia.
Qed.

Lemma fast_atoi_run l rest : forall acc,
  Forall (fun c => is_digit_of 10 c = true) l -> 0 <= acc ->
  fold_left (fun a c => a * 10 + default 0 (digit_val c)) l acc < 2 ^ 31 ->
  fast_atoi_from (l ++ 0 :: rest) acc = fold_left (fun a c => a * 10 + default 0 (digit_val c)) l acc.
Proof.
  induction l as [|c l IH]; intros acc Hd Ha Hv; [done|]. apply Forall_cons in Hd as [Hc Hd].
  apply digit10 in Hc as [Hc Ev]. cbn [fold_left app fast_atoi_from] in *. rewrite Ev in *.
  assert (Hb : acc * 10 + (c - 48) < 2 ^ 31).
  { rewrite digits_val_step in Hv. pose proof (Z.pow_pos_nonneg 10 (Z.of_nat (length l)) ltac:(lia) ltac:(lia)).
    assert (0 <= fold_left (fun a c => a * 10 + default 0 (digit_val c)) l 0).
    { clear -Hd. assert (G : forall a, 0 <= a -> 0 <= fold_left (fun a c => a * 10 + default 0 (digit_val c)) l a).
      { induction Hd as [|d l Hd' Hl IH]; intros a Ha; [done|]. cbn [fold_left]. apply IH.
        apply digit10 in Hd' as [? ->]. lia. }
      by apply G. }
    nia. }
  rewrite (proj2 (Z.leb_le 48 c)), (proj2 (Z.leb_le c 57)) by lia. cbn [andb].
  rewrite (swrap_id 32 (acc * 10)), swrap_id by (try lia; fits). apply IH; [done|lia|done].
Qed.

(** The name of a record reads as its descriptor. *)
Lemma fast_atoi_name e rest fd :
  dirent_ok e -> e_fd e = Some fd -> fast_atoi (e_name e ++ 0 :: rest) = fd.
Proof.
  intros [_ Hok] E. rewrite E in Hok. destruct Hok as (_ & Hd & Hv & Hr). unfold fast_atoi.
  rewrite fast_atoi_run; unfold digits_val in *; [done|done|lia|lia].
Qed.

Lemma length_dirent e : Z.of_nat (length (dirent_bytes e)) = reclen e.
Proof. unfold dirent_bytes, reclen. rewrite !length_app, !length_le_bytes. cbn [length]. lia. Qed.

Section Walk.
Context {W : Type} `{!World W}.
Abbreviation K := (M W zs).

Fixpoint visit_all (visit : Z -> K unit) (fds : list Z) : K unit :=
  match fds with [] => mret tt | fd :: fds' => visit fd;; visit_all visit fds' end.

(** What the code reads of the record at the start of [dirent_bytes e ++ rest]. *)
Lemma dirent_fields e rest :
  dirent_ok e ->
  drop off_d_name (dirent_bytes e ++ rest) = e_name e ++ 0 :: e_pad e ++ rest
  /\ le_Z (take 2 (drop off_d_reclen (dirent_bytes e ++ rest))) = reclen e.
Proof.
  intros [Hr _]. unfold dirent_bytes, off_d_name, off_d_reclen.
  set (tl := [e_type e] ++ e_name e ++ [0] ++ e_pad e).
  assert (E16 : drop 16 ((le_bytes 8 (e_ino e) ++ le_bytes 8 (e_off e) ++ le_bytes 2 (reclen e) ++ tl) ++ rest)
                = le_bytes 2 (reclen e) ++ tl ++ rest).
  { rewrite (app_assoc (le_bytes 8 (e_ino e))), <- !app_assoc, (app_assoc (le_bytes 8 (e_ino e))).
    apply drop_app_length'. by rewrite length_app, !length_le_bytes. }
  split.
  - replace 19%nat with (16 + 3)%nat by done. rewrite <- drop_drop, E16.
    replace 3%nat with (2 + 1)%nat by done. rewrite <- drop_drop.
    rewrite (drop_app_length' (le_bytes 2 _)) by (by rewrite length_le_bytes). unfold tl. cbn [app drop].
    by rewrite <- app_assoc.
  - rewrite E16, take_app_length' by (by rewrite length_le_bytes). rewrite le_Z_bytes.
    apply Z.mod_small. change (256 ^ Z.of_nat 2) with (2 ^ 16). unfold reclen in *. lia.
Qed.

(** Walking well-formed records visits the descriptors they list. *)
Lemma each_dirent_exact (visit : Z -> K unit) es : forall n pre Q s,
  Forall dirent_ok es -> (length es < n)%nat -> wp (visit_all visit (listed es)) Q s ->
  wp (each_dirent n (pre ++ concat (dirent_bytes <$> es)) (Z.of_nat (length pre))
        (Z.of_nat (length (pre ++ concat (dirent_bytes <$> es)))) visit) Q s.
Proof.
  induction es as [|e es IH]; intros n pre Q s Hok Hn HQ; (destruct n as [|n]; [cbn in Hn; lia|]);
    cbn [each_dirent fmap list_fmap concat].
  { rewrite app_nil_r, (proj2 (Z.leb_le _ _)) by lia. exact HQ. }
  apply Forall_cons in Hok as [He Hok]. cbn [length] in Hn.
  rewrite (proj2 (Z.leb_gt _ _)).
  2: { rewrite !length_app. pose proof (length_dirent e). unfold reclen in *. lia. }
  rewrite Nat2Z.id, drop_app_length. destruct (dirent_fields e (concat (dirent_bytes <$> es)) He) as [-> ->].
  assert (Hgo : forall s, wp (visit_all visit (listed es)) Q s ->
    wp (each_dirent n (pre ++ dirent_bytes e ++ concat (dirent_bytes <$> es)) (Z.of_nat (length pre) + reclen e)
          (Z.of_nat (length (pre ++ dirent_bytes e ++ concat (dirent_bytes <$> es)))) visit) Q s).
  { intros s0 H0. rewrite app_assoc. rewrite <- length_dirent, <- Nat2Z.inj_add, <- length_app.
    apply IH; [done|lia|done]. }
  unfold listed in HQ. cbn [omap list_omap] in HQ. destruct He as [Hr He]. wstep. destruct (e_fd e) as [fd|] eqn:E.
  - pose proof He as (Hne & Hd & _). destruct (e_name e) as [|c l] eqn:En; [done|]. cbn [app].
    apply Forall_cons in Hd as [Hc _]. apply digit10 in Hc as [Hc _].
    rewrite (proj2 (Z.leb_le 48 c)), (proj2 (Z.leb_le c 57)) by lia. cbn [andb].
    replace (fast_atoi (c :: l ++ 0 :: _)) with fd.
    2: { rewrite app_comm_cons, <- En. symmetry. apply fast_atoi_name; [split; [done|by rewrite E, En]|done]. }
    cbn [visit_all] in HQ. apply wp_bind_inv in HQ. eapply wp_mono; [exact HQ|].
    intros [u| | |] s1 H1; cbn [wp_cont] in *; try exact H1. by apply Hgo.
  - destruct He as (c & l & -> & Hc). cbn [app].
    destruct ((48 <=? c) && (c <=? 57)) eqn:Ec.
    { apply andb_true_iff in Ec as [H1%Z.leb_le H2%Z.leb_le]. lia. }
    wrun. by apply Hgo.
Qed.
End Walk.

(** ** A kernel with descriptors *)

(** The calls here that leave the descriptor table alone. *)
Definition fd_neutral (c : call) : Prop :=
  match c with CSigprocmask _ _ | CFork | CJni _ => True | _ => False end.

(** What Linux documents of close, open and getdents64 on /proc/self/fd: a
    stream looks at the descriptors in increasing order, from [dir_pos] on,
    and lists those open when it passes them. *)
Class FdKernel (W : Type) `{!World W} := {
  open_fds : W -> gset Z;
  dir_pos : W -> Z -> Z;
  dents_left : W -> Z -> nat;
  max_dents : nat;
  dents_bound w d : (dents_left w d <= max_dents)%nat;
  fd_range w f : f ∈ open_fds w -> 0 <= f < 2 ^ 31;
  k_neutral c w : fd_neutral c -> open_fds (sys c w).2 = open_fds w;
  k_close f w :
    let w' := (sys (CClose f) w).2 in
    open_fds w' = open_fds w ∖ {[f]}
    /\ forall d, d <> f -> dir_pos w' d = dir_pos w d /\ (dents_left w' d <= dents_left w d)%nat;
  k_open path flags mode w :
    let '(r, w') := sys (COpen path flags mode) w in
    (r_ret r < 0 /\ open_fds w' = open_fds w)
    \/ (r_ret r ∉ open_fds w) /\ open_fds w' = {[r_ret r]} ∪ open_fds w /\ dir_pos w' (r_ret r) = 0;
  k_dents d n w :
    d ∈ open_fds w ->
    let '(r, w') := sys (CGetdents d n) w in
    open_fds w' = open_fds w /\
    (r_ret r = 0 /\ (forall f, f ∈ open_fds w -> f < dir_pos w d)
     \/ exists es, es <> [] /\ Forall dirent_ok es /\ r_data r = concat (dirent_bytes <$> es)
        /\ r_ret r = Z.of_nat (length (r_data r)) /\ (dents_left w' d < dents_left w d)%nat
        /\ dir_pos w d <= dir_pos w' d
        /\ forall f, (f ∈ listed es <-> f ∈ open_fds w /\ dir_pos w d <= f < dir_pos w' d)) }.

Section Close.
Context {W : Type} `{!World W} `{!FdKernel W}.
Abbreviation K := (M W zs).
Abbreviation opened s := (open_fds (st_w s)).

Lemma length_concat_dirents es : (length es <= length (concat (dirent_bytes <$> es)))%nat.
Proof.
  induction es as [|e es IH]; cbn [fmap list_fmap concat length]; [lia|]. rewrite length_app.
  pose proof (length_dirent e). unfold reclen in *. lia.
Qed.

(** A loop over the directory [dir] keeps an invariant [I] on positions and
    states if visiting the descriptors of each buffer does. *)
Lemma each_fd_rule (visit : Z -> K unit) dir (I : Z -> st W zs -> Prop) : forall n s,
  (forall pos s, I pos s -> dir ∈ opened s /\ dir_pos (st_w s) dir = pos) ->
  (forall pos s r w' e es pos', I pos s -> dir ∈ opened s -> sys (CGetdents dir sizeof_buf) (st_w s) = (r, w') ->
     open_fds w' = opened s -> pos' = dir_pos w' dir ->
     pos <= pos' -> (forall f, f ∈ listed es <-> (f ∈ opened s /\ pos <= f < pos')) ->
     wp (visit_all visit (listed es))
       (fun o s' => o = Ret tt /\ I pos' s' /\ (dents_left (st_w s') dir <= dents_left w' dir)%nat)
       (St w' ((CGetdents dir sizeof_buf, r) :: st_log s) e (st_s s))) ->
  (dents_left (st_w s) dir < n)%nat -> I (dir_pos (st_w s) dir) s ->
  wp (each_fd n dir visit) (fun o s' => o = Ret tt /\ exists s0 r w' e,
      I (dir_pos (st_w s0) dir) s0 /\ (forall f, f ∈ opened s0 -> f < dir_pos (st_w s0) dir)
      /\ open_fds w' = opened s0 /\ s' = St w' ((CGetdents dir sizeof_buf, r) :: st_log s0) e (st_s s0)) s.
Proof.
  intros n s HI Hv. revert s. induction n as [|n IH]; intros s Hn Hs; [lia|]. cbn [each_fd]. wstep.
  destruct (HI _ _ Hs) as [Hd _]. pose proof (k_dents dir sizeof_buf (st_w s) Hd) as Hk.
  wsys r w' E. destruct Hk as [Ho [[H0 Hend]|(es & Hne & Hok & Hdata & Hret & Hl & Hp & Hes)]].
  - rewrite H0. cbn [Z.leb]. wrun. split; [done|]. exists s, r, w', (if 0 <? 0 then r_errno r else st_errno s).
    done.
  - pose proof (length_concat_dirents es) as Hlen. rewrite <- Hdata in Hlen.
    assert (0 < r_ret r) by (rewrite Hret; destruct es; [done|cbn [length] in *; lia]).
    rewrite (proj2 (Z.leb_gt _ _)) by lia. wstep.
    rewrite Hret, Nat2Z.id, firstn_all, Hdata.
    apply (each_dirent_exact visit es _ [] _ _ Hok); [rewrite <- Hdata; lia|].
    eapply wp_mono; [eapply (Hv _ s r w' _ es (dir_pos w' dir)); [exact Hs|exact Hd|exact E|done..|exact Hes]|].
    intros o s1 (-> & HI1 & Hl1). cbn [wp_cont]. destruct (HI _ _ HI1) as [_ Ep].
    apply IH; [lia|]. by rewrite Ep.
Qed.

(** Closing one descriptor, seen from the directory [dir]. *)
Lemma wp_close_fd f dir (Q : outcome unit -> st W zs -> Prop) s :
  f <> dir ->
  (forall r w' e, open_fds w' = opened s ∖ {[f]} -> dir_pos w' dir = dir_pos (st_w s) dir ->
     (dents_left w' dir <= dents_left (st_w s) dir)%nat ->
     Q (Ret tt) (St w' ((CClose f, r) :: st_log s) e (st_s s))) ->
  wp (do_ (CClose f)) Q s.
Proof.
  intros Hne HQ. unfold do_. wstep. pose proof (k_close f (st_w s)) as Hk. wsys r w' E. cbn zeta in Hk. cbn [snd] in Hk.
  wrun. destruct Hk as [Ho Hk]. destruct (Hk dir) as [H1 H2]; [done|]. by apply HQ.
Qed.

(** The descriptors the second pass keeps. *)
Definition kept (allowed : list bool) (dir f : Z) : Prop := is_allowed f allowed = true \/ f = dir.

Lemma close_visit dir c fds : forall (s : st W zs),
  z_ctx (st_s s) = Some c ->
  wp (visit_all (close_forbidden dir) fds) (fun o s' => o = Ret tt /\ st_s s' = st_s s
    /\ dir_pos (st_w s') dir = dir_pos (st_w s) dir /\ (dents_left (st_w s') dir <= dents_left (st_w s) dir)%nat
    /\ forall f, f ∈ opened s' <-> (f ∈ opened s /\ (f ∉ fds \/ kept (allowed_fds c) dir f))) s.
Proof.
  induction fds as [|fd fds IH]; intros s Hc; cbn [visit_all].
  { wrun. repeat (split; [done|]). intros f. split; [|tauto]. intros Hf. split; [done|]. left. apply not_elem_of_nil. }
  unfold close_forbidden, get_ctx. wrun. rewrite Hc. wrun.
  destruct (negb (is_allowed fd (allowed_fds c)) && negb (fd =? dir)) eqn:E.
  - apply andb_true_iff in E as [E1%negb_true_iff E2%negb_true_iff]. apply Z.eqb_neq in E2.
    apply (wp_close_fd fd dir); [done|]. intros r w' e Ho Hp Hl. cbn [wp_cont].
    eapply wp_mono; [apply (IH (St w' _ e (st_s s))); exact Hc|]. cbn [st_w st_s st_log].
    intros o s' (-> & Es & Hp' & Hl' & Hf). split; [done|]. split; [done|]. split; [congruence|]. split; [lia|].
    intros f. rewrite Hf, Ho, elem_of_difference, elem_of_singleton, not_elem_of_cons. unfold kept.
    destruct (decide (f = fd)) as [->|]; [|tauto]. split; [tauto|]. intros [_ [[? _]|[?|?]]]; [done|congruence|done].
  - wrun. eapply wp_mono; [by apply IH|]. intros o s' (-> & Es & Hp & Hl & Hf).
    split; [done|]. split; [done|]. split; [done|]. split; [done|].
    intros f. rewrite Hf, not_elem_of_cons. unfold kept.
    assert (f = fd -> is_allowed f (allowed_fds c) = true \/ f = dir).
    { intros ->. apply andb_false_iff in E as [E%negb_false_iff|E%negb_false_iff]; [by left|right; by apply Z.eqb_eq]. }
    destruct (decide (f = fd)) as [->|]; tauto.
Qed.

(** The second pass: what stays open is what was and is kept. *)
Lemma close_loop n dir c (s : st W zs) :
  z_ctx (st_s s) = Some c -> dir ∈ opened s -> dir_pos (st_w s) dir = 0 -> (dents_left (st_w s) dir < n)%nat ->
  wp (each_fd n dir (close_forbidden dir)) (fun o s' => o = Ret tt /\ st_s s' = st_s s
    /\ forall f, f ∈ opened s' <-> (f ∈ opened s /\ kept (allowed_fds c) dir f)) s.
Proof.
  intros Hc Hd Hp Hn.
  set (I := fun pos (s' : st W zs) => st_s s' = st_s s /\ dir ∈ opened s' /\ dir_pos (st_w s') dir = pos
    /\ forall f, f ∈ opened s' <-> (f ∈ opened s /\ (pos <= f \/ kept (allowed_fds c) dir f))).
  eapply wp_mono; [apply (each_fd_rule _ dir I n s)|].
  - intros pos s' (_ & H1 & H2 & _). done.
  - intros pos s0 r w' e es pos' (Es & Hd0 & Hp0 & Hf0) _ E Ho -> Hle Hes.
    eapply wp_mono; [apply (close_visit dir c); cbn [st_s]; by rewrite Es|]. cbn [st_w st_s].
    intros o s' (-> & Es' & Hp' & Hl' & Hf'). split; [done|]. split; [|done]. split; [congruence|]. split.
    { apply Hf'. rewrite Ho. split; [done|]. right. by right. }
    split; [done|]. intros f. rewrite Hf', Ho, Hes, Hf0.
    split.
    + intros [[H1 H2] [H3|H3]]; [|tauto]. split; [done|]. destruct H2 as [H2|]; [|tauto]. left.
      apply Z.nlt_ge. intros H4. apply H3. split; [tauto|lia].
    + intros [H1 [H2|H2]]; [|tauto]. split; [split; [done|left; lia]|]. left. intros [_ H3]. lia.
  - done.
  - rewrite Hp. split; [done|]. split; [done|]. split; [done|]. intros f. split; [|tauto].
    intros Hf. split; [done|]. left. by apply (fd_range (st_w s)).
  - intros o s' (-> & s0 & r & w' & e & (Es & _ & _ & Hf) & Hend & Ho & ->). split; [done|]. split; [done|].
    cbn [st_w]. rewrite Ho. intros f. rewrite Hf. split; [|tauto]. intros [H1 [H2|H2]]; [|done].
    exfalso. assert (f < dir_pos (st_w s0) dir) by (apply Hend, Hf; tauto). lia.
Qed.

Lemma in_table_length A A' f : length A' = length A -> in_table f A' = in_table f A.
Proof. intros E. unfold in_table. by rewrite E. Qed.

Lemma is_allowed_insert b A fd f :
  in_table fd A = true -> is_allowed f (<[Z.to_nat fd := b]> A) = if f =? fd then b else is_allowed f A.
Proof.
  intros Ht. unfold is_allowed. rewrite (in_table_length A) by apply length_insert.
  unfold in_table in *. apply andb_true_iff in Ht as [H1%Z.leb_le H2%Z.ltb_lt]. destruct (Z.eqb_spec f fd) as [->|Hne].
  - rewrite (proj2 (Z.leb_le 0 fd)), (proj2 (Z.ltb_lt fd _)) by lia. cbn [andb].
    apply nth_lookup_Some. apply list_lookup_insert_eq. lia.
  - destruct (Z.leb_spec 0 f); [|done]. cbn [andb]. destruct (Z.ltb_spec f (Z.of_nat (length A))); [|done]. cbn [andb].
    rewrite !nth_lookup, list_lookup_insert_ne by lia. done.
Qed.

(** The context has the descriptors [A] allowed, and is [c] otherwise. *)
Definition allows (c : ctx) (A : list bool) (s : st W zs) : Prop := z_ctx (st_s s) = Some (set_allowed_fds A c).

Lemma wp_allow c A fd (Q : outcome unit -> st W zs -> Prop) s :
  allows c A s ->
  (forall x A', z_ctx x = Some (set_allowed_fds A' c) -> length A' = length A ->
     (forall f, is_allowed f A' = is_allowed f A || (f =? fd) && in_table f A) ->
     Q (Ret tt) (St (st_w s) (st_log s) (st_errno s) x)) ->
  wp (allow fd) Q s.
Proof.
  intros Ha HQ. unfold allow, upd_ctx. wrun. rewrite Ha. wrun. cbn [allowed_fds set_allowed_fds].
  destruct (in_table fd A) eqn:Et.
  - apply (HQ _ (<[Z.to_nat fd := true]> A)); [done|by rewrite length_insert|]. intros f.
    rewrite is_allowed_insert by done. destruct (Z.eqb_spec f fd) as [->|]; [by rewrite Et, orb_true_r|by rewrite orb_false_r].
  - apply (HQ _ A); [done|done|]. intros f. destruct (Z.eqb_spec f fd) as [->|]; [rewrite Et|]; by rewrite orb_false_r.
Qed.

Lemma record_visit dir c fds : forall A (s : st W zs),
  allows c A s ->
  wp (visit_all (record_fd dir) fds) (fun o s' => o = Ret tt
    /\ (exists A', allows c A' s' /\ length A' = length A
        /\ forall f, is_allowed f A' = true <-> (is_allowed f A = true \/ (f ∈ fds /\ in_table f A = true)))
    /\ dir_pos (st_w s') dir = dir_pos (st_w s) dir /\ (dents_left (st_w s') dir <= dents_left (st_w s) dir)%nat
    /\ forall f, f ∈ opened s' <-> (f ∈ opened s /\ (f ∉ fds \/ in_table f A = true \/ f = dir))) s.
Proof.
  induction fds as [|fd fds IH]; intros A s Ha; cbn [visit_all].
  { wrun. split; [done|]. split.
    - exists A. split; [done|]. split; [done|]. intros f. split; [tauto|]. intros [|[[]%not_elem_of_nil _]]; done.
    - split; [done|]. split; [done|]. intros f. split; [|tauto]. intros Hf. split; [done|]. left. apply not_elem_of_nil. }
  unfold record_fd, get_ctx. wrun. rewrite Ha. wrun. cbn [allowed_fds set_allowed_fds].
  destruct (in_table fd A) eqn:Et; [|destruct (Z.eqb_spec fd dir) as [->|Hne]; cbn [negb]].
  - eapply wp_allow; [exact Ha|]. intros x A1 Hx Hl1 HA1. cbn [wp_cont].
    eapply wp_mono; [by apply (IH A1)|]. cbn [st_w]. intros o s' (-> & (A' & Ha' & Hl' & HA') & Hp & Hd & Ho).
    split; [done|]. split.
    + exists A'. split; [done|]. split; [congruence|]. intros f. rewrite HA', HA1, (in_table_length A A1) by done.
      rewrite elem_of_cons, orb_true_iff, andb_true_iff, Z.eqb_eq. tauto.
    + split; [done|]. split; [done|]. intros f. rewrite Ho, (in_table_length A A1) by done. rewrite not_elem_of_cons.
      destruct (decide (f = fd)) as [->|]; tauto.
  - wrun. eapply wp_mono; [by apply (IH A)|]. intros o s' (-> & (A' & Ha' & Hl' & HA') & Hp & Hd & Ho).
    split; [done|]. split.
    + exists A'. split; [done|]. split; [done|]. intros f. rewrite HA', elem_of_cons.
      destruct (decide (f = dir)) as [->|]; [rewrite Et|]; split; try tauto; intros [|[[|] ?]]; try tauto; congruence.
    + split; [done|]. split; [done|]. intros f. rewrite Ho, not_elem_of_cons. destruct (decide (f = dir)) as [->|]; tauto.
  - apply (wp_close_fd fd dir); [done|]. intros r w' e Hop Hpp Hl. cbn [wp_cont].
    eapply wp_mono; [by apply (IH A)|]. cbn [st_w]. intros o s' (-> & (A' & Ha' & Hl' & HA') & Hp & Hd & Ho).
    split; [done|]. split.
    + exists A'. split; [done|]. split; [done|]. intros f. rewrite HA', elem_of_cons.
      destruct (decide (f = fd)) as [->|]; [rewrite Et|]; split; try tauto; intros [|[[|] ?]]; try tauto; congruence.
    + split; [congruence|]. split; [lia|]. intros f. rewrite Ho, Hop, elem_of_difference, elem_of_singleton, not_elem_of_cons.
      destruct (decide (f = fd)) as [->|]; [rewrite Et|]; [|tauto]. split; [tauto|]. intros [_ [[? _]|[|]]]; done.
Qed.

(** The first pass: what is open is allowed, or closed if the table has no
    room for it. *)
Lemma record_loop n dir c A (s : st W zs) :
  allows c A s -> dir ∈ opened s -> dir_pos (st_w s) dir = 0 -> (dents_left (st_w s) dir < n)%nat ->
  wp (each_fd n dir (record_fd dir)) (fun o s' => o = Ret tt
    /\ (exists A', allows c A' s' /\ length A' = length A
        /\ forall f, is_allowed f A' = true <-> (is_allowed f A = true \/ (f ∈ opened s /\ in_table f A = true)))
    /\ forall f, f ∈ opened s' <-> (f ∈ opened s /\ (in_table f A = true \/ f = dir))) s.
Proof.
  intros Ha Hd Hp Hn.
  set (I := fun pos (s' : st W zs) =>
    (exists A', allows c A' s' /\ length A' = length A
       /\ forall f, is_allowed f A' = true <-> (is_allowed f A = true \/ (f ∈ opened s /\ f < pos /\ in_table f A = true)))
    /\ dir ∈ opened s' /\ dir_pos (st_w s') dir = pos /\ 0 <= pos
    /\ forall f, f ∈ opened s' <-> (f ∈ opened s /\ (pos <= f \/ in_table f A = true \/ f = dir))).
  eapply wp_mono; [apply (each_fd_rule _ dir I n s)|].
  - intros pos s' (_ & H1 & H2 & _). done.
  - intros pos s0 r w' e es pos' ((A0 & Ha0 & Hl0 & HA0) & Hd0 & Hp0 & Hpos & Hf0) _ E Ho -> Hle Hes.
    eapply wp_mono; [apply (record_visit dir c _ A0); exact Ha0|]. cbn [st_w st_s].
    intros o s' (-> & (A' & Ha' & Hl' & HA') & Hp' & Hd' & Hf'). split; [done|]. split; [|done]. split; [|split; [|split; [|split]]].
    + exists A'. split; [done|]. split; [congruence|]. intros f. rewrite HA', HA0, Hes, Hf0, (in_table_length A A0) by done.
      split.
      * intros [[H1|(H1 & H2 & H3)]|[[[H1 H2] H3] H4]]; [by left|right; split; [done|]; split; [lia|done]|].
        right. split; [done|]. split; [lia|done].
      * intros [H1|(H1 & H2 & H3)]; [by left; left|]. destruct (decide (f < pos)); [by left; right|].
        right. split; [|done]. split; [|lia]. split; [done|]. left. lia.
    + apply Hf'. rewrite Ho. split; [done|]. right. by right.
    + done.
    + lia.
    + intros f. rewrite Hf', Ho, Hes, Hf0, (in_table_length A A0) by done. split.
      * intros [[H1 H2] H3]. split; [done|]. destruct H2 as [H2|]; [|tauto]. destruct H3 as [H3|]; [|tauto]. left.
        apply Z.nlt_ge. intros H4. apply H3. split; [tauto|lia].
      * intros [H1 [H2|H2]]; [|tauto]. split; [split; [done|left; lia]|]. left. intros [_ H3]. lia.
  - done.
  - rewrite Hp. split; [|split; [|split; [|split]]]; [|done|done|lia|].
    + exists A. split; [done|]. split; [done|]. intros f. split; [tauto|]. intros [|(H1 & H2 & _)]; [done|].
      apply (fd_range (st_w s)) in H1. lia.
    + intros f. split; [|tauto]. intros Hf. split; [done|]. left. by apply (fd_range (st_w s)).
  - intros o s' (-> & s0 & r & w' & e & ((A' & Ha' & Hl' & HA') & _ & _ & _ & Hf) & Hend & Ho & ->). split; [done|]. split.
    + exists A'. split; [done|]. split; [done|]. intros f. rewrite HA'. split; [tauto|]. intros [|[H1 H2]]; [tauto|].
      right. split; [done|]. split; [|done]. apply Hend, Hf. tauto.
    + cbn [st_w]. rewrite Ho. intros f. rewrite Hf. split; [|tauto]. intros [H1 [H2|H2]]; [|done].
      exfalso. assert (f < dir_pos (st_w s0) dir) by (apply Hend, Hf; tauto). lia.
Qed.

Lemma allows_self c s : z_ctx (st_s s) = Some c -> allows c (allowed_fds c) s.
Proof. intros E. unfold allows. rewrite E. by destruct c. Qed.

(** A call that leaves the table alone. *)
Lemma wp_neutral c (Q : outcome reply -> st W zs -> Prop) s :
  fd_neutral c ->
  (forall r w' e, open_fds w' = opened s -> Q (Ret r) (St w' ((c, r) :: st_log s) e (st_s s))) ->
  wp (syscall c) Q s.
Proof. intros Hc HQ. pose proof (k_neutral c (st_w s) Hc) as Hk. wsys r w' E. by apply HQ. Qed.

(** Opening the directory: it is open, from its beginning, or nothing changed. *)
Lemma wp_open_dir path fl mode (Q : outcome reply -> st W zs -> Prop) s :
  (forall r w' e, r_ret r < 0 -> open_fds w' = opened s -> Q (Ret r) (St w' ((COpen path fl mode, r) :: st_log s) e (st_s s))) ->
  (forall r w' e, 0 <= r_ret r -> (r_ret r ∉ opened s) -> open_fds w' = {[r_ret r]} ∪ opened s -> dir_pos w' (r_ret r) = 0 ->
     Q (Ret r) (St w' ((COpen path fl mode, r) :: st_log s) e (st_s s))) ->
  wp (syscall (COpen path fl mode)) Q s.
Proof.
  intros H1 H2. pose proof (k_open path fl mode (st_w s)) as Hk. wsys r w' E.
  destruct Hk as [[Hr Ho]|(Hr & Ho & Hp)]; [by apply H1|]. apply H2; [|done..].
  apply (fd_range w'). rewrite Ho. apply elem_of_union_l, elem_of_singleton. done.
Qed.

(** Closing the directory itself. *)
Lemma wp_close_dir d (Q : outcome unit -> st W zs -> Prop) s :
  (forall r w' e, open_fds w' = opened s ∖ {[d]} -> Q (Ret tt) (St w' ((CClose d, r) :: st_log s) e (st_s s))) ->
  wp (do_ (CClose d)) Q s.
Proof.
  intros HQ. unfold do_. wstep. pose proof (k_close d (st_w s)) as Hk. wsys r w' E. cbn zeta in Hk. cbn [snd] in Hk.
  wrun. apply HQ, Hk.
Qed.

Context (fuel : nat) (Hfuel : (max_dents < fuel)%nat).

Lemma enough_dents w d : (dents_left w d < fuel)%nat.
Proof. pose proof (dents_bound w d). lia. Qed.

(** The second pass of sanitize_fds. *)
Lemma close_phase c (s : st W zs) :
  z_ctx (st_s s) = Some c ->
  wp (r ← syscall (COpen (B "/proc/self/fd") O_DIRECTORY 0);
      (if r_ret r <? 0 then mret tt
       else each_fd fuel (r_ret r) (close_forbidden (r_ret r));; do_ (CClose (r_ret r))))
    (fun o s' => o = Ret tt /\ st_s s' = st_s s
      /\ ((exists r, r_ret r < 0 /\ (COpen (B "/proc/self/fd") O_DIRECTORY 0, r) ∈ st_log s') /\ opened s' = opened s
          \/ forall f, f ∈ opened s' <-> (f ∈ opened s /\ is_allowed f (allowed_fds c) = true))) s.
Proof.
  intros Hc. wstep. apply wp_open_dir.
  - intros r w' e Hr Ho. wrun. rewrite (proj2 (Z.ltb_lt _ 0) Hr). wrun. split; [done|]. split; [done|]. left.
    split; [exists r; split; [done|]; left|done].
  - intros r w' e Hr Hnew Ho Hp. wrun. rewrite (proj2 (Z.ltb_ge _ 0) Hr). wstep.
    eapply wp_mono; [eapply (close_loop fuel (r_ret r) c); cbn [st_s st_w]; [exact Hc| |exact Hp|apply enough_dents]|].
    { rewrite Ho. apply elem_of_union_l, elem_of_singleton. done. }
    intros o s' (-> & Es & Hf). cbn [wp_cont st_s st_w] in *. apply wp_close_dir. intros r1 w1 e1 Ho1. cbn [st_s st_w].
    split; [done|]. split; [done|]. right. intros f.
    rewrite Ho1, elem_of_difference, elem_of_singleton, Hf, Ho, elem_of_union, elem_of_singleton. unfold kept.
    destruct (decide (f = r_ret r)) as [->|]; tauto.
Qed.

Lemma extends_each_fd n dir visit : (forall fd, extends (visit fd)) -> extends (each_fd n dir visit : K unit).
Proof.
  intros Hv. assert (Hd : forall k buf bpos nread, extends (each_dirent k buf bpos nread visit : K unit)).
  { induction k as [|k IHk]; intros; cbn [each_dirent]; [by apply extends_pure|]. destruct (_ <=? _); [by apply extends_pure|].
    apply extends_bind; [|intros ?; apply IHk]. case_match; [by apply extends_pure|]. case_match; [apply Hv|by apply extends_pure]. }
  induction n as [|n IH]; cbn [each_fd]; [by apply extends_pure|]. apply extends_bind; [apply extends_syscall|]. intros r.
  case_match; [by apply extends_pure|]. apply extends_bind; [apply Hd|]. intros _. apply IH.
Qed.

Lemma extends_close (s : st W zs) :
  wp (r ← syscall (COpen (B "/proc/self/fd") O_DIRECTORY 0);
      (if r_ret r <? 0 then mret tt
       else each_fd fuel (r_ret r) (close_forbidden (r_ret r));; do_ (CClose (r_ret r))))
    (fun _ s' => exists evs, st_log s' = evs ++ st_log s) s.
Proof.
  revert s. change (extends (r ← syscall (COpen (B "/proc/self/fd") O_DIRECTORY 0);
      (if r_ret r <? 0 then mret tt
       else each_fd fuel (r_ret r) (close_forbidden (r_ret r));; do_ (CClose (r_ret r))) : K unit)).
  apply extends_bind; [apply extends_syscall|]. intros r. case_match; [by apply extends_pure|].
  apply extends_bind; [apply extends_each_fd; intros fd|intros _; unfold do_; extends_tac].
  unfold close_forbidden, get_ctx, do_. extends_tac.
Qed.

(** The first pass: fork_pre in the child. *)
Lemma record_phase c A (s : st W zs) :
  allows c A s -> (forall f, is_allowed f A = false) ->
  wp (r ← syscall (COpen (B "/proc/self/fd") O_DIRECTORY 0);
      let fd_dir := r_ret r in
      if fd_dir <? 0 then mret tt
      else
        each_fd fuel fd_dir (record_fd fd_dir);;
        c ← get_ctx;
        if negb (in_table fd_dir (allowed_fds c)) then crash
        else
          upd_ctx (fun c => set_allowed_fds (<[Z.to_nat fd_dir := false]> (allowed_fds c)) c);;
          do_ (CClose fd_dir))
    (on_ret (fun _ s' => exists A', allows c A' s' /\ length A' = length A
      /\ ((exists r, r_ret r < 0 /\ (COpen (B "/proc/self/fd") O_DIRECTORY 0, r) ∈ st_log s')
          \/ (forall f, is_allowed f A' = true <-> (f ∈ opened s /\ in_table f A = true))
             /\ forall f, f ∈ opened s' <-> (f ∈ opened s /\ in_table f A = true)))) s.
Proof.
  intros Ha HA. wstep. apply wp_open_dir.
  - intros r w' e Hr Ho. wrun. rewrite (proj2 (Z.ltb_lt _ 0) Hr). wrun. exists A. split; [done|]. split; [done|]. left.
    exists r. split; [done|]. left.
  - intros r w' e Hr Hnew Ho Hp. wrun. cbn zeta. rewrite (proj2 (Z.ltb_ge _ 0) Hr). wstep.
    eapply wp_mono; [eapply (record_loop fuel (r_ret r) c A); cbn [st_w]; [exact Ha| |exact Hp|apply enough_dents]|].
    { rewrite Ho. apply elem_of_union_l, elem_of_singleton. done. }
    cbn [st_w]. intros o s' (-> & (A' & Ha' & Hl & HA') & Hf). cbn [wp_cont]. unfold get_ctx, upd_ctx. wrun.
    rewrite Ha'. wrun. cbn [allowed_fds set_allowed_fds]. rewrite (in_table_length A A') by done.
    destruct (in_table (r_ret r) A) eqn:Et; cbn [negb]; [|by wrun]. wrun. rewrite Ha'. wrun.
    apply wp_close_dir. intros r1 w1 e1 Ho1. cbn [on_ret st_w].
    exists (<[Z.to_nat (r_ret r) := false]> A'). split; [done|]. split; [by rewrite length_insert|]. right. split.
    + intros f. rewrite is_allowed_insert by (by rewrite (in_table_length A)).
      destruct (Z.eqb_spec f (r_ret r)) as [->|Hne]; [split; [done|]; by intros [? _]|].
      rewrite HA', HA, Ho, elem_of_union, elem_of_singleton. split; [intros [|[[|] ?]]; done|]. intros [? ?]. right. auto.
    + intros f. cbn [st_w] in Ho1. rewrite Ho1, elem_of_difference, elem_of_singleton, Hf, Ho, elem_of_union, elem_of_singleton.
      destruct (decide (f = r_ret r)) as [->|]; tauto.
Qed.

(** The directory was not opened in vain: an answer below 0 is not in the log
    of a run that started with none. *)
Definition never_refused (log : list event) : Prop :=
  forall r, (COpen (B "/proc/self/fd") O_DIRECTORY 0, r) ∈ log -> 0 <= r_ret r.

Lemma fork_pre_records c (s s' : st W zs) c' :
  z_ctx (st_s s) = Some c -> (forall f, is_allowed f (allowed_fds c) = false) ->
  fork_pre fuel s = (Ret tt, s') -> z_ctx (st_s s') = Some c' -> pid c' <= 0 -> never_refused (st_log s') ->
  length (allowed_fds c') = length (allowed_fds c)
  /\ forall f, is_allowed f (allowed_fds c') = true <-> (f ∈ opened s /\ in_table f (allowed_fds c) = true).
Proof.
  intros Hc HA E Hc' Hpid Hlog.
  enough (Hw : wp (fork_pre fuel) (on_ret (fun _ s1 => forall c1, z_ctx (st_s s1) = Some c1 -> pid c1 <= 0 ->
    never_refused (st_log s1) -> length (allowed_fds c1) = length (allowed_fds c)
    /\ forall f, is_allowed f (allowed_fds c1) = true <-> (f ∈ opened s /\ in_table f (allowed_fds c) = true))) s)
    by exact (wp_on_ret _ _ _ _ _ Hw E c' Hc' Hpid Hlog).
  clear E Hc' Hpid Hlog. unfold fork_pre, sigmask, do_. wrun. apply wp_neutral; [exact I|]. intros r0 w0 e0 Ho0. wrun.
  apply wp_neutral; [exact I|]. intros r1 w1 e1 Ho1. wrun. unfold upd_ctx, is_child, get_ctx. wrun. rewrite Hc. wrun.
  cbn [z_ctx zset_ctx]. wrun. cbn [pid set_pid]. destruct (Z.leb_spec (r_ret r1) 0) as [Hr|Hr]; cbn [negb].
  - eapply wp_mono; [apply (record_phase (set_pid (r_ret r1) c) (allowed_fds c)); [by destruct c|exact HA]|].
    intros [u| | |] s1; cbn [on_ret]; [|done..]. intros (A' & Ha & Hl & Hor) c1 Hc1 _ Hlog.
    unfold allows in Ha. rewrite Ha in Hc1. injection Hc1 as <-. cbn [allowed_fds set_allowed_fds]. split; [done|].
    destruct Hor as [(r & Hr' & Hin)|[Hor _]]; [apply Hlog in Hin; lia|]. cbn [st_w] in Hor, Ho1. intros f.
    rewrite Hor, Ho1, Ho0. done.
  - wrun. intros c1 [= <-] Hp. cbn [pid set_pid] in Hp. lia.
Qed.

(** Whether sanitize_fds looks at the exempted descriptors: there are some, and
    the process is a forked app whose runtime has a list to ignore. *)
Definition exempts (c : ctx) : bool :=
  (flags c &? APP_FORK_AND_SPECIALIZE) && negb (bool_decide (exempted_fds c = []))
  && match args c with AppArgs a => bool_decide (a_fds_to_ignore a <> None) | ServerArgs => false end.

Lemma sanitize_closes c (s s' : st W zs) :
  z_ctx (st_s s) = Some c -> exempts c = false -> pid c <= 0 ->
  sanitize_fds fuel s = (Ret tt, s') -> never_refused (st_log s') ->
  forall f, f ∈ opened s' <-> (f ∈ opened s /\ is_allowed f (allowed_fds c) = true).
Proof.
  intros Hc Hex Hpid E Hlog.
  enough (Hw : wp (sanitize_fds fuel) (on_ret (fun _ s1 => never_refused (st_log s1) ->
    forall f, f ∈ opened s1 <-> (f ∈ opened s /\ is_allowed f (allowed_fds c) = true))) s)
    by exact (wp_on_ret _ _ _ _ _ Hw E Hlog).
  clear E Hlog. unfold sanitize_fds, is_child, can_exempt_fd, get_ctx. wrun. rewrite Hc. wrun.
  rewrite (proj2 (Z.leb_le _ 0) Hpid). cbn [negb]. wrun. rewrite Hc. wrun.
  assert (Hgo : forall can, can && negb (bool_decide (exempted_fds c = [])) = false -> wp (c ← (s ← get; match z_ctx s with Some c => mret c | None => crash end);
     (if can && negb (bool_decide (exempted_fds c = [])) then keep_exempted else mret tt);;
     r ← syscall (COpen (B "/proc/self/fd") O_DIRECTORY 0);
     (if r_ret r <? 0 then mret tt else each_fd fuel (r_ret r) (close_forbidden (r_ret r));; do_ (CClose (r_ret r))))
    (on_ret (fun _ s1 => never_refused (st_log s1) ->
      forall f, f ∈ opened s1 <-> (f ∈ opened s /\ is_allowed f (allowed_fds c) = true))) s).
  { intros can Hcan. wrun. rewrite Hc. wrun. rewrite Hcan. wrun.
    refine (wp_bind_inv _ _ _ _ _). eapply wp_mono; [exact (close_phase c s Hc)|]. intros o s2 (-> & _ & [[(r' & Hr & Hin) _]|Hf]); cbn [on_ret]; [|done].
    intros Hlog. apply Hlog in Hin. lia. }
  unfold exempts in Hex.
  destruct (flags c &? APP_FORK_AND_SPECIALIZE); cbn [negb andb] in *; [|wrun; exact (wp_bind_inv _ _ _ _ (Hgo false eq_refl))].
  destruct (args c) as [a|]; [|by wrun]. wrun. refine (wp_bind_inv _ _ _ _ (Hgo _ _)). by rewrite andb_comm.
Qed.

(** [A'] allows what [A] does and the descriptors [fds] that fit. *)
Definition adds (fds : list Z) (A A' : list bool) : Prop :=
  length A' = length A
  /\ forall f, is_allowed f A' = true <-> (is_allowed f A = true \/ (f ∈ fds /\ in_table f A = true)).

Lemma adds_app fds fds' A A1 A2 : adds fds A A1 -> adds fds' A1 A2 -> adds (fds ++ fds') A A2.
Proof.
  intros [L1 H1] [L2 H2]. split; [congruence|]. intros f. rewrite H2, H1, (in_table_length A A1), elem_of_app by done. tauto.
Qed.

Lemma adds_nil A : adds [] A A.
Proof. split; [done|]. intros f. split; [tauto|]. intros [|[[]%not_elem_of_nil _]]; done. Qed.

Lemma wp_allow_all c fds : forall A (Q : outcome unit -> st W zs -> Prop) s,
  allows c A s ->
  (forall x A', z_ctx x = Some (set_allowed_fds A' c) -> adds fds A A' ->
     Q (Ret tt) (St (st_w s) (st_log s) (st_errno s) x)) ->
  wp (allow_all fds) Q s.
Proof.
  induction fds as [|fd fds IH]; intros A Q s Ha HQ; cbn [allow_all].
  { wrun. pose proof (HQ (st_s s) A Ha (adds_nil A)) as HQ'. by destruct s. }
  wstep. eapply wp_allow; [exact Ha|]. intros x A1 Hx Hl HA. cbn [wp_cont].
  eapply (IH A1); [exact Hx|]. cbn [st_w st_log st_errno]. intros x' A' Hx' Hadd. apply (HQ x' A'); [done|].
  change (fd :: fds) with ([fd] ++ fds). eapply adds_app; [|exact Hadd]. split; [done|]. intros f.
  rewrite HA, orb_true_iff, andb_true_iff, Z.eqb_eq, list_elem_of_singleton. done.
Qed.

(** A new array is asked for; if there is one, the exempted descriptors are
    allowed. *)
Lemma wp_update_array old_len c (Q : outcome Z -> st W zs -> Prop) s :
  z_ctx (st_s s) = Some c ->
  (forall w' log' e x c' arr, open_fds w' = opened s ->
     (exists n r evs, arr = r_ret r /\ log' = evs ++ (CJni (NewIntArray n), r) :: st_log s) ->
     z_ctx x = Some c' -> adds (if arr =? 0 then [] else exempted_fds c) (allowed_fds c) (allowed_fds c') ->
     Q (Ret arr) (St w' log' e x)) ->
  wp (update_fd_array old_len) Q s.
Proof.
  intros Hc HQ. unfold update_fd_array, get_ctx, upd_ctx, jni_. wrun. rewrite Hc. wrun. apply wp_neutral; [exact I|].
  intros r w' e Ho. wrun. destruct (Z.eqb_spec (r_ret r) 0) as [E|E].
  - wrun. apply (HQ _ _ _ _ c); [done| |done|cbn; apply adds_nil]. eexists _, r, []. by rewrite E.
  - wrun. apply wp_neutral; [exact I|]. intros r2 w2 e2 Ho2. wrun. cbn [st_w] in Ho2.
    eapply (wp_allow_all c _ (allowed_fds c)); [by apply allows_self|]. intros x A' Hx Hadd. wrun. rewrite Hx. wrun.
    eapply (HQ _ _ _ _ (match args c with
      | AppArgs a => set_args (AppArgs (AppArgs_mk (a_uid a) (a_nice_name a) (a_app_data_dir a) (Some (r_ret r)))) (set_allowed_fds A' c)
      | ServerArgs => set_allowed_fds A' c end)).
    + congruence.
    + eexists _, r, [_]. done.
    + cbn [args set_allowed_fds]. by destruct (args c).
    + rewrite (proj2 (Z.eqb_neq _ 0) E). by destruct (args c).
Qed.

Lemma keep_exempted_spec c a arr (s : st W zs) :
  z_ctx (st_s s) = Some c -> args c = AppArgs a -> a_fds_to_ignore a = Some arr ->
  wp keep_exempted (on_ret (fun _ s' => exists c' runtime got, z_ctx (st_s s') = Some c' /\ opened s' = opened s
    /\ (exists evs, st_log s' = evs ++ st_log s)
    /\ (arr = 0 -> runtime = [])
    /\ (arr <> 0 -> exists r, (CJni (GetIntArrayElements arr), r) ∈ st_log s' /\ runtime ⊆ r_aux r)
    /\ (exists n r, (CJni (NewIntArray n), r) ∈ st_log s' /\ got = negb (r_ret r =? 0))
    /\ adds (runtime ++ if got : bool then exempted_fds c else []) (allowed_fds c) (allowed_fds c'))) s.
Proof.
  intros Hc Ha Harr. unfold keep_exempted, get_ctx. wrun. rewrite Hc. wrun. rewrite Ha, Harr.
  destruct (Z.eqb_spec arr 0) as [->|Hne]; cbn [negb].
  - wrun. apply (wp_update_array 0 c); [done|]. intros w' log' e x c' arr Ho (n & r & evs & -> & ->) Hx Hadd. wrun.
    exists c', [], (negb (r_ret r =? 0)). split; [done|]. split; [done|].
    split; [exists (evs ++ [(CJni (NewIntArray n), r)]); by rewrite <- app_assoc|]. split; [done|]. split; [done|].
    split; [exists n, r; split; [|done]; apply elem_of_app; right; left|]. by destruct (r_ret r =? 0).
  - unfold jni_. wrun. apply wp_neutral; [exact I|]. intros r1 w1 e1 Ho1. wrun.
    apply wp_neutral; [exact I|]. intros r2 w2 e2 Ho2. wrun. destruct ((r_ret r1 =? 0) && _); [by wrun|]. wrun.
    eapply (wp_allow_all c _ (allowed_fds c)); [by apply allows_self|]. intros x A1 Hx Hadd1. wrun.
    apply (wp_update_array _ (set_allowed_fds A1 c)); [done|].
    cbn [allowed_fds exempted_fds set_allowed_fds st_w st_log] in *.
    intros w' log' e x' c' arr' Ho (n & r & evs & -> & ->) Hx' Hadd. wrun.
    assert (Hend : forall w3 log3 e3, open_fds w3 = opened s ->
      (exists evs', log3 = evs' ++ evs ++ (CJni (NewIntArray n), r) :: (CJni (GetArrayLength arr), r2)
         :: (CJni (GetIntArrayElements arr), r1) :: st_log s) ->
      exists c' runtime got, z_ctx (st_s (St w3 log3 e3 x')) = Some c' /\ opened (St w3 log3 e3 x') = opened s
        /\ (exists evs, st_log (St w3 log3 e3 x') = evs ++ st_log s)
        /\ (arr = 0 -> runtime = [])
        /\ (arr <> 0 -> exists r, (CJni (GetIntArrayElements arr), r) ∈ st_log (St w3 log3 e3 x') /\ runtime ⊆ r_aux r)
        /\ (exists n r, (CJni (NewIntArray n), r) ∈ st_log (St w3 log3 e3 x') /\ got = negb (r_ret r =? 0))
        /\ adds (runtime ++ if got : bool then exempted_fds c else []) (allowed_fds c) (allowed_fds c')).
    { intros w3 log3 e3 Ho3 (evs' & ->). cbn [st_s st_w st_log].
      exists c', (take (Z.to_nat (r_ret r2)) (r_aux r1)), (negb (r_ret r =? 0)). split; [done|]. split; [done|].
      split. { eexists (evs' ++ evs ++ [_; _; _]). by rewrite <- !app_assoc. }
      split; [done|]. split.
      { intros _. exists r1. split; [rewrite !elem_of_app; right; right; by do 2 right; left|]. intros f Hf. eapply elem_of_sublist; [exact Hf|apply sublist_take]. }
      split. { exists n, r. split; [|done]. rewrite !elem_of_app. right. right. left. }
      eapply adds_app; [exact Hadd1|]. by destruct (r_ret r =? 0). }
    assert (Hw' : open_fds w' = opened s) by congruence.
    destruct (r_ret r =? 0) eqn:Er; cbn [negb]; wrun.
    + apply wp_neutral; [exact I|]. intros r4 w4 e4 Ho4. wrun. apply Hend; [cbn [st_w] in Ho4; congruence|]. by eexists [_].
    + apply wp_neutral; [exact I|]. intros r3 w3 e3 Ho3. wrun. apply wp_neutral; [exact I|]. intros r4 w4 e4 Ho4. wrun.
      apply Hend; [cbn [st_w] in *; congruence|]. by eexists [_; _].
Qed.

(** Exempted descriptors: in a forked app process whose runtime has a list
    of descriptors to ignore, sanitize_fds keeps exactly the open descriptors
    that were open at the fork, those of the runtime's list, and, if the
    runtime could allocate a longer list, those the modules exempted. *)
Lemma exempted_kept c a arr (s s' : st W zs) :
  z_ctx (st_s s) = Some c -> pid c <= 0 -> (flags c &? APP_FORK_AND_SPECIALIZE) = true ->
  args c = AppArgs a -> a_fds_to_ignore a = Some arr -> exempted_fds c <> [] ->
  sanitize_fds fuel s = (Ret tt, s') -> never_refused (st_log s') ->
  exists runtime got,
    (arr = 0 -> runtime = [])
    /\ (arr <> 0 -> exists r, (CJni (GetIntArrayElements arr), r) ∈ st_log s' /\ runtime ⊆ r_aux r)
    /\ (exists n r, (CJni (NewIntArray n), r) ∈ st_log s' /\ got = negb (r_ret r =? 0))
    /\ forall f, f ∈ opened s' <->
         (f ∈ opened s /\ (is_allowed f (allowed_fds c) = true
            \/ (f ∈ runtime \/ got = true /\ f ∈ exempted_fds c) /\ in_table f (allowed_fds c) = true)).
Proof.
  intros Hc Hpid Hfl Ha Harr Hex E Hlog. revert Hlog. revert E. wp_of_run.
  unfold sanitize_fds, is_child, can_exempt_fd, get_ctx. wrun. rewrite Hc. wrun. rewrite (proj2 (Z.leb_le _ 0) Hpid).
  cbn [negb]. wrun. rewrite Hc. wrun. rewrite Hfl, Ha. cbn [negb]. wrun. rewrite Hc. wrun.
  rewrite Harr, bool_decide_eq_true_2, bool_decide_eq_false_2 by done. cbn [andb negb].
  eapply wp_mono; [exact (keep_exempted_spec c a arr s Hc Ha Harr)|].
  intros [u| | |] s1; cbn [wp_cont on_ret]; [|done..].
  intros (c' & runtime & got & Hc' & Ho & (evs & El) & H1 & H2 & H3 & Hadd).
  eapply wp_mono; [apply wp_and; [exact (close_phase c' s1 Hc')|exact (extends_close s1)]|].
  intros o s2 ((-> & _ & Hcl) & evs2 & El2) Hlog. cbn [on_ret] in *.
  assert (Hsub : forall ev, ev ∈ st_log s1 -> ev ∈ st_log s2) by (intros ev Hev; rewrite El2; apply elem_of_app; by right).
  exists runtime, got. split; [done|]. split; [intros Hne; destruct (H2 Hne) as (r & Hin & Hr); eauto|].
  split; [destruct H3 as (n & r & Hin & Hr); eauto|]. intros f.
  destruct Hcl as [[(r & Hr & Hin) _]|Hcl]; [apply Hlog in Hin; lia|]. rewrite Hcl, Ho, (proj2 Hadd f), elem_of_app.
  destruct got; [tauto|]. rewrite elem_of_nil. assert (false = true -> False) by done. tauto.
Qed.
End Close.

(** ** A kernel of this kind *)

Record demo_kernel := KW { kw_fds : gset Z; kw_pos : gmap Z Z }.

Definition kw_open (w : demo_kernel) : gset Z := filter (fun f => 0 <= f < 2 ^ 31) (kw_fds w).
Definition kw_at (w : demo_kernel) (d : Z) : Z := default 0 (kw_pos w !! d).
Definition kw_fresh (w : demo_kernel) : Z :=
  default (-1) (head (filter (fun f => f ∉ kw_open w) (seqZ 0 64))).
Definition kw_dirent (f : Z) : dirent := Dirent 1 2 10 (digits 10 20 f []) [] (Some f).

#[local] Instance kw_world : World demo_kernel := fun c w =>
  match c with
  | CClose f => (ans 0, KW (kw_fds w ∖ {[f]}) (kw_pos w))
  | COpen _ _ _ =>
      let d := kw_fresh w in
      if d <? 0 then (Reply (-1) 24 [] [], w) else (ans d, KW ({[d]} ∪ kw_fds w) (<[d := 0]> (kw_pos w)))
  | CGetdents d _ =>
      match elements (filter (fun f => kw_at w d <= f) (kw_open w)) with
      | [] => (ans 0, w)
      | fds => let data := concat (dirent_bytes <$> (kw_dirent <$> fds)) in
               (Reply (Z.of_nat (length data)) 0 data [], KW (kw_fds w) (<[d := 2 ^ 31]> (kw_pos w)))
      end
  | CJni (NewIntArray _) => (ans 77, w)
  | CJni (GetArrayLength _) => (ans 1, w)
  | CJni (GetIntArrayElements _) => (Reply 9 0 [] [6], w)
  | _ => (ans 0, w)
  end.

Lemma length_digits base n : forall x acc, (length (digits base n x acc) <= n + length acc)%nat.
Proof.
  induction n as [|n IH]; intros x acc; cbn [digits]; [lia|]. case_match; cbn [length]; [lia|].
  etrans; [apply IH|]. cbn [length]. lia.
Qed.

Lemma kw_dirent_ok f : 0 <= f < 2 ^ 31 -> dirent_ok (kw_dirent f).
Proof.
  intros Hf. destruct (digits_spec 10 20 f) as (H1 & H2 & H3); [lia|lia|lia|]. split.
  - unfold reclen. cbn [kw_dirent e_name e_pad length]. pose proof (length_digits 10 20 f []). cbn [length] in *. lia.
  - done.
Qed.

Lemma listed_kw fds : listed (kw_dirent <$> fds) = fds.
Proof. induction fds as [|f fds IH]; [done|]. cbn. unfold listed in IH. cbn in IH. by rewrite IH. Qed.

Lemma kw_open_spec w f : f ∈ kw_open w <-> (0 <= f < 2 ^ 31 /\ f ∈ kw_fds w).
Proof. unfold kw_open. by rewrite elem_of_filter. Qed.

Lemma kw_fresh_spec w : 0 <= kw_fresh w -> kw_fresh w < 64 /\ kw_fresh w ∉ kw_open w.
Proof.
  unfold kw_fresh. destruct (filter _ _) as [|d l] eqn:E; cbn; [lia|]. intros _.
  assert (Hd : d ∈ filter (fun f => f ∉ kw_open w) (seqZ 0 64)) by (rewrite E; left).
  apply list_elem_of_filter in Hd as [H1 H2]. apply elem_of_seqZ in H2. split; [lia|done].
Qed.

#[local] Instance kw_kernel : FdKernel demo_kernel.
Proof.
  refine {| open_fds := kw_open; dir_pos := kw_at; dents_left w d := if kw_at w d <? 2 ^ 31 then 1%nat else 0%nat;
            max_dents := 1 |}.
  - intros w d. case_match; lia.
  - intros w f Hf. apply kw_open_spec in Hf. tauto.
  - intros [] w Hc; try done. destruct c; done.
  - intros f w. change ((sys (CClose f) w).2) with (KW (kw_fds w ∖ {[f]}) (kw_pos w)). cbn zeta.
    split; [|done]. apply set_eq. intros x.
    rewrite elem_of_difference, !kw_open_spec. cbn [kw_fds]. rewrite elem_of_difference. tauto.
  - intros path fl mode w. unfold sys, kw_world. destruct (Z.ltb_spec (kw_fresh w) 0) as [H|H]; [left; by split|].
    cbn [r_ret ans].
    destruct (kw_fresh_spec w H) as [H1 H2]. right. split; [done|]. split; [|unfold kw_at; cbn; by rewrite lookup_insert_eq].
    apply set_eq. intros x. rewrite elem_of_union, !kw_open_spec, elem_of_singleton. cbn [kw_fds].
    rewrite elem_of_union, elem_of_singleton. split; [tauto|]. intros [->|]; [split; [lia|by left]|tauto].
  - intros d n w Hd. unfold sys, kw_world. destruct (elements _) as [|f fds] eqn:E.
    + split; [done|]. left. split; [done|]. intros f Hf. apply Z.nle_gt. intros Hle.
      assert (Hin : f ∈ elements (filter (fun f => kw_at w d <= f) (kw_open w))) by (by apply elem_of_elements, elem_of_filter).
      rewrite E in Hin. by apply elem_of_nil in Hin.
    + assert (Hall : forall x, x ∈ f :: fds <-> (x ∈ kw_open w /\ kw_at w d <= x < 2 ^ 31)).
      { intros x. rewrite <- E, elem_of_elements, elem_of_filter, kw_open_spec. split; [intros [? [? ?]]|intros [[? ?] ?]]; tauto || (split; [lia|tauto]). }
      assert (Hpos : kw_at (KW (kw_fds w) (<[d := 2 ^ 31]> (kw_pos w))) d = 2 ^ 31) by (unfold kw_at; cbn; by rewrite lookup_insert_eq).
      split; [done|]. right. exists (kw_dirent <$> f :: fds). split; [done|]. rewrite Hpos.
      assert (Hf : kw_at w d < 2 ^ 31) by (destruct (proj1 (Hall f)); [left|lia]).
      split. { apply Forall_fmap, Forall_forall. intros x Hx. apply kw_dirent_ok. apply Hall in Hx as [Hx _]. apply kw_open_spec in Hx. tauto. }
      split; [done|]. split; [done|]. split; [rewrite Z.ltb_irrefl, (proj2 (Z.ltb_lt _ _) Hf); lia|]. split; [lia|].
      intros x. rewrite listed_kw. apply Hall.
Defined.

Lemma never_refused_check (log : list event) :
  forallb (fun ev => match ev.1 with COpen _ _ _ => 0 <=? r_ret ev.2 | _ => true end) log = true -> never_refused log.
Proof.
  intros H r Hin. rewrite forallb_forall in H. apply list_elem_of_In in Hin. specialize (H _ Hin). cbn in H. by apply Z.leb_le.
Qed.

Definition demo_args : app_args := AppArgs_mk 10001 1 0 (Some 3).
Definition demo_ctx (fl : Z) (ex : list Z) : ctx :=
  Ctx 1 (AppArgs demo_args) None [] (-1) fl 0 (replicate 16 false) ex [] [].
Definition demo_zs (c : ctx) : zs :=
  ZS (LK ∅ 4096 ∅ []) so_init (DaemonSt [] 0 false) [] (Some c) true Null ∅ (Art 0 0 0) ∅ false false.
Definition demo_fork : st demo_kernel zs := St (KW {[0; 1; 2]} ∅) [] 0 (demo_zs (demo_ctx APP_FORK_AND_SPECIALIZE [5])).
(** The modules open the descriptors 5, 6 and 7, and exempted 5. *)
Definition with_more (s : st demo_kernel zs) : st demo_kernel zs :=
  St (KW ({[5; 6; 7]} ∪ kw_fds (st_w s)) (kw_pos (st_w s))) (st_log s) (st_errno s) (st_s s).

Lemma demo_none f : is_allowed f (replicate 16 false) = false.
Proof.
  unfold is_allowed. rewrite nth_lookup. destruct (replicate 16 false !! Z.to_nat f) eqn:E; [|apply andb_false_r].
  apply lookup_replicate in E as [-> _]. apply andb_false_r.
Qed.

