(* ===== verification/Specialize.v ===== *)
(** Specialising a process: loading the modules, calling them, unloading them,
    and the decisions about the process's mounts (loader/src/injector/module.cpp
    from run_modules_pre on, system_server.cpp). *)
From S2P Require Import Prelude Sys Text ProcUtils Mem Linker ModLoader Sort ElfParser Unmount Fossil Daemon Atexit SoList.
From S2P Require Import Context Fds.
Open Scope Z_scope.

Definition AID_ISOLATED_START : Z := 90000.
Definition AID_ISOLATED_END : Z := 99999.
Definition MNT_DETACH : Z := 2.

(** ** Whether the zygote's own mounts may be detached *)

Definition is_font (trace : mount_info) : bool := contains (target trace) (B "/font").

Definition is_product_overlay (is_magisk : bool) (trace : mount_info) : bool :=
  if negb (starts_with (target trace) (B "/product")) then false
  else if starts_with (target trace) (B "/product/bin") then false
  else if negb is_magisk && negb (beq (target trace) (B "/product")) then false
  else true.

Definition abort_zygote_unmount (traces : list mount_info) (info_flags : Z) : bool :=
  if bool_decide (traces = []) then true
  else if existsb is_font traces then true
  else existsb (is_product_overlay (info_flags &? PROCESS_ROOT_IS_MAGISK)) traces.

Section Ops.
Context {W : Type} `{!World W} `{!Regex} `{!Lsplt} `{!ModuleCode} `{!HashOrder} `{!StdSort}.
Context (fuel : nat) (a : arch) (interposed : list Z) (page_sz : Z).
Abbreviation K := (M W zs).

(** ** Modules *)

(** One module of the daemon's list: loaded, and kept if it has an entry point. *)
Definition load_module (i : Z) (m : Module_) : K unit :=
  '(handle, _) ← in_lk (open_module fuel a interposed (m_memfd m) (B "zygisk-module"));
  entry ← (if negb (handle =? 0) then in_lk (module_symbol fuel handle (B "zygisk_module_entry")) else mret 0);
  if negb (entry =? 0) then upd_ctx (fun c => set_modules (modules c ++ [new_ZygiskModule i handle entry]) c)
  else mret tt.

Fixpoint load_modules (i : Z) (ms : list Module_) : K unit :=
  match ms with
  | [] => mret tt
  | m :: ms' => load_module i m;; load_modules (i + 1) ms'
  end.

(** The destructors of the list's descriptors, last element first. *)
Fixpoint close_memfds (fds : list Z) : K unit :=
  match fds with
  | [] => mret tt
  | fd :: fds' => (if 0 <=? fd then do_ (CClose fd) else mret tt);; close_memfds fds'
  end.

Definition start_module (i : nat) : K unit :=
  onLoad fuel i;;
  c ← get_ctx;
  if (flags c &? APP_SPECIALIZE) then preAppSpecialize fuel i
  else if (flags c &? SERVER_FORK_AND_SPECIALIZE) then preServerSpecialize fuel i
  else mret tt.

Fixpoint for_modules (body : nat -> K unit) (ixs : list nat) : K unit :=
  match ixs with [] => mret tt | i :: ixs' => body i;; for_modules body ixs' end.

Definition module_indices : K (list nat) := c ← get_ctx; mret (seq 0 (length (modules c))).

Definition run_modules_pre : K unit :=
  ms ← in_daemon (ReadModules fuel);
  load_modules 0 ms;;
  ixs ← module_indices;
  for_modules start_module ixs;;
  close_memfds (reverse (m_memfd <$> ms)).

Definition finish_module (i : nat) : K unit :=
  c ← get_ctx;
  if (flags c &? APP_SPECIALIZE) then postAppSpecialize fuel i
  else if (flags c &? SERVER_FORK_AND_SPECIALIZE) then postServerSpecialize fuel i
  else mret tt.

Definition loadedBySystem (m : zmodule) : K bool := custom ← in_lk (IsCustom (handle m)); mret (negb custom).
Definition tryUnload (m : zmodule) : K bool := if unload m then in_lk (close_module (handle m)) else mret false.

Fixpoint count_system (ms : list zmodule) : K Z :=
  match ms with
  | [] => mret 0
  | m :: ms' =>
      by_system ← loadedBySystem m;
      n ← count_system ms';
      mret ((if by_system : bool then 1 else 0) + n)
  end.

(** How many modules were unloaded, and how many of those the system loaded. *)
Fixpoint unload_modules (ms : list zmodule) : K (Z * Z) :=
  match ms with
  | [] => mret (0, 0)
  | m :: ms' =>
      by_system ← loadedBySystem m;
      unloaded ← tryUnload m;
      '(n, n_system) ← unload_modules ms';
      mret (if unloaded : bool then (1 + n, (if by_system : bool then 1 else 0) + n_system) else (n, n_system))
  end.

(** The traces the unloaded modules leave. *)
Definition scrub_modules (modules_unloaded system_loaded system_unloaded : Z) : K unit :=
  c ← get_ctx;
  s ← get;
  match z_hook s with
  | Null => mret tt
  | _ =>
      if bool_decide (modules c = []) then mret tt
      else
        let n := Z.of_nat (length (modules c)) in
        (if n =? modules_unloaded then clean_libc_trace fuel page_sz else mret tt);;
        (if 0 <? system_loaded
         then clean_linker_trace fuel (B "zygisk-module") system_loaded system_unloaded true None None;; mret tt
         else mret tt);;
        upd_hook (set_should_spoof_maps ((flags c &? APP_SPECIALIZE) && (0 <? n - modules_unloaded)))
  end.

Definition run_modules_post : K unit :=
  upd_ctx (fun c => set_flags (Z.lor (flags c) POST_SPECIALIZE) c);;
  ixs ← module_indices;
  for_modules finish_module ixs;;
  c ← get_ctx;
  system_loaded ← count_system (modules c);
  '(modules_unloaded, system_unloaded) ← unload_modules (reverse (modules c));
  scrub_modules modules_unloaded system_loaded system_unloaded.

(** ** An app *)

Definition app : K app_args := c ← get_ctx; match args c with AppArgs a => mret a | ServerArgs => crash end.

(** The uid the daemon is asked about: for an isolated service, the owner of
    its data directory. *)
Definition effective_uid (ap : app_args) : K Z :=
  let uid := u32 (a_uid ap) in
  let is_isolated_aid := (AID_ISOLATED_START <=? uid) && (uid <=? AID_ISOLATED_END) in
  if negb (is_isolated_aid && negb (a_app_data_dir ap =? 0)) then mret uid
  else
    data_dir ← jni_ (GetStringUTFChars (a_app_data_dir ap));
    if r_ret data_dir =? 0 then mret uid
    else
      st ← syscall (CStat (c_str (r_data data_dir)));
      let uid := if negb (r_ret st =? -1) then u32 (nth 0 (r_aux st) 0) else uid in
      jni_ (ReleaseStringUTFChars (a_app_data_dir ap) (r_ret data_dir));;
      mret uid.

(** An isolated process that cannot reach the daemon goes without it. *)
Definition skip_daemon (ap : app_args) : K bool :=
  let uid := u32 (a_uid ap) in
  if negb ((AID_ISOLATED_START <=? uid) && (uid <=? AID_ISOLATED_END)) then mret false
  else
    fd ← in_daemon (Connect 1);
    (if 0 <=? fd then do_ (CClose fd) else mret tt);;
    mret (fd =? -1).

Definition app_specialize_pre : K unit :=
  ap ← app;
  uid ← effective_uid ap;
  skip_zygiskd ← skip_daemon ap;
  c ← get_ctx;
  (if negb skip_zygiskd && (info_flags c =? 0)
   then f ← in_daemon (GetProcessFlags fuel uid); upd_ctx (set_info_flags f)
   else mret tt);;
  upd_ctx (fun c => if Z.land (info_flags c) UNMOUNT_MASK =? UNMOUNT_MASK
                    then set_flags (Z.lor (flags c) DO_REVERT_UNMOUNT) c else c);;
  upd_ctx (fun c => match process c with
                    | Some (_, name) => if beq (c_str name) (B "webview_zygote")
                                        then set_flags (Z.lor (flags c) DO_REVERT_UNMOUNT) c else c
                    | None => c
                    end);;
  c ← get_ctx;
  let excluded := Z.land (info_flags c) PROCESS_EXCLUDED =? PROCESS_EXCLUDED in
  upd_ctx (fun c => set_flags (Z.lor (flags c) APP_SPECIALIZE) c);;
  if negb skip_zygiskd && negb excluded then run_modules_pre else mret tt.

Definition app_specialize_post : K unit :=
  run_modules_post;;
  c ← get_ctx;
  (if Z.land (info_flags c) PROCESS_IS_MANAGER =? PROCESS_IS_MANAGER
   then do_ (CSetenv (B "ZYGISK_ENABLED") (B "1")) else mret tt);;
  ap ← app;
  c ← get_ctx;
  jni_ (ReleaseStringUTFChars (a_nice_name ap) (match process c with Some (p, _) => p | None => 0 end));;
  mret tt.

Definition server_specialize_pre : K unit := run_modules_pre;; in_daemon (SystemServerStarted fuel).
Definition server_specialize_post : K unit := run_modules_post.

(** The name of the process, and the switch for anonymous memory. *)
Definition read_process : K unit :=
  ap ← app;
  r ← jni_ (GetStringUTFChars (a_nice_name ap));
  upd_ctx (set_process (if r_ret r =? 0 then None else Some (r_ret r, r_data r)));;
  enabled ← in_lk is_anonymous_memory_enabled;
  upd_hook (set_anonymous_memory_enabled enabled).

Definition nativeSpecializeAppProcess_pre : K unit :=
  read_process;;
  upd_ctx (fun c => set_flags (Z.lor (flags c) SKIP_CLOSE_LOG_PIPE) c);;
  app_specialize_pre.

Definition nativeSpecializeAppProcess_post : K unit := in_daemon UnmapSharedMemory;; app_specialize_post.

(** ** The system server *)

(** The first readable main stack of the map. *)
Fixpoint main_stack (maps : list map_info) : option map_info :=
  match maps with
  | [] => None
  | map :: maps' =>
      if (mi_dev map =? 0) && (mi_inode map =? 0) && (mi_offset map =? 0) && mi_private map
         && beq (mi_path map) (B "[anon:stack_and_tls:main]") && (mi_perms map &? PROT_READ)
      then Some map else main_stack maps'
  end.

Definition nativeForkSystemServer_pre : K unit :=
  upd_ctx (fun c => set_flags (Z.lor (flags c) SERVER_FORK_AND_SPECIALIZE) c);;
  h ← get_hook;
  (match main_stack (cached_map_infos h) with
   | Some map => spoof_zygote_fossil (mi_start map) (mi_end map) (B "ref_profiles")
   | None => mret tt
   end);;
  fork_pre fuel;;
  child ← is_child;
  (if child : bool then
     server_specialize_pre;;
     p ← syscall CGetpid;
     in_daemon (CacheMountNamespace fuel (r_ret p))
   else mret tt);;
  sanitize_fds fuel.

Definition nativeForkSystemServer_post : K unit :=
  child ← is_child;
  (if child : bool then in_daemon UnmapSharedMemory;; server_specialize_post else mret tt);;
  fork_post.

(** ** An app forked from the zygote *)

(** [std::remove_if] with an unmount as the predicate: what could not be
    unmounted stays. *)
Fixpoint detach_traces (traces : list mount_info) : K (list mount_info) :=
  match traces with
  | [] => mret []
  | t :: ts =>
      r ← syscall (CUmount (c_str (target t)) MNT_DETACH);
      rest ← detach_traces ts;
      mret (if r_ret r =? 0 then rest else t :: rest)
  end.

(** The zygote's own mounts, looked at until five rounds found some. *)
Definition unmount_zygote : K unit :=
  h ← get_hook;
  if negb ((zygote_unmounted_times h <? 5) && bool_decide (zygote_traces h = [])) then mret tt
  else
    ap ← app;
    f ← in_daemon (GetProcessFlags fuel (u32 (a_uid ap)));
    upd_ctx (set_info_flags f);;
    traces ← check_zygote_traces f;
    upd_hook (set_zygote_traces traces);;
    if abort_zygote_unmount traces f then mret tt
    else
      left_ ← detach_traces traces;
      upd_hook (fun h => set_zygote_unmounted_times (zygote_unmounted_times h + 1) (set_zygote_traces left_ h)).

Definition nativeForkAndSpecialize_pre : K unit :=
  read_process;;
  upd_ctx (fun c => set_flags (Z.lor (flags c) APP_FORK_AND_SPECIALIZE) c);;
  unmount_zygote;;
  fork_pre fuel;;
  child ← is_child;
  (if child : bool then app_specialize_pre else mret tt);;
  sanitize_fds fuel.

Definition nativeForkAndSpecialize_post : K unit :=
  child ← is_child;
  (if child : bool then in_daemon UnmapSharedMemory;; app_specialize_post else mret tt);;
  fork_post.
End Ops.

(** ** What the specialisation decides *)

(** Code whose effect on the context modules could have had keeps whatever
    they cannot change. *)
Lemma keeps_tame {W A} `{!World W} (m : M W zs A) (I : zs -> Prop) :
  (forall x0, keeps (tame x0) m) -> (forall x y, I x -> tame x y -> I y) -> keeps I m.
Proof.
  intros Hm HI s Hs. eapply wp_mono; [apply (Hm (st_s s)); reflexivity|]. intros o s' Ht. cbn in Ht. by eapply HI.
Qed.

(** Flags that are never taken back. *)
Definition has_flag (b : Z) (x : zs) : Prop := exists c, z_ctx x = Some c /\ Z.testbit (flags c) b = true.

(** What the daemon said of the process. *)
Definition said (f : Z) (x : zs) : Prop := exists c, z_ctx x = Some c /\ info_flags c = f.

Lemma has_flag_tame b x y : has_flag b x -> tame x y -> has_flag b y.
Proof.
  intros (c & Ec & Hb) (_ & _ & Ht). rewrite Ec in Ht. destruct (z_ctx y) as [c'|] eqn:E; [|done]. exists c'.
  split; [done|]. destruct Ht as (_ & _ & _ & _ & _ & [->| ->] & _); [done|]. rewrite Z.lor_spec, Hb. done.
Qed.

Lemma said_tame f x y : said f x -> tame x y -> said f y.
Proof.
  intros (c & Ec & Hb) (_ & _ & Ht). rewrite Ec in Ht. destruct (z_ctx y) as [c'|] eqn:E; [|done]. exists c'.
  split; [done|]. destruct Ht as (_ & _ & _ & Hi & _). congruence.
Qed.

Section Decisions.
Context {W : Type} `{!World W} `{!Regex} `{!Lsplt} `{!ModuleCode} `{!HashOrder} `{!StdSort}.
Context (fuel : nat) (a : arch) (interposed : list Z).
Abbreviation K := (M W zs).

(** An update of the context that keeps [I]. *)
Lemma keeps_upd_any (I : zs -> Prop) f :
  (forall x c, I x -> z_ctx x = Some c -> I (zset_ctx (Some (f c)) x)) -> keeps I (upd_ctx f : K unit).
Proof.
  intros Hf. apply keeps_get. intros x Hx. destruct (z_ctx x) as [c|] eqn:E; [|by apply keeps_pure].
  apply keeps_put. by apply Hf.
Qed.

(** Running the modules keeps what modules cannot change and loading does not. *)
Lemma keeps_run_pre (I : zs -> Prop) :
  (forall x y, I x -> tame x y -> I y) ->
  (forall x c ms, I x -> z_ctx x = Some c -> I (zset_ctx (Some (set_modules ms c)) x)) ->
  (forall x y, I x -> I (zset_lk y x)) -> (forall x y, I x -> I (zset_daemon y x)) ->
  keeps I (run_modules_pre fuel a interposed : K unit).
Proof.
  intros Ht Hm Hlk Hd. unfold run_modules_pre, module_indices, in_daemon, close_memfds.
  assert (Hload : forall ms i, keeps I (load_modules fuel a interposed i ms : K unit)).
  { induction ms as [|m ms IH]; intros i; cbn [load_modules]; [by apply keeps_pure|]. apply keeps_bind; [|intros _; apply IH].
    unfold load_module, in_lk. apply keeps_bind; [by apply keeps_zoom|]. intros [h v].
    apply keeps_bind; [case_match; [by apply keeps_zoom|by apply keeps_pure]|]. intros e.
    case_match; [|by apply keeps_pure]. apply keeps_upd_any. intros x c Hx Hc. by apply Hm. }
  assert (Hstart : forall ixs, keeps I (for_modules (start_module fuel) ixs : K unit)).
  { induction ixs as [|i ixs IH]; cbn [for_modules]; [by apply keeps_pure|]. apply keeps_bind; [|intros _; exact IH].
    apply (keeps_tame _ _); [|exact Ht]. intros x0.
    unfold start_module, onLoad, preAppSpecialize, preServerSpecialize, call_app, call_abi, load_long, load_u64.
    pose proof (keeps_call_module (W := W) fuel x0). keeps_tac. }
  assert (Hclose : forall fds, keeps I (close_memfds fds : K unit)).
  { induction fds as [|f fds IH]; cbn [close_memfds]; keeps_tac. }
  apply keeps_bind; [by apply keeps_zoom|]. intros ms. apply keeps_bind; [apply Hload|]. intros _.
  apply keeps_bind; [apply keeps_bind; [apply keeps_get; intros x _; case_match; by apply keeps_pure|intros c; by apply keeps_pure]|].
  intros ixs. apply keeps_bind; [apply Hstart|]. intros _. apply Hclose.
Qed.

Lemma land_pow2_eq x k : 0 <= k -> (Z.land x (2 ^ k) =? 2 ^ k) = Z.testbit x k.
Proof.
  intros Hk. pose proof (has_bits_pow2 x k Hk) as Hb. unfold has_bits in Hb.
  assert (E : Z.land x (2 ^ k) = 0 \/ Z.land x (2 ^ k) = 2 ^ k).
  { destruct (Z.testbit x k) eqn:Et; [right|left]; apply Z.bits_inj'; intros n Hn;
      rewrite Z.land_spec, Z.pow2_bits_eqb, ?Z.bits_0 by lia;
      destruct (Z.eqb_spec k n) as [->|]; rewrite ?Et, ?andb_false_r; done. }
  pose proof (Z.pow_pos_nonneg 2 k ltac:(lia) Hk). rewrite <- Hb. destruct E as [-> | ->].
  - destruct (Z.eqb_spec 0 (2 ^ k)); [lia|done].
  - rewrite Z.eqb_refl. destruct (Z.eqb_spec (2 ^ k) 0); [lia|done].
Qed.

(** Reading the identity of the process leaves the context alone. *)
Lemma keeps_identity (P : option ctx -> Prop) ap :
  keeps (fun x => P (z_ctx x)) (effective_uid ap : K Z) /\ keeps (fun x => P (z_ctx x)) (skip_daemon ap : K bool).
Proof.
  unfold effective_uid, skip_daemon, jni_, in_daemon. split; keeps_tac. by apply keeps_zoom.
Qed.

(** A context that is marked as the daemon wants, over what the modules do. *)
Definition decided (ms : list zmodule) (x : zs) : Prop :=
  exists c, z_ctx x = Some c /\ Z.testbit (flags c) 2 = true
    /\ (Z.testbit (info_flags c) 1 = true -> Z.testbit (flags c) 4 = true)
    /\ (Z.testbit (info_flags c) 26 = true -> modules c = ms).

Lemma run_pre_decided c ms (s : st W zs) :
  z_ctx (st_s s) = Some c -> Z.testbit (flags c) 2 = true ->
  (Z.testbit (info_flags c) 1 = true -> Z.testbit (flags c) 4 = true) -> Z.testbit (info_flags c) 26 = false ->
  wp (run_modules_pre fuel a interposed) (fun _ s' => decided ms (st_s s')) s.
Proof.
  intros Hc Hf Hd Hx.
  assert (Hm : forall b x c' ms', has_flag b x -> z_ctx x = Some c' -> has_flag b (zset_ctx (Some (set_modules ms' c')) x)).
  { intros b x c' ms' (c'' & E & Hb) E'. rewrite E in E'. injection E' as <-. by eexists. }
  eapply wp_mono; [apply wp_and; [apply wp_and|]|].
  - apply (keeps_run_pre (has_flag 2)); [apply has_flag_tame|apply Hm|done|done|by exists c].
  - apply (keeps_run_pre (said (info_flags c))); [apply said_tame| |done|done|by exists c].
    intros x c' ms' (c'' & E & Hb) E'. rewrite E in E'. injection E' as <-. by eexists.
  - apply (keeps_run_pre (fun x => Z.testbit (info_flags c) 1 = true -> has_flag 4 x)).
    + intros x y Hxy Ht Hb. eapply has_flag_tame; [by apply Hxy|done].
    + intros x c' ms' Hxy E' Hb. apply Hm; [by apply Hxy|done].
    + done.
    + done.
    + intros Hb. exists c. split; [done|]. by apply Hd.
  - intros o s' (((c1 & E1 & Hb1) & (c2 & E2 & Hi)) & Hd'). rewrite E1 in E2. injection E2 as <-. exists c1.
    split; [done|]. split; [done|]. rewrite Hi, Hx. split; [|done]. intros Hb. destruct (Hd' Hb) as (c3 & E3 & Hb3). congruence.
Qed.

(** The marks that app_specialize_pre puts on a context. *)
Lemma marks_decided ms c3 :
  modules c3 = ms ->
  let c4 := if Z.testbit (info_flags c3) 1 then set_flags (Z.lor (flags c3) (2 ^ 4)) c3 else c3 in
  let c5 := match process c4 with
            | Some (_, name) => if beq (c_str name) (B "webview_zygote") then set_flags (Z.lor (flags c4) (2 ^ 4)) c4 else c4
            | None => c4
            end in
  let c6 := set_flags (Z.lor (flags c5) (2 ^ 2)) c5 in
  Z.testbit (flags c6) 2 = true /\ (Z.testbit (info_flags c6) 1 = true -> Z.testbit (flags c6) 4 = true) /\ modules c6 = ms.
Proof.
  intros Hm c4 c5 c6. split; [unfold c6; cbn [flags set_flags]; by rewrite Z.lor_spec, orb_true_r|].
  assert (H4 : (Z.testbit (info_flags c4) 1 = true -> Z.testbit (flags c4) 4 = true) /\ modules c4 = ms).
  { unfold c4. destruct (Z.testbit (info_flags c3) 1) eqn:E; [|by rewrite E]. split; [|done]. intros _. cbn [flags set_flags].
    by rewrite Z.lor_spec, orb_true_r. }
  destruct H4 as [Hd4 Hm4].
  assert (H5 : (Z.testbit (info_flags c5) 1 = true -> Z.testbit (flags c5) 4 = true) /\ modules c5 = ms).
  { unfold c5. destruct (process c4) as [[p name]|]; [|done]. destruct (beq _ _); [|done]. split; [|done]. intros _.
    cbn [flags set_flags]. by rewrite Z.lor_spec, orb_true_r. }
  destruct H5 as [Hd5 Hm5]. unfold c6. cbn [info_flags flags set_flags modules]. split; [|done]. intros Hb.
  by rewrite Z.lor_spec, Hd5.
Qed.

(** C6. What app_specialize_pre decides, for every answer of the daemon and
    every module: the process is marked as a specialised app; a process the
    daemon says is on the denylist is marked for reverting its mounts; and
    for a process on the exclusion list no module is loaded. *)
Theorem specialize_decisions c (s s' : st W zs) :
  z_ctx (st_s s) = Some c ->
  app_specialize_pre fuel a interposed s = (Ret tt, s') ->
  exists c', z_ctx (st_s s') = Some c'
    /\ (flags c' &? APP_SPECIALIZE) = true
    /\ ((info_flags c' &? PROCESS_ON_DENYLIST) = true -> (flags c' &? DO_REVERT_UNMOUNT) = true)
    /\ ((info_flags c' &? PROCESS_EXCLUDED) = true -> modules c' = modules c).
Proof.
  intros Hc. wp_of_run. unfold app_specialize_pre, app, get_ctx. wrun. rewrite Hc. wrun.
  destruct (args c) as [ap|]; [|by wrun]. wrun.
  eapply wp_mono; [apply (proj1 (keeps_identity (fun o => o = Some c) ap)); exact Hc|].
  intros [uid| | |] s1 Hs1; cbn [wp_cont on_ret]; [|done..]. cbn beta in Hs1. wrun.
  eapply wp_mono; [apply (proj2 (keeps_identity (fun o => o = Some c) ap)); exact Hs1|].
  intros [skip| | |] s2 Hs2; cbn [wp_cont on_ret]; [|done..]. cbn beta in Hs2. wrun. rewrite Hs2. wrun.
  set (I1 := fun x : zs => exists c1, z_ctx x = Some c1 /\ modules c1 = modules c).
  eapply (wp_mono _ (fun _ s3 => I1 (st_s s3))).
  { case_match; [|wrun; by exists c].
    assert (Hk : keeps I1 (f ← in_daemon (GetProcessFlags fuel uid); upd_ctx (set_info_flags f) : K unit)).
    { unfold in_daemon. apply keeps_bind; [by apply keeps_zoom|]. intros f. apply keeps_upd_any.
      intros x c1 (c2 & E2 & Em) E1. rewrite E1 in E2. injection E2 as <-. by eexists. }
    apply Hk. by exists c. }
  intros [u| | |] s3; cbn [wp_cont on_ret]; [|done..]. intros (c3 & Hs3 & Em3). unfold upd_ctx. wrun. rewrite Hs3. wrun.
  change UNMOUNT_MASK with (2 ^ 1). change PROCESS_EXCLUDED with (2 ^ 26). change APP_SPECIALIZE with (2 ^ 2).
  change PROCESS_ON_DENYLIST with (2 ^ 1). change DO_REVERT_UNMOUNT with (2 ^ 4). rewrite land_pow2_eq by lia.
  cbn [z_ctx zset_ctx]. wrun.
  do 4 (cbn [z_ctx zset_ctx]; wrun). rewrite land_pow2_eq by lia.
  destruct (marks_decided (modules c) c3 Em3) as (M1 & M2 & M3).
  eapply (wp_mono _ (fun _ s' => decided (modules c) (st_s s'))).
  { destruct (negb skip && negb (Z.testbit _ 26)) eqn:Erun; [|wrun; eexists; by repeat (split; [done|])].
    apply andb_true_iff in Erun as [_ Ex%negb_true_iff]. by eapply run_pre_decided. }
  intros [u'| | |] s4 (c' & E & D1 & D2 & D3); cbn [on_ret]; [|done..]. exists c'. rewrite !has_bits_pow2 by lia. done.
Qed.
End Decisions.

(** ** The zygote's own mounts *)

Section Mounts.
Context {W : Type} `{!World W} `{!StdSort} (fuel : nat).
Abbreviation K := (M W zs).

(** Unmounting [traces] with the answers [rs]: the calls made, newest first,
    and what is left. *)
Definition umounts (traces : list mount_info) (rs : list reply) : list event :=
  reverse (zip_with (fun t r => (CUmount (c_str (target t)) MNT_DETACH, r)) traces rs).
Definition left_over (traces : list mount_info) (rs : list reply) : list mount_info :=
  fst <$> filter (fun p => r_ret p.2 <> 0) (zip traces rs).

Lemma detach_exact traces : forall (s : st W zs),
  wp (detach_traces traces) (fun o s' => exists rs, length rs = length traces /\ o = Ret (left_over traces rs)
    /\ st_log s' = umounts traces rs ++ st_log s /\ st_s s' = st_s s) s.
Proof.
  induction traces as [|t traces IH]; intros s; cbn [detach_traces].
  { wrun. by exists []. }
  wrun. apply wp_syscall. intros r w e. wrun. eapply wp_mono; [apply IH|].
  intros o s' (rs & Hl & -> & El & Es). wrun. exists (r :: rs). cbn [length]. split; [by f_equal|].
  split; [|split; [|done]].
  - f_equal. unfold left_over. cbn [zip zip_with]. destruct (Z.eqb_spec (r_ret r) 0) as [E|E].
    + rewrite filter_cons_False by (cbn; lia). done.
    + rewrite filter_cons_True by (cbn; lia). done.
  - rewrite El. unfold umounts. cbn [zip_with st_log]. by rewrite reverse_cons, <- app_assoc.
Qed.

(** A mount that may be detached from the zygote. *)
Definition detachable (magisk : bool) (t : mount_info) : Prop :=
  contains (target t) (B "/font") = false
  /\ (starts_with (target t) (B "/product") = true ->
      starts_with (target t) (B "/product/bin") = true \/ magisk = false /\ target t <> B "/product").

Lemma not_aborted traces f :
  abort_zygote_unmount traces f = false ->
  traces <> [] /\ Forall (detachable (f &? PROCESS_ROOT_IS_MAGISK)) traces.
Proof.
  unfold abort_zygote_unmount. case_bool_decide as Hn; [done|]. destruct (existsb is_font traces) eqn:E1; [done|].
  intros E2. split; [done|]. apply Forall_forall. intros t Ht. apply list_elem_of_In in Ht.
  assert (F1 : is_font t = false).
  { destruct (is_font t) eqn:F; [|done]. rewrite <- E1. symmetry. apply existsb_exists. eauto. }
  assert (F2 : is_product_overlay (f &? PROCESS_ROOT_IS_MAGISK) t = false).
  { destruct (is_product_overlay _ t) eqn:F; [|done]. rewrite <- E2. symmetry. apply existsb_exists. eauto. }
  split; [exact F1|]. intros Hp. unfold is_product_overlay in F2. rewrite Hp in F2. cbn [negb] in F2.
  destruct (starts_with (target t) (B "/product/bin")); [by left|]. right.
  destruct (f &? PROCESS_ROOT_IS_MAGISK); cbn [negb andb] in F2; [done|]. split; [done|].
  intros E. unfold beq in F2. rewrite bool_decide_eq_true_2 in F2 by exact E. done.
Qed.

Lemma wp_ret_of {A} (m : K A) v (s s' : st W zs) : wp m (fun o s1 => o = Ret v /\ s1 = s') s -> m s = (Ret v, s').
Proof. unfold wp. destruct (m s). cbn. by intros [-> ->]. Qed.

Lemma unmount_returns {A} (m : K unit) (P : A -> st W zs -> Prop) (s : st W zs) :
  wp m (fun o s' => o = Ret tt /\ exists h, P h s') s -> exists h s', m s = (Ret tt, s') /\ P h s'.
Proof. unfold wp. destruct (m s) as [o s']. cbn. intros [-> (h & Hp)]. by exists h, s'. Qed.

(** C30. The zygote's mounts: they are looked at only while fewer than five
    rounds unmounted some and none is left over from the last. Then either
    nothing is unmounted and the traces are remembered, or each trace is
    detached once, in order, the round is counted and exactly those whose
    detaching failed are remembered; in that case there was a trace, none of
    them is a font overlay, and none is a /product overlay outside
    /product/bin (below /product itself only where Magisk is not the root
    solution). The count never exceeds five. *)
Theorem zygote_unmount_exact h c ap (s : st W zs) :
  z_hook (st_s s) = Live h -> z_ctx (st_s s) = Some c -> args c = AppArgs ap ->
  if (zygote_unmounted_times h <? 5) && bool_decide (zygote_traces h = []) then
    forall f s1 traces s2, in_daemon (GetProcessFlags fuel (u32 (a_uid ap))) s = (Ret f, s1) ->
      check_zygote_traces f (St (st_w s1) (st_log s1) (st_errno s1)
        (zset_ctx (Some (set_info_flags f c)) (st_s s1))) = (Ret traces, s2) ->
      exists h' s', unmount_zygote fuel s = (Ret tt, s') /\ z_hook (st_s s') = Live h'
        /\ (abort_zygote_unmount traces f = true /\ h' = set_zygote_traces traces h /\ st_log s' = st_log s2
            \/ exists rs, length rs = length traces /\ st_log s' = umounts traces rs ++ st_log s2
               /\ h' = set_zygote_unmounted_times (zygote_unmounted_times h + 1) (set_zygote_traces (left_over traces rs) h)
               /\ zygote_unmounted_times h' <= 5
               /\ traces <> [] /\ Forall (detachable (f &? PROCESS_ROOT_IS_MAGISK)) traces)
  else unmount_zygote fuel s = (Ret tt, s).
Proof.
  intros Hh Hc Ha. destruct ((zygote_unmounted_times h <? 5) && _) eqn:Ec.
  2: { apply wp_ret_of. unfold unmount_zygote, get_hook. wrun. rewrite Hh. wrun. rewrite Ec. by wrun. }
  intros f s1 traces s2 E1 E2. apply unmount_returns. unfold unmount_zygote, app, get_hook, get_ctx. wrun. rewrite Hh. wrun.
  rewrite Ec. apply andb_true_iff in Ec as [Et%Z.ltb_lt _]. cbn [negb]. wrun. rewrite Hc. wrun. rewrite Ha. wrun.
  assert (Hk : z_hook (st_s s1) = Live h /\ z_ctx (st_s s1) = Some c).
  { pose proof (keeps_zoom (fun x => z_hook x = Live h /\ z_ctx x = Some c) z_daemon zset_daemon
      (GetProcessFlags fuel (u32 (a_uid ap))) ltac:(done) s (conj Hh Hc)) as Hk. unfold wp in Hk.
    unfold in_daemon in E1. by rewrite E1 in Hk. }
  destruct Hk as [Hh1 Hc1]. unfold wp at 1. rewrite E1. cbn [fst snd wp_cont]. unfold upd_ctx. wrun. rewrite Hc1. wrun.
  assert (Hk : calls_only (check_zygote_traces f : K (list mount_info))).
  { unfold check_zygote_traces, parse_mount_info. calls_only_tac. }
  specialize (Hk (St (st_w s1) (st_log s1) (st_errno s1) (zset_ctx (Some (set_info_flags f c)) (st_s s1)))).
  unfold wp in Hk. rewrite E2 in Hk. destruct Hk as [Es2 _]. cbn [st_s fst snd] in Es2.
  unfold wp at 1. rewrite E2. cbn [fst snd wp_cont]. unfold upd_hook. wrun. rewrite Es2.
  cbn [z_hook zset_ctx]. rewrite Hh1. wrun. destruct (abort_zygote_unmount traces f) eqn:Eab.
  - wrun. split; [done|]. eexists. split; [done|]. by left.
  - wrun. eapply wp_mono; [apply detach_exact|]. intros o s3 (rs & Hl & -> & El & Es3). wrun. rewrite Es3. cbn [st_s z_hook zset_hook].
    wrun. split; [done|]. eexists. split; [done|]. right. exists rs.
    split; [done|]. split; [done|]. split; [done|]. split; [cbn; lia|]. by apply not_aborted.
Qed.
End Mounts.

(** ** A module that does not register *)

Section Unregistered.
Context {W : Type} `{!World W, !Regex, !Lsplt, !ModuleCode} (fuel : nat).
Abbreviation K := (M W zs).

(** registerModule does not take the record at [p]: there is none, or it wants
    a newer API, or it cannot be read, which ends the process. *)
Definition refuses (mm : mem) (p : Z) : Prop :=
  p = 0 \/ forall bs, read_bytes mm 8 (u64 p) = Some bs -> ZYGISK_API_VERSION < swrap 64 (le_Z bs).

(** A program that never registers, over the memory [mm]: every registration
    it tries is refused. It may write to the arguments; what it does after a
    call of another entry of its table does not matter, since without a
    registration these entries are null. *)
Fixpoint unregistered (mm : mem) (p : module_prog) : Prop :=
  match p with
  | MDone => True
  | MStep (MRegister ptr) k => refuses mm ptr /\ unregistered mm (k 0)
  | MStep (MWriteArgs _) k => unregistered mm (k 0)
  | MStep (MApi _ _) _ => True
  end.

(** The record of a module as it is made: no entry and no record of its own. *)
Definition fresh_module (m : zmodule) : Prop := mod_ m = 0 /\ has_register m = true /\ Forall (fun x => x = None) (api m).

(** Module [i] of the context is [m], and the flags are [f]. *)
Definition has_module (i : nat) (m : zmodule) (f : Z) (s : st W zs) : Prop :=
  exists c, z_ctx (st_s s) = Some c /\ modules c !! i = Some m /\ flags c = f.

Lemma run_unregistered i m f p : fresh_module m -> forall s : st W zs,
  has_module i m f s -> unregistered (the_mem (st_s s)) p ->
  wp (run_prog fuel i p) (fun o s' => o = Crash \/ o = Ret tt /\ has_module i m f s') s.
Proof.
  intros (Hz & Hreg & Hapi). induction p as [|x k IH]; intros s Hc Hp; cbn [run_prog]; [wrun; by right|].
  pose proof Hc as (c & Ec & Em & Ef). wstep. destruct x as [ptr|slot a|a]; cbn [unregistered module_do] in *.
  - destruct Hp as [Hr Hk]. unfold get_module, get_ctx. wrun. rewrite Ec. wrun. rewrite Em. wrun. rewrite Hreg.
    unfold b2z, RegisterModuleImpl. wrun. destruct (Z.eqb_spec ptr 0) as [|Hn]; [wrun; by apply IH|].
    unfold load_long, load_u64, load. wrun. destruct (read_bytes _ _ _) as [bs|] eqn:Eb; wrun; [|by left].
    destruct Hr as [|Hr]; [done|]. specialize (Hr bs Eb). rewrite (proj2 (Z.ltb_lt _ _) Hr). wrun. by apply IH.
  - unfold get_module, get_ctx. wrun. rewrite Ec. wrun. rewrite Em. wrun.
    assert (E : api m !! slot = None \/ api m !! slot = Some None).
    { destruct (api m !! slot) as [e|] eqn:E; [|by left]. right. by rewrite (Forall_lookup_1 _ _ _ _ Hapi E). }
    destruct E as [-> | ->]; wrun; by left.
  - unfold upd_ctx. wrun. rewrite Ec. wrun. apply IH; [|done]. eexists. split; [done|]. by destruct (args c).
Qed.

(** What follows the entry point, for a module without a record. *)
Lemma no_record_crashes i m f (s : st W zs) : has_module i m f s -> mod_ m = 0 ->
  (f &? APP_SPECIALIZE) || (f &? SERVER_FORK_AND_SPECIALIZE) = true ->
  wp (c ← get_ctx; if (flags c &? APP_SPECIALIZE) then preAppSpecialize fuel i
      else if (flags c &? SERVER_FORK_AND_SPECIALIZE) then preServerSpecialize fuel i else mret tt) (fun o _ => o = Crash) s.
Proof.
  intros (c & Ec & Em & <-) Hz Hf. unfold get_ctx. wrun. rewrite Ec. wrun.
  destruct (flags c &? APP_SPECIALIZE); [|cbn [orb] in Hf; rewrite Hf];
    unfold preAppSpecialize, preServerSpecialize, call_app, call_abi, get_module, get_ctx; wrun; rewrite Ec; wrun;
    rewrite Em; wrun; rewrite Hz; by wrun.
Qed.

(** The entry point does not change what kind of process this is. *)
Lemma kept_flags i m1 f1 c (s s1 : st W zs) :
  z_ctx (st_s s) = Some c -> onLoad fuel i s = (Ret tt, s1) -> has_module i m1 f1 s1 ->
  (f1 &? APP_SPECIALIZE) || (f1 &? SERVER_FORK_AND_SPECIALIZE)
  = (flags c &? APP_SPECIALIZE) || (flags c &? SERVER_FORK_AND_SPECIALIZE).
Proof.
  intros Hc E (c1 & Ec1 & _ & <-).
  assert (Hk : keeps (tame (st_s s)) (onLoad fuel i : K unit)).
  { unfold onLoad. pose proof (keeps_call_module (W := W) fuel (st_s s)). keeps_tac. }
  specialize (Hk s ltac:(reflexivity)). unfold wp in Hk. rewrite E in Hk. destruct Hk as (_ & _ & Ht). cbn [snd] in Ht.
  rewrite Hc, Ec1 in Ht. destruct Ht as (_ & _ & _ & _ & _ & [->|Hfl] & _); [done|].
  rewrite Hfl. unfold has_bits. rewrite !Z.land_lor_distr_l.
  change (Z.land DO_REVERT_UNMOUNT APP_SPECIALIZE) with 0. change (Z.land DO_REVERT_UNMOUNT SERVER_FORK_AND_SPECIALIZE) with 0.
  by rewrite !Z.lor_0_r.
Qed.

(** C40. A module that has not registered ends the process, in an application
    and in the system server: its record is used without a check that there
    is one. If the module's entry point returns and it has no record, what
    runs next crashes, whatever program the entry point was; and that is what
    happens to every module that tries no registration, or whose every
    registration is refused because the pointer is null or the record wants a
    newer API. *)
Theorem unregistered_module_crashes i m c (s : st W zs) :
  z_ctx (st_s s) = Some c -> modules c !! i = Some m -> fresh_module m -> entry m <> 0 ->
  (flags c &? APP_SPECIALIZE) || (flags c &? SERVER_FORK_AND_SPECIALIZE) = true ->
  (forall s1 m1 f1, onLoad fuel i s = (Ret tt, s1) -> has_module i m1 f1 s1 -> mod_ m1 = 0 ->
     (start_module fuel i s).1 = Crash)
  /\ ((forall r, unregistered (poke (r_aux r) (the_mem (st_s s))) (module_code (entry m) ((CCall (entry m) [], r) :: st_log s))) ->
     (start_module fuel i s).1 = Crash).
Proof.
  intros Hc Hm Hfr He Hf. split.
  - intros s1 m1 f1 E Hm1 Hz. unfold start_module, mbind at 1, M_bind at 1. rewrite E.
    refine (no_record_crashes i m1 f1 s1 Hm1 Hz _). by rewrite (kept_flags i m1 f1 c s s1).
  - intros Hp. cut (wp (start_module fuel i) (fun o _ => o = Crash) s); [done|].
    unfold start_module, onLoad, get_module, get_ctx. wrun. rewrite Hc. wrun. rewrite Hm. wrun.
    unfold call_module. rewrite (proj2 (Z.eqb_neq _ 0) He). unfold call_code, get_log. wrun. apply wp_syscall. intros r w e. wrun.
    unfold wp at 1. cbn [fst snd wp_cont]. set (s1 := St w _ _ _).
    eapply wp_mono; [apply (run_unregistered i m (flags c)); [done|by exists c|]|].
    + exact (Hp r).
    + intros o s2 [->|[-> H2]]; cbn [wp_cont]; [done|]. eapply no_record_crashes; [exact H2|apply Hfr|exact Hf].
Qed.
End Unregistered.

(** ** Examples *)

#[local] Existing Instances demo_regex demo_lsplt demo_code id_order.

(** An app on the denylist and on the exclusion list. *)
Definition listed_ctx : ctx := set_info_flags (2 ^ 26 + 2) (set_flags 0 api_ctx).
Definition listed_state : st script zs := St [] [] 0 (zset_ctx (Some listed_ctx) api_zs).

Lemma specialize_decisions_witness :
  exists s', app_specialize_pre 4 AArch64 [] listed_state = (Ret tt, s')
    /\ exists c', z_ctx (st_s s') = Some c'
      /\ (flags c' &? APP_SPECIALIZE) = true
      /\ ((info_flags c' &? PROCESS_ON_DENYLIST) = true -> (flags c' &? DO_REVERT_UNMOUNT) = true)
      /\ ((info_flags c' &? PROCESS_EXCLUDED) = true -> modules c' = modules listed_ctx)
      /\ (info_flags c' &? PROCESS_EXCLUDED) = true.
Proof.
  destruct (app_specialize_pre 4 AArch64 [] listed_state) as [o s'] eqn:E.
  assert (Eo : o = Ret tt) by (apply (f_equal fst) in E; vm_compute in E; congruence). subst o. exists s'. split; [done|].
  destruct (specialize_decisions 4 AArch64 [] listed_ctx listed_state s' eq_refl E) as (c' & E' & H1 & H2 & H3).
  exists c'. repeat (split; [done|]). apply (f_equal (fun r => z_ctx (st_s r.2))) in E. cbn [snd] in E. rewrite E' in E.
  vm_compute in E. injection E as <-. reflexivity.
Defined.

(** Magisk's mount over /system/bin. *)
Definition mounted_state : st script zs :=
  St [Reply 5 0 [] []; Reply 0 0 [] []; Reply 0 0 [] []; Reply 0 0 [] []; Reply 1 0 [] []; Reply 4 0 [] [];
      Reply 4 0 (le_bytes 4 (2 ^ 30)) []; Reply 0 0 [] [];
      Reply 1 0 (B "40 21 7:8 / /system/bin rw - tmpfs magisk rw" ++ [10]) []] [] 0
    (zset_daemon (DaemonSt [] 0 true) api_zs).

Lemma zygote_unmount_exact_witness :
  exists h' s', unmount_zygote 9 mounted_state = (Ret tt, s') /\ z_hook (st_s s') = Live h'
    /\ (fst <$> head (st_log s')) = Some (CUmount (B "/system/bin") MNT_DETACH)
       /\ zygote_unmounted_times h' = 1 /\ zygote_unmounted_times h' <= 5 /\ zygote_traces h' = [].
Proof.
  refine ((fun Hx => _) (zygote_unmount_exact 9 _ api_ctx (AppArgs_mk 10001 1 0 None) mounted_state eq_refl eq_refl eq_refl)).
  cbn iota in Hx.
  edestruct Hx as (h' & s' & E & Eh & _); [vm_compute; reflexivity|vm_compute; reflexivity|]. exists h', s'.
  split; [exact E|]. split; [exact Eh|]. vm_compute in E. injection E as <-. cbn [st_s z_hook] in Eh. injection Eh as <-.
  split; [vm_compute; reflexivity|]. done.
Defined.

(** The system server, and a module whose record, in memory that it cannot
    write, wants version 6 of the API. *)
Definition newer_mem : mem := map_range 1 8 0x100 (le_bytes 8 6) ∅.
Definition newer_ctx : ctx := set_flags SERVER_FORK_AND_SPECIALIZE (set_modules [new_ZygiskModule 0 7 0x40] api_ctx).
Definition newer_state : st script zs := St [] [] 0 (zset_ctx (Some newer_ctx) (put_mem newer_mem api_zs)).

Lemma poke_readonly ws m : map_Forall (fun _ c => (c_prot c &? PROT_WRITE) = false) m -> poke ws m = m.
Proof.
  intros Hm. refine (_ ws). fix IH 1. intros [|a [|b ws']]; [done|done|].
  cbn [poke]. destruct (m !! a) as [c|] eqn:E; [|apply IH]. rewrite (Hm a c E). apply IH.
Qed.

Lemma unregistered_module_crashes_witness : (start_module 4 0 newer_state).1 = Crash.
Proof.
  refine (proj2 (unregistered_module_crashes 4 0 (new_ZygiskModule 0 7 0x40) newer_ctx newer_state
    eq_refl eq_refl _ _ _) _).
  - by repeat constructor.
  - done.
  - vm_compute. reflexivity.
  - intros r. change (the_mem (st_s newer_state)) with newer_mem. rewrite poke_readonly.
    + split; [|done]. right. intros bs Hb. vm_compute in Hb. injection Hb as <-. vm_compute. reflexivity.
    + vm_decide.
Defined.
