(* ===== verification/JniTable.v ===== *)
(** The table of the zygote's native methods that are replaced
    (loader/src/injector/jni_hooks.hpp): for each known variant of the three
    methods its name, its JNI signature, the parameters of the replacement, the
    fields of the arguments it sets, what it passes on to the original, and
    which entry of the saved originals it calls, as a function of which type. *)
From S2P Require Import Prelude.
Open Scope Z_scope.

(** C++ types of the JNI. *)
Inductive cty := TInt | TBoolean | TLong | TString | TIntArray | TLongArray | TObjectArray | TVoid.

#[export] Instance cty_eq_dec : EqDecision cty.
Proof. solve_decision. Defined.

(** The method of ZygiskContext that a row runs. *)
Inductive handler := ForkAndSpecialize | SpecializeAppProcess | ForkSystemServer.

#[export] Instance handler_eq_dec : EqDecision handler.
Proof. solve_decision. Defined.

(** [row_set] are the fields [args.x = &x], [row_forward] the names passed to
    the original after env and clazz; the original is the function of entry
    [row_index] of [g_hook->zygote_methods], cast to a function of the types
    [row_cast], after env and clazz, and the result [row_cast_ret]. *)
Record jni_row := Row {
  row_handler : handler; row_name : list Z; row_sig : list Z; row_params : list (cty * list Z); row_ret : cty;
  row_set : list (list Z); row_forward : list (list Z); row_cast : list cty; row_cast_ret : cty; row_index : nat }.

Definition rows_0 : list jni_row :=
  [Row ForkAndSpecialize (B "nativeForkAndSpecialize")
     (B "(II[II[[IILjava/lang/String;Ljava/lang/String;[ILjava/lang/String;Ljava/lang/String;)I")
     [(TInt, B "uid"); (TInt, B "gid"); (TIntArray, B "gids"); (TInt, B "runtime_flags");
      (TObjectArray, B "rlimits"); (TInt, B "mount_external"); (TString, B "se_info");
      (TString, B "nice_name"); (TIntArray, B "fds_to_close"); (TString, B "instruction_set");
      (TString, B "app_data_dir")]
     TInt
     [B "fds_to_close"]
     [B "uid"; B "gid"; B "gids"; B "runtime_flags"; B "rlimits"; B "mount_external"; B "se_info";
      B "nice_name"; B "fds_to_close"; B "instruction_set"; B "app_data_dir"]
     [TInt; TInt; TIntArray; TInt; TObjectArray; TInt; TString; TString; TIntArray; TString; TString] TInt 0;
   Row ForkAndSpecialize (B "nativeForkAndSpecialize")
     (B "(II[II[[IILjava/lang/String;Ljava/lang/String;[I[ILjava/lang/String;Ljava/lang/String;)I")
     [(TInt, B "uid"); (TInt, B "gid"); (TIntArray, B "gids"); (TInt, B "runtime_flags");
      (TObjectArray, B "rlimits"); (TInt, B "mount_external"); (TString, B "se_info");
      (TString, B "nice_name"); (TIntArray, B "fds_to_close"); (TIntArray, B "fds_to_ignore");
      (TString, B "instruction_set"); (TString, B "app_data_dir")]
     TInt
     [B "fds_to_close"; B "fds_to_ignore"]
     [B "uid"; B "gid"; B "gids"; B "runtime_flags"; B "rlimits"; B "mount_external"; B "se_info";
      B "nice_name"; B "fds_to_close"; B "fds_to_ignore"; B "instruction_set"; B "app_data_dir"]
     [TInt; TInt; TIntArray; TInt; TObjectArray; TInt; TString; TString; TIntArray; TIntArray;
      TString; TString] TInt 1;
   Row ForkAndSpecialize (B "nativeForkAndSpecialize")
     (B "(II[II[[IILjava/lang/String;Ljava/lang/String;[I[IZLjava/lang/String;Ljava/lang/String;)I")
     [(TInt, B "uid"); (TInt, B "gid"); (TIntArray, B "gids"); (TInt, B "runtime_flags");
      (TObjectArray, B "rlimits"); (TInt, B "mount_external"); (TString, B "se_info");
      (TString, B "nice_name"); (TIntArray, B "fds_to_close"); (TIntArray, B "fds_to_ignore");
      (TBoolean, B "is_child_zygote"); (TString, B "instruction_set"); (TString, B "app_data_dir")]
     TInt
     [B "fds_to_close"; B "fds_to_ignore"; B "is_child_zygote"]
     [B "uid"; B "gid"; B "gids"; B "runtime_flags"; B "rlimits"; B "mount_external"; B "se_info";
      B "nice_name"; B "fds_to_close"; B "fds_to_ignore"; B "is_child_zygote"; B "instruction_set";
      B "app_data_dir"]
     [TInt; TInt; TIntArray; TInt; TObjectArray; TInt; TString; TString; TIntArray; TIntArray;
      TBoolean; TString; TString] TInt 2;
   Row ForkAndSpecialize (B "nativeForkAndSpecialize")
     (B "(II[II[[IILjava/lang/String;Ljava/lang/String;[I[IZLjava/lang/String;Ljava/lang/String;Z)I")
     [(TInt, B "uid"); (TInt, B "gid"); (TIntArray, B "gids"); (TInt, B "runtime_flags");
      (TObjectArray, B "rlimits"); (TInt, B "mount_external"); (TString, B "se_info");
      (TString, B "nice_name"); (TIntArray, B "fds_to_close"); (TIntArray, B "fds_to_ignore");
      (TBoolean, B "is_child_zygote"); (TString, B "instruction_set"); (TString, B "app_data_dir");
      (TBoolean, B "is_top_app")]
     TInt
     [B "fds_to_close"; B "fds_to_ignore"; B "is_child_zygote"; B "is_top_app"]
     [B "uid"; B "gid"; B "gids"; B "runtime_flags"; B "rlimits"; B "mount_external"; B "se_info";
      B "nice_name"; B "fds_to_close"; B "fds_to_ignore"; B "is_child_zygote"; B "instruction_set";
      B "app_data_dir"; B "is_top_app"]
     [TInt; TInt; TIntArray; TInt; TObjectArray; TInt; TString; TString; TIntArray; TIntArray;
      TBoolean; TString; TString; TBoolean] TInt 3;
   Row ForkAndSpecialize (B "nativeForkAndSpecialize")
     (B "(II[II[[IILjava/lang/String;Ljava/lang/String;[I[IZLjava/lang/String;Ljava/lang/String;Z[Ljava/lang/String;[Ljava/lang/String;ZZ)I")
     [(TInt, B "uid"); (TInt, B "gid"); (TIntArray, B "gids"); (TInt, B "runtime_flags");
      (TObjectArray, B "rlimits"); (TInt, B "mount_external"); (TString, B "se_info");
      (TString, B "nice_name"); (TIntArray, B "fds_to_close"); (TIntArray, B "fds_to_ignore");
      (TBoolean, B "is_child_zygote"); (TString, B "instruction_set"); (TString, B "app_data_dir");
      (TBoolean, B "is_top_app"); (TObjectArray, B "pkg_data_info_list");
      (TObjectArray, B "whitelisted_data_info_list"); (TBoolean, B "mount_data_dirs");
      (TBoolean, B "mount_storage_dirs")]
     TInt
     [B "fds_to_close"; B "fds_to_ignore"; B "is_child_zygote"; B "is_top_app"; B "pkg_data_info_list";
      B "whitelisted_data_info_list"; B "mount_data_dirs"; B "mount_storage_dirs"]
     [B "uid"; B "gid"; B "gids"; B "runtime_flags"; B "rlimits"; B "mount_external"; B "se_info";
      B "nice_name"; B "fds_to_close"; B "fds_to_ignore"; B "is_child_zygote"; B "instruction_set";
      B "app_data_dir"; B "is_top_app"; B "pkg_data_info_list"; B "whitelisted_data_info_list";
      B "mount_data_dirs"; B "mount_storage_dirs"]
     [TInt; TInt; TIntArray; TInt; TObjectArray; TInt; TString; TString; TIntArray; TIntArray;
      TBoolean; TString; TString; TBoolean; TObjectArray; TObjectArray; TBoolean; TBoolean] TInt 4].

Definition rows_5 : list jni_row :=
  [Row ForkAndSpecialize (B "nativeForkAndSpecialize")
     (B "(II[II[[IILjava/lang/String;Ljava/lang/String;[I[IZLjava/lang/String;Ljava/lang/String;Z[Ljava/lang/String;[Ljava/lang/String;ZZZ)I")
     [(TInt, B "uid"); (TInt, B "gid"); (TIntArray, B "gids"); (TInt, B "runtime_flags");
      (TObjectArray, B "rlimits"); (TInt, B "mount_external"); (TString, B "se_info");
      (TString, B "nice_name"); (TIntArray, B "fds_to_close"); (TIntArray, B "fds_to_ignore");
      (TBoolean, B "is_child_zygote"); (TString, B "instruction_set"); (TString, B "app_data_dir");
      (TBoolean, B "is_top_app"); (TObjectArray, B "pkg_data_info_list");
      (TObjectArray, B "whitelisted_data_info_list"); (TBoolean, B "mount_data_dirs");
      (TBoolean, B "mount_storage_dirs"); (TBoolean, B "mount_sysprop_overrides")]
     TInt
     [B "fds_to_close"; B "fds_to_ignore"; B "is_child_zygote"; B "is_top_app"; B "pkg_data_info_list";
      B "whitelisted_data_info_list"; B "mount_data_dirs"; B "mount_storage_dirs"; B "mount_sysprop_overrides"]
     [B "uid"; B "gid"; B "gids"; B "runtime_flags"; B "rlimits"; B "mount_external"; B "se_info";
      B "nice_name"; B "fds_to_close"; B "fds_to_ignore"; B "is_child_zygote"; B "instruction_set";
      B "app_data_dir"; B "is_top_app"; B "pkg_data_info_list"; B "whitelisted_data_info_list";
      B "mount_data_dirs"; B "mount_storage_dirs"; B "mount_sysprop_overrides"]
     [TInt; TInt; TIntArray; TInt; TObjectArray; TInt; TString; TString; TIntArray; TIntArray;
      TBoolean; TString; TString; TBoolean; TObjectArray; TObjectArray; TBoolean; TBoolean; TBoolean] TInt 5;
   Row ForkAndSpecialize (B "nativeForkAndSpecialize")
     (B "(II[II[[IILjava/lang/String;Ljava/lang/String;[I[IZLjava/lang/String;Ljava/lang/String;ZZ[Ljava/lang/String;[Ljava/lang/String;ZZZ)I")
     [(TInt, B "uid"); (TInt, B "gid"); (TIntArray, B "gids"); (TInt, B "runtime_flags");
      (TObjectArray, B "rlimits"); (TInt, B "mount_external"); (TString, B "se_info");
      (TString, B "nice_name"); (TIntArray, B "fds_to_close"); (TIntArray, B "fds_to_ignore");
      (TBoolean, B "is_child_zygote"); (TString, B "instruction_set"); (TString, B "app_data_dir");
      (TBoolean, B "is_top_app"); (TBoolean, B "use_fifo_ui"); (TObjectArray, B "pkg_data_info_list");
      (TObjectArray, B "whitelisted_data_info_list"); (TBoolean, B "mount_data_dirs");
      (TBoolean, B "mount_storage_dirs"); (TBoolean, B "mount_sysprop_overrides")]
     TInt
     [B "fds_to_close"; B "fds_to_ignore"; B "is_child_zygote"; B "is_top_app"; B "pkg_data_info_list";
      B "whitelisted_data_info_list"; B "mount_data_dirs"; B "mount_storage_dirs"; B "mount_sysprop_overrides"]
     [B "uid"; B "gid"; B "gids"; B "runtime_flags"; B "rlimits"; B "mount_external"; B "se_info";
      B "nice_name"; B "fds_to_close"; B "fds_to_ignore"; B "is_child_zygote"; B "instruction_set";
      B "app_data_dir"; B "is_top_app"; B "use_fifo_ui"; B "pkg_data_info_list";
      B "whitelisted_data_info_list"; B "mount_data_dirs"; B "mount_storage_dirs"; B "mount_sysprop_overrides"]
     [TInt; TInt; TIntArray; TInt; TObjectArray; TInt; TString; TString; TIntArray; TIntArray;
      TBoolean; TString; TString; TBoolean; TBoolean; TObjectArray; TObjectArray; TBoolean;
      TBoolean; TBoolean] TInt 6;
   Row ForkAndSpecialize (B "nativeForkAndSpecialize")
     (B "(III[II[[IILjava/lang/String;Ljava/lang/String;[I[IZLjava/lang/String;Ljava/lang/String;ZZ[Ljava/lang/String;[Ljava/lang/String;ZZZ)I")
     [(TInt, B "uid"); (TInt, B "cgroup_uid"); (TInt, B "gid"); (TIntArray, B "gids");
      (TInt, B "runtime_flags"); (TObjectArray, B "rlimits"); (TInt, B "mount_external");
      (TString, B "se_info"); (TString, B "nice_name"); (TIntArray, B "fds_to_close");
      (TIntArray, B "fds_to_ignore"); (TBoolean, B "is_child_zygote"); (TString, B "instruction_set");
      (TString, B "app_data_dir"); (TBoolean, B "is_top_app"); (TBoolean, B "use_fifo_ui");
      (TObjectArray, B "pkg_data_info_list"); (TObjectArray, B "whitelisted_data_info_list");
      (TBoolean, B "mount_data_dirs"); (TBoolean, B "mount_storage_dirs");
      (TBoolean, B "mount_sysprop_overrides")]
     TInt
     [B "fds_to_close"; B "fds_to_ignore"; B "is_child_zygote"; B "is_top_app"; B "pkg_data_info_list";
      B "whitelisted_data_info_list"; B "mount_data_dirs"; B "mount_storage_dirs"; B "mount_sysprop_overrides"]
     [B "uid"; B "cgroup_uid"; B "gid"; B "gids"; B "runtime_flags"; B "rlimits"; B "mount_external";
      B "se_info"; B "nice_name"; B "fds_to_close"; B "fds_to_ignore"; B "is_child_zygote";
      B "instruction_set"; B "app_data_dir"; B "is_top_app"; B "use_fifo_ui"; B "pkg_data_info_list";
      B "whitelisted_data_info_list"; B "mount_data_dirs"; B "mount_storage_dirs"; B "mount_sysprop_overrides"]
     [TInt; TInt; TInt; TIntArray; TInt; TObjectArray; TInt; TString; TString; TIntArray; TIntArray;
      TBoolean; TString; TString; TBoolean; TBoolean; TObjectArray; TObjectArray; TBoolean;
      TBoolean; TBoolean] TInt 7;
   Row ForkAndSpecialize (B "nativeForkAndSpecialize")
     (B "(II[II[[IILjava/lang/String;IILjava/lang/String;[ILjava/lang/String;Ljava/lang/String;)I")
     [(TInt, B "uid"); (TInt, B "gid"); (TIntArray, B "gids"); (TInt, B "runtime_flags");
      (TObjectArray, B "rlimits"); (TInt, B "mount_external"); (TString, B "se_info"); (TInt, B "_0");
      (TInt, B "_1"); (TString, B "nice_name"); (TIntArray, B "fds_to_close"); (TString, B "instruction_set");
      (TString, B "app_data_dir")]
     TInt
     [B "fds_to_close"]
     [B "uid"; B "gid"; B "gids"; B "runtime_flags"; B "rlimits"; B "mount_external"; B "se_info"; B "_0";
      B "_1"; B "nice_name"; B "fds_to_close"; B "instruction_set"; B "app_data_dir"]
     [TInt; TInt; TIntArray; TInt; TObjectArray; TInt; TString; TInt; TInt; TString; TIntArray;
      TString; TString] TInt 8;
   Row ForkAndSpecialize (B "nativeForkAndSpecialize")
     (B "(II[II[[IILjava/lang/String;IILjava/lang/String;[ILjava/lang/String;Ljava/lang/String;I)I")
     [(TInt, B "uid"); (TInt, B "gid"); (TIntArray, B "gids"); (TInt, B "runtime_flags");
      (TObjectArray, B "rlimits"); (TInt, B "mount_external"); (TString, B "se_info"); (TInt, B "_2");
      (TInt, B "_3"); (TString, B "nice_name"); (TIntArray, B "fds_to_close"); (TString, B "instruction_set");
      (TString, B "app_data_dir"); (TInt, B "_4")]
     TInt
     [B "fds_to_close"]
     [B "uid"; B "gid"; B "gids"; B "runtime_flags"; B "rlimits"; B "mount_external"; B "se_info"; B "_2";
      B "_3"; B "nice_name"; B "fds_to_close"; B "instruction_set"; B "app_data_dir"; B "_4"]
     [TInt; TInt; TIntArray; TInt; TObjectArray; TInt; TString; TInt; TInt; TString; TIntArray;
      TString; TString; TInt] TInt 9].

Definition rows_10 : list jni_row :=
  [Row ForkAndSpecialize (B "nativeForkAndSpecialize")
     (B "(II[II[[IILjava/lang/String;IILjava/lang/String;[I[ILjava/lang/String;Ljava/lang/String;)I")
     [(TInt, B "uid"); (TInt, B "gid"); (TIntArray, B "gids"); (TInt, B "runtime_flags");
      (TObjectArray, B "rlimits"); (TInt, B "mount_external"); (TString, B "se_info"); (TInt, B "_5");
      (TInt, B "_6"); (TString, B "nice_name"); (TIntArray, B "fds_to_close"); (TIntArray, B "fds_to_ignore");
      (TString, B "instruction_set"); (TString, B "app_data_dir")]
     TInt
     [B "fds_to_close"; B "fds_to_ignore"]
     [B "uid"; B "gid"; B "gids"; B "runtime_flags"; B "rlimits"; B "mount_external"; B "se_info"; B "_5";
      B "_6"; B "nice_name"; B "fds_to_close"; B "fds_to_ignore"; B "instruction_set"; B "app_data_dir"]
     [TInt; TInt; TIntArray; TInt; TObjectArray; TInt; TString; TInt; TInt; TString; TIntArray;
      TIntArray; TString; TString] TInt 10;
   Row ForkAndSpecialize (B "nativeForkAndSpecialize")
     (B "(II[II[[IILjava/lang/String;IILjava/lang/String;[I[IZLjava/lang/String;Ljava/lang/String;)I")
     [(TInt, B "uid"); (TInt, B "gid"); (TIntArray, B "gids"); (TInt, B "runtime_flags");
      (TObjectArray, B "rlimits"); (TInt, B "mount_external"); (TString, B "se_info"); (TInt, B "_7");
      (TInt, B "_8"); (TString, B "nice_name"); (TIntArray, B "fds_to_close"); (TIntArray, B "fds_to_ignore");
      (TBoolean, B "is_child_zygote"); (TString, B "instruction_set"); (TString, B "app_data_dir")]
     TInt
     [B "fds_to_close"; B "fds_to_ignore"; B "is_child_zygote"]
     [B "uid"; B "gid"; B "gids"; B "runtime_flags"; B "rlimits"; B "mount_external"; B "se_info"; B "_7";
      B "_8"; B "nice_name"; B "fds_to_close"; B "fds_to_ignore"; B "is_child_zygote"; B "instruction_set";
      B "app_data_dir"]
     [TInt; TInt; TIntArray; TInt; TObjectArray; TInt; TString; TInt; TInt; TString; TIntArray;
      TIntArray; TBoolean; TString; TString] TInt 11;
   Row ForkAndSpecialize (B "nativeForkAndSpecialize")
     (B "(II[II[[IILjava/lang/String;Ljava/lang/String;[I[IZLjava/lang/String;Ljava/lang/String;ZZ[Ljava/lang/String;[Ljava/lang/String;ZZZ)I")
     [(TInt, B "uid"); (TInt, B "gid"); (TIntArray, B "gids"); (TInt, B "runtime_flags");
      (TObjectArray, B "rlimits"); (TInt, B "mount_external"); (TString, B "se_info");
      (TString, B "nice_name"); (TIntArray, B "fds_to_close"); (TIntArray, B "fds_to_ignore");
      (TBoolean, B "is_child_zygote"); (TString, B "instruction_set"); (TString, B "app_data_dir");
      (TBoolean, B "_9"); (TBoolean, B "is_top_app"); (TObjectArray, B "pkg_data_info_list");
      (TObjectArray, B "whitelisted_data_info_list"); (TBoolean, B "mount_data_dirs");
      (TBoolean, B "mount_storage_dirs"); (TBoolean, B "mount_sysprop_overrides")]
     TInt
     [B "fds_to_close"; B "fds_to_ignore"; B "is_child_zygote"; B "is_top_app"; B "pkg_data_info_list";
      B "whitelisted_data_info_list"; B "mount_data_dirs"; B "mount_storage_dirs"; B "mount_sysprop_overrides"]
     [B "uid"; B "gid"; B "gids"; B "runtime_flags"; B "rlimits"; B "mount_external"; B "se_info";
      B "nice_name"; B "fds_to_close"; B "fds_to_ignore"; B "is_child_zygote"; B "instruction_set";
      B "app_data_dir"; B "_9"; B "is_top_app"; B "pkg_data_info_list"; B "whitelisted_data_info_list";
      B "mount_data_dirs"; B "mount_storage_dirs"; B "mount_sysprop_overrides"]
     [TInt; TInt; TIntArray; TInt; TObjectArray; TInt; TString; TString; TIntArray; TIntArray;
      TBoolean; TString; TString; TBoolean; TBoolean; TObjectArray; TObjectArray; TBoolean;
      TBoolean; TBoolean] TInt 12;
   Row ForkAndSpecialize (B "nativeForkAndSpecialize")
     (B "(II[II[[IILjava/lang/String;Ljava/lang/String;[I[IZLjava/lang/String;Ljava/lang/String;Z[Ljava/lang/String;[Ljava/lang/String;ZZZ[J)I")
     [(TInt, B "uid"); (TInt, B "gid"); (TIntArray, B "gids"); (TInt, B "runtime_flags");
      (TObjectArray, B "rlimits"); (TInt, B "mount_external"); (TString, B "se_info");
      (TString, B "nice_name"); (TIntArray, B "fds_to_close"); (TIntArray, B "fds_to_ignore");
      (TBoolean, B "is_child_zygote"); (TString, B "instruction_set"); (TString, B "app_data_dir");
      (TBoolean, B "is_top_app"); (TObjectArray, B "pkg_data_info_list");
      (TObjectArray, B "whitelisted_data_info_list"); (TBoolean, B "mount_data_dirs");
      (TBoolean, B "mount_storage_dirs"); (TBoolean, B "mount_sysprop_overrides"); (TLongArray, B "_10")]
     TInt
     [B "fds_to_close"; B "fds_to_ignore"; B "is_child_zygote"; B "is_top_app"; B "pkg_data_info_list";
      B "whitelisted_data_info_list"; B "mount_data_dirs"; B "mount_storage_dirs"; B "mount_sysprop_overrides"]
     [B "uid"; B "gid"; B "gids"; B "runtime_flags"; B "rlimits"; B "mount_external"; B "se_info";
      B "nice_name"; B "fds_to_close"; B "fds_to_ignore"; B "is_child_zygote"; B "instruction_set";
      B "app_data_dir"; B "is_top_app"; B "pkg_data_info_list"; B "whitelisted_data_info_list";
      B "mount_data_dirs"; B "mount_storage_dirs"; B "mount_sysprop_overrides"; B "_10"]
     [TInt; TInt; TIntArray; TInt; TObjectArray; TInt; TString; TString; TIntArray; TIntArray;
      TBoolean; TString; TString; TBoolean; TObjectArray; TObjectArray; TBoolean; TBoolean;
      TBoolean; TLongArray] TInt 13;
   Row ForkAndSpecialize (B "nativeForkAndSpecialize")
     (B "([JII[II[[IILjava/lang/String;Ljava/lang/String;[I[IZLjava/lang/String;Ljava/lang/String;ZZ[Ljava/lang/String;[Ljava/lang/String;ZZZ)I")
     [(TLongArray, B "_11"); (TInt, B "uid"); (TInt, B "gid"); (TIntArray, B "gids");
      (TInt, B "runtime_flags"); (TObjectArray, B "rlimits"); (TInt, B "mount_external");
      (TString, B "se_info"); (TString, B "nice_name"); (TIntArray, B "fds_to_close");
      (TIntArray, B "fds_to_ignore"); (TBoolean, B "is_child_zygote"); (TString, B "instruction_set");
      (TString, B "app_data_dir"); (TBoolean, B "is_top_app"); (TBoolean, B "_12");
      (TObjectArray, B "pkg_data_info_list"); (TObjectArray, B "whitelisted_data_info_list");
      (TBoolean, B "mount_data_dirs"); (TBoolean, B "mount_storage_dirs");
      (TBoolean, B "mount_sysprop_overrides")]
     TInt
     [B "fds_to_close"; B "fds_to_ignore"; B "is_child_zygote"; B "is_top_app"; B "pkg_data_info_list";
      B "whitelisted_data_info_list"; B "mount_data_dirs"; B "mount_storage_dirs"; B "mount_sysprop_overrides"]
     [B "_11"; B "uid"; B "gid"; B "gids"; B "runtime_flags"; B "rlimits"; B "mount_external"; B "se_info";
      B "nice_name"; B "fds_to_close"; B "fds_to_ignore"; B "is_child_zygote"; B "instruction_set";
      B "app_data_dir"; B "is_top_app"; B "_12"; B "pkg_data_info_list"; B "whitelisted_data_info_list";
      B "mount_data_dirs"; B "mount_storage_dirs"; B "mount_sysprop_overrides"]
     [TLongArray; TInt; TInt; TIntArray; TInt; TObjectArray; TInt; TString; TString; TIntArray;
      TIntArray; TBoolean; TString; TString; TBoolean; TBoolean; TObjectArray; TObjectArray;
      TBoolean; TBoolean; TBoolean] TInt 14].

Definition rows_15 : list jni_row :=
  [Row SpecializeAppProcess (B "nativeSpecializeAppProcess")
     (B "(II[II[[IILjava/lang/String;Ljava/lang/String;ZLjava/lang/String;Ljava/lang/String;)V")
     [(TInt, B "uid"); (TInt, B "gid"); (TIntArray, B "gids"); (TInt, B "runtime_flags");
      (TObjectArray, B "rlimits"); (TInt, B "mount_external"); (TString, B "se_info");
      (TString, B "nice_name"); (TBoolean, B "is_child_zygote"); (TString, B "instruction_set");
      (TString, B "app_data_dir")]
     TVoid
     [B "is_child_zygote"]
     [B "uid"; B "gid"; B "gids"; B "runtime_flags"; B "rlimits"; B "mount_external"; B "se_info";
      B "nice_name"; B "is_child_zygote"; B "instruction_set"; B "app_data_dir"]
     [TInt; TInt; TIntArray; TInt; TObjectArray; TInt; TString; TString; TBoolean; TString; TString] TVoid 15;
   Row SpecializeAppProcess (B "nativeSpecializeAppProcess")
     (B "(II[II[[IILjava/lang/String;Ljava/lang/String;ZLjava/lang/String;Ljava/lang/String;Z)V")
     [(TInt, B "uid"); (TInt, B "gid"); (TIntArray, B "gids"); (TInt, B "runtime_flags");
      (TObjectArray, B "rlimits"); (TInt, B "mount_external"); (TString, B "se_info");
      (TString, B "nice_name"); (TBoolean, B "is_child_zygote"); (TString, B "instruction_set");
      (TString, B "app_data_dir"); (TBoolean, B "is_top_app")]
     TVoid
     [B "is_child_zygote"; B "is_top_app"]
     [B "uid"; B "gid"; B "gids"; B "runtime_flags"; B "rlimits"; B "mount_external"; B "se_info";
      B "nice_name"; B "is_child_zygote"; B "instruction_set"; B "app_data_dir"; B "is_top_app"]
     [TInt; TInt; TIntArray; TInt; TObjectArray; TInt; TString; TString; TBoolean; TString; TString;
      TBoolean] TVoid 16;
   Row SpecializeAppProcess (B "nativeSpecializeAppProcess")
     (B "(II[II[[IILjava/lang/String;Ljava/lang/String;ZLjava/lang/String;Ljava/lang/String;Z[Ljava/lang/String;[Ljava/lang/String;ZZ)V")
     [(TInt, B "uid"); (TInt, B "gid"); (TIntArray, B "gids"); (TInt, B "runtime_flags");
      (TObjectArray, B "rlimits"); (TInt, B "mount_external"); (TString, B "se_info");
      (TString, B "nice_name"); (TBoolean, B "is_child_zygote"); (TString, B "instruction_set");
      (TString, B "app_data_dir"); (TBoolean, B "is_top_app"); (TObjectArray, B "pkg_data_info_list");
      (TObjectArray, B "whitelisted_data_info_list"); (TBoolean, B "mount_data_dirs");
      (TBoolean, B "mount_storage_dirs")]
     TVoid
     [B "is_child_zygote"; B "is_top_app"; B "pkg_data_info_list"; B "whitelisted_data_info_list";
      B "mount_data_dirs"; B "mount_storage_dirs"]
     [B "uid"; B "gid"; B "gids"; B "runtime_flags"; B "rlimits"; B "mount_external"; B "se_info";
      B "nice_name"; B "is_child_zygote"; B "instruction_set"; B "app_data_dir"; B "is_top_app";
      B "pkg_data_info_list"; B "whitelisted_data_info_list"; B "mount_data_dirs"; B "mount_storage_dirs"]
     [TInt; TInt; TIntArray; TInt; TObjectArray; TInt; TString; TString; TBoolean; TString; TString;
      TBoolean; TObjectArray; TObjectArray; TBoolean; TBoolean] TVoid 17;
   Row SpecializeAppProcess (B "nativeSpecializeAppProcess")
     (B "(II[II[[IILjava/lang/String;Ljava/lang/String;ZLjava/lang/String;Ljava/lang/String;Z[Ljava/lang/String;[Ljava/lang/String;ZZZ)V")
     [(TInt, B "uid"); (TInt, B "gid"); (TIntArray, B "gids"); (TInt, B "runtime_flags");
      (TObjectArray, B "rlimits"); (TInt, B "mount_external"); (TString, B "se_info");
      (TString, B "nice_name"); (TBoolean, B "is_child_zygote"); (TString, B "instruction_set");
      (TString, B "app_data_dir"); (TBoolean, B "is_top_app"); (TObjectArray, B "pkg_data_info_list");
      (TObjectArray, B "whitelisted_data_info_list"); (TBoolean, B "mount_data_dirs");
      (TBoolean, B "mount_storage_dirs"); (TBoolean, B "mount_sysprop_overrides")]
     TVoid
     [B "is_child_zygote"; B "is_top_app"; B "pkg_data_info_list"; B "whitelisted_data_info_list";
      B "mount_data_dirs"; B "mount_storage_dirs"; B "mount_sysprop_overrides"]
     [B "uid"; B "gid"; B "gids"; B "runtime_flags"; B "rlimits"; B "mount_external"; B "se_info";
      B "nice_name"; B "is_child_zygote"; B "instruction_set"; B "app_data_dir"; B "is_top_app";
      B "pkg_data_info_list"; B "whitelisted_data_info_list"; B "mount_data_dirs"; B "mount_storage_dirs";
      B "mount_sysprop_overrides"]
     [TInt; TInt; TIntArray; TInt; TObjectArray; TInt; TString; TString; TBoolean; TString; TString;
      TBoolean; TObjectArray; TObjectArray; TBoolean; TBoolean; TBoolean] TVoid 18].

Definition rows_19 : list jni_row :=
  [Row SpecializeAppProcess (B "nativeSpecializeAppProcess")
     (B "(III[II[[IILjava/lang/String;Ljava/lang/String;ZLjava/lang/String;Ljava/lang/String;Z[Ljava/lang/String;[Ljava/lang/String;ZZZ)V")
     [(TInt, B "uid"); (TInt, B "cgroup_uid"); (TInt, B "gid"); (TIntArray, B "gids");
      (TInt, B "runtime_flags"); (TObjectArray, B "rlimits"); (TInt, B "mount_external");
      (TString, B "se_info"); (TString, B "nice_name"); (TBoolean, B "is_child_zygote");
      (TString, B "instruction_set"); (TString, B "app_data_dir"); (TBoolean, B "is_top_app");
      (TObjectArray, B "pkg_data_info_list"); (TObjectArray, B "whitelisted_data_info_list");
      (TBoolean, B "mount_data_dirs"); (TBoolean, B "mount_storage_dirs");
      (TBoolean, B "mount_sysprop_overrides")]
     TVoid
     [B "is_child_zygote"; B "is_top_app"; B "pkg_data_info_list"; B "whitelisted_data_info_list";
      B "mount_data_dirs"; B "mount_storage_dirs"; B "mount_sysprop_overrides"]
     [B "uid"; B "cgroup_uid"; B "gid"; B "gids"; B "runtime_flags"; B "rlimits"; B "mount_external";
      B "se_info"; B "nice_name"; B "is_child_zygote"; B "instruction_set"; B "app_data_dir"; B "is_top_app";
      B "pkg_data_info_list"; B "whitelisted_data_info_list"; B "mount_data_dirs"; B "mount_storage_dirs";
      B "mount_sysprop_overrides"]
     [TInt; TInt; TInt; TIntArray; TInt; TObjectArray; TInt; TString; TString; TBoolean; TString;
      TString; TBoolean; TObjectArray; TObjectArray; TBoolean; TBoolean; TBoolean] TVoid 19;
   Row SpecializeAppProcess (B "nativeSpecializeAppProcess")
     (B "(II[II[[IILjava/lang/String;IILjava/lang/String;ZLjava/lang/String;Ljava/lang/String;)V")
     [(TInt, B "uid"); (TInt, B "gid"); (TIntArray, B "gids"); (TInt, B "runtime_flags");
      (TObjectArray, B "rlimits"); (TInt, B "mount_external"); (TString, B "se_info"); (TInt, B "_13");
      (TInt, B "_14"); (TString, B "nice_name"); (TBoolean, B "is_child_zygote");
      (TString, B "instruction_set"); (TString, B "app_data_dir")]
     TVoid
     [B "is_child_zygote"]
     [B "uid"; B "gid"; B "gids"; B "runtime_flags"; B "rlimits"; B "mount_external"; B "se_info"; B "_13";
      B "_14"; B "nice_name"; B "is_child_zygote"; B "instruction_set"; B "app_data_dir"]
     [TInt; TInt; TIntArray; TInt; TObjectArray; TInt; TString; TInt; TInt; TString; TBoolean;
      TString; TString] TVoid 20;
   Row SpecializeAppProcess (B "nativeSpecializeAppProcess")
     (B "(II[II[[IILjava/lang/String;Ljava/lang/String;ZLjava/lang/String;Ljava/lang/String;Z[Ljava/lang/String;[Ljava/lang/String;ZZZ[J)V")
     [(TInt, B "uid"); (TInt, B "gid"); (TIntArray, B "gids"); (TInt, B "runtime_flags");
      (TObjectArray, B "rlimits"); (TInt, B "mount_external"); (TString, B "se_info");
      (TString, B "nice_name"); (TBoolean, B "is_child_zygote"); (TString, B "instruction_set");
      (TString, B "app_data_dir"); (TBoolean, B "is_top_app"); (TObjectArray, B "pkg_data_info_list");
      (TObjectArray, B "whitelisted_data_info_list"); (TBoolean, B "mount_data_dirs");
      (TBoolean, B "mount_storage_dirs"); (TBoolean, B "mount_sysprop_overrides"); (TLongArray, B "_15")]
     TVoid
     [B "is_child_zygote"; B "is_top_app"; B "pkg_data_info_list"; B "whitelisted_data_info_list";
      B "mount_data_dirs"; B "mount_storage_dirs"; B "mount_sysprop_overrides"]
     [B "uid"; B "gid"; B "gids"; B "runtime_flags"; B "rlimits"; B "mount_external"; B "se_info";
      B "nice_name"; B "is_child_zygote"; B "instruction_set"; B "app_data_dir"; B "is_top_app";
      B "pkg_data_info_list"; B "whitelisted_data_info_list"; B "mount_data_dirs"; B "mount_storage_dirs";
      B "mount_sysprop_overrides"; B "_15"]
     [TInt; TInt; TIntArray; TInt; TObjectArray; TInt; TString; TString; TBoolean; TString; TString;
      TBoolean; TObjectArray; TObjectArray; TBoolean; TBoolean; TBoolean; TLongArray] TVoid 21;
   Row SpecializeAppProcess (B "nativeSpecializeAppProcess")
     (B "([JII[II[[IILjava/lang/String;Ljava/lang/String;ZLjava/lang/String;Ljava/lang/String;Z[Ljava/lang/String;[Ljava/lang/String;ZZZ)V")
     [(TLongArray, B "_16"); (TInt, B "uid"); (TInt, B "gid"); (TIntArray, B "gids");
      (TInt, B "runtime_flags"); (TObjectArray, B "rlimits"); (TInt, B "mount_external");
      (TString, B "se_info"); (TString, B "nice_name"); (TBoolean, B "is_child_zygote");
      (TString, B "instruction_set"); (TString, B "app_data_dir"); (TBoolean, B "is_top_app");
      (TObjectArray, B "pkg_data_info_list"); (TObjectArray, B "whitelisted_data_info_list");
      (TBoolean, B "mount_data_dirs"); (TBoolean, B "mount_storage_dirs");
      (TBoolean, B "mount_sysprop_overrides")]
     TVoid
     [B "is_child_zygote"; B "is_top_app"; B "pkg_data_info_list"; B "whitelisted_data_info_list";
      B "mount_data_dirs"; B "mount_storage_dirs"; B "mount_sysprop_overrides"]
     [B "_16"; B "uid"; B "gid"; B "gids"; B "runtime_flags"; B "rlimits"; B "mount_external"; B "se_info";
      B "nice_name"; B "is_child_zygote"; B "instruction_set"; B "app_data_dir"; B "is_top_app";
      B "pkg_data_info_list"; B "whitelisted_data_info_list"; B "mount_data_dirs"; B "mount_storage_dirs";
      B "mount_sysprop_overrides"]
     [TLongArray; TInt; TInt; TIntArray; TInt; TObjectArray; TInt; TString; TString; TBoolean;
      TString; TString; TBoolean; TObjectArray; TObjectArray; TBoolean; TBoolean; TBoolean] TVoid 22;
   Row ForkSystemServer (B "nativeForkSystemServer")
     (B "(II[II[[IJJ)I")
     [(TInt, B "uid"); (TInt, B "gid"); (TIntArray, B "gids"); (TInt, B "runtime_flags");
      (TObjectArray, B "rlimits"); (TLong, B "permitted_capabilities"); (TLong, B "effective_capabilities")]
     TInt
     []
     [B "uid"; B "gid"; B "gids"; B "runtime_flags"; B "rlimits"; B "permitted_capabilities";
      B "effective_capabilities"]
     [TInt; TInt; TIntArray; TInt; TObjectArray; TLong; TLong] TInt 23;
   Row ForkSystemServer (B "nativeForkSystemServer")
     (B "(II[IIII[[IJJ)I")
     [(TInt, B "uid"); (TInt, B "gid"); (TIntArray, B "gids"); (TInt, B "runtime_flags"); (TInt, B "_17");
      (TInt, B "_18"); (TObjectArray, B "rlimits"); (TLong, B "permitted_capabilities");
      (TLong, B "effective_capabilities")]
     TInt
     []
     [B "uid"; B "gid"; B "gids"; B "runtime_flags"; B "_17"; B "_18"; B "rlimits"; B "permitted_capabilities";
      B "effective_capabilities"]
     [TInt; TInt; TIntArray; TInt; TInt; TInt; TObjectArray; TLong; TLong] TInt 24].

Definition zygote_rows : list jni_row := rows_0 ++ rows_5 ++ rows_10 ++ rows_15 ++ rows_19.

(** ** Signatures *)

(** Types of JNI signatures. *)
Inductive jty := YInt | YBoolean | YLong | YVoid | YObject (name : list Z) | YArray (t : jty).

Fixpoint until (stop : Z) (l : list Z) : option (list Z * list Z) :=
  match l with
  | [] => None
  | c :: l' => if c =? stop then Some ([], l') else '(a, b) ← until stop l'; Some (c :: a, b)
  end.

Fixpoint parse_type (fuel : nat) (l : list Z) : option (jty * list Z) :=
  match fuel, l with
  | S fuel', c :: l' =>
      if c =? 73 then Some (YInt, l')
      else if c =? 90 then Some (YBoolean, l')
      else if c =? 74 then Some (YLong, l')
      else if c =? 86 then Some (YVoid, l')
      else if c =? 91 then '(t, l') ← parse_type fuel' l'; Some (YArray t, l')
      else if c =? 76 then '(name, l') ← until 59 l'; Some (YObject name, l')
      else None
  | _, _ => None
  end.

(** Parameter types up to the closing parenthesis, and the rest. *)
Fixpoint parse_params (fuel : nat) (l : list Z) : option (list jty * list Z) :=
  match fuel, l with
  | S fuel', c :: l' =>
      if c =? 41 then Some ([], l')
      else '(t, rest) ← parse_type fuel' l; '(ts, rest) ← parse_params fuel' rest; Some (t :: ts, rest)
  | _, _ => None
  end.

Definition parse_sig (l : list Z) : option (list jty * jty) :=
  match l with
  | c :: l' =>
      if negb (c =? 40) then None
      else
        '(ts, rest) ← parse_params (length l) l';
        '(r, rest) ← parse_type (length l) rest;
        match rest with [] => Some (ts, r) | _ => None end
  | [] => None
  end.

(** The C++ type of a value of a JNI type. *)
Definition erase (t : jty) : option cty :=
  match t with
  | YInt => Some TInt
  | YBoolean => Some TBoolean
  | YLong => Some TLong
  | YVoid => Some TVoid
  | YObject name => if beq name (B "java/lang/String") then Some TString else None
  | YArray YInt => Some TIntArray
  | YArray YLong => Some TLongArray
  | YArray (YObject _) | YArray (YArray _) => Some TObjectArray
  | YArray _ => None
  end.

Definition handler_name (h : handler) : list Z :=
  match h with
  | ForkAndSpecialize => B "nativeForkAndSpecialize"
  | SpecializeAppProcess => B "nativeSpecializeAppProcess"
  | ForkSystemServer => B "nativeForkSystemServer"
  end.

(** The parameters that the constructor of the arguments needs. *)
Definition required (h : handler) : list (cty * list Z) :=
  match h with
  | ForkSystemServer =>
      [(TInt, B "uid"); (TInt, B "gid"); (TIntArray, B "gids"); (TInt, B "runtime_flags");
       (TLong, B "permitted_capabilities"); (TLong, B "effective_capabilities")]
  | _ =>
      [(TInt, B "uid"); (TInt, B "gid"); (TIntArray, B "gids"); (TInt, B "runtime_flags"); (TObjectArray, B "rlimits");
       (TInt, B "mount_external"); (TString, B "se_info"); (TString, B "nice_name"); (TString, B "instruction_set");
       (TString, B "app_data_dir")]
  end.

Definition optional_field (name : list Z) : option cty :=
  if beq name (B "fds_to_close") || beq name (B "fds_to_ignore") then Some TIntArray
  else if beq name (B "pkg_data_info_list") || beq name (B "whitelisted_data_info_list") then Some TObjectArray
  else if existsb (beq name) [B "is_child_zygote"; B "is_top_app"; B "mount_data_dirs"; B "mount_storage_dirs";
                              B "mount_sysprop_overrides"] then Some TBoolean
  else None.

(** A row is well typed: its signature gives its parameters and its result,
    it has the arguments of its handler and sets only fields it has, and it
    forwards all of its parameters in order to a function of its own type. *)
Definition well_typed (r : jni_row) : Prop :=
  (exists ts t, parse_sig (row_sig r) = Some (ts, t) /\ Forall2 (fun y p => erase y = Some p.1) ts (row_params r)
     /\ erase t = Some (row_ret r))
  /\ row_name r = handler_name (row_handler r)
  /\ (row_ret r = match row_handler r with SpecializeAppProcess => TVoid | _ => TInt end)
  /\ required (row_handler r) ⊆ row_params r
  /\ Forall (fun f => exists t, optional_field f = Some t /\ (t, f) ∈ row_params r) (row_set r)
  /\ row_forward r = (row_params r).*2 /\ NoDup (row_params r).*2
  /\ row_cast r = (row_params r).*1 /\ row_cast_ret r = row_ret r.

#[local] Instance erase_dec ts (ps : list (cty * list Z)) : Decision (Forall2 (fun y p => erase y = Some p.1) ts ps).
Proof. apply Forall2_dec. intros. apply _. Defined.

Definition well_typed_b (r : jni_row) : bool :=
  match parse_sig (row_sig r) with
  | Some (ts, t) => bool_decide (Forall2 (fun y p => erase y = Some p.1) ts (row_params r)) && bool_decide (erase t = Some (row_ret r))
  | None => false
  end
  && bool_decide (row_name r = handler_name (row_handler r))
  && bool_decide (row_ret r = match row_handler r with SpecializeAppProcess => TVoid | _ => TInt end)
  && forallb (fun p => bool_decide (p ∈ row_params r)) (required (row_handler r))
  && forallb (fun f => match optional_field f with Some t => bool_decide ((t, f) ∈ row_params r) | None => false end) (row_set r)
  && bool_decide (row_forward r = (row_params r).*2) && bool_decide (NoDup (row_params r).*2)
  && bool_decide (row_cast r = (row_params r).*1) && bool_decide (row_cast_ret r = row_ret r).

Lemma well_typed_sound r : well_typed_b r = true -> well_typed r.
Proof.
  unfold well_typed_b, well_typed. destruct (parse_sig (row_sig r)) as [[ts t]|]; [|done].
  rewrite !andb_true_iff, !bool_decide_eq_true, !forallb_forall. intros ((((((((H1 & H2) & H3) & H4) & H5) & H6) & H7) & H8) & H9).
  split; [by exists ts, t|]. do 2 (split; [done|]).
  split; [intros p Hp; apply list_elem_of_In, H4 in Hp; by apply bool_decide_eq_true in Hp|].
  split; [|done]. apply Forall_forall. intros f Hf. apply list_elem_of_In, H5 in Hf.
  destruct (optional_field f) as [t'|]; [|done]. exists t'. by apply bool_decide_eq_true in Hf.
Qed.

(** C37. Every row of the table of replaced methods is well typed: its JNI
    signature denotes exactly the parameter and result types of the C++
    replacement, the replacement has every parameter that the constructor of
    the arguments takes and points the optional fields only at parameters of
    their type, and it passes all its parameters in order to the original of
    its own row, cast to the replacement's own type. *)
Theorem rows_well_typed : Forall well_typed zygote_rows /\ row_index <$> zygote_rows = seq 0 25.
Proof.
  split; [|vm_compute; reflexivity]. apply Forall_forall. intros r Hr. apply well_typed_sound.
  assert (H : forallb well_typed_b zygote_rows = true) by (vm_compute; reflexivity).
  rewrite forallb_forall in H. by apply H, list_elem_of_In.
Qed.

(** Where a row has a parameter of this name. *)
Definition position (name : list Z) (r : jni_row) : option nat := fst <$> list_find (fun p => p.2 = name) (row_params r).

Definition same_key (r r' : jni_row) : bool := beq (row_name r) (row_name r') && beq (row_sig r) (row_sig r').

Definition collisions (rows : list jni_row) : list (nat * nat) :=
  filter (fun p => match rows !! p.1, rows !! p.2 with
                   | Some r, Some r' => (p.1 <? p.2)%nat && same_key r r'
                   | _, _ => false
                   end = true)
    (i ← seq 0 (length rows); j ← seq 0 (length rows); [(i, j)]).

(** The runtime tells methods apart by name and signature. All rows have
    different keys, except two: Android 17's variant of
    nativeForkAndSpecialize (row 6) and Samsung's (row 12) cannot be told
    apart, although the flag is_top_app is their parameter 13 and 14
    respectively. *)
Theorem only_collision :
  collisions zygote_rows = [(6, 12)]%nat
  /\ exists r6 r12, zygote_rows !! 6%nat = Some r6 /\ zygote_rows !! 12%nat = Some r12
     /\ same_key r6 r12 = true
     /\ position (B "is_top_app") r6 = Some 13%nat /\ position (B "is_top_app") r12 = Some 14%nat.
Proof.
  split; [vm_compute; reflexivity|]. eexists _, _. split; [reflexivity|]. split; [reflexivity|].
  split; [vm_compute; reflexivity|]. split; vm_compute; reflexivity.
Qed.
