(* ===== verification/JniRefs.v ===== *)
(** The owning wrappers of util::jni (src/loader/src/injector/android_util.hpp):
    ScopedLocalRef over local references, JUTFString over the characters of a
    Java string, and SafeInvoke, which hands the result of a JNI function to a
    ScopedLocalRef. The virtual machine is its tables of what it has handed out;
    a JNI function is a parameter, with what the JNI specification says of its
    result as the contract [jni_result]. [loose] is what the native code holds
    without a wrapper: the results of raw calls and of release(). *)
From stdpp Require Import gmultiset.
From S2P Require Import Prelude.
Open Scope Z_scope.

(** ** The virtual machine *)

(** A reference is only meaningful together with the environment it was handed
    out in. [faults] lists what was given back without being held. *)
Record jvm := Jvm {
  table : gset (Z * Z);
  chars : gset (Z * Z);
  pending : gset Z;
  faults : list (Z * Z)
}.

Definition DeleteLocalRef (env r : Z) (v : jvm) : jvm :=
  if decide ((env, r) ∈ table v) then Jvm (table v ∖ {[(env, r)]}) (chars v) (pending v) (faults v)
  else Jvm (table v) (chars v) (pending v) ((env, r) :: faults v).

Definition ReleaseStringUTFChars (jstr c : Z) (v : jvm) : jvm :=
  if decide ((jstr, c) ∈ chars v) then Jvm (table v) (chars v ∖ {[(jstr, c)]}) (pending v) (faults v)
  else Jvm (table v) (chars v) (pending v) ((jstr, c) :: faults v).

Definition ExceptionCheck (env : Z) (v : jvm) : bool := bool_decide (env ∈ pending v).
Definition ExceptionClear_ (env : Z) (v : jvm) : jvm :=
  Jvm (table v) (chars v) (pending v ∖ {[env]}) (faults v).

(** A JNI function on raw arguments. *)
Definition jni_fn := list Z -> jvm -> Z * jvm.

(** What a function that returns an object promises: null, or a reference the
    environment does not hold yet; null when it leaves an exception pending;
    everything handed out before stays handed out. *)
Definition jni_result (env : Z) (v : jvm) (out : Z * jvm) : Prop :=
  table out.2 = (if out.1 =? 0 then table v else {[(env, out.1)]} ∪ table v)
  /\ (out.1 <> 0 -> (env, out.1) ∉ table v)
  /\ (env ∈ pending out.2 -> out.1 = 0)
  /\ chars out.2 = chars v /\ faults out.2 = faults v.

(** ** ScopedLocalRef *)

Record ScopedLocalRef := Slr { env_ : Z; ref_ : Z }.

Definition slr_null (env : Z) : ScopedLocalRef := Slr env 0.
Definition slr_own (env local_ref : Z) : ScopedLocalRef := Slr env local_ref.
Definition slr_get (x : ScopedLocalRef) : Z := ref_ x.
Definition slr_bool (x : ScopedLocalRef) : bool := negb (ref_ x =? 0).

Definition slr_reset (ptr : Z) (x : ScopedLocalRef) (v : jvm) : ScopedLocalRef * jvm :=
  if negb (ref_ x =? ptr) then
    let v := if negb (ref_ x =? 0) then DeleteLocalRef (env_ x) (ref_ x) v else v in
    (Slr (env_ x) ptr, v)
  else (x, v).

Definition slr_release (x : ScopedLocalRef) : Z * ScopedLocalRef := (ref_ x, Slr (env_ x) 0).

(** The new object, and what is left of [other]. *)
Definition slr_move (other : ScopedLocalRef) : ScopedLocalRef * ScopedLocalRef :=
  let env := env_ other in
  let '(r, other) := slr_release other in (Slr env r, other).

(** Assignment from another object: this one, the other one, the machine. *)
Definition slr_assign (this other : ScopedLocalRef) (v : jvm) : ScopedLocalRef * ScopedLocalRef * jvm :=
  let '(r, other) := slr_release other in
  let '(this, v) := slr_reset r this v in
  (Slr (env_ other) (ref_ this), other, v).

Definition slr_dtor (x : ScopedLocalRef) (v : jvm) : jvm := (slr_reset 0 x v).2.

(** ** JUTFString *)

Record JUTFString := Jutf { u_env_ : Z; jstr_ : Z; cstr_ : Z }.

Definition jutf_new (get_chars : jni_fn) (env jstr : Z) (v : jvm) : JUTFString * jvm :=
  if negb (env =? 0) && negb (jstr =? 0) then
    let '(c, v) := get_chars [jstr] v in (Jutf env jstr c, v)
  else (Jutf env jstr 0, v).

Definition jutf_dtor (u : JUTFString) (v : jvm) : jvm :=
  if negb (u_env_ u =? 0) && negb (jstr_ u =? 0) && negb (cstr_ u =? 0)
  then ReleaseStringUTFChars (jstr_ u) (cstr_ u) v else v.

(** What GetStringUTFChars promises: null, or characters that are not handed
    out yet; references stay as they are. *)
Definition chars_result (jstr : Z) (v : jvm) (out : Z * jvm) : Prop :=
  chars out.2 = (if out.1 =? 0 then chars v else {[(jstr, out.1)]} ∪ chars v)
  /\ (out.1 <> 0 -> (jstr, out.1) ∉ chars v)
  /\ table out.2 = table v /\ faults out.2 = faults v.

(** ** SafeInvoke *)

(** An argument: a raw value, or a wrapper that keeps its reference. *)
Inductive jarg := Raw (x : Z) | Scoped (x : ScopedLocalRef).

Definition UnwrapScope (a : jarg) : Z :=
  match a with Raw x => x | Scoped x => slr_get x end.

Definition WrapScope (env x : Z) : ScopedLocalRef := slr_own env x.

(** The destructor of ExceptionChecker. *)
Definition checker_dtor (env : Z) (v : jvm) : jvm :=
  if ExceptionCheck env v then ExceptionClear_ env v else v.

(** For a function that returns an object. *)
Definition SafeInvoke (env : Z) (f : jni_fn) (args : list jarg) (v : jvm) : ScopedLocalRef * jvm :=
  let '(result, v) := f (map UnwrapScope args) v in
  let x := if ExceptionCheck env v then slr_null env else WrapScope env result in
  (x, checker_dtor env v).

(** For a function that returns a number, an identifier or nothing. *)
Definition SafeInvoke_value (env : Z) (f : jni_fn) (args : list jarg) (v : jvm) : Z * jvm :=
  let '(result, v) := f (map UnwrapScope args) v in
  let x := if ExceptionCheck env v then 0 else result in
  (x, checker_dtor env v).

(** ** The wrappers of single JNI functions *)

(** The functions of the environment the wrappers call. *)
Record JNIEnv := {
  env_FindClass : jni_fn; env_GetFieldID : jni_fn; env_GetStaticFieldID : jni_fn;
  env_GetObjectField : jni_fn; env_SetObjectField : jni_fn; env_GetStaticIntField : jni_fn;
  env_GetMethodID : jni_fn; env_ToReflectedMethod : jni_fn; env_CallVoidMethod : jni_fn;
  env_CallObjectMethod : jni_fn; env_CallBooleanMethod : jni_fn; env_CallIntMethod : jni_fn;
  env_GetLongField : jni_fn; env_NewObject : jni_fn; env_NewStringUTF : jni_fn
}.

Section Wrappers.
Context (J : JNIEnv) (env : Z).

Definition FindClass (name : Z) : jvm -> ScopedLocalRef * jvm := SafeInvoke env (env_FindClass J) [Raw name].
Definition GetFieldID (clazz : jarg) (name sig : Z) : jvm -> Z * jvm :=
  SafeInvoke_value env (env_GetFieldID J) [clazz; Raw name; Raw sig].
Definition GetStaticFieldID (clazz : jarg) (name sig : Z) : jvm -> Z * jvm :=
  SafeInvoke_value env (env_GetStaticFieldID J) [clazz; Raw name; Raw sig].
Definition GetObjectField (obj : jarg) (fieldId : Z) : jvm -> ScopedLocalRef * jvm :=
  SafeInvoke env (env_GetObjectField J) [obj; Raw fieldId].
Definition SetObjectField (obj : jarg) (fieldId : Z) (value : jarg) : jvm -> Z * jvm :=
  SafeInvoke_value env (env_SetObjectField J) [obj; Raw fieldId; value].
Definition GetStaticIntField (clazz : jarg) (fieldId : Z) : jvm -> Z * jvm :=
  SafeInvoke_value env (env_GetStaticIntField J) [clazz; Raw fieldId].
Definition GetMethodID (clazz : jarg) (name sig : Z) : jvm -> Z * jvm :=
  SafeInvoke_value env (env_GetMethodID J) [clazz; Raw name; Raw sig].
Definition ToReflectedMethod (clazz : jarg) (method isStatic : Z) : jvm -> ScopedLocalRef * jvm :=
  SafeInvoke env (env_ToReflectedMethod J) [clazz; Raw method; Raw isStatic].
Definition CallVoidMethod (obj : jarg) (method : Z) (args : list jarg) : jvm -> Z * jvm :=
  SafeInvoke_value env (env_CallVoidMethod J) (obj :: Raw method :: args).
Definition CallObjectMethod (obj : jarg) (method : Z) (args : list jarg) : jvm -> ScopedLocalRef * jvm :=
  SafeInvoke env (env_CallObjectMethod J) (obj :: Raw method :: args).
Definition CallBooleanMethod (obj : jarg) (method : Z) (args : list jarg) : jvm -> Z * jvm :=
  SafeInvoke_value env (env_CallBooleanMethod J) (obj :: Raw method :: args).
Definition CallIntMethod (obj : jarg) (method : Z) (args : list jarg) : jvm -> Z * jvm :=
  SafeInvoke_value env (env_CallIntMethod J) (obj :: Raw method :: args).
Definition GetLongField (obj : jarg) (fieldId : Z) : jvm -> Z * jvm :=
  SafeInvoke_value env (env_GetLongField J) [obj; Raw fieldId].
Definition NewObject (clazz : jarg) (method : Z) (args : list jarg) : jvm -> ScopedLocalRef * jvm :=
  SafeInvoke env (env_NewObject J) (clazz :: Raw method :: args).
Definition NewStringUTF (str : Z) : jvm -> ScopedLocalRef * jvm :=
  SafeInvoke env (env_NewStringUTF J) [Raw str].
End Wrappers.

(** Cast<U>: the converting move constructor. *)
Definition Cast (x : ScopedLocalRef) : ScopedLocalRef * ScopedLocalRef := slr_move x.

(** ** A native function at work *)

Record prog := Prog {
  vm : jvm;
  refs : gmap nat ScopedLocalRef;
  strs : gmap nat JUTFString;
  loose : gmultiset (Z * Z)
}.

Definition start : prog := Prog (Jvm ∅ ∅ ∅ []) ∅ ∅ ∅.

(** The reference a wrapper has to give back. *)
Definition res (x : ScopedLocalRef) : gmultiset (Z * Z) :=
  if ref_ x =? 0 then ∅ else {[+ (env_ x, ref_ x) +]}.

Definition ures (u : JUTFString) : gmultiset (Z * Z) :=
  if negb (u_env_ u =? 0) && negb (jstr_ u =? 0) && negb (cstr_ u =? 0)
  then {[+ (jstr_ u, cstr_ u) +]} else ∅.

(** Arguments name wrappers by their place. *)
Inductive parg := PRaw (x : Z) | PRef (a : nat).

Definition parg_value (m : gmap nat ScopedLocalRef) (p : parg) : option jarg :=
  match p with PRaw x => Some (Raw x) | PRef a => Scoped <$> m !! a end.

Inductive op :=
| ONull (a : nat) (env : Z)
| OOwn (a : nat) (env local_ref : Z)
| OMove (a b : nat)
| OAssign (a b : nat)
| OReset (a : nat) (ptr : Z)
| ORelease (a : nat)
| ODtor (a : nat)
| OCall (env : Z) (f : jni_fn) (args : list parg)
| OInvoke (a : nat) (env : Z) (f : jni_fn) (args : list parg)
| OInvokeValue (env : Z) (f : jni_fn) (args : list parg)
| OChars (u : nat) (env jstr : Z) (get_chars : jni_fn)
| OCharsDtor (u : nat).

Definition set_refs (v : jvm) (m : gmap nat ScopedLocalRef) (s : prog) : prog := Prog v m (strs s) (loose s).

(** One operation; [None] where no such object exists, or the place is taken. *)
Definition exec (o : op) (s : prog) : option prog :=
  match o with
  | ONull a env =>
      guard (refs s !! a = None);; Some (set_refs (vm s) (<[a := slr_null env]> (refs s)) s)
  | OOwn a env r =>
      guard (refs s !! a = None);;
      Some (Prog (vm s) (<[a := slr_own env r]> (refs s)) (strs s) (loose s ∖ res (Slr env r)))
  | OMove a b =>
      guard (refs s !! a = None);;
      y ← refs s !! b;
      let '(x, y) := slr_move y in Some (set_refs (vm s) (<[a := x]> (<[b := y]> (refs s))) s)
  | OAssign a b =>
      x ← refs s !! a; y ← refs s !! b;
      if decide (a = b) then Some s
      else let '(x, y, v) := slr_assign x y (vm s) in
           Some (set_refs v (<[a := x]> (<[b := y]> (refs s))) s)
  | OReset a ptr =>
      x ← refs s !! a;
      let '(x', v) := slr_reset ptr x (vm s) in
      Some (Prog v (<[a := x']> (refs s)) (strs s) (loose s ∖ (if ref_ x =? ptr then ∅ else res (Slr (env_ x) ptr))))
  | ORelease a =>
      x ← refs s !! a;
      let '(_, x') := slr_release x in
      Some (Prog (vm s) (<[a := x']> (refs s)) (strs s) (loose s ⊎ res x))
  | ODtor a =>
      x ← refs s !! a; Some (set_refs (slr_dtor x (vm s)) (delete a (refs s)) s)
  | OCall env f args =>
      l ← mapM (parg_value (refs s)) args;
      let '(r, v) := f (map UnwrapScope l) (vm s) in
      Some (Prog v (refs s) (strs s) (loose s ⊎ res (Slr env r)))
  | OInvoke a env f args =>
      guard (refs s !! a = None);;
      l ← mapM (parg_value (refs s)) args;
      let '(x, v) := SafeInvoke env f l (vm s) in Some (set_refs v (<[a := x]> (refs s)) s)
  | OInvokeValue env f args =>
      l ← mapM (parg_value (refs s)) args;
      let '(_, v) := SafeInvoke_value env f l (vm s) in Some (set_refs v (refs s) s)
  | OChars u env jstr f =>
      guard (strs s !! u = None);;
      let '(x, v) := jutf_new f env jstr (vm s) in
      Some (Prog v (refs s) (<[u := x]> (strs s)) (loose s))
  | OCharsDtor u =>
      x ← strs s !! u; Some (Prog (jutf_dtor x (vm s)) (refs s) (delete u (strs s)) (loose s))
  end.

Fixpoint run (os : list op) (s : prog) : option prog :=
  match os with [] => Some s | o :: os => s ← exec o s; run os s end.

(** ** Who holds what *)

(** What the wrappers of a frame have to give back, all together. *)
Definition total {A : Type} (r : A -> gmultiset (Z * Z)) (m : gmap nat A) : gmultiset (Z * Z) :=
  map_fold (fun _ x acc => r x ⊎ acc) ∅ m.

(** Every member of [X] has exactly one holder, and nothing else has one. *)
Definition accounted (X : gset (Z * Z)) (holders : gmultiset (Z * Z)) : Prop :=
  forall k, multiplicity k holders = if decide (k ∈ X) then 1%nat else 0%nat.

(** The reference an operation loses: an assignment compares the numbers of the
    two references and not their environments, so that the target of an
    assignment between two environments that handed out the same number
    forgets its own reference. *)
Definition lost_by (o : op) (s : prog) : gmultiset (Z * Z) :=
  match o with
  | OAssign a b =>
      match refs s !! a, refs s !! b with
      | Some x, Some y => if decide (env_ x <> env_ y /\ ref_ x = ref_ y) then res x else ∅
      | _, _ => ∅
      end
  | _ => ∅
  end.

(** What a sequence of operations loses. *)
Fixpoint lost (os : list op) (s : prog) : gmultiset (Z * Z) :=
  match os with
  | [] => ∅
  | o :: os => lost_by o s ⊎ match exec o s with Some s' => lost os s' | None => ∅ end
  end.

(** The account, with [gone] what was lost before. *)
Definition inv (gone : gmultiset (Z * Z)) (s : prog) : Prop :=
  accounted (table (vm s)) (loose s ⊎ gone ⊎ total res (refs s))
  /\ accounted (chars (vm s)) (total ures (strs s))
  /\ faults (vm s) = [].

(** What a value-returning function promises: it hands out nothing. *)
Definition value_result (v : jvm) (out : Z * jvm) : Prop :=
  table out.2 = table v /\ chars out.2 = chars v /\ faults out.2 = faults v.

(** What the caller of an operation answers for: a raw reference given to a
    wrapper is one the caller holds, and the JNI functions keep their promises. *)
Definition lawful_op (o : op) (s : prog) : Prop :=
  match o with
  | OOwn _ env r => r = 0 \/ (env, r) ∈ loose s
  | OReset a ptr => forall x, refs s !! a = Some x -> ptr = ref_ x \/ ptr = 0 \/ (env_ x, ptr) ∈ loose s
  | OCall env f args | OInvoke _ env f args => forall l, mapM (parg_value (refs s)) args = Some l ->
      jni_result env (vm s) (f (map UnwrapScope l) (vm s))
  | OInvokeValue env f args => forall l, mapM (parg_value (refs s)) args = Some l ->
      value_result (vm s) (f (map UnwrapScope l) (vm s))
  | OChars _ env jstr f => env <> 0 -> jstr <> 0 -> chars_result jstr (vm s) (f [jstr] (vm s))
  | _ => True
  end.

Fixpoint lawful (os : list op) (s : prog) : Prop :=
  match os with
  | [] => True
  | o :: os => lawful_op o s /\ forall s', exec o s = Some s' -> lawful os s'
  end.

Section Total.
Context {A : Type} (r : A -> gmultiset (Z * Z)).

Lemma total_comm (x1 x2 : A) (y : gmultiset (Z * Z)) :
  r x1 ⊎ (r x2 ⊎ y) = r x2 ⊎ (r x1 ⊎ y).
Proof. rewrite !(assoc_L (⊎)). f_equal. apply (comm_L (⊎)). Qed.

Lemma total_insert m a x : m !! a = None -> total r (<[a := x]> m) = r x ⊎ total r m.
Proof. intros E. unfold total. rewrite map_fold_insert_L; [done| |done]. intros. apply total_comm. Qed.

Lemma total_delete m a x : m !! a = Some x -> total r m = r x ⊎ total r (delete a m).
Proof. intros E. unfold total. rewrite (map_fold_delete_L _ _ a x); [done| |done]. intros. apply total_comm. Qed.

Lemma total_replace m a x x' :
  m !! a = Some x -> exists rest, total r m = r x ⊎ rest /\ total r (<[a := x']> m) = r x' ⊎ rest.
Proof.
  intros E. exists (total r (delete a m)). split; [by apply total_delete|].
  rewrite <- insert_delete_eq. apply total_insert, lookup_delete_eq.
Qed.

Lemma total_empty : total r ∅ = ∅.
Proof. apply map_fold_empty. Qed.
End Total.

Lemma accounted_add X Y k : accounted X Y -> k ∉ X -> accounted ({[k]} ∪ X) ({[+ k +]} ⊎ Y).
Proof.
  intros H Hk k'. rewrite multiplicity_disj_union, H. clear H. destruct (decide (k' = k)) as [->|Hn].
  - rewrite multiplicity_singleton_eq.
    destruct (decide (k ∈ X)); [done|]. destruct (decide (k ∈ {[k]} ∪ X)); [done|]. exfalso. set_solver.
  - rewrite multiplicity_singleton_ne by done.
    destruct (decide (k' ∈ X)), (decide (k' ∈ {[k]} ∪ X)); try done; exfalso; set_solver.
Qed.

Lemma accounted_remove X Y k : accounted X ({[+ k +]} ⊎ Y) -> k ∈ X /\ accounted (X ∖ {[k]}) Y.
Proof.
  intros H. assert (Hk : k ∈ X).
  { specialize (H k). rewrite multiplicity_disj_union, multiplicity_singleton_eq in H. revert H.
    destruct (decide (k ∈ X)); [done|lia]. }
  split; [done|]. intros k'. specialize (H k'). rewrite multiplicity_disj_union in H.
  revert H. destruct (decide (k' = k)) as [->|Hn].
  - rewrite multiplicity_singleton_eq.
    destruct (decide (k ∈ X)); [|done]. destruct (decide (k ∈ X ∖ {[k]})); [exfalso; set_solver|lia].
  - rewrite multiplicity_singleton_ne by done.
    destruct (decide (k' ∈ X)), (decide (k' ∈ X ∖ {[k]})); try done; exfalso; set_solver.
Qed.

Lemma accounted_empty X : accounted X ∅ -> X = ∅.
Proof.
  intros H. apply set_eq. intros k. specialize (H k). rewrite multiplicity_empty in H. revert H.
  destruct (decide (k ∈ X)); [done|]. set_solver.
Qed.

(** Deleting what a wrapper holds. *)
Lemma delete_held v x Y :
  accounted (table v) (res x ⊎ Y) ->
  let v' := if negb (ref_ x =? 0) then DeleteLocalRef (env_ x) (ref_ x) v else v in
  accounted (table v') Y /\ chars v' = chars v /\ faults v' = faults v.
Proof.
  unfold res. destruct (ref_ x =? 0); cbn [negb]; intros H; cbn zeta.
  - rewrite left_id_L in H by apply _. done.
  - apply accounted_remove in H as [Hk H]. unfold DeleteLocalRef. rewrite decide_True by done. done.
Qed.

Lemma reset_held v x ptr Y :
  accounted (table v) (res x ⊎ Y) ->
  let v' := (slr_reset ptr x v).2 in
  accounted (table v') (if ref_ x =? ptr then res x ⊎ Y else Y) /\ chars v' = chars v /\ faults v' = faults v
  /\ (slr_reset ptr x v).1 = Slr (env_ x) ptr.
Proof.
  intros H. unfold slr_reset. destruct (Z.eqb_spec (ref_ x) ptr) as [<-|Hn]; cbn [negb fst snd].
  - split_and!; try done. by destruct x.
  - destruct (delete_held v x Y H) as (H1 & H2 & H3). split_and!; done.
Qed.

Lemma result_held env v out Y :
  jni_result env v out -> accounted (table v) Y -> accounted (table out.2) (res (Slr env out.1) ⊎ Y).
Proof.
  intros (Ht & Hf & _) H. unfold res. cbn [env_ ref_]. rewrite Ht. destruct (Z.eqb_spec (out.1) 0).
  - by rewrite left_id_L by apply _.
  - apply accounted_add; auto.
Qed.

Lemma checker_keeps env v :
  table (checker_dtor env v) = table v /\ chars (checker_dtor env v) = chars v
  /\ faults (checker_dtor env v) = faults v.
Proof. unfold checker_dtor. by destruct (ExceptionCheck env v). Qed.

Lemma invoke_held env f l v Y :
  jni_result env v (f (map UnwrapScope l) v) -> accounted (table v) Y ->
  let out := SafeInvoke env f l v in
  accounted (table out.2) (res out.1 ⊎ Y) /\ chars out.2 = chars v /\ faults out.2 = faults v.
Proof.
  intros Hr H. pose proof (result_held _ _ _ _ Hr H) as Hh. destruct Hr as (_ & _ & Hp & Hc & Hx).
  unfold SafeInvoke. destruct (f (map UnwrapScope l) v) as [r v']. cbn [fst snd] in *.
  destruct (checker_keeps env v') as (E1 & E2 & E3). rewrite E1, E2, E3. split_and!; try done.
  unfold ExceptionCheck. case_bool_decide; [|done]. rewrite Hp in Hh by done. done.
Qed.

(** SafeInvoke leaves no exception pending in its environment, and returns null
    where the function left one. *)
Lemma invoke_clears env f l v :
  ExceptionCheck env (SafeInvoke env f l v).2 = false
  /\ (ExceptionCheck env (f (map UnwrapScope l) v).2 = true -> ref_ (SafeInvoke env f l v).1 = 0).
Proof.
  unfold SafeInvoke. destruct (f (map UnwrapScope l) v) as [r v']. cbn [fst snd].
  unfold checker_dtor. destruct (ExceptionCheck env v') eqn:E; (split; [|try done]); [|done].
  unfold ExceptionCheck, ExceptionClear_. cbn. apply bool_decide_eq_false_2. set_solver.
Qed.

Lemma res_loose (L : gmultiset (Z * Z)) env r :
  r = 0 \/ (env, r) ∈ L -> L = L ∖ res (Slr env r) ⊎ res (Slr env r).
Proof.
  unfold res. cbn [env_ ref_]. destruct (Z.eqb_spec r 0) as [->|Hn]; intros H; [multiset_solver|].
  destruct H as [?|H]; [done|]. multiset_solver.
Qed.

(** ** Every operation keeps the account *)

Lemma slr_eta x : Slr (env_ x) (ref_ x) = x.
Proof. by destruct x. Qed.

Lemma res_null x : ref_ x = 0 -> res x = ∅.
Proof. unfold res. by intros ->. Qed.

Lemma move_keeps (m : gmap nat ScopedLocalRef) a b y :
  m !! a = None -> m !! b = Some y ->
  total res (<[a := (slr_move y).1]> (<[b := (slr_move y).2]> m)) = total res m.
Proof.
  intros Ha Hb. rewrite total_insert by (rewrite lookup_insert_ne; congruence).
  destruct (total_replace res m b y (slr_move y).2 Hb) as (rest & -> & ->).
  change (slr_move y).1 with (Slr (env_ y) (ref_ y)). rewrite slr_eta. change (res (slr_move y).2) with (∅ : gmultiset (Z * Z)). by rewrite (left_id_L ∅ (⊎)).
Qed.

(** The two objects of an assignment. *)
Lemma assign_keeps (m : gmap nat ScopedLocalRef) a b x y v L :
  a <> b -> m !! a = Some x -> m !! b = Some y ->
  accounted (table v) (L ⊎ total res m) ->
  let out := slr_assign x y v in
  accounted (table out.2) (L ⊎ (if decide (env_ x <> env_ y /\ ref_ x = ref_ y) then res x else ∅)
    ⊎ total res (<[a := out.1.1]> (<[b := out.1.2]> m)))
  /\ chars out.2 = chars v /\ faults out.2 = faults v.
Proof.
  intros Hab Ha Hb Hacc out.
  assert (Ha' : <[b := out.1.2]> m !! a = Some x) by by rewrite lookup_insert_ne.
  destruct (total_replace res _ a x out.1.1 Ha') as (rest & E1 & ->).
  destruct (total_replace res m b y out.1.2 Hb) as (rest2 & E2 & E3).
  assert (Hout : res out.1.2 = ∅) by (subst out; unfold slr_assign; cbn; by destruct (slr_reset _ _ _)).
  rewrite E3, Hout, left_id_L in E1 by apply _. rewrite E2, E1 in Hacc.
  assert (Hx : accounted (table v) (res x ⊎ (L ⊎ res y ⊎ rest))).
  { replace (res x ⊎ (L ⊎ res y ⊎ rest)) with (L ⊎ (res y ⊎ (res x ⊎ rest))) by (clear; multiset_solver). done. }
  destruct (reset_held v x (ref_ y) _ Hx) as (Hr & Hc & Hf & Hv).
  subst out. unfold slr_assign in *. cbn [slr_release fst snd] in *.
  destruct (slr_reset (ref_ y) x v) as [x' v'] eqn:E. cbn [fst snd env_ ref_] in *. subst x'. cbn [ref_].
  rewrite slr_eta. split_and!; try done.
  revert Hr. destruct (Z.eqb_spec (ref_ x) (ref_ y)) as [Exy|Exy]; intros Hr.
  2: { rewrite decide_False by tauto. revert Hr. clear. generalize (res y). intros r Hr. by rewrite (right_id_L ∅ (⊎)), (assoc_L (⊎)). }
  destruct (decide (env_ x <> env_ y /\ ref_ x = ref_ y)) as [Hl|Hl].
  { revert Hr. clear. generalize (res x) (res y). intros p q Hr.
    by replace (L ⊎ p ⊎ (q ⊎ rest)) with (p ⊎ (L ⊎ q ⊎ rest)) by (clear; multiset_solver). }
  destruct (decide (ref_ x = 0)) as [Hz|Hz].
  - rewrite (res_null x Hz), (left_id_L ∅ (⊎)) in Hr. by rewrite (right_id_L ∅ (⊎)), (assoc_L (⊎)).
  - assert (x = y) as -> by (destruct x as [e r], y as [e' r']; cbn in *; f_equal; [|done]; destruct (decide (e = e')); tauto).
    exfalso. specialize (Hx (env_ y, ref_ y)). unfold res in Hx. rewrite (proj2 (Z.eqb_neq _ _) Hz) in Hx.
    rewrite !multiplicity_disj_union, multiplicity_singleton_eq in Hx. case_match; lia.
Qed.

(** What was lost before stays apart from what the code holds. *)
Lemma lost_apart (L gone r : gmultiset (Z * Z)) : L = L ∖ r ⊎ r -> (L ⊎ gone) ∖ r = L ∖ r ⊎ gone.
Proof. intros ->. multiset_solver. Qed.

Lemma reset_keeps (m : gmap nat ScopedLocalRef) a x ptr v L :
  m !! a = Some x -> (ptr = ref_ x \/ ptr = 0 \/ (env_ x, ptr) ∈ L) ->
  accounted (table v) (L ⊎ total res m) ->
  let out := slr_reset ptr x v in
  accounted (table out.2)
    (L ∖ (if ref_ x =? ptr then ∅ else res (Slr (env_ x) ptr)) ⊎ total res (<[a := out.1]> m))
  /\ chars out.2 = chars v /\ faults out.2 = faults v.
Proof.
  intros Ha Hp Hacc out. destruct (total_replace res m a x out.1 Ha) as (rest & E1 & ->). rewrite E1 in Hacc.
  assert (Hx : accounted (table v) (res x ⊎ (L ⊎ rest))).
  { replace (res x ⊎ (L ⊎ rest)) with (L ⊎ (res x ⊎ rest)) by (clear; multiset_solver). done. }
  destruct (reset_held v x ptr _ Hx) as (Hr & Hc & Hf & Hv). fold out in Hr, Hc, Hf, Hv. rewrite Hv.
  split_and!; try done. destruct (Z.eqb_spec (ref_ x) ptr) as [<-|Hn].
  - rewrite slr_eta.
    replace (L ∖ ∅ ⊎ (res x ⊎ rest)) with (res x ⊎ (L ⊎ rest)) by (clear; multiset_solver). done.
  - assert (Hl : L = L ∖ res (Slr (env_ x) ptr) ⊎ res (Slr (env_ x) ptr)) by (apply res_loose; intuition congruence).
    rewrite Hl in Hr. revert Hr. generalize (res (Slr (env_ x) ptr)). intros r.
    by rewrite <- (assoc_L (⊎)).
Qed.

Lemma chars_new_keeps v Y f env jstr :
  (env <> 0 -> jstr <> 0 -> chars_result jstr v (f [jstr] v)) -> accounted (chars v) Y ->
  let out := jutf_new f env jstr v in
  accounted (chars out.2) (ures out.1 ⊎ Y) /\ table out.2 = table v /\ faults out.2 = faults v.
Proof.
  intros Hf H. unfold jutf_new, ures.
  destruct (Z.eqb_spec env 0), (Z.eqb_spec jstr 0); cbn -[disj_union];
    rewrite ?(proj2 (Z.eqb_eq _ _)) by done; cbn -[disj_union];
    try (by rewrite (left_id_L ∅ (⊎))).
  all: try (subst; cbn -[disj_union]; rewrite ?andb_false_r, (left_id_L ∅ (⊎)); done).
  destruct (Hf ltac:(done) ltac:(done)) as (Hc & Hn & Ht & Hx).
  destruct (f [jstr] v) as [c v']. cbn -[disj_union] in *.
  rewrite !(proj2 (Z.eqb_neq _ _)) by done. cbn -[disj_union]. split_and!; try done. rewrite Hc.
  destruct (Z.eqb_spec c 0); cbn -[disj_union]; [by rewrite (left_id_L ∅ (⊎))|].
  apply accounted_add; auto.
Qed.

Lemma chars_dtor_keeps v u Y :
  accounted (chars v) (ures u ⊎ Y) ->
  accounted (chars (jutf_dtor u v)) Y /\ table (jutf_dtor u v) = table v /\ faults (jutf_dtor u v) = faults v.
Proof.
  unfold ures, jutf_dtor. destruct (_ && _); intros H.
  - apply accounted_remove in H as [Hk H]. unfold ReleaseStringUTFChars. rewrite decide_True by done. done.
  - by rewrite (left_id_L ∅ (⊎)) in H.
Qed.

Lemma value_keeps env f l v :
  value_result v (f (map UnwrapScope l) v) ->
  let out := SafeInvoke_value env f l v in
  table out.2 = table v /\ chars out.2 = chars v /\ faults out.2 = faults v.
Proof.
  intros (H1 & H2 & H3). unfold SafeInvoke_value. destruct (f (map UnwrapScope l) v) as [r v'].
  cbn [fst snd] in *. destruct (checker_keeps env v') as (-> & -> & ->). done.
Qed.

(** A wrapper around null, or around a reference of the caller. *)
Lemma own_keeps (m : gmap nat ScopedLocalRef) (L : gmultiset (Z * Z)) X a env r :
  m !! a = None -> r = 0 \/ (env, r) ∈ L -> accounted X (L ⊎ total res m) ->
  accounted X (L ∖ res (Slr env r) ⊎ total res (<[a := Slr env r]> m)).
Proof.
  intros Ha Hr H. rewrite total_insert by done. rewrite (assoc_L (⊎)), <- res_loose; done.
Qed.

Lemma release_keeps (m : gmap nat ScopedLocalRef) (L : gmultiset (Z * Z)) a x :
  m !! a = Some x -> L ⊎ res x ⊎ total res (<[a := (slr_release x).2]> m) = L ⊎ total res m.
Proof.
  intros Ha. destruct (total_replace res m a x (slr_release x).2 Ha) as (rest & -> & ->).
  change (res (slr_release x).2) with (∅ : gmultiset (Z * Z)). rewrite (left_id_L ∅ (⊎)).
  by rewrite (assoc_L (⊎)).
Qed.

Lemma dtor_keeps (m : gmap nat ScopedLocalRef) a x v L :
  m !! a = Some x -> accounted (table v) (L ⊎ total res m) ->
  accounted (table (slr_dtor x v)) (L ⊎ total res (delete a m))
  /\ chars (slr_dtor x v) = chars v /\ faults (slr_dtor x v) = faults v.
Proof.
  intros Ha H. rewrite (total_delete _ _ _ _ Ha) in H.
  assert (Hx : accounted (table v) (res x ⊎ (L ⊎ total res (delete a m)))).
  { revert H. generalize (total res (delete a m)). intros rest.
    replace (res x ⊎ (L ⊎ rest)) with (L ⊎ (res x ⊎ rest)) by (clear; multiset_solver). done. }
  destruct (reset_held v x 0 _ Hx) as (Hr & Hc & Hf & _). unfold slr_dtor. split_and!; try done.
  destruct (Z.eqb_spec (ref_ x) 0) as [Hz|]; [|done]. by rewrite (res_null x Hz), (left_id_L ∅ (⊎)) in Hr.
Qed.

(** Opens the operation's guards and lookups. *)
Ltac opened E :=
  repeat (let x := fresh "x" in let Hx := fresh "Hx" in apply bind_Some in E as (x & Hx & E)).

Definition on_refs (o : op) : bool :=
  match o with ONull _ _ | OOwn _ _ _ | OMove _ _ | OAssign _ _ | OReset _ _ | ORelease _ | ODtor _ => true
  | _ => false end.

Lemma exec_refs_inv gone o s s' :
  on_refs o = true -> inv gone s -> lawful_op o s -> exec o s = Some s' -> inv (gone ⊎ lost_by o s) s'.
Proof.
  intros Ho (Hr & Hc & Hf) Hl E. unfold inv.
  destruct o as [a env|a env r|a b|a b|a ptr|a|a| | | | | ]; try done;
    cbn [exec] in E; cbn [lawful_op] in Hl; opened E;
    cbn [lost_by]; rewrite ?(right_id_L ∅ (⊎)).
  - injection E as <-. cbn [vm refs strs loose set_refs]. split; [|done].
    rewrite total_insert by done. change (res (slr_null env)) with (∅ : gmultiset (Z * Z)).
    by rewrite (left_id_L ∅ (⊎)).
  - injection E as <-. cbn [vm refs strs loose]. split; [|done].
    rewrite <- (lost_apart (loose s) gone) by by apply res_loose. apply own_keeps; [done| |done].
    destruct Hl as [?|Hl]; [by left|right]. multiset_solver.
  - destruct (slr_move x0) as [p q] eqn:Em. injection E as <-. cbn [vm refs strs loose set_refs].
    split; [|done]. pose proof (move_keeps (refs s) a b x0 x Hx0) as Hm. rewrite Em in Hm. cbn [fst snd] in Hm.
    by rewrite Hm.
  - rewrite Hx, Hx0. destruct (decide (a = b)) as [->|Hab].
    { injection E as <-. assert (x = x0) as -> by congruence. rewrite decide_False by tauto. by rewrite (right_id_L ∅ (⊎)). }
    pose proof (assign_keeps _ _ _ _ _ _ _ Hab Hx Hx0 Hr) as Ha.
    destruct (slr_assign x x0 (vm s)) as [[p q] v]. cbn [fst snd] in Ha. injection E as <-.
    cbn [vm refs strs loose set_refs]. destruct Ha as (Ht & -> & ->). by rewrite (assoc_L (⊎) (loose s)).
  - assert (Hp : ptr = ref_ x \/ ptr = 0 \/ (env_ x, ptr) ∈ loose s ⊎ gone).
    { destruct (Hl _ Hx) as [?|[?|Hp]]; [by left|right; by left|right; right]. multiset_solver. }
    pose proof (reset_keeps _ _ _ ptr _ _ Hx Hp Hr) as Ha.
    destruct (slr_reset ptr x (vm s)) as [p v]. cbn [fst snd] in Ha. injection E as <-.
    cbn [vm refs strs loose]. destruct Ha as (Ht & -> & ->). split; [|done]. rewrite <- lost_apart; [done|].
    destruct (Z.eqb_spec (ref_ x) ptr); [clear; multiset_solver|]. apply res_loose.
    destruct (Hl _ Hx) as [?|?]; [congruence|done].
  - pose proof (release_keeps (refs s) (loose s ⊎ gone) a x Hx) as Ha. destruct (slr_release x) as [p q].
    injection E as <-. cbn [vm refs strs loose fst snd] in *. rewrite <- Ha in Hr. revert Hr. generalize (res x). intros r Hr.
    by replace (loose s ⊎ r ⊎ gone) with (loose s ⊎ gone ⊎ r) by (clear; multiset_solver).
  - injection E as <-. cbn [vm refs strs loose set_refs].
    destruct (dtor_keeps _ _ _ _ _ Hx Hr) as (Ht & -> & ->). done.
Qed.

Lemma exec_inv gone o s s' : inv gone s -> lawful_op o s -> exec o s = Some s' -> inv (gone ⊎ lost_by o s) s'.
Proof.
  destruct (on_refs o) eqn:Ho; [by apply exec_refs_inv|]. intros (Hr & Hc & Hf) Hl E.
  assert (lost_by o s = ∅) as -> by by destruct o. rewrite (right_id_L ∅ (⊎)). unfold inv.
  destruct o as [ | | | | | | |env f args|a env f args|env f args|u env jstr f|u]; try done;
    cbn [exec] in E; cbn [lawful_op] in Hl; opened E.
  - pose proof (result_held _ _ _ _ (Hl _ Hx) Hr) as Hh. destruct (Hl _ Hx) as (_ & _ & _ & Ec & Ef).
    destruct (f (map UnwrapScope x) (vm s)) as [r v]. cbn [fst snd] in *. injection E as <-.
    cbn [vm refs strs loose]. rewrite Ec, Ef. split; [|done].
    revert Hh. generalize (res (Slr env r)) (total res (refs s)). intros r' t Hh.
    by replace (loose s ⊎ r' ⊎ gone ⊎ t) with (r' ⊎ (loose s ⊎ gone ⊎ t)) by (clear; multiset_solver).
  - destruct (invoke_held env f _ (vm s) _ (Hl _ Hx0) Hr) as (Hh & Ec & Ef).
    destruct (SafeInvoke env f x0 (vm s)) as [y v]. cbn [fst snd] in *. injection E as <-.
    cbn [vm refs strs loose set_refs]. rewrite Ec, Ef. split; [|done].
    rewrite total_insert by done. revert Hh.
    generalize (res y) (total res (refs s)). intros r t Hh.
    by replace (loose s ⊎ gone ⊎ (r ⊎ t)) with (r ⊎ (loose s ⊎ gone ⊎ t)) by (clear; multiset_solver).
  - destruct (value_keeps env f x (vm s) (Hl _ Hx)) as (Et & Ec & Ef).
    destruct (SafeInvoke_value env f x (vm s)) as [y v]. cbn [fst snd] in *. injection E as <-.
    cbn [vm refs strs loose set_refs]. by rewrite Et, Ec, Ef.
  - destruct (chars_new_keeps (vm s) _ f env jstr Hl Hc) as (Hh & Et & Ef).
    destruct (jutf_new f env jstr (vm s)) as [y v]. cbn [fst snd] in *. injection E as <-.
    cbn [vm refs strs loose]. rewrite Et, Ef. split; [done|]. split; [|done]. by rewrite total_insert.
  - injection E as <-. cbn [vm refs strs loose]. rewrite (total_delete _ _ _ _ Hx) in Hc.
    destruct (chars_dtor_keeps _ _ _ Hc) as (Hh & -> & ->). done.
Qed.

Lemma run_inv os gone s s' : inv gone s -> lawful os s -> run os s = Some s' -> inv (gone ⊎ lost os s) s'.
Proof.
  revert gone s. induction os as [|o os IH]; cbn [run lawful lost]; intros gone s Hi Hl E.
  { injection E as <-. by rewrite (right_id_L ∅ (⊎)). }
  destruct Hl as [Hl Hk]. apply bind_Some in E as (s1 & E1 & E). rewrite E1, (assoc_L (⊎)). eauto using exec_inv.
Qed.

(** Code that works in one environment. *)
Definition in_env (env : Z) (o : op) : Prop :=
  match o with ONull _ e | OOwn _ e _ | OInvoke _ e _ _ => e = env | _ => True end.

Definition all_env (env : Z) (s : prog) : Prop := map_Forall (fun _ x => env_ x = env) (refs s).

Lemma reset_env ptr x v : env_ (slr_reset ptr x v).1 = env_ x.
Proof. unfold slr_reset. by destruct (negb _). Qed.

Lemma exec_env env o s s' : in_env env o -> all_env env s -> exec o s = Some s' -> all_env env s' /\ lost_by o s = ∅.
Proof.
  unfold all_env. intros Ho Ha E.
  destruct o as [a e|a e r|a b|a b|a ptr|a|a|e f args|a e f args|e f args|u e jstr f|u]; cbn [exec in_env lost_by] in *; opened E.
  - injection E as <-. split; [|done]. by apply map_Forall_insert_2.
  - injection E as <-. split; [|done]. by apply map_Forall_insert_2.
  - pose proof (Ha _ _ Hx0) as He. injection E as <-. split; [|done]. by repeat apply map_Forall_insert_2.
  - pose proof (Ha _ _ Hx) as He. pose proof (Ha _ _ Hx0) as He'. rewrite Hx, Hx0, decide_False by (intros [[] _]; congruence).
    split; [|done]. destruct (decide (a = b)); [by injection E as <-|]. unfold slr_assign in E. cbn [slr_release] in E.
    destruct (slr_reset _ _ _) as [p v]. injection E as <-. by repeat apply map_Forall_insert_2.
  - pose proof (reset_env ptr x (vm s)) as Hp. destruct (slr_reset ptr x (vm s)) as [p v]. injection E as <-. split; [|done].
    apply map_Forall_insert_2; [|done]. cbn [fst] in Hp. rewrite Hp. by eapply Ha.
  - pose proof (Ha _ _ Hx) as He. injection E as <-. split; [|done]. by apply map_Forall_insert_2.
  - injection E as <-. split; [|done]. by apply map_Forall_delete.
  - destruct (f _ _) as [r v]. by injection E as <-.
  - unfold SafeInvoke in E. destruct (f _ _) as [r v]. injection E as <-. split; [|done]. apply map_Forall_insert_2; [|done].
    by destruct (ExceptionCheck _ _).
  - destruct (SafeInvoke_value _ _ _ _) as [r v]. by injection E as <-.
  - destruct (jutf_new _ _ _ _) as [r v]. by injection E as <-.
  - by injection E as <-.
Qed.

Lemma run_env env os s s' : Forall (in_env env) os -> all_env env s -> run os s = Some s' -> lost os s = ∅.
Proof.
  intros Ho. revert s. induction Ho as [|o os Ho _ IH]; cbn [run lost]; intros s Ha E; [done|].
  apply bind_Some in E as (s1 & E1 & E). rewrite E1. destruct (exec_env _ _ _ _ Ho Ha E1) as [Ha1 ->].
  rewrite (IH _ Ha1 E). apply (right_id_L ∅ (⊎)).
Qed.

Lemma start_inv : inv ∅ start.
Proof. unfold inv, start. cbn. split_and!; try done; intros k; rewrite ?total_empty; done. Qed.

(** C29. Over every sequence of constructions, moves, assignments, resets,
    releases, destructions and JNI calls of a native function, as long as the
    JNI functions keep their contract and a raw reference given to a wrapper is
    one the code holds: every local reference the machine has handed out has
    exactly one holder, a ScopedLocalRef or the code that took it raw, apart
    from those lost by assignments between wrappers of two environments whose
    references have the same number, and [lost] lists exactly those; the
    characters of the JUTFStrings have exactly one holder each; nothing is
    given back twice; once the wrappers are gone and nothing raw is left, the
    references left are the lost ones, and no characters are left. Code that
    makes its wrappers in one environment loses nothing, so that it leaves no
    reference. *)
Theorem local_refs_balanced os s :
  lawful os start -> run os start = Some s ->
  accounted (table (vm s)) (loose s ⊎ lost os start ⊎ total res (refs s))
  /\ accounted (chars (vm s)) (total ures (strs s))
  /\ faults (vm s) = []
  /\ (refs s = ∅ -> loose s = ∅ -> accounted (table (vm s)) (lost os start))
  /\ (strs s = ∅ -> chars (vm s) = ∅)
  /\ (forall env, Forall (in_env env) os -> lost os start = ∅ /\ (refs s = ∅ -> loose s = ∅ -> table (vm s) = ∅)).
Proof.
  intros Hl E. destruct (run_inv _ _ _ _ start_inv Hl E) as (Hr & Hc & Hf). rewrite (left_id_L ∅ (⊎)) in Hr.
  assert (Hend : refs s = ∅ -> loose s = ∅ -> accounted (table (vm s)) (lost os start)).
  { intros Hn Hm. by rewrite Hn, Hm, total_empty, (left_id_L ∅ (⊎)), (right_id_L ∅ (⊎)) in Hr. }
  split_and!; try done.
  - intros Hn. rewrite Hn, total_empty in Hc. by apply accounted_empty.
  - intros env Ho. assert (El : lost os start = ∅) by by eapply run_env. split; [done|]. intros Hn Hm.
    apply accounted_empty. rewrite <- El. auto.
Qed.

(** A function that hands out the reference [r], and one that throws. *)
Definition returns (env r : Z) : jni_fn := fun _ v => (r, Jvm ({[(env, r)]} ∪ table v) (chars v) (pending v) (faults v)).
Definition throws (env : Z) : jni_fn := fun _ v => (0, Jvm (table v) (chars v) ({[env]} ∪ pending v) (faults v)).
Definition copies (jstr c : Z) : jni_fn := fun _ v => (c, Jvm (table v) ({[(jstr, c)]} ∪ chars v) (pending v) (faults v)).

(** Two classes looked up, one moved over the other, a lookup that throws, a raw
    element that is wrapped, a string read; then the scope ends. *)
Definition example_ops : list op :=
  [OInvoke 0 7 (returns 7 100) [PRaw 1]; OInvoke 1 7 (returns 7 101) [PRef 0];
   OInvoke 2 7 (throws 7) [PRef 1]; OAssign 0 1; OCall 7 (returns 7 102) [PRef 0]; OOwn 3 7 102;
   OChars 0 7 102 (copies 102 500); OMove 4 3; OCharsDtor 0;
   ODtor 4; ODtor 3; ODtor 2; ODtor 1; ODtor 0].

Lemma value_clears env f l v : ExceptionCheck env (SafeInvoke_value env f l v).2 = false.
Proof.
  unfold SafeInvoke_value. destruct (f (map UnwrapScope l) v) as [r v']. cbn [snd].
  unfold checker_dtor. destruct (ExceptionCheck env v') eqn:E; [|done].
  unfold ExceptionCheck, ExceptionClear_. cbn. apply bool_decide_eq_false_2. set_solver.
Qed.

(** None of the wrappers returns with an exception pending. *)
Lemma wrappers_clear J env v x y n m k l :
  Forall (fun w => ExceptionCheck env w = false)
    [(FindClass J env n v).2; (GetFieldID J env x n m v).2; (GetStaticFieldID J env x n m v).2;
     (GetObjectField J env x n v).2; (SetObjectField J env x n y v).2; (GetStaticIntField J env x n v).2;
     (GetMethodID J env x n m v).2; (ToReflectedMethod J env x n k v).2; (CallVoidMethod J env x n l v).2;
     (CallObjectMethod J env x n l v).2; (CallBooleanMethod J env x n l v).2; (CallIntMethod J env x n l v).2;
     (GetLongField J env x n v).2; (NewObject J env x n l v).2; (NewStringUTF J env n v).2].
Proof. repeat apply Forall_cons_2; first [apply invoke_clears | apply value_clears | apply Forall_nil_2]. Qed.

(** The contract is decidable on a concrete run. *)
#[local] Instance some_all_dec {A} (o : option A) (P : A -> Prop) `{!forall x, Decision (P x)} :
  Decision (forall x, o = Some x -> P x).
Proof. destruct o as [y|]; [destruct (decide (P y)) as [Hy|Hy]|]; [left|right|left]; naive_solver. Defined.

#[local] Instance jni_result_dec env v out : Decision (jni_result env v out).
Proof. unfold jni_result. apply _. Defined.

#[local] Instance chars_result_dec jstr v out : Decision (chars_result jstr v out).
Proof. unfold chars_result. apply _. Defined.

#[local] Instance value_result_dec v out : Decision (value_result v out).
Proof. unfold value_result. apply _. Defined.

#[local] Instance lawful_op_dec o s : Decision (lawful_op o s).
Proof. destruct o; cbn [lawful_op]; apply _. Defined.

#[local] Instance lawful_dec os s : Decision (lawful os s).
Proof.
  revert s. induction os as [|o os IH]; intros s; cbn [lawful]; [apply _|].
  apply and_dec; [apply _|]. apply some_all_dec. exact IH.
Defined.

(** The lookup of two equal numbers in two environments, one assigned over the
    other: the reference of the target is the one that is left. *)
Definition crossed_ops : list op :=
  [OInvoke 0 7 (returns 7 100) []; OInvoke 1 8 (returns 8 100) []; OAssign 0 1; ODtor 0; ODtor 1].

Lemma local_refs_balanced_witness :
  match run example_ops start with
  | Some s => refs s = ∅ /\ table (vm s) = ∅ /\ chars (vm s) = ∅ /\ faults (vm s) = []
  | None => False
  end
  /\ match run crossed_ops start with
     | Some s => refs s = ∅ /\ accounted (table (vm s)) {[+ (7, 100) +]} /\ faults (vm s) = []
     | None => False
     end.
Proof.
  split.
  - destruct (run example_ops start) as [s|] eqn:E; [|by vm_compute in E].
    destruct (local_refs_balanced example_ops s) as (_ & _ & Hf & _ & Hc & Hr); [|exact E|].
    { apply (bool_decide_unpack _). vm_compute. exact I. }
    assert (Es : refs s = ∅ /\ loose s = ∅ /\ strs s = ∅).
    { vm_compute in E. injection E as <-. split_and!; reflexivity. }
    destruct Es as (E1 & E2 & E3). destruct (Hr 7) as [_ Ht]; [by repeat constructor|]. auto.
  - destruct (run crossed_ops start) as [s|] eqn:E; [|by vm_compute in E].
    destruct (local_refs_balanced crossed_ops s) as (_ & _ & Hf & Hr & _); [|exact E|].
    { apply (bool_decide_unpack _). vm_compute. exact I. }
    assert (Es : refs s = ∅ /\ loose s = ∅). { vm_compute in E. injection E as <-. split; reflexivity. }
    destruct Es as (E1 & E2). split; [done|]. split; [|done]. exact (Hr E1 E2).
Defined.
