(* ===== verification/Hook.v ===== *)
(** Bootstrapping and the hooked functions (loader/src/injector/hook.cpp,
    system_server.cpp; the bodies of the rows of jni_hooks.hpp).

    The replaced functions are called by code of the runtime, which is
    environment: a replaced native method of the zygote calls the original,
    and the original may call any of the hooked functions, in any order
    ([runtime_code]). Addresses of the library's own functions and variables
    ([new_fn], [old_var]) are chosen by the linker. *)
From S2P Require Import Prelude Sys Text ProcUtils Mem Linker ModLoader Sort ElfParser Unmount Fossil Clean Daemon Atexit.
From S2P Require Import SoList Context Fds JniTable Specialize.
Open Scope Z_scope.

Definition kZygoteInit : list Z := B "com.android.internal.os.ZygoteInit".
Definition kZygote : list Z := B "com/android/internal/os/Zygote".
Definition PROP_VALUE_MAX : Z := 92.
Definition RLIMIT_NOFILE : Z := 7.
Definition JNI_OK : Z := 0.
Definition JNI_EDETACHED : Z := -2.

(** ** spoof.prop *)

Definition is_lead (c : Z) : bool := (c =? 32) || (c =? 9) || (c =? 13).
Definition is_trail (c : Z) : bool := is_lead c || (c =? 10).

(** The lines of a text, without their line feeds; a last line need not end
    in one. *)
Fixpoint split_lines (fuel : nat) (content : list Z) : list (list Z) :=
  match fuel, content with
  | S fuel', _ :: _ =>
      let line := take_while (fun c => negb (c =? 10)) content in
      line :: split_lines fuel' (drop (S (length line)) content)
  | _, _ => []
  end.

Definition prop_line (line : list Z) : option (list Z * list Z) :=
  let line := drop_while_end is_trail (drop_while is_lead line) in
  match line with
  | [] => None
  | c :: _ =>
      if c =? 35 then None
      else
        let key := take_while (fun c => negb (c =? 61)) line in
        if (length key <? length line)%nat then Some (key, drop (S (length key)) line) else None
  end.

Definition parse_props (content : list Z) : gmap (list Z) (list Z) :=
  fold_left (fun m line => match prop_line line with Some (k, v) => <[k := v]> m | None => m end)
    (split_lines (S (length content)) content) ∅.

Definition hex_char (d : Z) : Z := nth (Z.to_nat d) (B "0123456789abcdef") 0.
Definition hex_str (bytes : list Z) : list Z :=
  b ← bytes; [hex_char (Z.shiftr b 4); hex_char (Z.land b 15)].

(** ** The runtime *)

Inductive runtime_step :=
| RFork
| RUnshare (fl : Z)
| RStrdup (str : option (list Z))
| RPropertyGet (key : option (list Z)) (default_value : list Z)
| RSetStackSize (attr size : Z).

Inductive runtime_prog :=
| RDone
| RStep (x : runtime_step) (k : Z -> runtime_prog).

Class RuntimeCode := runtime_code : Z -> list event -> runtime_prog.

(** The library's own functions and variables, by the name of the function
    they replace, and the functions of the rows of its table of methods. *)
Class Symbols := { new_fn : list Z -> Z; old_var : list Z -> Z; row_fn : nat -> Z }.

Section Ops.
Context {W : Type} `{!World W} `{!Regex} `{!Lsplt} `{!ModuleCode} `{!RuntimeCode} `{!Symbols} `{!HashOrder} `{!StdSort}.
Context (fuel : nat) (a : arch) (interposed : list Z) (page_sz : Z).
Abbreviation K := (M W zs).

(** [content.append] of everything [read] returns. *)
Fixpoint read_all (n : nat) (fd : Z) : K (list Z) :=
  match n with
  | O => out_of_fuel
  | S n' =>
      r ← syscall (CRead fd 4096);
      if r_ret r <=? 0 then mret []
      else rest ← read_all n' fd; mret (take (Z.to_nat (r_ret r)) (r_data r) ++ rest)
  end.

Definition LoadPropConfig : K unit :=
  r ← syscall (COpen (B "/data/adb/modules/zygisksu/spoof.prop") 0 0);
  if r_ret r <? 0 then mret tt
  else
    content ← read_all fuel (r_ret r);
    do_ (CClose (r_ret r));;
    modify (fun s => zset_props (parse_props content ∪ z_props s) s);;
    u ← syscall (COpen (B "/dev/urandom") 0 0);
    if r_ret u <? 0 then mret tt
    else
      b ← syscall (CRead (r_ret u) 32);
      (if r_ret b =? 32
       then modify (fun s => zset_props (<[B "ro.boot.vbmeta.digest" := hex_str (take 32 (r_data b))]> (z_props s)) s)
       else mret tt);;
      do_ (CClose (r_ret u)).

(** ** Installing hooks *)

Definition get_old (var : Z) : K Z := s ← get; mret (default 0 (z_olds s !! var)).

(** register_hook and register_hook_optional differ in what they log. *)
Definition register_hook (dev inode : Z) (symbol : list Z) (new_func old_func : Z) : K unit :=
  ok ← lsplt_RegisterHook dev inode symbol new_func old_func;
  if negb ok then mret tt
  else upd_hook (fun h => set_plt_backup (plt_backup h ++ [(dev, inode, symbol, old_func)]) h).

Definition PLT_HOOK_REGISTER (dev inode : Z) (name : list Z) : K unit :=
  register_hook dev inode name (new_fn name) (old_var name).

(** Device and inode of the first mapping of a library. *)
Definition library_id (maps : list map_info) (suffix : list Z) : Z * Z :=
  match List.find (fun m => ends_with (mi_path m) suffix) maps with
  | Some m => (mi_dev m, mi_inode m)
  | None => (0, 0)
  end.

Definition status_library (m : map_info) : bool :=
  hookable m
  && negb (ends_with (mi_path m) (B "/libzygisk.so") || ends_with (mi_path m) (B "/libc.so"))
  && existsb (ends_with (mi_path m))
       [B "/libandroid_runtime.so"; B "/libart.so"; B "/libjavacore.so"; B "/libopenjdk.so"; B "/libbase.so"].

Fixpoint hook_status_files (maps : list map_info) : K unit :=
  match maps with
  | [] => mret tt
  | m :: maps' =>
      (if status_library m then
         PLT_HOOK_REGISTER (mi_dev m) (mi_inode m) (B "open");;
         PLT_HOOK_REGISTER (mi_dev m) (mi_inode m) (B "openat");;
         PLT_HOOK_REGISTER (mi_dev m) (mi_inode m) (B "close");;
         PLT_HOOK_REGISTER (mi_dev m) (mi_inode m) (B "read")
       else mret tt);;
      hook_status_files maps'
  end.

Definition hook_plt : K unit :=
  maps ← lsplt_Scan;
  upd_hook (set_cached_map_infos maps);;
  let '(dev, inode) := library_id maps (B "/libandroid_runtime.so") in
  PLT_HOOK_REGISTER dev inode (B "fork");;
  PLT_HOOK_REGISTER dev inode (B "unshare");;
  PLT_HOOK_REGISTER dev inode (B "strdup");;
  PLT_HOOK_REGISTER dev inode (B "property_get");;
  hook_status_files maps;;
  lsplt_CommitHook false;;
  s ← get;
  upd_hook (fun h => set_plt_backup
    (List.filter (fun t => negb (default 0 (z_olds s !! t.2) =? 0)) (plt_backup h)) h).

Definition hook_unloader : K unit :=
  maps ← lsplt_Scan;
  upd_hook (set_cached_map_infos maps);;
  let '(dev, inode) := library_id maps (B "/libart.so") in
  PLT_HOOK_REGISTER dev inode (B "pthread_attr_setstacksize");;
  lsplt_CommitHook false;;
  mret tt.

Fixpoint unregister_all (backups : list (Z * Z * list Z * Z)) : K unit :=
  match backups with
  | [] => mret tt
  | (dev, inode, sym, var) :: backups' =>
      old ← get_old var;
      ok ← lsplt_RegisterHook dev inode sym old 0;
      (if negb ok then upd_hook (set_should_unmap false) else mret tt);;
      unregister_all backups'
  end.

Definition restore_plt_hook : K unit :=
  h ← get_hook;
  unregister_all (plt_backup h);;
  ok ← lsplt_CommitHook true;
  if negb ok then upd_hook (set_should_unmap false) else mret tt.

(** ** The zygote's native methods *)

(** JNI_GetCreatedJavaVMs: in the global scope, or in libnativehelper. *)
Definition find_created_vms : K Z :=
  r ← syscall (CDlsym 0 (B "JNI_GetCreatedJavaVMs"));
  if negb (r_ret r =? 0) then mret (r_ret r)
  else
    hk ← get_hook;
    match List.find (fun m => ends_with (mi_path m) (B "/libnativehelper.so")) (cached_map_infos hk) with
    | None => mret 0
    | Some m =>
        h ← syscall (CDlopen (c_str (mi_path m)) 1);
        if r_ret h =? 0 then mret 0
        else
          f ← syscall (CDlsym (r_ret h) (B "JNI_GetCreatedJavaVMs"));
          do_ (CDlclose (r_ret h));;
          mret (r_ret f)
    end.

Definition find_modifiers : K unit :=
  classMember ← safe (FindClass (B "java/lang/reflect/Member"));
  (if negb (classMember =? 0) then
     m ← safe (GetMethodID classMember (B "getModifiers") (B "()I"));
     upd_hook (set_member_getModifiers m)
   else mret tt);;
  classModifier ← safe (FindClass (B "java/lang/reflect/Modifier"));
  if classModifier =? 0 then mret tt
  else
    fieldId ← safe (GetStaticFieldID classModifier (B "NATIVE") (B "I"));
    if fieldId =? 0 then mret tt
    else m ← safe (GetStaticIntField classModifier fieldId); upd_hook (set_MODIFIER_NATIVE m).

(** restore_zygote_hook: the rows now hold the original functions. *)
Definition swap_zygote_methods : K unit :=
  h ← get_hook;
  ms ← hook_jni_methods kZygote (zygote_methods h);
  upd_hook (set_zygote_methods ms).
Definition restore_zygote_hook : K unit := swap_zygote_methods.

Definition hook_zygote_jni : K unit :=
  get_vms ← find_created_vms;
  if get_vms =? 0 then mret tt
  else
    r ← jni_ (GetCreatedJavaVMs get_vms);
    let vm := nth 0 (r_aux r) 0 in
    if negb (r_ret r =? JNI_OK) || (vm =? 0) then mret tt
    else
      r ← jni_ (GetEnv vm);
      if negb (r_ret r =? JNI_OK) || (nth 0 (r_aux r) 0 =? 0) then mret tt
      else
        find_modifiers;;
        h ← get_hook;
        if (member_getModifiers h =? 0) || (MODIFIER_NATIVE h =? 0) then mret tt
        else
          ok ← ArtMethod_Init;
          if negb ok then mret tt else swap_zygote_methods.

(** ** The hooked functions *)

Definition set_errno (e : Z) : K unit := fun s => (Ret tt, St (st_w s) (st_log s) e (st_s s)).

Definition new_strdup (str : option (list Z)) : K Z :=
  s ← get;
  (if negb (z_zygote_hooked s) && bool_decide (str = Some kZygoteInit) then
     modify (zset_zygote_hooked true);;
     get_hook;;
     hook_zygote_jni;;
     maps ← lsplt_Scan;
     upd_hook (set_cached_map_infos maps)
   else mret tt);;
  r ← syscall (CStrdup (default [] str));
  mret (r_ret r).

Definition new_fork : K Z :=
  g ← g_ctx;
  if g : bool then
    c ← get_ctx;
    if 0 <=? pid c then mret (pid c) else r ← syscall CFork; mret (r_ret r)
  else r ← syscall CFork; mret (r_ret r).

(** Which namespaces the process is moved to before it unshares its own. *)
Definition choose_namespace (c : ctx) (h : hook) : list MountNamespace :=
  let should_unmount := negb (info_flags c &? Z.lor PROCESS_IS_MANAGER PROCESS_GRANTED_ROOT)
                        && (flags c &? DO_REVERT_UNMOUNT) in
  let is_zygote_clean := (0 <? zygote_unmounted_times h) && bool_decide (zygote_traces h = []) in
  (if negb should_unmount && (0 <? zygote_unmounted_times h) then [NsRoot] else [])
  ++ (if should_unmount && negb is_zygote_clean then [NsClean] else []).

Fixpoint enter_namespaces (l : list MountNamespace) : K unit :=
  match l with [] => mret tt | n :: l' => update_mount_namespace fuel n;; enter_namespaces l' end.

Definition new_unshare (fl : Z) : K Z :=
  g ← g_ctx;
  (if g && (fl &? CLONE_NEWNS) then
     c ← get_ctx;
     if (flags c &? SERVER_FORK_AND_SPECIALIZE) then mret tt
     else h ← get_hook; enter_namespaces (choose_namespace c h)
   else mret tt);;
  r ← syscall (CUnshare fl);
  set_errno 0;;
  mret (r_ret r).

(** The last backup whose function is the one property_get had. *)
Fixpoint last_backup (old : Z) (olds : gmap Z Z) (l : list (Z * Z * list Z * Z)) (i : nat)
  : option (nat * (Z * Z * list Z * Z)) :=
  match l with
  | [] => None
  | t :: l' =>
      match last_backup old olds l' (S i) with
      | Some x => Some x
      | None => if default 0 (olds !! t.2) =? old then Some (i, t) else None
      end
  end.

Definition trigger_unloader : K unit :=
  h ← get_hook;
  if skip_hooking_unloader h then mret tt
  else
    hook_unloader;;
    upd_hook (set_skip_hooking_unloader true);;
    h ← get_hook;
    s ← get;
    old ← get_old (old_var (B "property_get"));
    match last_backup old (z_olds s) (plt_backup h) 0 with
    | None => mret tt
    | Some (i, (dev, inode, sym, var)) =>
        f ← get_old var;
        ok ← lsplt_RegisterHook dev inode sym f 0;
        ok ← (if ok : bool then lsplt_CommitHook true else mret false);
        if ok : bool then upd_hook (fun h => set_plt_backup (delete i (plt_backup h)) h) else mret tt
    end.

(** The result, and what is stored in a non-null [value]. *)
Definition new_property_get (key : option (list Z)) (default_value : list Z) : K (Z * list Z) :=
  s ← get;
  match key ≫= (fun k => z_props s !! k) with
  | Some v => mret (Z.of_nat (length v), take (Z.to_nat (PROP_VALUE_MAX - 1)) (c_str v))
  | None =>
      (if negb (z_unloader_triggered s) then modify (zset_unloader_triggered true);; trigger_unloader else mret tt);;
      r ← syscall (CPropertyGet (default [] key) default_value);
      mret (r_ret r, r_data r)
  end.

Definition munmap_self (start size : Z) : K Z :=
  r ← syscall (CMunmap start size);
  (if r_ret r =? 0 then modify (fun s => put_mem (unmap_range (Z.to_nat size) start (the_mem s)) s) else mret tt);;
  mret (r_ret r).

Definition delete_hook : K unit := get_hook;; modify (zset_hook Freed).

Definition new_pthread_attr_setstacksize (attr size : Z) : K Z :=
  r ← syscall (CSetStackSize attr size);
  h ← get_hook;
  main ← (if should_unmap h then
            t ← syscall CGettid; p ← syscall CGetpid; mret (r_ret t =? r_ret p)
          else mret false);
  if negb main then mret (r_ret r)
  else
    restore_plt_hook;;
    h ← get_hook;
    if should_unmap h then
      (if should_spoof_maps h && anonymous_memory_enabled h then spoof_module_maps true else mret tt);;
      delete_hook;;
      munmap_self (start_addr h) (block_size h)
    else delete_hook;; mret (r_ret r).

Definition trigger_zygote_hooks : K unit :=
  new_strdup (Some kZygoteInit);;
  new_property_get (Some (B "ro.product.cpu.abi")) (B "0");;
  mret tt.

(** ** Calling the originals *)

Definition runtime_do (x : runtime_step) : K Z :=
  match x with
  | RFork => new_fork
  | RUnshare fl => new_unshare fl
  | RStrdup str => new_strdup str
  | RPropertyGet key d => '(n, _) ← new_property_get key d; mret n
  | RSetStackSize attr size => new_pthread_attr_setstacksize attr size
  end.

Fixpoint run_runtime (p : runtime_prog) : K unit :=
  match p with
  | RDone => mret tt
  | RStep x k => r ← runtime_do x; run_runtime (k r)
  end.

Definition call_original (fn : Z) (vals : list Z) : K unit :=
  if fn =? 0 then crash
  else
    call_code fn vals;;
    log ← get_log;
    run_runtime (runtime_code fn log).

(** ** The life of a context *)

Definition get_fd_max : K Z :=
  r ← syscall (CGetrlimit RLIMIT_NOFILE);
  mret (if r_ret r =? 0 then u64 (nth 1 (r_aux r) 0) else 32768).

(** A [vector<bool>] of 2^63 elements or more cannot be made. *)
Definition new_ZygiskContext (env_ : Z) (ar : sargs) : K unit :=
  max ← get_fd_max;
  if 2 ^ 63 <=? max then crash
  else
    modify (fun s => zset_gctx true (zset_ctx
      (Some (Ctx env_ ar None [] (-1) 0 0 (replicate (Z.to_nat max) false) [] [] [])) s)).

Definition delete_ZygiskContext : K unit :=
  modify (zset_gctx false);;
  child ← is_child;
  (if negb child then mret tt
   else
     upd_ctx (fun c => set_modules (clearApi <$> modules c) c);;
     s ← get;
     match z_hook s with
     | Null => mret tt
     | _ => upd_hook (set_should_unmap true);; restore_zygote_hook
     end);;
  modify (zset_ctx None).

(** The value of the parameter [name] of a row. *)
Definition param (r : jni_row) (vals : list Z) (name : list Z) : Z :=
  match position name r with Some i => nth i vals 0 | None => 0 end.

Definition row_args (r : jni_row) (vals : list Z) : sargs :=
  match row_handler r with
  | ForkSystemServer => ServerArgs
  | _ => AppArgs (AppArgs_mk (param r vals (B "uid")) (param r vals (B "nice_name")) (param r vals (B "app_data_dir"))
                    (if bool_decide (B "fds_to_ignore" ∈ row_set r) then Some (param r vals (B "fds_to_ignore")) else None))
  end.

(** The parameters are references: what the modules wrote is passed on. *)
Definition written_back (r : jni_row) (vals : list Z) (ar : sargs) : list Z :=
  match ar with
  | ServerArgs => vals
  | AppArgs ap =>
      let put name v vals := match position name r with Some i => <[i := v]> vals | None => vals end in
      put (B "uid") (a_uid ap) (put (B "nice_name") (a_nice_name ap) (put (B "app_data_dir") (a_app_data_dir ap)
        (match a_fds_to_ignore ap with Some v => put (B "fds_to_ignore") v vals | None => vals end)))
  end.

Definition handler_pre (h : handler) : K unit :=
  match h with
  | ForkAndSpecialize => nativeForkAndSpecialize_pre fuel a interposed
  | SpecializeAppProcess => nativeSpecializeAppProcess_pre fuel a interposed
  | ForkSystemServer => nativeForkSystemServer_pre fuel a interposed
  end.
Definition handler_post (h : handler) : K unit :=
  match h with
  | ForkAndSpecialize => nativeForkAndSpecialize_post fuel page_sz
  | SpecializeAppProcess => nativeSpecializeAppProcess_post fuel page_sz
  | ForkSystemServer => nativeForkSystemServer_post fuel page_sz
  end.

(** The body of row [i] of the table. *)
Definition replaced_method (i : nat) (r : jni_row) (env_ : Z) (vals : list Z) : K Z :=
  new_ZygiskContext env_ (row_args r vals);;
  handler_pre (row_handler r);;
  h ← get_hook;
  c ← get_ctx;
  call_original (match zygote_methods h !! i with Some m => j_fnPtr m | None => 0 end)
    (written_back r vals (args c));;
  handler_post (row_handler r);;
  c ← get_ctx;
  let result := match row_handler r with SpecializeAppProcess => 0 | _ => pid c end in
  delete_ZygiskContext;;
  mret result.

(** ** Entry *)

(** The table of native methods a new HookContext has. *)
Definition initial_methods : list jmethod :=
  imap (fun i r => JMethod (row_name r) (row_sig r) (row_fn i)) zygote_rows.

Definition hook_entry (start size : Z) : K unit :=
  LoadPropConfig;;
  modify (zset_hook (Live (Hook_mk initial_methods start size false false false false 0 0 0 [] [] [])));;
  hook_plt;;
  tmp ← in_daemon GetTmpPath;
  '(reserved_base, reserved_size) ← clean_linker_trace fuel tmp 1 0 true (Some 0) (Some 0);
  match reserved_base, reserved_size with
  | Some b, Some n => if (b =? start) && (size <? n) then upd_hook (set_block_size n) else mret tt
  | _, _ => mret tt
  end.

(** ** A system server that is already running *)

(** The environment of the current thread, attached for the while if it was
    not: the machine, the environment (0 if none) and whether to detach. *)
Definition jni_attach : K (Z * Z * bool) :=
  f ← syscall (CDlsym 0 (B "JNI_GetCreatedJavaVMs"));
  if r_ret f =? 0 then mret (0, 0, false)
  else
    r ← jni_ (GetCreatedJavaVMs (r_ret f));
    let vm := nth 0 (r_aux r) 0 in
    if negb (r_ret r =? JNI_OK) || (nth 1 (r_aux r) 0 =? 0) || (vm =? 0) then mret (vm, 0, false)
    else
      r ← jni_ (GetEnv vm);
      if r_ret r =? JNI_EDETACHED then
        r ← jni_ (AttachCurrentThread vm);
        if r_ret r =? JNI_OK then mret (vm, nth 0 (r_aux r) 0, true) else mret (vm, 0, false)
      else mret (vm, nth 0 (r_aux r) 0, false).

Definition jni_detach (vm : Z) (attached : bool) : K unit :=
  if attached && negb (vm =? 0) then jni_ (DetachCurrentThread vm);; mret tt else mret tt.

(** Permitted and effective capabilities; the kernel stores two records
    (effective, permitted, inheritable), of the low and of the high words. *)
Definition fetch_capabilities : K (Z * Z) :=
  r ← syscall CCapget;
  mret (if r_ret r =? 0
        then (Z.lor (swrap 64 (Z.shiftl (nth 4 (r_aux r) 0) 32)) (nth 1 (r_aux r) 0),
              Z.lor (swrap 64 (Z.shiftl (nth 3 (r_aux r) 0) 32)) (nth 0 (r_aux r) 0))
        else (0, 0)).

Definition fetch_gids : K Z :=
  n ← syscall (CGetgroups 0);
  if r_ret n <=? 0 then r ← jni_ (NewIntArray 0); mret (r_ret r)
  else
    g ← syscall (CGetgroups (r_ret n));
    array ← jni_ (NewIntArray (r_ret n));
    (if negb (r_ret array =? 0)
     then jni_ (SetIntArrayRegion (r_ret array) 0
                  (swrap 32 <$> take (Z.to_nat (r_ret n)) (r_aux g ++ replicate (Z.to_nat (r_ret n)) 0)));; mret tt
     else mret tt);;
    mret (r_ret array).

(** The identity of the process only reaches the modules. *)
Definition run_system_server_hooks : K unit :=
  '(vm, env_, attached) ← jni_attach;
  (if env_ =? 0 then mret tt
   else
     do_ CGetuid;;
     do_ CGetgid;;
     gids ← fetch_gids;
     fetch_capabilities;;
     new_ZygiskContext env_ ServerArgs;;
     upd_ctx (fun c => set_flags (Z.lor (flags c) SERVER_FORK_AND_SPECIALIZE) c);;
     server_specialize_pre fuel a interposed;;
     p ← syscall CGetpid;
     in_daemon (CacheMountNamespace fuel (r_ret p));;
     server_specialize_post fuel page_sz;;
     (if negb (gids =? 0) then jni_ (DeleteLocalRef gids);; mret tt else mret tt);;
     delete_ZygiskContext);;
  jni_detach vm attached.

(** The thread runs run_system_server_hooks. *)
Definition trigger_system_server_hooks : K unit :=
  r ← syscall (CPthreadCreate (new_fn (B "run_system_server_hooks")));
  if negb (r_ret r =? 0) then mret tt else do_ (CPthreadDetach (nth 0 (r_aux r) 0)).
End Ops.

(** ** Code that only changes memory *)

Section MemoryOnly.
Context {W S : Type} `{!World W} `{!HasMem S} (I : S -> Prop) (Hmem : forall m x, I x -> I (put_mem m x)).
Abbreviation K := (M W S).

Lemma keeps_anonymize b r : keeps I (anonymize_range b r : K bool).
Proof.
  assert (Hl : forall k p, keeps I (load k p : K (list Z))) by (intros k p; apply keeps_pure, reads_load).
  unfold anonymize_range, sync_cfi_shadow, mmap, mprotect, munmap, store, mremap. rewrite Z.eqb_refl. cbn [orb].
  keeps_tac; auto.
Qed.

Lemma keeps_spoof_paths paths b : keeps I (spoof_paths paths b : K unit).
Proof.
  assert (Hr : forall rs, keeps I (anonymize_ranges rs b : K Z)).
  { induction rs as [|r rs IH]; cbn [anonymize_ranges]; pose proof keeps_anonymize; keeps_tac. }
  induction paths as [|p paths IH]; cbn [spoof_paths]; unfold spoof_virtual_maps; keeps_tac.
Qed.
End MemoryOnly.

(** ** Forking once *)

(** A program with the answer [n] in place of its forks. *)
Fixpoint answer_forks (n : Z) (p : runtime_prog) : runtime_prog :=
  match p with
  | RDone => RDone
  | RStep RFork k => answer_forks n (k n)
  | RStep x k => RStep x (fun r => answer_forks n (k r))
  end.

(** The process is being specialised after its fork returned [n]. *)
Definition forked (n : Z) (x : zs) : Prop := z_gctx x = true /\ exists c, z_ctx x = Some c /\ pid c = n.

Lemma forked_tame n x y : forked n x -> tame x y -> forked n y.
Proof.
  intros (Hg & c & Hc & Hp) (Hg' & _ & Ht). rewrite Hc in Ht. destruct (z_ctx y) as [c'|] eqn:E; [|done].
  split; [congruence|]. exists c'. split; [done|]. destruct Ht as (_ & _ & Hp' & _). congruence.
Qed.

Section Fork.
Context {W : Type} `{!World W} `{!Regex} `{!Lsplt} `{!Symbols} `{!HashOrder} `{!StdSort}.
Context (fuel : nat) (n : Z).
Abbreviation K := (M W zs).
Abbreviation I := (forked n).

Lemma forked_upd_hook f : keeps I (upd_hook f : K unit).
Proof. unfold upd_hook. apply keeps_get. intros x Hx. case_match; [by apply keeps_pure|by apply keeps_put|by apply keeps_pure]. Qed.

Lemma forked_get_hook : keeps I (get_hook : K hook).
Proof. apply keeps_get. intros x _. case_match; by apply keeps_pure. Qed.

Lemma forked_scan : keeps I (lsplt_Scan : K (list map_info)).
Proof. unfold lsplt_Scan. keeps_tac. Qed.

Lemma forked_commit b : keeps I (lsplt_CommitHook b : K bool).
Proof. unfold lsplt_CommitHook. keeps_tac. done. Qed.

Lemma forked_register dev inode sym f old : keeps I (lsplt_RegisterHook dev inode sym f old : K bool).
Proof. unfold lsplt_RegisterHook. keeps_tac. Qed.

Lemma forked_safe c : keeps I (safe c : K Z).
Proof. apply (keeps_tame _ _); [|apply forked_tame]. intros x0. apply keeps_safe. Qed.

Lemma forked_jni c : keeps I (jni_ c : K reply).
Proof. apply keeps_syscall. Qed.

Lemma forked_old v : keeps I (get_old v : K Z).
Proof. apply keeps_get. intros x _. by apply keeps_pure. Qed.

Lemma forked_get_ctx : keeps I (get_ctx : K ctx).
Proof. apply keeps_get. intros x _. case_match; by apply keeps_pure. Qed.

Lemma forked_g_ctx : keeps I (g_ctx : K bool).
Proof. apply keeps_get. intros x _. by apply keeps_pure. Qed.

#[local] Hint Resolve forked_upd_hook forked_get_hook forked_scan forked_commit forked_register forked_safe forked_jni
  forked_old forked_get_ctx forked_g_ctx : keeps.

Lemma forked_art : keeps I (ArtMethod_Init : K bool).
Proof.
  unfold ArtMethod_Init, find_art_field. apply keeps_get. intros x Hx. case_match; [by apply keeps_pure|].
  assert (Hr : forall m, keeps I (FromReflectedMethod_ m : K Z)).
  { intros m. apply (keeps_tame _ _); [|apply forked_tame]. intros x0. apply keeps_from_reflected. }
  keeps_tac; done.
Qed.

Lemma forked_jni_methods clz ms : keeps I (hook_jni_methods clz ms : K (list jmethod)).
Proof. apply (keeps_tame _ _); [|apply forked_tame]. intros x0. apply keeps_hook_jni. Qed.
#[local] Hint Resolve forked_art forked_jni_methods : keeps.

Lemma forked_strdup str : keeps I (new_strdup str : K Z).
Proof.
  unfold new_strdup. apply keeps_get. intros x Hx. keeps_tac; [done|].
  unfold hook_zygote_jni, find_created_vms, find_modifiers, swap_zygote_methods. keeps_tac.
Qed.

Lemma forked_property key d : keeps I (new_property_get key d : K (Z * list Z)).
Proof.
  unfold new_property_get. apply keeps_get. intros x Hx. keeps_tac; [done|].
  unfold trigger_unloader, hook_unloader, PLT_HOOK_REGISTER, register_hook. keeps_tac.
Qed.

Lemma forked_unshare fl : keeps I (new_unshare fuel fl : K Z).
Proof.
  unfold new_unshare. apply keeps_bind; [apply forked_g_ctx|]. intros g.
  apply keeps_bind; [|intros _; keeps_tac; by apply keeps_pure].
  case_match; [|by apply keeps_pure]. apply keeps_bind; [apply forked_get_ctx|]. intros c. case_match; [by apply keeps_pure|].
  apply keeps_bind; [apply forked_get_hook|]. intros h. induction (choose_namespace c h) as [|x l IH]; cbn [enter_namespaces].
  - by apply keeps_pure.
  - apply keeps_bind; [|intros _; exact IH]. unfold update_mount_namespace, in_daemon. keeps_tac. by apply keeps_zoom.
Qed.

Lemma forked_unregister l : keeps I (unregister_all l : K unit).
Proof. induction l as [|[[[dev inode] sym] var] l IH]; cbn [unregister_all]; keeps_tac. Qed.

Lemma forked_setstacksize attr size : keeps I (new_pthread_attr_setstacksize attr size : K Z).
Proof.
  unfold new_pthread_attr_setstacksize, restore_plt_hook, delete_hook, munmap_self, spoof_module_maps.
  pose proof forked_unregister. pose proof (keeps_spoof_paths (W := W) (S := zs) I (fun _ _ Hi => Hi)). keeps_tac; done.
Qed.

(** C15. A process is forked once: while a process is specialised after the
    library forked it, any code of the runtime that calls the hooked functions
    runs exactly as if every fork in it had been replaced by the answer of
    that one fork; no further process is made. *)
Theorem fork_happens_once p (s : st W zs) :
  0 <= n -> forked n (st_s s) -> run_runtime fuel p s = run_runtime fuel (answer_forks n p) s.
Proof.
  intros Hn. revert s. induction p as [|x k IH]; intros s Hs; [done|].
  assert (Hd : x <> RFork -> run_runtime fuel (RStep x k) s = run_runtime fuel (RStep x (fun r => answer_forks n (k r))) s).
  { intros Hx. cbn [run_runtime]. unfold mbind, M_bind.
    assert (Hk : keeps I (runtime_do fuel x : K Z)).
    { destruct x; cbn [runtime_do]; [done|apply forked_unshare|apply forked_strdup| |apply forked_setstacksize].
      apply keeps_bind; [apply forked_property|]. intros []. by apply keeps_pure. }
    specialize (Hk s Hs). unfold wp in Hk. destruct (runtime_do fuel x s) as [[r| | |] s1]; [|done..]. by apply IH. }
  destruct x; [|by apply Hd..]. cbn [run_runtime answer_forks runtime_do]. destruct Hs as (Hg & c & Hc & Hp).
  transitivity (run_runtime fuel (k n) s); [|apply IH; split; [done|by exists c]].
  unfold new_fork, g_ctx, get_ctx, mbind, M_bind, get, mret, M_ret. cbn. rewrite Hg, Hc. cbn. rewrite Hp.
  by rewrite (proj2 (Z.leb_le _ _) Hn).
Qed.
End Fork.

(** ** Unloading *)

(** The registrations that put the original functions back. *)
Definition restores (olds : gmap Z Z) (backups : list (Z * Z * list Z * Z)) : list call :=
  (fun '(dev, inode, sym, var) => CRegisterHook dev inode sym (default 0 (olds !! var)) 0) <$> backups.

Definition accepted (e : event) : bool := negb (r_ret e.2 =? 0).

Section Unload.
Context {W : Type} `{!World W} `{!Regex} `{!Lsplt} `{!Symbols} `{!HashOrder} `{!StdSort}.
Abbreviation K := (M W zs).

Lemma set_should_unmap_same h : set_should_unmap (should_unmap h) h = h.
Proof. by destruct h. Qed.

Lemma unregister_exact l h : forall (s : st W zs), z_hook (st_s s) = Live h ->
  wp (unregister_all l) (fun o s' => o = Ret tt /\ z_olds (st_s s') = z_olds (st_s s) /\ exists evs,
    st_log s' = evs ++ st_log s /\ reverse evs.*1 = restores (z_olds (st_s s)) l
    /\ z_hook (st_s s') = Live (set_should_unmap (should_unmap h && forallb accepted evs) h)) s.
Proof.
  revert h. induction l as [|[[[dev inode] sym] var] l IH]; intros h s Hh; cbn [unregister_all].
  { wrun. split; [done|]. split; [done|]. exists []. split; [done|]. split; [done|].
    by rewrite andb_true_r, set_should_unmap_same. }
  unfold get_old, lsplt_RegisterHook. wrun. apply wp_syscall. intros r w e. wrun. rewrite negb_involutive.
  set (e0 := (CRegisterHook _ _ _ _ _, r) : event).
  assert (Hstep : forall h1 s1, z_hook (st_s s1) = Live h1 -> z_olds (st_s s1) = z_olds (st_s s) -> st_log s1 = e0 :: st_log s ->
    h1 = set_should_unmap (should_unmap h && accepted e0) h ->
    wp (unregister_all l) (fun o s' => o = Ret tt /\ z_olds (st_s s') = z_olds (st_s s) /\ exists evs,
      st_log s' = evs ++ st_log s /\ reverse evs.*1 = restores (z_olds (st_s s)) ((dev, inode, sym, var) :: l)
      /\ z_hook (st_s s') = Live (set_should_unmap (should_unmap h && forallb accepted evs) h)) s1).
  { intros h1 s1 Hh1 Ho1 El1 E1. eapply wp_mono; [by apply IH|]. intros o s' (-> & Ho & evs & El & Er & Hh').
    split; [done|]. split; [congruence|]. exists (evs ++ [e0]). split; [by rewrite El, El1, <- app_assoc|].
    split; [rewrite fmap_app, reverse_app, Er, Ho1; done|]. rewrite Hh', E1, forallb_app. cbn [forallb].
    rewrite andb_true_r, (andb_comm (forallb _ _)), andb_assoc. by destruct h. }
  assert (Ea : accepted e0 = negb (r_ret r =? 0)) by done. rewrite Ea in Hstep.
  destruct (r_ret r =? 0); unfold upd_hook; wrun.
  - rewrite Hh. wrun. eapply Hstep; [reflexivity|done|done|]. by rewrite andb_false_r.
  - eapply Hstep; [exact Hh|done|done|]. by rewrite andb_true_r, set_should_unmap_same.
Qed.

Lemma restore_exact h (s : st W zs) : z_hook (st_s s) = Live h ->
  wp restore_plt_hook (fun o s' => o = Ret tt /\ exists evs r,
    st_log s' = (CCommitHook true, r) :: evs ++ st_log s /\ reverse evs.*1 = restores (z_olds (st_s s)) (plt_backup h)
    /\ z_hook (st_s s') = Live (set_should_unmap (should_unmap h && forallb accepted ((CCommitHook true, r) :: evs)) h)) s.
Proof.
  intros Hh. unfold restore_plt_hook, get_hook. wrun. rewrite Hh. wrun. eapply wp_mono; [by apply unregister_exact|].
  intros o s1 (-> & Ho & evs & El & Er & Hh1). unfold lsplt_CommitHook. wrun. apply wp_syscall. intros r w e. wrun.
  rewrite negb_involutive. assert (Ea : accepted (CCommitHook true, r) = negb (r_ret r =? 0)) by done.
  destruct (r_ret r =? 0); unfold upd_hook; wrun.
  - cbn [z_hook zset_olds]. rewrite Hh1. wrun. split; [done|]. exists evs, r. rewrite El. split; [done|]. split; [done|].
    cbn [forallb z_hook zset_hook]. rewrite Ea. cbn [negb andb]. rewrite andb_false_r. by destruct h.
  - split; [done|]. exists evs, r. rewrite El. split; [done|]. split; [done|].
    cbn [forallb]. rewrite Ea. cbn [negb andb]. exact Hh1.
Qed.

Lemma extends_spoof_paths paths b : extends (spoof_paths paths b : K unit).
Proof.
  assert (Hr : forall rs, extends (anonymize_ranges rs b : K Z)).
  { induction rs as [|r rs IH]; cbn [anonymize_ranges]; [extends_tac|]. apply extends_bind; [|intros ?; extends_tac].
    unfold anonymize_range, sync_cfi_shadow, mmap, mprotect, munmap, mremap, do_. rewrite Z.eqb_refl. cbn [orb].
    assert (Hl : forall k p, extends (load k p : K (list Z))) by (intros k p; apply extends_pure, reads_load).
    assert (Hs : forall p bs, extends (store p bs : K unit)) by (intros p bs; unfold store; extends_tac).
    extends_tac. }
  induction paths as [|p paths IH]; cbn [spoof_paths]; unfold spoof_virtual_maps; extends_tac.
Qed.

Lemma freed_hook_crashes attr size (s : st W zs) :
  z_hook (st_s s) = Freed -> (new_pthread_attr_setstacksize attr size s).1 = Crash.
Proof.
  intros Hh. change (wp (new_pthread_attr_setstacksize attr size) (fun o _ => o = Crash) s).
  unfold new_pthread_attr_setstacksize, get_hook. wrun. apply wp_syscall. intros r w e. wrun. rewrite Hh. by wrun.
Qed.
End Unload.

Section UnloadTheorem.
Context {W : Type} `{!World W} `{!Regex} `{!Lsplt} `{!Symbols} `{!HashOrder} `{!StdSort}.
Abbreviation K := (M W zs).

(** The last step of unloading. *)
Definition leave_process (h : hook) : K Z :=
  (if should_spoof_maps h && anonymous_memory_enabled h then spoof_module_maps true else mret tt);;
  delete_hook;;
  munmap_self (start_addr h) (block_size h).

Lemma leave_exact h (s : st W zs) : z_hook (st_s s) = Live h ->
  wp (leave_process h) (fun o s' => exists spoof,
    (should_spoof_maps h && anonymous_memory_enabled h = false -> spoof = [] /\ returns o)
    /\ match o with
       | Ret v => z_hook (st_s s') = Freed
                  /\ exists u, v = r_ret u /\ st_log s' = (CMunmap (start_addr h) (block_size h), u) :: spoof ++ st_log s
       | _ => st_log s' = spoof ++ st_log s
       end) s.
Proof.
  intros Hh. unfold leave_process. wstep.
  eapply (wp_mono _ (fun o s1 => (z_hook (st_s s1) = Live h /\ exists spoof, st_log s1 = spoof ++ st_log s)
    /\ (should_spoof_maps h && anonymous_memory_enabled h = false -> o = Ret tt /\ s1 = s))).
  { destruct (should_spoof_maps h && anonymous_memory_enabled h); [|wrun; split; [split; [done|by exists []]|done]].
    eapply wp_mono; [apply wp_and; [apply (extends_spoof_paths module_paths true)|]|].
    - pose proof (keeps_spoof_paths (W := W) (S := zs) (fun x => z_hook x = Live h)) as Hk. apply Hk; [done|]. exact Hh.
    - intros o s1 [(evs & E) Hh1]. split; [split; [done|by exists evs]|done]. }
  intros o s1 ((Hh1 & spoof & El) & Hn). destruct o as [[]| | |]; cbn [wp_cont].
  2,3,4: exists spoof; split; [intros Hb; by destruct (Hn Hb)|done].
  unfold delete_hook, get_hook, munmap_self. wrun. rewrite Hh1. wrun. apply wp_syscall. intros r w e. wrun.
  destruct (r_ret r =? 0); wrun; exists spoof; split; try (intros Hb; destruct (Hn Hb) as [_ ->];
    split; [apply (app_inv_tail (st_log s)); by rewrite <- El|by eexists]);
    (split; [done|]); exists r; cbn [st_log]; by rewrite El.
Qed.

(** C16. Unloading: the hooked pthread_attr_setstacksize calls the original,
    and unless a process is to be left and this is its main thread it does
    nothing else. Otherwise it registers the original function of every hook
    that was recorded and commits; only if every one of these calls was
    accepted does it unmap the library, so no call of a hooked function can
    reach unmapped code, and it does so with its state deleted, after at most
    renaming the modules' mappings. If one was refused it keeps the library
    but deletes the state all the same, so that the next call crashes. *)
Theorem unload_exact attr size h (s : st W zs) :
  z_hook (st_s s) = Live h ->
  wp (new_pthread_attr_setstacksize attr size) (fun o s' => exists r,
    let log1 := (CSetStackSize attr size, r) :: st_log s in
    if negb (should_unmap h) then o = Ret (r_ret r) /\ st_log s' = log1 /\ st_s s' = st_s s
    else exists t p, let log2 := (CGetpid, p) :: (CGettid, t) :: log1 in
      if negb (r_ret t =? r_ret p) then o = Ret (r_ret r) /\ st_log s' = log2 /\ st_s s' = st_s s
      else exists evs, reverse evs.*1 = restores (z_olds (st_s s)) (plt_backup h) ++ [CCommitHook true]
        /\ if forallb accepted evs then exists spoof,
             (should_spoof_maps h && anonymous_memory_enabled h = false -> spoof = [] /\ returns o)
             /\ match o with
                | Ret v => z_hook (st_s s') = Freed /\ exists u, v = r_ret u
                    /\ st_log s' = (CMunmap (start_addr h) (block_size h), u) :: spoof ++ evs ++ log2
                | _ => st_log s' = spoof ++ evs ++ log2
                end
           else o = Ret (r_ret r) /\ st_log s' = evs ++ log2
                /\ forall attr' size', (new_pthread_attr_setstacksize attr' size' s').1 = Crash) s.
Proof.
  intros Hh. unfold new_pthread_attr_setstacksize, get_hook. wrun. apply wp_syscall. intros r w e. wrun. rewrite Hh. wrun.
  destruct (should_unmap h) eqn:Eu; cbn [negb].
  2: { wrun. by exists r. }
  wrun. apply wp_syscall. intros t w1 e1. wrun. apply wp_syscall. intros p w2 e2. wrun.
  destruct (r_ret t =? r_ret p) eqn:Em; cbn [negb].
  2: { wrun. exists r, t, p. by rewrite Em. }
  wrun. eapply wp_mono; [by apply restore_exact|]. intros o s1 (-> & evs & c & El & Er & Hh1). wrun. rewrite Hh1. wrun.
  set (evs' := (CCommitHook true, c) :: evs) in *. rewrite Eu in *. cbn [andb should_unmap set_should_unmap] in *.
  assert (Hr : reverse evs'.*1 = restores (z_olds (st_s s)) (plt_backup h) ++ [CCommitHook true]).
  { unfold evs'. cbn [fmap list_fmap]. by rewrite reverse_cons, Er. }
  destruct (forallb accepted evs') eqn:Ea.
  - assert (Eh : set_should_unmap true h = h) by (rewrite <- Eu; apply set_should_unmap_same).
    rewrite Eh in *. eapply wp_mono; [apply (leave_exact h s1 Hh1)|]. intros o s' (spoof & Hn & Ho).
    exists r, t, p. rewrite Em. cbn [negb]. exists evs'. split; [done|]. rewrite Ea. exists spoof. split; [exact Hn|].
    rewrite El in Ho. exact Ho.
  - unfold delete_hook, get_hook. wrun. rewrite Hh1. wrun. exists r, t, p. rewrite Em. cbn [negb]. exists evs'.
    split; [done|]. rewrite Ea. split; [done|]. split; [exact El|]. intros attr' size'. by apply freed_hook_crashes.
Qed.
End UnloadTheorem.

(** ** Reading spoof.prop *)

(** A line of the file: a pair between blanks, or a comment. *)
Inductive config_line :=
| Pair (pad key value pad' : list Z)
| Comment (pad text : list Z).

Definition print_line (l : config_line) : list Z :=
  match l with
  | Pair pad key value pad' => pad ++ (key ++ 61 :: value) ++ pad' ++ [10]
  | Comment pad text => pad ++ 35 :: text ++ [10]
  end.

Definition blank (pad : list Z) : Prop := forallb is_lead pad = true.
Definition line_ok (l : config_line) : Prop :=
  match l with
  | Pair pad key value pad' =>
      blank pad /\ blank pad' /\ (10 ∉ key) /\ (61 ∉ key) /\ (10 ∉ value)
      /\ (forall c, head key = Some c -> is_lead c = false /\ c <> 35)
      /\ (forall c, last value = Some c -> is_trail c = false)
  | Comment pad text => blank pad /\ (10 ∉ text)
  end.

Definition pair_of (l : config_line) : option (list Z * list Z) :=
  match l with Pair _ key value _ => Some (key, value) | Comment _ _ => None end.

Lemma drop_while_app_blank p pad s : forallb p pad = true -> drop_while p (pad ++ s) = drop_while p s.
Proof. induction pad as [|c pad IH]; [done|]. cbn. destruct (p c); [exact IH|done]. Qed.

Lemma drop_while_end_blank p s pad : forallb p pad = true -> drop_while_end p (s ++ pad) = drop_while_end p s.
Proof.
  intros H. unfold drop_while_end. rewrite rev_app_distr, drop_while_app_blank; [done|].
  rewrite forallb_forall in *. intros x Hx. apply H. by apply in_rev.
Qed.

Lemma drop_while_end_keep p s : (forall c, last s = Some c -> p c = false) -> drop_while_end p s = s.
Proof.
  destruct s as [|c s] using rev_ind; [done|]. rewrite last_snoc. intros H. unfold drop_while_end. rewrite rev_app_distr.
  cbn. rewrite (H c eq_refl). cbn. by rewrite rev_involutive.
Qed.

Lemma not_lf_lead pad : blank pad -> 10 ∉ pad.
Proof. unfold blank. rewrite forallb_forall. intros H Hx. apply list_elem_of_In, H in Hx. done. Qed.

Lemma take_line line rest : 10 ∉ line -> take_while (fun c => negb (c =? 10)) (line ++ 10 :: rest) = line.
Proof.
  induction line as [|c line IH]; intros H; [done|]. apply not_elem_of_cons in H as [Hc H]. cbn.
  rewrite (proj2 (Z.eqb_neq c 10)) by done. cbn. by rewrite IH.
Qed.

Lemma split_lines_cons fuel line rest :
  10 ∉ line -> split_lines (S fuel) (line ++ 10 :: rest) = line :: split_lines fuel rest.
Proof.
  intros H. destruct (line ++ 10 :: rest) as [|c t] eqn:E; [by destruct line|]. cbn [split_lines]. rewrite <- E, take_line by done.
  f_equal. f_equal. change (10 :: rest) with ([10] ++ rest). rewrite app_assoc. apply drop_app_length'.
  rewrite length_app. cbn. lia.
Qed.

Lemma trimmed_pair pad key value pad' :
  line_ok (Pair pad key value pad') -> prop_line (pad ++ (key ++ 61 :: value) ++ pad') = Some (key, value).
Proof.
  intros (Hp & Hp' & Hk1 & Hk2 & Hv & Hkh & Hvt). unfold prop_line. rewrite drop_while_app_blank by done.
  assert (E1 : drop_while is_lead ((key ++ 61 :: value) ++ pad') = (key ++ 61 :: value) ++ pad').
  { destruct key as [|c key]; [done|]. cbn. by rewrite (proj1 (Hkh c eq_refl)). }
  rewrite E1, drop_while_end_blank.
  2: { unfold blank in Hp'. rewrite forallb_forall in *. intros x Hx. unfold is_trail. by rewrite Hp'. }
  assert (E2 : drop_while_end is_trail (key ++ 61 :: value) = key ++ 61 :: value).
  { apply drop_while_end_keep. intros c. rewrite last_app, last_cons. destruct (last value) as [d|]; intros [= <-]; [by apply Hvt|done]. }
  rewrite E2. destruct (key ++ 61 :: value) as [|c t] eqn:E; [by destruct key|].
  assert (Hc : c <> 35). { destruct key as [|k key]; cbn in E; [by injection E as <-|]. injection E as <- _. apply (Hkh k eq_refl). }
  rewrite (proj2 (Z.eqb_neq c 35) Hc), <- E. clear E1 E2 E.
  assert (Ek : take_while (fun c => negb (c =? 61)) (key ++ 61 :: value) = key).
  { clear -Hk2. induction key as [|x key IH]; [done|]. apply not_elem_of_cons in Hk2 as [Hx H]. cbn.
    rewrite (proj2 (Z.eqb_neq x 61)) by done. cbn. by rewrite IH. }
  rewrite Ek. destruct (Nat.ltb_spec (length key) (length (key ++ 61 :: value))) as [_|Hl].
  2: { rewrite length_app in Hl. cbn in Hl. lia. }
  f_equal. f_equal. change (61 :: value) with ([61] ++ value). rewrite app_assoc. apply drop_app_length'.
  rewrite length_app. cbn. lia.
Qed.

Lemma trimmed_comment pad text : blank pad -> prop_line (pad ++ 35 :: text) = None.
Proof.
  intros Hp. unfold prop_line. rewrite drop_while_app_blank by done. cbn [drop_while]. change (is_lead 35) with false. cbn iota.
  assert (E : exists t, drop_while_end is_trail (35 :: text) = 35 :: t).
  { unfold drop_while_end. cbn [rev]. assert (Ht : exists u, drop_while is_trail (rev text ++ [35]) = u ++ [35]).
    { induction (rev text) as [|c l IH]; [by exists []|].
      change (drop_while is_trail ((c :: l) ++ [35])) with (if is_trail c then drop_while is_trail (l ++ [35]) else (c :: l) ++ [35]).
      destruct (is_trail c); [exact IH|by exists (c :: l)]. }
    destruct Ht as (u & ->). exists (rev u). by rewrite rev_app_distr. }
  destruct E as (t & ->). done.
Qed.

(** One printed line, as the reader sees it. *)
Lemma read_line l : line_ok l ->
  exists line, print_line l = line ++ [10] /\ (10 ∉ line) /\ prop_line line = pair_of l.
Proof.
  destruct l as [pad key value pad'|pad text]; intros Hl.
  - exists (pad ++ (key ++ 61 :: value) ++ pad'). split; [cbn; by rewrite <- !app_assoc|]. split; [|by apply trimmed_pair].
    destruct Hl as (Hp & Hp' & Hk & _ & Hv & _). rewrite !elem_of_app, elem_of_cons.
    pose proof (not_lf_lead _ Hp). pose proof (not_lf_lead _ Hp'). intros [?|[[?|[[=]|?]]|?]]; tauto.
  - exists (pad ++ 35 :: text). split; [cbn; by rewrite <- app_assoc|]. destruct Hl as [Hp Ht]. split; [|by apply trimmed_comment].
    rewrite elem_of_app, elem_of_cons. pose proof (not_lf_lead _ Hp). intros [?|[[=]|?]]; tauto.
Qed.

Lemma split_printed ls : Forall line_ok ls -> forall fuel, (length (concat (print_line <$> ls)) <= fuel)%nat ->
  omap prop_line (split_lines fuel (concat (print_line <$> ls))) = omap pair_of ls.
Proof.
  induction 1 as [|l ls Hl Hls IH]; intros fuel Hf; [by destruct fuel|].
  destruct (read_line l Hl) as (line & E & Hn & Ep). rewrite fmap_cons in Hf |- *. cbn [concat] in Hf |- *.
  rewrite E, <- app_assoc in Hf |- *. change ([10] ++ ?x) with (10 :: x) in Hf |- *.
  rewrite length_app, length_cons in Hf. destruct fuel as [|fuel]; [lia|]. rewrite split_lines_cons by done.
  specialize (IH fuel ltac:(lia)). cbn. rewrite Ep. destruct (pair_of l); by rewrite IH.
Qed.

(** Reading spoof.prop: of a file of lines that each hold a pair between
    blanks or a comment, the reader keeps exactly the pairs, the last one where
    a key is given twice; blanks inside a key or a value and equality signs in
    a value are kept. *)
Theorem config_roundtrip ls :
  Forall line_ok ls -> parse_props (concat (print_line <$> ls)) = list_to_map (reverse (omap pair_of ls)).
Proof.
  intros Hls. unfold parse_props.
  assert (Hfold : forall lines (m : gmap (list Z) (list Z)),
    fold_left (fun m line => match prop_line line with Some (k, v) => <[k := v]> m | None => m end) lines m
    = list_to_map (reverse (omap prop_line lines)) ∪ m).
  { induction lines as [|line lines IH]; intros m; cbn [fold_left].
    - symmetry. apply (left_id_L ∅ (∪) m).
    - rewrite IH.
      assert (Eo : omap prop_line (line :: lines)
                   = match prop_line line with Some p => p :: omap prop_line lines | None => omap prop_line lines end) by done.
      rewrite Eo. destruct (prop_line line) as [[k v]|]; [|done]. rewrite reverse_cons, list_to_map_app.
      rewrite <- (assoc_L (∪)). f_equal. cbn. by rewrite insert_union_singleton_l, insert_empty. }
  rewrite Hfold, split_printed, (right_id_L ∅ (∪)); [done|done|lia].
Qed.

(** ** The zygote runs no module *)

(** The context satisfies [P]. *)
Definition ctx_is (P : ctx -> Prop) (x : zs) : Prop := exists c, z_ctx x = Some c /\ P c.

(** [P] is about neither the identity of the process nor its descriptors. *)
Class Stable (P : ctx -> Prop) := {
  stable_flags c f : P c -> P (set_flags f c);
  stable_info c f : P c -> P (set_info_flags f c);
  stable_process c p : P c -> P (set_process p c);
  stable_args c a : P c -> P (set_args a c);
  stable_fds c l : P c -> P (set_allowed_fds l c) }.

#[export] Instance no_modules_stable : Stable (fun c => modules c = []).
Proof. by split. Qed.
#[export] Instance child_stable : Stable (fun c => pid c <= 0).
Proof. by split. Qed.

Section Parent.
Context {W : Type} `{!World W} `{!Regex} `{!Lsplt} `{!ModuleCode} `{!HashOrder} `{!StdSort} (P : ctx -> Prop) `{!Stable P}.
Context (fuel : nat) (a : arch) (interposed : list Z).
Abbreviation K := (M W zs).
Abbreviation I := (ctx_is P).

Lemma is_upd f : (forall c, P c -> P (f c)) -> keeps I (upd_ctx f : K unit).
Proof.
  intros Hf. apply keeps_upd_any. intros x c (c' & E & Hp) E'. rewrite E in E'. injection E' as <-.
  exists (f c'). split; [done|]. by apply Hf.
Qed.

Lemma is_daemon {A} (m : M W daemon_state A) : keeps I (in_daemon m).
Proof. by apply keeps_zoom. Qed.
Lemma is_lk {A} (m : M W lk A) : keeps I (in_lk m).
Proof. by apply keeps_zoom. Qed.
Lemma is_upd_hook f : keeps I (upd_hook f : K unit).
Proof. apply keeps_get. intros x Hx. case_match; [by apply keeps_pure|by apply keeps_put|by apply keeps_pure]. Qed.
Lemma is_get_hook : keeps I (get_hook : K hook).
Proof. apply keeps_get. intros x _. case_match; by apply keeps_pure. Qed.
Lemma is_get_ctx : keeps I (get_ctx : K ctx).
Proof. apply keeps_get. intros x _. case_match; by apply keeps_pure. Qed.
Lemma is_jni c : keeps I (jni_ c : K reply).
Proof. apply keeps_syscall. Qed.
#[local] Hint Resolve is_daemon is_lk is_upd_hook is_get_hook is_get_ctx is_jni : keeps.
Ltac stable := solve [done | by apply stable_flags | by apply stable_info | by apply stable_process | by apply stable_args
  | by apply stable_fds].

Lemma is_allow fd : keeps I (allow fd : K unit).
Proof. apply is_upd. intros c Hc. case_match; stable. Qed.
Lemma is_allow_all fds : keeps I (allow_all fds : K unit).
Proof. induction fds as [|fd fds IH]; cbn [allow_all]; pose proof is_allow; keeps_tac. Qed.

Lemma is_each_fd n dir visit : (forall fd, keeps I (visit fd : K unit)) -> keeps I (each_fd n dir visit : K unit).
Proof.
  intros Hv. assert (Hd : forall n buf bpos nread, keeps I (each_dirent n buf bpos nread visit : K unit)).
  { induction n0 as [|m IH]; intros; cbn [each_dirent]; keeps_tac. }
  induction n as [|n IH]; cbn [each_fd]; keeps_tac.
Qed.

Lemma is_sanitize : keeps I (sanitize_fds fuel : K unit).
Proof.
  unfold sanitize_fds, is_child, can_exempt_fd, keep_exempted, update_fd_array. pose proof is_allow_all.
  keeps_tac; try (apply is_upd; intros; case_match; stable).
  all: apply is_each_fd; intros fd; unfold close_forbidden; keeps_tac.
Qed.

Lemma is_read_process : keeps I (read_process : K unit).
Proof. unfold read_process, app. keeps_tac. apply is_upd. intros; stable. Qed.

Lemma is_unmount : keeps I (unmount_zygote fuel : K unit).
Proof.
  unfold unmount_zygote, app.
  assert (Hc : forall f, keeps I (check_zygote_traces f : K (list mount_info))).
  { intros f. unfold check_zygote_traces, parse_mount_info. keeps_tac. }
  assert (Hd : forall l, keeps I (detach_traces l : K (list mount_info))).
  { induction l as [|t l IH]; cbn [detach_traces]; keeps_tac. }
  keeps_tac. apply is_upd. intros; stable.
Qed.
End Parent.

Section ParentTheorem.
Context {W : Type} `{!World W} `{!Regex} `{!Lsplt} `{!ModuleCode} `{!HashOrder} `{!StdSort}.
Context (fuel : nat) (a : arch) (interposed : list Z).
Abbreviation K := (M W zs).
Abbreviation no_modules := (ctx_is (fun c => modules c = [])).
Abbreviation a_child := (ctx_is (fun c => pid c <= 0)).

Lemma keeps_fossil (I : zs -> Prop) p q anchor :
  (forall m x, I x -> I (put_mem m x)) -> keeps I (spoof_zygote_fossil p q anchor : K unit).
Proof.
  intros Hmem. unfold spoof_zygote_fossil, Fossil.find, parseMountInfo, cleanMemory, writeToMemory.
  assert (Hs : forall x bs, keeps I (store x bs : K unit)).
  { intros x bs. unfold store. apply keeps_get. intros y Hy. case_match; [|by apply keeps_pure]. apply keeps_modify. auto. }
  assert (Hf : forall n x, keeps I (find_from n x q : K MountArgv)).
  { induction n as [|n IH]; intros x; cbn [find_from]; [by apply keeps_pure|].
    apply keeps_bind; [apply keeps_pure, reads_parse|]. intros f. case_match; [by apply keeps_pure|apply IH]. }
  keeps_tac.
Qed.

Lemma fork_no_modules : keeps no_modules (fork_pre fuel : K unit).
Proof.
  unfold fork_pre, sigmask, is_child.
  assert (Hu : forall f, (forall c, modules c = [] -> modules (f c) = []) -> keeps no_modules (upd_ctx f : K unit)) by apply is_upd.
  assert (Hr : forall dir fd, keeps no_modules (record_fd dir fd : K unit)).
  { intros dir fd. unfold record_fd. pose proof (is_get_ctx (W := W) (fun c => modules c = [])).
    pose proof (is_allow (W := W) (fun c => modules c = [])). keeps_tac. }
  assert (He : forall dir, keeps no_modules (each_fd fuel dir (record_fd dir) : K unit)).
  { intros dir. apply is_each_fd. apply Hr. }
  pose proof (is_get_ctx (W := W) (fun c => modules c = [])). keeps_tac; by apply Hu.
Qed.

Lemma specialize_child : keeps a_child (app_specialize_pre fuel a interposed : K unit)
  /\ keeps a_child (server_specialize_pre fuel a interposed : K unit).
Proof.
  assert (Hr : keeps a_child (run_modules_pre fuel a interposed : K unit)).
  { apply keeps_run_pre; [| |done|done].
    - intros x y (c & Ec & Hp) (_ & _ & Ht). rewrite Ec in Ht. destruct (z_ctx y) as [c'|] eqn:E; [|done]. exists c'.
      split; [done|]. destruct Ht as (_ & _ & -> & _). done.
    - intros x c ms (c' & Ec & Hp) E. rewrite Ec in E. injection E as <-. by eexists. }
  assert (Hd : forall A (m : M W daemon_state A), keeps a_child (in_daemon m)) by (intros; apply is_daemon).
  pose proof (is_get_ctx (W := W) (fun c => pid c <= 0)). pose proof (is_jni (W := W) (fun c => pid c <= 0)).
  split; [|unfold server_specialize_pre; keeps_tac].
  unfold app_specialize_pre, app, effective_uid, skip_daemon. keeps_tac; apply is_upd; intros c Hc; try done.
  - by case_match.
  - destruct (process c) as [[? ?]|]; [|done]. by case_match.
Qed.

(** No module was loaded, unless in the child or after a fork that failed. *)
Definition prepared (_ : unit) (s : st W zs) : Prop :=
  exists c, z_ctx (st_s s) = Some c /\ (modules c = [] \/ pid c = 0 \/ pid c < 0).

Lemma prepared_seq {A} (m : K A) (k : A -> K unit) (s : st W zs) :
  keeps no_modules m -> (forall v s1, no_modules (st_s s1) -> wp (k v) (on_ret prepared) s1) ->
  no_modules (st_s s) -> wp (m ≫= k) (on_ret prepared) s.
Proof.
  intros Hm Hk Hn. wstep. eapply wp_mono; [by apply Hm|]. intros [v| | |] s1 N1; cbn [wp_cont on_ret]; [by apply Hk|done..].
Qed.

(** What follows the fork. *)
Lemma prepared_fork (body : K unit) (s : st W zs) : keeps a_child body -> no_modules (st_s s) ->
  wp (child ← is_child; (if child : bool then body else mret tt);; sanitize_fds fuel) (on_ret prepared) s.
Proof.
  intros Hb Hn. pose proof Hn as (c & E & Hm). unfold is_child, get_ctx. wrun. rewrite E. wrun.
  destruct (Z.leb_spec (pid c) 0) as [Hp|Hp].
  - eapply wp_mono; [apply Hb; by exists c|]. intros [[]| | |] s2 N2; cbn [wp_cont on_ret]; [|done..].
    eapply wp_mono; [apply is_sanitize, N2; apply _|]. intros [[]| | |] s3 (c3 & E3 & Hp3); cbn [on_ret]; [|done..].
    exists c3. split; [done|]. lia.
  - wrun. eapply wp_mono; [apply is_sanitize, Hn; apply _|]. intros [[]| | |] s3 (c3 & E3 & Hm3); cbn [on_ret]; [|done..].
    exists c3. auto.
Qed.

End ParentTheorem.

(** ** Examples *)

#[local] Existing Instances demo_regex demo_lsplt demo_code id_order.
#[local] Instance demo_symbols : Symbols :=
  {| new_fn _ := 0x5000; old_var _ := 0x6000; row_fn i := 0x7000 + Z.of_nat i |}.

(** A runtime that forks, unshares its mounts and forks again. *)
Definition demo_runtime : runtime_prog :=
  RStep RFork (fun _ => RStep (RUnshare CLONE_NEWNS) (fun _ => RStep RFork (fun _ => RDone))).
Definition demo_hook : hook :=
  set_plt_backup [(8, 77, B "open", 0x910)] (set_should_unmap true (Hook_mk [] 0x4000 0x2000 false false false false 0 0 0 api_maps [] [])).

Lemma fork_happens_once_witness :
  forked 0 api_zs
  /\ run_runtime 4 demo_runtime api_state = run_runtime 4 (answer_forks 0 demo_runtime) api_state
  /\ (run_runtime 4 demo_runtime api_state).1 = Ret tt.
Proof.
  assert (Hf : forked 0 api_zs) by (split; [reflexivity|by exists api_ctx]).
  split; [exact Hf|]. split; [|vm_compute; reflexivity].
  exact (fork_happens_once 4 0 demo_runtime api_state ltac:(lia) Hf).
Defined.

Definition leaving (commit : Z) : st script zs :=
  St [Reply 0 0 [] []; Reply 9 0 [] []; Reply 9 0 [] []; Reply 1 0 [] []; Reply commit 0 [] []] [] 0
    (zset_olds {[0x910 := 0xabc0]} (zset_hook (Live demo_hook) api_zs)).

Lemma unload_exact_witness :
  exists o s', new_pthread_attr_setstacksize 1 2 (leaving 1) = (o, s')
    /\ o = Ret 0 /\ z_hook (st_s s') = Freed
    /\ reverse (st_log s').*1 = [CSetStackSize 1 2; CGettid; CGetpid; CRegisterHook 8 77 (B "open") 0xabc0 0; CCommitHook true;
                                 CMunmap 0x4000 0x2000]
    /\ exists r t p evs u, reverse evs.*1 = restores {[0x910 := 0xabc0]} (plt_backup demo_hook) ++ [CCommitHook true]
         /\ st_log s' = (CMunmap 0x4000 0x2000, u) :: evs ++ [(CGetpid, p); (CGettid, t); (CSetStackSize 1 2, r)].
Proof.
  destruct (new_pthread_attr_setstacksize 1 2 (leaving 1)) as [o s'] eqn:E. exists o, s'. split; [reflexivity|].
  pose proof (unload_exact 1 2 demo_hook (leaving 1) eq_refl) as Hx. unfold wp in Hx. rewrite E in Hx.
  vm_compute in E. injection E as <- <-. split; [reflexivity|]. split; [reflexivity|]. split; [vm_compute; reflexivity|].
  destruct Hx as (r & t & p & Hx). cbn [fst snd st_log] in Hx. exists r, t, p.
  destruct (negb (r_ret t =? r_ret p)); [exfalso; destruct Hx as (_ & Hl & _); discriminate Hl|].
  destruct Hx as (evs & Er & Hx). destruct (forallb accepted evs); [|exfalso; destruct Hx as (_ & Hl & _)].
  - destruct Hx as (spoof & Hn & _ & u & _ & Hl). destruct (Hn eq_refl) as [-> _]. exists evs, u. split; [exact Er|exact Hl].
  - apply (f_equal length) in Er, Hl. rewrite length_reverse, length_fmap in Er. rewrite length_app in Hl. cbn in Er, Hl. lia.
Defined.

Lemma config_roundtrip_witness :
  parse_props (concat (print_line <$> [Comment [] (B " keys"); Pair (B "  ") (B "ro.a b") (B "x=y") (B " ");
                                       Pair [] (B "k") (B "1") []; Pair [] (B "k") (B "2") []]))
  = {[B "k" := B "2"; B "ro.a b" := B "x=y"]}.
Proof.
  rewrite config_roundtrip.
  - apply (bool_decide_unpack _). vm_compute. exact I.
  - repeat (apply Forall_cons; split); [..|apply Forall_nil; exact I]; cbn [line_ok];
      repeat match goal with
      | |- _ /\ _ => split
      | |- blank _ => reflexivity
      | |- _ ∉ _ => apply (bool_decide_unpack _); vm_compute; exact I
      | |- forall c, _ = Some c -> _ => intros c Hc; vm_compute in Hc; injection Hc as <-
      | |- _ => done
      end.
Defined.

