(* ===== verification/ElfUtil.v ===== *)
(** The second ELF reader (loader/src/common/elf_util.cpp, include/elf_util.h):
    it reads a library's file, its mini debug information and its loaded image
    to resolve symbols for Zygisk Next modules; also its reader of
    /proc/self/maps and its CRC.

    The lzma decoder is a vendored library: each of its calls is an event that
    answers with its return code, the bytes it stored and the input it has
    consumed. LP64 targets. *)
From S2P Require Import Prelude Sys Text ProcUtils Mem Linker ElfParser.
Open Scope Z_scope.

(** ** CRC *)

Definition lnot32 (x : Z) : Z := Z.lxor x (2 ^ 32 - 1).

(** One round of the inner loop. *)
Definition crc_bit (crc : Z) : Z :=
  let mask := u32 (0 - Z.land crc 1) in
  Z.lxor (Z.shiftr crc 1) (Z.land 0xedb88320 mask).

Definition crc_byte (crc b : Z) : Z := Nat.iter 8 crc_bit (Z.lxor crc b).

Definition xz_crc32 (buf : list Z) (crc : Z) : Z := lnot32 (fold_left crc_byte buf (lnot32 crc)).

(** ** Data *)

Definition kMaxGnuDebugDataSize : Z := 32 * 1024 * 1024.
Definition kXzMagic : list Z := [0xfd; 0x37; 0x7a; 0x58; 0x5a; 0x00].
Definition ELFMAG : list Z := [0x7f; 0x45; 0x4c; 0x46].
Definition XZ_OK : Z := 0.
Definition XZ_STREAM_END : Z := 1.
Definition XZ_UNSUPPORTED_CHECK : Z := 2.
Definition SHT_PROGBITS : Z := 1.
Definition ET_DYN : Z := 3.
Definition DT_STRSZ : Z := 10.
Definition sizeof_Sym : Z := 24.
Definition sizeof_Ehdr : Z := 64.

Record SymbolInfo := Sym_mk { y_name_ : list Z; y_addr : Z; y_size_ : Z }.

Record MapEntry := Entry {
  me_start : Z; me_end : Z; me_offset : Z; me_dev : Z; me_inode : Z; me_perms : Z; me_private : bool; me_path : list Z }.

(** znn::ElfImage; [debugdata_] is [None] while debugdata_ehdr_ is null. *)
Record znImage := ZnImage {
  path_ : list Z; base_ : Z; valid_ : bool; is_dyn_ : bool; file_ : Z; file_size_ : Z; section_names_ : Z;
  debugdata_ : option (list Z); parsed_ : bool; symbols_ : list SymbolInfo }.

Definition isElf (bytes : list Z) (size : Z) : bool := (5 <=? size) && beq (take 4 bytes) ELFMAG.

(** ** Reading /proc/self/maps *)

(** "%lx-%lx %7s %lx %x:%x %lu %511[^\n]"; the path may be missing. *)
Definition parse_map_line (line : list Z) : option MapEntry :=
  '(start, s) ← scan_lx line;
  s ← scan_char 45 s;
  '(end_, s) ← scan_lx s;
  '(perm, s) ← scan_word 7 s;
  '(off, s) ← scan_lx s;
  '(dev_major, s) ← scan_x s;
  s ← scan_char 58 s;
  '(dev_minor, s) ← scan_x s;
  '(inode, s) ← scan_lu s;
  let mpath := take 511 (take_while (fun c => negb (c =? NL)) (drop_while isspace s)) in
  let at_ i := nth i perm 0 in
  let perms := Z.lor (Z.lor (if at_ 0%nat =? 114 then PROT_READ else 0)
                            (if at_ 1%nat =? 119 then PROT_WRITE else 0))
                     (if at_ 2%nat =? 120 then PROT_EXEC else 0) in
  Some (Entry start end_ off (makedev dev_major dev_minor) inode perms (at_ 3%nat =? 112) mpath).

Definition parse_maps_text (contents : list Z) : list MapEntry :=
  omap (fun l => parse_map_line (c_str l)) (getlines contents).

(** The part behind the last slash. *)
Definition base_name (path : list Z) : list Z := rev (take_while (fun c => negb (c =? 47)) (rev path)).

Definition map_matches (name : list Z) (m : MapEntry) : bool :=
  match me_path m with
  | [] => false
  | c :: _ =>
      if c =? 91 then false
      else if bool_decide (47 ∈ name) then beq (me_path m) name else beq (base_name (me_path m)) name
  end.

(** A view of the whole file, as an mmap of it makes. *)
Definition whole_file (whole_size : Z) (m : MapEntry) : bool :=
  let span := u64 (me_end m - me_start m) in
  negb (whole_size =? 0) && (whole_size <=? span) && (span - whole_size <? 4096).

Fixpoint findLibraryBaseInMaps (maps : list MapEntry) (name : list Z) (whole_size : Z) : Z :=
  match maps with
  | [] => 0
  | m :: maps' =>
      if negb (map_matches name m) then findLibraryBaseInMaps maps' name whole_size
      else if whole_file whole_size m then findLibraryBaseInMaps maps' name whole_size
      else if me_offset m <=? me_start m then me_start m - me_offset m
      else findLibraryBaseInMaps maps' name whole_size
  end.

Section Ops.
Context {W : Type} `{!World W} {S : Type} `{!HasMem S} (fuel : nat).
Abbreviation K := (M W S).

Definition parseMapsPath (path : list Z) : K (list MapEntry) :=
  r ← syscall (CFile path); mret (if r_ret r =? 0 then [] else parse_maps_text (r_data r)).
Definition parseMaps (pid : list Z) : K (list MapEntry) := parseMapsPath (B "/proc/" ++ pid ++ B "/maps").

Definition resolveMapPath (name : list Z) : K (list Z) :=
  maps ← parseMaps (B "self");
  mret (match List.find (map_matches name) maps with Some m => me_path m | None => [] end).

Definition findLibraryBase (name : list Z) (whole_size : Z) : K Z :=
  maps ← parseMaps (B "self"); mret (findLibraryBaseInMaps maps name whole_size).

(** ** Decompression *)

(** The loop around xz_dec_run: [size] bytes of input, room for [cap], [out]
    stored so far. *)
Fixpoint xz_loop (n : nat) (size cap : Z) (out : list Z) : K (option (list Z)) :=
  match n with
  | O => out_of_fuel
  | Datatypes.S n' =>
      r ← syscall (CXzRun cap);
      let out := out ++ take (Z.to_nat (cap - Z.of_nat (length out))) (r_data r) in
      if r_ret r =? XZ_STREAM_END then mret (Some out)
      else if r_ret r =? XZ_UNSUPPORTED_CHECK then xz_loop n' size cap out
      else if negb (r_ret r =? XZ_OK) then mret None
      else if Z.of_nat (length out) =? cap then
        if kMaxGnuDebugDataSize <=? cap then mret None
        else xz_loop n' size (Z.min (cap * 2) kMaxGnuDebugDataSize) out
      else if nth 0 (r_aux r) 0 =? size then mret None
      else xz_loop n' size cap out
  end.

Definition decompress_xz (data size : Z) : K (option (list Z)) :=
  if (data =? 0) || (size <? Z.of_nat (length kXzMagic)) then mret None
  else
    magic ← load (length kXzMagic) data;
    if negb (beq magic kXzMagic) then mret None
    else
      r ← syscall (CXzInit kMaxGnuDebugDataSize);
      if r_ret r =? 0 then mret None else xz_loop fuel size (64 * 1024) [].

(** ** Symbols *)

(** Reads [n] bytes at an offset: of the mapped file, or of a vector, behind
    whose end there is nothing. *)
Definition reader : Type := nat -> Z -> K (list Z).
Definition file_reader (file : Z) : reader := fun n off => load n (file + off).
Definition vec_reader (bytes : list Z) : reader := fun n off =>
  if (0 <=? off) && (off + Z.of_nat n <=? Z.of_nat (length bytes)) then mret (take n (drop (Z.to_nat off) bytes)) else crash.

Definition rd_u (rd : reader) (n : nat) (off : Z) : K Z := bs ← rd n off; mret (le_Z bs).

Fixpoint rd_cstr (rd : reader) (n : nat) (off : Z) : K (list Z) :=
  match n with
  | O => out_of_fuel
  | Datatypes.S n' =>
      b ← rd_u rd 1 off;
      if b =? 0 then mret [] else s ← rd_cstr rd n' (off + 1); mret (b :: s)
  end.

(** The symbols among the [n] entries at [sym] of a table whose strings are
    the [str_size] bytes at [str]. *)
Fixpoint parseSymbols (rd : reader) (str str_size : Z) (n : nat) (sym bias : Z) : K (list SymbolInfo) :=
  match n with
  | O => mret []
  | Datatypes.S n' =>
      let rest := parseSymbols rd str str_size n' (sym + sizeof_Sym) bias in
      st_shndx ← rd_u rd 2 (sym + 6);
      if st_shndx =? 0 then rest
      else
        st_name ← rd_u rd 4 sym;
        if st_name =? 0 then rest
        else if str_size <=? st_name then rest
        else
          name ← rd_cstr rd fuel (str + st_name);
          match name with
          | [] => rest
          | _ =>
              st_value ← rd_u rd 8 (sym + 8);
              st_size ← rd_u rd 8 (sym + 16);
              l ← rest;
              mret (Sym_mk name (u64 (bias + st_value)) st_size :: l)
          end
  end.

Definition parseGnuDebugData (data size : Z) : K (option (list Z)) :=
  o ← decompress_xz data size;
  mret (match o with
        | Some out => if isElf out (Z.of_nat (length out)) then Some out else None
        | None => None
        end).

(** A section header's symbols: those of the string table it is linked to. *)
Definition section_symbols (rd : reader) (shdrs shnum limit sh bias : Z) : K (list SymbolInfo) :=
  sh_link ← rd_u rd 4 (sh + 40);
  if shnum <=? sh_link then mret []
  else
    let str_sh := shdrs + sh_link * sizeof_Shdr in
    str_offset ← rd_u rd 8 (str_sh + 24);
    str_size ← rd_u rd 8 (str_sh + 32);
    if (0 <=? limit) && (limit <? u64 (str_offset + str_size)) then mret []
    else
      sh_offset ← rd_u rd 8 (sh + 24);
      entsize ← rd_u rd 8 (sh + 56);
      sh_size ← rd_u rd 8 (sh + 32);
      let count := if entsize =? 0 then 0 else sh_size / entsize in
      parseSymbols rd str_offset str_size (Z.to_nat count) sh_offset bias.

(** The section headers of the file from the [i]-th on: symbols, and the mini
    debug information if one has it. *)
Fixpoint file_sections (n : nat) (img : znImage) (shdrs shnum shstr_size i bias : Z) (debug : option (list Z))
  : K (list SymbolInfo * option (list Z)) :=
  match n with
  | O => mret ([], debug)
  | Datatypes.S n' =>
      let rd := file_reader (file_ img) in
      let sh := shdrs + i * sizeof_Shdr in
      sh_type ← rd_u rd 4 (sh + 4);
      if (sh_type =? SHT_SYMTAB) || (sh_type =? SHT_DYNSYM) then
        l ← section_symbols rd shdrs shnum (file_size_ img) sh bias;
        '(rest, debug) ← file_sections n' img shdrs shnum shstr_size (i + 1) bias debug;
        mret (l ++ rest, debug)
      else
        is_debug ← (if sh_type =? SHT_PROGBITS then
                      sh_name ← rd_u rd 4 sh;
                      if (section_names_ img =? 0) || (shstr_size <=? sh_name) then mret false
                      else str_eq (section_names_ img + sh_name) (B ".gnu_debugdata")
                    else mret false);
        sh_offset ← (if is_debug : bool then rd_u rd 8 (sh + 24) else mret 0);
        sh_size ← (if is_debug : bool then rd_u rd 8 (sh + 32) else mret 0);
        new ← (if is_debug && (u64 (sh_offset + sh_size) <=? file_size_ img)
               then parseGnuDebugData (file_ img + sh_offset) sh_size else mret None);
        file_sections n' img shdrs shnum shstr_size (i + 1) bias (match new with Some _ => new | None => debug end)
  end.

Fixpoint debug_sections (n : nat) (rd : reader) (shdrs shnum i bias : Z) : K (list SymbolInfo) :=
  match n with
  | O => mret []
  | Datatypes.S n' =>
      let sh := shdrs + i * sizeof_Shdr in
      sh_type ← rd_u rd 4 (sh + 4);
      l ← (if sh_type =? SHT_SYMTAB then section_symbols rd shdrs shnum (-1) sh bias else mret []);
      rest ← debug_sections n' rd shdrs shnum (i + 1) bias;
      mret (l ++ rest)
  end.

(** The first symbol of each address. *)
Fixpoint unique_from (seen : gset Z) (l : list SymbolInfo) : list SymbolInfo :=
  match l with
  | [] => []
  | s :: l' => if bool_decide (y_addr s ∈ seen) then unique_from seen l'
               else s :: unique_from ({[y_addr s]} ∪ seen) l'
  end.

(** The symbols of the file, those of its mini debug information behind them,
    and that information. *)
Definition read_symbols (img : znImage) : K (list SymbolInfo * option (list Z)) :=
  let bias := if is_dyn_ img then base_ img else 0 in
  let rd := file_reader (file_ img) in
  e_shoff ← rd_u rd 8 40;
  e_shnum ← rd_u rd 2 60;
  e_shstrndx ← rd_u rd 2 62;
  shstr_size ← (if negb (e_shstrndx =? 0) && (e_shstrndx <? e_shnum)
                then rd_u rd 8 (e_shoff + e_shstrndx * sizeof_Shdr + 32) else mret 0);
  '(l, debug) ← file_sections (Z.to_nat e_shnum) img e_shoff e_shnum shstr_size 0 bias (debugdata_ img);
  l' ← (match debug with
        | Some bytes =>
            let rd := vec_reader bytes in
            d_shoff ← rd_u rd 8 40;
            d_shnum ← rd_u rd 2 60;
            debug_sections (Z.to_nat d_shnum) rd d_shoff d_shnum 0 bias
        | None => mret []
        end);
  mret (l ++ l', debug).

Definition ensureParsed (img : znImage) : K znImage :=
  if parsed_ img then mret img
  else
    '(l, debug) ← read_symbols img;
    mret (ZnImage (path_ img) (base_ img) (valid_ img) (is_dyn_ img) (file_ img) (file_size_ img) (section_names_ img)
            debug true (unique_from ∅ (symbols_ img ++ l))).

(** The image, with its cache filled, and the symbol. *)
Definition lookup (img : znImage) (name : list Z) (prefix : bool) : K (znImage * option SymbolInfo) :=
  img ← ensureParsed img;
  mret (img, List.find (fun s => if prefix then starts_with (y_name_ s) name else beq (y_name_ s) name) (symbols_ img)).

Fixpoint each_symbol (cb : SymbolInfo -> K bool) (l : list SymbolInfo) : K unit :=
  match l with
  | [] => mret tt
  | s :: l' => go_on ← cb s; if go_on : bool then each_symbol cb l' else mret tt
  end.

Definition forEach (img : znImage) (cb : SymbolInfo -> K bool) : K znImage :=
  img ← ensureParsed img; each_symbol cb (symbols_ img);; mret img.

(** ** Construction *)

(** The descriptor of the file and its path, which may be that of a mapping. *)
Definition open_library (path : list Z) : K (Z * list Z) :=
  r ← syscall (COpen path O_RDONLY_CLOEXEC 0);
  if 0 <=? r_ret r then mret (r_ret r, path)
  else
    resolved ← resolveMapPath path;
    match resolved with
    | [] => mret (-1, path)
    | _ => r ← syscall (COpen resolved O_RDONLY_CLOEXEC 0); mret (r_ret r, resolved)
    end.

(** The checks of the mapped file; the section names and whether it is valid. *)
Definition check_file (file size base : Z) : K (bool * bool * Z) :=
  let rd := file_reader file in
  magic ← rd 4%nat 0;
  let elf := isElf magic size in
  e_shoff ← (if elf then rd_u rd 8 40 else mret 0);
  e_shnum ← (if elf then rd_u rd 2 60 else mret 0);
  if negb elf || (size <? u64 (e_shoff + e_shnum * sizeof_Shdr)) then mret (false, false, 0)
  else
    e_type ← rd_u rd 2 16;
    let is_dyn := e_type =? ET_DYN in
    if is_dyn && (base =? 0) then mret (false, is_dyn, 0)
    else
      loaded ← (if is_dyn then m ← load 4 base; mret (beq m ELFMAG) else mret true);
      if negb loaded then mret (false, is_dyn, 0)
      else
        e_shstrndx ← rd_u rd 2 62;
        names ← (if negb (e_shstrndx =? 0) && (e_shstrndx <? e_shnum) then
                   let shstr := e_shoff + e_shstrndx * sizeof_Shdr in
                   sh_offset ← rd_u rd 8 (shstr + 24);
                   sh_size ← rd_u rd 8 (shstr + 32);
                   mret (if u64 (sh_offset + sh_size) <=? size then u64 (file + sh_offset) else 0)
                 else mret 0);
        mret (true, is_dyn, names).

Definition new_image (path : list Z) (base : Z) : K znImage :=
  '(fd, path) ← open_library path;
  let failed b file size is_dyn := ZnImage path b false is_dyn file size 0 None false [] in
  if fd <? 0 then mret (failed base 0 0 false)
  else
    st ← syscall (CFstat fd);
    let size := nth 0 (r_aux st) 0 in
    if negb (r_ret st =? 0) || (size <? sizeof_Ehdr) then syscall (CClose fd);; mret (failed base 0 0 false)
    else
      base ← (if base =? 0 then findLibraryBase path size else mret base);
      o ← mmap 0 size PROT_READ MAP_PRIVATE fd 0;
      syscall (CClose fd);;
      match o with
      | None => mret (failed base 0 size false)
      | Some file =>
          '(ok, is_dyn, names) ← check_file file size base;
          mret (if ok : bool then ZnImage path base true is_dyn file size names None false []
                else failed base file size is_dyn)
      end.

Definition delete_image (img : znImage) : K unit :=
  if negb (file_ img =? 0) then munmap (file_ img) (file_size_ img) else mret tt.

(** ** The loaded image *)

(** The address of the first PT_DYNAMIC among [n] program headers; 0 if none. *)
Fixpoint find_dynamic (n : nat) (img ph : Z) : K Z :=
  match n with
  | O => mret 0
  | Datatypes.S n' =>
      p_type ← load_u32 ph;
      if p_type =? PT_DYNAMIC then p_vaddr ← load_u64 (ph + 16); mret (u64 (img + p_vaddr))
      else find_dynamic n' img (ph + sizeof_Phdr)
  end.

(** Symbol table, string table and its size. *)
Fixpoint read_dynamic (n : nat) (img d : Z) (tables : Z * Z * Z) : K (Z * Z * Z) :=
  match n with
  | O => out_of_fuel
  | Datatypes.S n' =>
      d_tag ← load_u64 d;
      if d_tag =? 0 then mret tables
      else
        let '(symtab, strtab, strsz) := tables in
        tables ← (if d_tag =? DT_SYMTAB then p ← load_u64 (d + 8); mret (u64 (img + p), strtab, strsz)
                  else if d_tag =? DT_STRTAB then p ← load_u64 (d + 8); mret (symtab, u64 (img + p), strsz)
                  else if d_tag =? DT_STRSZ then n ← load_u64 (d + 8); mret (symtab, strtab, n)
                  else mret tables);
        read_dynamic n' img (d + 16) tables
  end.

(** How many symbols fit before the string table and the end of the mapping. *)
Definition symbol_limit (maps : list MapEntry) (symtab strtab : Z) : Z :=
  let max_syms := match List.find (fun m => (me_start m <=? symtab) && (symtab <? me_end m)) maps with
                  | Some m => (me_end m - symtab) / sizeof_Sym
                  | None => 0
                  end in
  if symtab <? strtab then Z.min max_syms ((strtab - symtab) / sizeof_Sym) else max_syms.

Fixpoint scan_symbols (n : nat) (symtab strtab strsz i : Z) (name : list Z) (base : Z) : K (option (Z * Z)) :=
  match n with
  | O => mret None
  | Datatypes.S n' =>
      let s := symtab + i * sizeof_Sym in
      st_name ← load_u32 s;
      same ← (if (st_name =? 0) || (strsz <=? st_name) then mret false else str_eq (strtab + st_name) name);
      if same : bool then
        st_size ← load_u64 (s + 16);
        st_value ← load_u64 (s + 8);
        mret (Some (u64 (base + st_value), st_size))
      else scan_symbols n' symtab strtab strsz (i + 1) name base
  end.

(** The address, 0 if not found, and the size if it was. *)
Definition runtimeLookup (img : znImage) (name : list Z) : K (option (Z * Z)) :=
  let base := base_ img in
  if base =? 0 then mret None
  else
    magic ← load 4 base;
    if negb (beq magic ELFMAG) then mret None
    else
      class_ ← load_u8 (base + 4);
      if negb (class_ =? 2) then mret None
      else
        data ← load_u8 (base + 5);
        if negb (data =? 1) then mret None
        else
          e_phoff ← load_u64 (base + 32);
          e_phnum ← load_u16 (base + 56);
          dyn ← find_dynamic (Z.to_nat e_phnum) base (base + e_phoff);
          if dyn =? 0 then mret None
          else
            '(symtab, strtab, strsz) ← read_dynamic fuel base dyn (0, 0, 0);
            if (symtab =? 0) || (strtab =? 0) || (strsz =? 0) then mret None
            else
              maps ← parseMaps (B "self");
              let max_syms := symbol_limit maps symtab strtab in
              scan_symbols (Z.to_nat (max_syms - 1)) symtab strtab strsz 1 name base.

Definition resolveLibrarySymbol (lib_name symbol : list Z) : K (option (Z * Z)) :=
  img ← new_image lib_name 0;
  if negb (valid_ img) then delete_image img;; mret None
  else
    '(img, s) ← lookup img symbol false;
    delete_image img;;
    mret ((fun s => (y_addr s, y_size_ s)) <$> s).
End Ops.

(** ** The CRC *)

Definition word32 (x : Z) : Prop := 0 <= x < 2 ^ 32.

Lemma crc_bit_bits r k : word32 r -> 0 <= k < 32 ->
  Z.testbit (crc_bit r) k = xorb (Z.testbit r (k + 1)) (Z.testbit r 0 && Z.testbit 0xedb88320 k).
Proof.
  intros Hr Hk. unfold crc_bit. rewrite Z.lxor_spec, Z.shiftr_spec, Z.land_spec by lia. f_equal.
  change 1 with (Z.ones 1). rewrite Z.land_ones by lia. change (2 ^ 1) with 2. rewrite <- Z.bit0_mod.
  destruct (Z.testbit r 0); cbn [Z.b2z andb].
  - replace (u32 (0 - 1)) with (Z.ones 32) by done. rewrite Z.ones_spec_low by lia. apply andb_true_r.
  - replace (u32 (0 - 0)) with 0 by done. by rewrite Z.bits_0, andb_false_r.
Qed.

Lemma word32_bits x : 0 <= x -> (forall k, 32 <= k -> Z.testbit x k = false) -> word32 x.
Proof.
  intros Hx Hb. split; [done|]. destruct (Z.eq_dec x 0) as [->|Hne]; [lia|].
  apply Z.log2_lt_pow2; [lia|]. destruct (Z.lt_ge_cases (Z.log2 x) 32) as [|Hge]; [done|].
  specialize (Hb _ Hge). rewrite Z.bit_log2 in Hb by lia. done.
Qed.

Lemma word32_high x k : word32 x -> 32 <= k -> Z.testbit x k = false.
Proof.
  intros [H0 H1] Hk. destruct (Z.eq_dec x 0) as [->|Hne]; [apply Z.bits_0|]. apply Z.bits_above_log2; [done|].
  apply Z.log2_lt_pow2 in H1; lia.
Qed.

Lemma word32_lxor x y : word32 x -> word32 y -> word32 (Z.lxor x y).
Proof.
  intros Hx Hy. apply word32_bits; [apply Z.lxor_nonneg; destruct Hx, Hy; tauto|]. intros k Hk.
  by rewrite Z.lxor_spec, !word32_high.
Qed.

Lemma crc_bit_word r : word32 r -> word32 (crc_bit r).
Proof.
  intros Hr. unfold crc_bit. apply word32_lxor.
  - apply word32_bits; [apply Z.shiftr_nonneg, Hr|]. intros k Hk. rewrite Z.shiftr_spec by lia. apply word32_high; [done|lia].
  - apply word32_bits; [apply Z.land_nonneg; left; lia|]. intros k Hk. rewrite Z.land_spec. by rewrite (word32_high 0xedb88320) by (unfold word32; lia).
Qed.

(** The polynomial has its highest coefficient, so a round can be undone. *)
Lemma crc_bit_inj x y : word32 x -> word32 y -> crc_bit x = crc_bit y -> x = y.
Proof.
  intros Hx Hy E.
  assert (Hb : forall k, 0 <= k < 32 -> xorb (Z.testbit x (k + 1)) (Z.testbit x 0 && Z.testbit 0xedb88320 k)
                         = xorb (Z.testbit y (k + 1)) (Z.testbit y 0 && Z.testbit 0xedb88320 k)).
  { intros k Hk. by rewrite <- !crc_bit_bits, E. }
  assert (H0 : Z.testbit x 0 = Z.testbit y 0).
  { specialize (Hb 31 ltac:(lia)). change (31 + 1) with 32 in Hb. rewrite (word32_high x 32), (word32_high y 32) in Hb by (done || lia).
    destruct (Z.testbit x 0), (Z.testbit y 0); vm_compute in Hb; congruence. }
  apply Z.bits_inj'. intros k Hk. destruct (Z.eq_dec k 0) as [->|Hne]; [exact H0|].
  destruct (Z.lt_ge_cases k 33) as [Hlt|Hge]; [|by rewrite !word32_high by (done || lia)].
  specialize (Hb (k - 1) ltac:(lia)). replace (k - 1 + 1) with k in Hb by lia. rewrite H0 in Hb.
  destruct (Z.testbit x k), (Z.testbit y k), (Z.testbit y 0 && _); done.
Qed.

Lemma crc_rounds n : forall x, word32 x -> word32 (Nat.iter n crc_bit x)
  /\ forall y, word32 y -> Nat.iter n crc_bit x = Nat.iter n crc_bit y -> x = y.
Proof.
  induction n as [|n IH]; intros x Hx; [done|]. cbn [Nat.iter]. destruct (IH x Hx) as [Hw Hi]. split; [by apply crc_bit_word|].
  intros y Hy E. apply Hi; [done|]. apply crc_bit_inj; [done|by apply IH|exact E].
Qed.

Definition octet (b : Z) : Prop := 0 <= b < 256.

Lemma octet_word b : octet b -> word32 b.
Proof. unfold octet, word32. lia. Qed.

Lemma lxor_inj_r a x y : Z.lxor x a = Z.lxor y a -> x = y.
Proof. intros E. apply (f_equal (fun z => Z.lxor z a)) in E. by rewrite !Z.lxor_assoc, Z.lxor_nilpotent, !Z.lxor_0_r in E. Qed.

Lemma crc_byte_rounds x b : crc_byte x b = Nat.iter 8 crc_bit (Z.lxor x b).
Proof. reflexivity. Qed.

(** One byte: a word again, which tells both the word before and the byte. *)
Lemma crc_byte_word x b : word32 x -> octet b -> word32 (crc_byte x b).
Proof. intros Hx Hb. rewrite crc_byte_rounds. apply crc_rounds, word32_lxor; [done|by apply octet_word]. Qed.

Lemma crc_byte_inj x y b c : word32 x -> word32 y -> octet b -> octet c ->
  crc_byte x b = crc_byte y c -> Z.lxor x b = Z.lxor y c.
Proof.
  intros Hx Hy Hb Hc. rewrite !crc_byte_rounds. intros E.
  refine (proj2 (crc_rounds 8 (Z.lxor x b) _) (Z.lxor y c) _ E); apply word32_lxor; auto using octet_word.
Qed.

Lemma fold_left_cons {A C} (f : A -> C -> A) b q x : fold_left f (b :: q) x = fold_left f q (f x b).
Proof. reflexivity. Qed.

Lemma crc_bytes_inj q : Forall octet q -> forall x, word32 x -> word32 (fold_left crc_byte q x)
  /\ forall y, word32 y -> fold_left crc_byte q x = fold_left crc_byte q y -> x = y.
Proof.
  induction 1 as [|b q Hb Hq IH]; intros x Hx; [done|]. rewrite fold_left_cons.
  destruct (IH _ (crc_byte_word x b Hx Hb)) as [Hf Hi]. split; [exact Hf|]. intros y Hy. rewrite fold_left_cons. intros E.
  apply Hi in E; [|by apply crc_byte_word]. apply crc_byte_inj in E; [|done..]. by apply lxor_inj_r in E.
Qed.

Lemma lnot32_word x : word32 x -> word32 (lnot32 x).
Proof. intros Hx. apply word32_lxor; [done|unfold word32; lia]. Qed.

Lemma lnot32_lnot32 x : lnot32 (lnot32 x) = x.
Proof. unfold lnot32. by rewrite Z.lxor_assoc, Z.lxor_nilpotent, Z.lxor_0_r. Qed.

Lemma lnot32_inj x y : lnot32 x = lnot32 y -> x = y.
Proof. apply lxor_inj_r. Qed.

(** The CRC that checks decompressed data: it can be computed piece by piece,
    it is a 32-bit word, and two blocks of the same length that differ within
    one byte never have the same CRC. *)
Theorem crc_detects p q b b' crc :
  Forall octet p -> Forall octet q -> octet b -> octet b' -> word32 crc ->
  xz_crc32 (p ++ q) crc = xz_crc32 q (xz_crc32 p crc)
  /\ word32 (xz_crc32 (p ++ b :: q) crc)
  /\ (xz_crc32 (p ++ b :: q) crc = xz_crc32 (p ++ b' :: q) crc -> b = b').
Proof.
  intros Hp Hq Hb Hb' Hc. unfold xz_crc32. rewrite !fold_left_app, lnot32_lnot32, !fold_left_cons.
  pose proof (proj1 (crc_bytes_inj p Hp _ (lnot32_word _ Hc))) as Hx. generalize dependent (fold_left crc_byte p (lnot32 crc)).
  intros x Hx. pose proof (crc_byte_word x b Hx Hb) as H1. pose proof (crc_byte_word x b' Hx Hb') as H2.
  split; [reflexivity|]. split; [by apply lnot32_word, crc_bytes_inj|].
  intros E%lnot32_inj. apply (proj2 (crc_bytes_inj q Hq _ H1) _ H2) in E. apply crc_byte_inj in E; [|done..].
  rewrite !(Z.lxor_comm x) in E. by apply lxor_inj_r in E.
Qed.

(** The check value of the CRC-32 that .xz files use. *)
Example crc_check : xz_crc32 (B "123456789") 0 = 0xcbf43926.
Proof. vm_compute. reflexivity. Qed.

(** ** Looking a symbol up *)

(** [y] is the [i]-th symbol and the first of its address, which is not among
    [seen]. *)
Definition shown (seen : gset Z) (l : list SymbolInfo) (i : nat) (y : SymbolInfo) : Prop :=
  l !! i = Some y /\ (y_addr y ∉ seen) /\ forall j y', (j < i)%nat -> l !! j = Some y' -> y_addr y' <> y_addr y.

Definition named (name : list Z) (prefix : bool) (y : SymbolInfo) : bool :=
  if prefix then starts_with (y_name_ y) name else beq (y_name_ y) name.

Lemma shown_cons seen x l i y : shown seen (x :: l) (Datatypes.S i) y <-> shown ({[y_addr x]} ∪ seen) l i y.
Proof.
  unfold shown. cbn [lookup list_lookup]. change (list_lookup i l) with (l !! i). rewrite not_elem_of_union, not_elem_of_singleton.
  split.
  - intros (Hi & Hs & Hj). split; [done|]. split; [split; [|done]|].
    + intros E. apply (Hj 0%nat x); [lia|done|done].
    + intros j y' Hlt Hl. by apply (Hj (Datatypes.S j)); [lia|].
  - intros (Hi & [Hne Hs] & Hj). split; [done|]. split; [done|]. intros [|j] y' Hlt Hl; [by injection Hl as <-|].
    apply (Hj j); [lia|done].
Qed.

Lemma find_shown f l : forall seen,
  match List.find f (unique_from seen l) with
  | Some y => exists i, shown seen l i y /\ f y = true /\ forall j y', (j < i)%nat -> shown seen l j y' -> f y' = false
  | None => forall i y, shown seen l i y -> f y = false
  end.
Proof.
  induction l as [|x l IH]; intros seen; cbn [unique_from List.find]; [by intros i y (? & _)|].
  specialize (IH ({[y_addr x]} ∪ seen)). case_bool_decide as Hx.
  - assert (Hu : {[y_addr x]} ∪ seen = seen) by by apply subseteq_union_1_L, singleton_subseteq_l.
    rewrite Hu in IH. destruct (List.find f (unique_from seen l)) as [y|].
    + destruct IH as (i & Hi & Hf & Hj). exists (Datatypes.S i). rewrite shown_cons, Hu. split; [done|]. split; [done|].
      intros [|j] y' Hlt Hs; [destruct Hs as ([= <-] & Hn & _); done|]. rewrite shown_cons, Hu in Hs. apply (Hj j); [lia|done].
    + intros [|i] y Hs; [destruct Hs as ([= <-] & Hn & _); done|]. rewrite shown_cons, Hu in Hs. by apply (IH i).
  - cbn [List.find]. destruct (f x) eqn:Ef.
    + exists 0%nat. split; [|split; [done|]; intros; lia]. split; [done|]. split; [done|]. intros; lia.
    + destruct (List.find f _) as [y|].
      * destruct IH as (i & Hi & Hf & Hj). exists (Datatypes.S i). rewrite shown_cons. split; [done|]. split; [done|].
        intros [|j] y' Hlt Hs; [by destruct Hs as ([= <-] & _)|]. apply shown_cons in Hs. apply (Hj j); [lia|done].
      * intros [|i] y Hs; [by destruct Hs as ([= <-] & _)|]. apply shown_cons in Hs. by apply (IH i).
Qed.

(** The answer to a lookup in the symbols [l], as they were read: the first
    one of that name (or that begins with it) among those whose address no
    earlier symbol has. *)
Definition answers (l : list SymbolInfo) (name : list Z) (prefix : bool) (r : option SymbolInfo) : Prop :=
  match r with
  | Some y => exists i, shown ∅ l i y /\ named name prefix y = true
              /\ forall j y', (j < i)%nat -> shown ∅ l j y' -> named name prefix y' = false
  | None => forall i y, shown ∅ l i y -> named name prefix y = false
  end.

Section Lookup.
Context {W : Type} `{!World W} {S : Type} `{!HasMem S} (fuel : nat).

(** C34. What a lookup finds: with [l] the symbols read from the file and then
    from its mini debug information, the first one that has the name (or
    begins with it), but only among those whose address no earlier symbol
    has; every other name of an address is not found. The symbols are read
    once and kept: every later lookup on the object answers from the same
    symbols, in the same way, makes no call and leaves the object as it is. *)
Theorem lookup_exact img l debug name prefix (s s1 : st W S) :
  parsed_ img = false -> symbols_ img = [] -> read_symbols fuel img s = (Ret (l, debug), s1) ->
  exists img' r, lookup fuel img name prefix s = (Ret (img', r), s1) /\ answers l name prefix r
    /\ forall name' prefix' s2, exists r', lookup fuel img' name' prefix' s2 = (Ret (img', r'), s2)
       /\ answers l name' prefix' r'.
Proof.
  intros Hp Hs E. unfold lookup, ensureParsed. unfold mbind, M_bind. rewrite Hp, E. cbn. rewrite Hs. cbn [app].
  eexists _, _. split; [reflexivity|]. split; [apply find_shown|]. intros. eexists. split; [reflexivity|]. apply find_shown.
Qed.
End Lookup.

(** ** The load address *)

(** The load address of a library: if every mapping of its file is either
    a view of the whole file or a segment loaded at [bias] (it starts at bias
    plus its file offset), and there is such a segment, the address found is
    [bias], whichever segment comes first and wherever the views are. *)
Theorem base_of_segments maps name whole_size bias m0 :
  (forall m, m ∈ maps -> map_matches name m = true ->
     whole_file whole_size m = true \/ 0 <= bias /\ 0 <= me_offset m /\ me_start m = bias + me_offset m) ->
  m0 ∈ maps -> map_matches name m0 = true -> whole_file whole_size m0 = false ->
  findLibraryBaseInMaps maps name whole_size = bias.
Proof.
  induction maps as [|m maps IH]; intros Hall H0 Hm Hw; [by apply elem_of_nil in H0|]. cbn [findLibraryBaseInMaps].
  assert (Htail : map_matches name m = false \/ whole_file whole_size m = true -> findLibraryBaseInMaps maps name whole_size = bias).
  { intros Hx. apply IH; [intros m' Hin; apply Hall; by right| |done|done]. apply elem_of_cons in H0 as [->|H0]; [|done].
    destruct Hx as [Hx|Hx]; congruence. }
  destruct (map_matches name m) eqn:Em; cbn [negb]; [|apply Htail; by left].
  destruct (whole_file whole_size m) eqn:Ew; [apply Htail; by right|].
  destruct (Hall m ltac:(left) Em) as [|(Hb & Ho & E)]; [congruence|]. rewrite E.
  destruct (Z.leb_spec (me_offset m) (bias + me_offset m)); lia.
Qed.

(** ** Decompression is bounded *)

Section Decompress.
Context {W : Type} `{!World W} {S : Type} `{!HasMem S} (fuel : nat).

Lemma xz_loop_bounded n : forall size cap out (s : st W S), 0 <= cap <= kMaxGnuDebugDataSize -> Z.of_nat (length out) <= cap ->
  wp (xz_loop n size cap out) (on_ret (fun o _ => forall bytes, o = Some bytes -> Z.of_nat (length bytes) <= kMaxGnuDebugDataSize)) s.
Proof.
  induction n as [|n IH]; intros size cap out s Hc Ho; cbn [xz_loop]; [by wrun|]. wrun. apply wp_syscall. intros r w e. wrun.
  set (out' := out ++ _).
  assert (Ho' : Z.of_nat (length out') <= cap). { unfold out'. rewrite length_app, length_take. lia. }
  destruct (r_ret r =? XZ_STREAM_END); [wrun; intros bytes [= <-]; lia|].
  destruct (r_ret r =? XZ_UNSUPPORTED_CHECK); [by apply IH|].
  destruct (negb (r_ret r =? XZ_OK)); [by wrun|].
  destruct (Z.of_nat (length out') =? cap); [|destruct (_ =? size); [by wrun|by apply IH]].
  destruct (Z.leb_spec kMaxGnuDebugDataSize cap); [by wrun|]. apply IH; lia.
Qed.

(** Whatever the decoder answers, at most 32 MiB of debug information are
    kept. *)
Theorem debugdata_bounded data size bytes (s s' : st W S) :
  decompress_xz fuel data size s = (Ret (Some bytes), s') -> Z.of_nat (length bytes) <= kMaxGnuDebugDataSize.
Proof.
  assert (Hw : wp (decompress_xz fuel data size)
    (on_ret (fun o _ => forall bytes, o = Some bytes -> Z.of_nat (length bytes) <= kMaxGnuDebugDataSize)) s).
  { unfold decompress_xz. case_match; [by wrun|]. wstep. apply wp_reads; [apply reads_load|].
    intros [magic| | |] _; cbn [wp_cont on_ret]; [|done..]. case_match; [by wrun|]. wrun. apply wp_syscall. intros r w e. wrun.
    case_match; [by wrun|]. apply xz_loop_bounded; [unfold kMaxGnuDebugDataSize; lia|done]. }
  intros E. by eapply (wp_on_ret _ _ _ _ _ Hw E).
Qed.
End Decompress.

(** ** Examples *)

Lemma crc_detects_witness :
  word32 (xz_crc32 (B "ab" ++ 7 :: B "cd") 0) /\ xz_crc32 (B "ab" ++ 7 :: B "cd") 0 <> xz_crc32 (B "ab" ++ 8 :: B "cd") 0.
Proof.
  assert (Hp : Forall octet (B "ab") /\ Forall octet (B "cd")) by (unfold octet; split; repeat constructor; cbn; lia).
  destruct (crc_detects (B "ab") (B "cd") 7 8 0 (proj1 Hp) (proj2 Hp)) as (_ & Hw & Hd); [unfold octet; lia..|unfold word32; lia|].
  split; [exact Hw|]. intros E. apply Hd in E. discriminate E.
Defined.

Definition shdr (type link off size entsize : Z) : list Z :=
  le_bytes 4 0 ++ le_bytes 4 type ++ replicate 16 0 ++ le_bytes 8 off ++ le_bytes 8 size ++ le_bytes 4 link
  ++ replicate 12 0 ++ le_bytes 8 entsize.
Definition symbol (st_name st_shndx value size : Z) : list Z :=
  le_bytes 4 st_name ++ [0x12; 0] ++ le_bytes 2 st_shndx ++ le_bytes 8 value ++ le_bytes 8 size.

(** A file with the symbols memcpy and __memcpy at the same address. *)
Definition alias_file : list Z :=
  ELFMAG ++ [2; 1] ++ replicate 10 0 ++ le_bytes 2 ET_DYN ++ replicate 22 0 ++ le_bytes 8 64 ++ replicate 12 0
  ++ le_bytes 2 3 ++ le_bytes 2 0
  ++ shdr 0 0 0 0 0 ++ shdr SHT_SYMTAB 2 256 48 24 ++ shdr SHT_STRTAB 0 304 17 0
  ++ symbol 1 5 0x100 8 ++ symbol 8 5 0x100 8 ++ [0] ++ B "memcpy" ++ [0] ++ B "__memcpy" ++ [0].
Definition alias_image : znImage := ZnImage (B "/x") 0x40000 true true 0x10000 321 0 None false [].
Definition alias_state : st script mem := St [] [] 0 (map_range 1 321 0x10000 alias_file ∅).
Definition alias_symbols : list SymbolInfo := [Sym_mk (B "memcpy") 0x40100 8; Sym_mk (B "__memcpy") 0x40100 8].

(** The second name of an address is not found, although the file has it. *)
Lemma lookup_exact_witness :
  read_symbols 20 alias_image alias_state = (Ret (alias_symbols, None), alias_state)
  /\ exists img' r, lookup 20 alias_image (B "__memcpy") false alias_state = (Ret (img', r), alias_state) /\ r = None.
Proof.
  assert (E : read_symbols 20 alias_image alias_state = (Ret (alias_symbols, None), alias_state)) by (vm_compute; reflexivity).
  split; [exact E|].
  destruct (lookup_exact 20 alias_image alias_symbols None (B "__memcpy") false alias_state alias_state eq_refl eq_refl E)
    as (img' & r & El & Hr & _). exists img', r. split; [exact El|]. destruct r as [y|]; [|reflexivity]. exfalso.
  destruct Hr as (i & (Hi & _ & Hj) & Hn & _). destruct i as [|[|i]]; [injection Hi as <-; discriminate Hn| |discriminate Hi].
  injection Hi as <-. exact (Hj 0%nat _ (Nat.lt_0_succ 0) eq_refl eq_refl).
Defined.

Lemma base_of_segments_witness :
  findLibraryBaseInMaps
    [Entry 0x1000 0x3000 0 8 7 1 true (B "/l/libc.so"); Entry 0x51000 0x52000 0x1000 8 7 5 true (B "/l/libc.so");
     Entry 0x50000 0x51000 0 8 7 1 true (B "/l/libc.so")] (B "libc.so") 0x1800 = 0x50000.
Proof.
  apply (base_of_segments _ _ _ 0x50000 (Entry 0x51000 0x52000 0x1000 8 7 5 true (B "/l/libc.so")));
    [|right; left|vm_compute; reflexivity|vm_compute; reflexivity].
  intros m Hm _. repeat (apply elem_of_cons in Hm as [->|Hm]; [|]); [left; vm_compute; reflexivity|right; cbn; lia..|].
  by apply elem_of_nil in Hm.
Defined.

(** A loaded image that imports puts. *)
Definition importing_image : list Z :=
  ELFMAG ++ [2; 1] ++ replicate 26 0 ++ le_bytes 8 64 ++ replicate 16 0 ++ le_bytes 2 1 ++ replicate 6 0
  ++ le_bytes 4 PT_DYNAMIC ++ replicate 12 0 ++ le_bytes 8 120 ++ replicate 32 0
  ++ le_bytes 8 DT_SYMTAB ++ le_bytes 8 184 ++ le_bytes 8 DT_STRTAB ++ le_bytes 8 232
  ++ le_bytes 8 DT_STRSZ ++ le_bytes 8 6 ++ replicate 16 0
  ++ symbol 0 0 0 0 ++ symbol 1 0 0 0 ++ [0] ++ B "puts" ++ [0].

(** A symbol that the library only imports is taken for one it defines: the
    answer is the library's load address. *)
Lemma import_resolves_to_base :
  exists s', runtimeLookup 20 (ZnImage (B "/x") 0x40000 true true 0 0 0 None true []) (B "puts")
      (St [Reply 1 0 (B "40000-41000 r--p 00000000 00:00 5 /x" ++ [10]) []] [] 0 (map_range 1 238 0x40000 importing_image ∅)
        : st script mem) = (Ret (Some (0x40000, 0)), s').
Proof. eexists. vm_compute. reflexivity. Qed.
