(* ===== verification/ZnApi.v ===== *)
(** The Zygisk Next API (loader/src/injector/zn_api.cpp, zn_api.hpp,
    include/zygisk_next_api.h): hooks and symbol resolvers for native modules,
    the connection to a module's companion, and the runtime for applications
    that hyos_spawner forks.

    A module is code the repository does not have: it is a program over the
    entries of its API table, the runtime's registration and the two functions
    of the spawner that are hooked ([zn_prog]). Its functions first overwrite
    memory as they please, then run such a program. Dobby and LSPlt are
    libraries: their calls are events. The critical sections of g_hook_mutex
    are definitions of their own, so that the interleavings of several threads
    can be built from the same steps. *)
From S2P Require Import Prelude Sys Text SocketUtils ProcUtils Mem Linker ModLoader ElfParser Daemon SoList Context Hook ElfUtil.
Open Scope Z_scope.

Definition ZYGISK_NEXT_API_VERSION : Z := 4.
Definition ZYGISK_NEXT_HYOS_API_VERSION : Z := 1.
Definition ZN_SUCCESS : Z := 0.
Definition ZN_FAILED : Z := 1.
Definition RT_SUCCESS : Z := 0.
Definition kMaxHyosModules : Z := 16.
Definition PR_GET_NAME : Z := 16.

Record ZnModuleHandle := Handle { h_lib_path : list Z; h_companion : bool; h_target_api_version : Z }.

(** ZygiskNextHyosModule *)
Record hyos_module := HyosModule { hm_version : Z; hm_onAppSpecialized : Z }.

(** The variables of zn_api.cpp. [n_resolvers] and [n_handles] are the live
    objects of those types; g_hyos_module_count is the length of
    [n_modules]. *)
Record zn_state := Zn {
  n_hooked : gset Z;
  n_resolvers : gmap Z znImage;
  n_handles : gmap Z ZnModuleHandle;
  n_runtime : bool;
  n_modules : list hyos_module;
  n_fired : bool;
  n_atfork : bool;
  n_spawner_pid : Z;
  n_orig_setcontext : Z;
  n_orig_setname : Z;
  n_warned : bool;
  n_spawner_dev : Z;
  n_spawner_inode : Z;
  n_cap_name : list Z;
  n_cap_has : bool }.

Definition set_n_hooked (x : gset Z) (s : zn_state) : zn_state :=
  Zn x (n_resolvers s) (n_handles s) (n_runtime s) (n_modules s) (n_fired s) (n_atfork s)
    (n_spawner_pid s) (n_orig_setcontext s) (n_orig_setname s) (n_warned s) (n_spawner_dev s)
    (n_spawner_inode s) (n_cap_name s) (n_cap_has s).
Definition set_n_resolvers (x : gmap Z znImage) (s : zn_state) : zn_state :=
  Zn (n_hooked s) x (n_handles s) (n_runtime s) (n_modules s) (n_fired s) (n_atfork s)
    (n_spawner_pid s) (n_orig_setcontext s) (n_orig_setname s) (n_warned s) (n_spawner_dev s)
    (n_spawner_inode s) (n_cap_name s) (n_cap_has s).
Definition set_n_handles (x : gmap Z ZnModuleHandle) (s : zn_state) : zn_state :=
  Zn (n_hooked s) (n_resolvers s) x (n_runtime s) (n_modules s) (n_fired s) (n_atfork s)
    (n_spawner_pid s) (n_orig_setcontext s) (n_orig_setname s) (n_warned s) (n_spawner_dev s)
    (n_spawner_inode s) (n_cap_name s) (n_cap_has s).
Definition set_n_runtime (x : bool) (s : zn_state) : zn_state :=
  Zn (n_hooked s) (n_resolvers s) (n_handles s) x (n_modules s) (n_fired s) (n_atfork s)
    (n_spawner_pid s) (n_orig_setcontext s) (n_orig_setname s) (n_warned s) (n_spawner_dev s)
    (n_spawner_inode s) (n_cap_name s) (n_cap_has s).
Definition set_n_modules (x : list hyos_module) (s : zn_state) : zn_state :=
  Zn (n_hooked s) (n_resolvers s) (n_handles s) (n_runtime s) x (n_fired s) (n_atfork s)
    (n_spawner_pid s) (n_orig_setcontext s) (n_orig_setname s) (n_warned s) (n_spawner_dev s)
    (n_spawner_inode s) (n_cap_name s) (n_cap_has s).
Definition set_n_fired (x : bool) (s : zn_state) : zn_state :=
  Zn (n_hooked s) (n_resolvers s) (n_handles s) (n_runtime s) (n_modules s) x (n_atfork s)
    (n_spawner_pid s) (n_orig_setcontext s) (n_orig_setname s) (n_warned s) (n_spawner_dev s)
    (n_spawner_inode s) (n_cap_name s) (n_cap_has s).
Definition set_n_atfork (x : bool) (s : zn_state) : zn_state :=
  Zn (n_hooked s) (n_resolvers s) (n_handles s) (n_runtime s) (n_modules s) (n_fired s) x
    (n_spawner_pid s) (n_orig_setcontext s) (n_orig_setname s) (n_warned s) (n_spawner_dev s)
    (n_spawner_inode s) (n_cap_name s) (n_cap_has s).
Definition set_n_spawner_pid (x : Z) (s : zn_state) : zn_state :=
  Zn (n_hooked s) (n_resolvers s) (n_handles s) (n_runtime s) (n_modules s) (n_fired s) (n_atfork s)
    x (n_orig_setcontext s) (n_orig_setname s) (n_warned s) (n_spawner_dev s) (n_spawner_inode s)
    (n_cap_name s) (n_cap_has s).
Definition set_n_orig_setcontext (x : Z) (s : zn_state) : zn_state :=
  Zn (n_hooked s) (n_resolvers s) (n_handles s) (n_runtime s) (n_modules s) (n_fired s) (n_atfork s)
    (n_spawner_pid s) x (n_orig_setname s) (n_warned s) (n_spawner_dev s) (n_spawner_inode s)
    (n_cap_name s) (n_cap_has s).
Definition set_n_orig_setname (x : Z) (s : zn_state) : zn_state :=
  Zn (n_hooked s) (n_resolvers s) (n_handles s) (n_runtime s) (n_modules s) (n_fired s) (n_atfork s)
    (n_spawner_pid s) (n_orig_setcontext s) x (n_warned s) (n_spawner_dev s) (n_spawner_inode s)
    (n_cap_name s) (n_cap_has s).
Definition set_n_warned (x : bool) (s : zn_state) : zn_state :=
  Zn (n_hooked s) (n_resolvers s) (n_handles s) (n_runtime s) (n_modules s) (n_fired s) (n_atfork s)
    (n_spawner_pid s) (n_orig_setcontext s) (n_orig_setname s) x (n_spawner_dev s) (n_spawner_inode
    s) (n_cap_name s) (n_cap_has s).
Definition set_n_spawner_dev (x : Z) (s : zn_state) : zn_state :=
  Zn (n_hooked s) (n_resolvers s) (n_handles s) (n_runtime s) (n_modules s) (n_fired s) (n_atfork s)
    (n_spawner_pid s) (n_orig_setcontext s) (n_orig_setname s) (n_warned s) x (n_spawner_inode s)
    (n_cap_name s) (n_cap_has s).
Definition set_n_spawner_inode (x : Z) (s : zn_state) : zn_state :=
  Zn (n_hooked s) (n_resolvers s) (n_handles s) (n_runtime s) (n_modules s) (n_fired s) (n_atfork s)
    (n_spawner_pid s) (n_orig_setcontext s) (n_orig_setname s) (n_warned s) (n_spawner_dev s) x
    (n_cap_name s) (n_cap_has s).
Definition set_n_cap_name (x : list Z) (s : zn_state) : zn_state :=
  Zn (n_hooked s) (n_resolvers s) (n_handles s) (n_runtime s) (n_modules s) (n_fired s) (n_atfork s)
    (n_spawner_pid s) (n_orig_setcontext s) (n_orig_setname s) (n_warned s) (n_spawner_dev s)
    (n_spawner_inode s) x (n_cap_has s).
Definition set_n_cap_has (x : bool) (s : zn_state) : zn_state :=
  Zn (n_hooked s) (n_resolvers s) (n_handles s) (n_runtime s) (n_modules s) (n_fired s) (n_atfork s)
    (n_spawner_pid s) (n_orig_setcontext s) (n_orig_setname s) (n_warned s) (n_spawner_dev s)
    (n_spawner_inode s) (n_cap_name s) x.

Definition zn_init : zn_state := Zn ∅ ∅ ∅ false [] false false 0 0 0 false 0 0 [] false.

(** The process: the parts of the injected library, the cached answer of the
    seccomp helper and the variables above. *)
Record np := NP { p_zs : zs; p_seccomp : option bool; p_zn : zn_state }.
Definition pset_zs (x : zs) (s : np) : np := NP x (p_seccomp s) (p_zn s).
Definition pset_seccomp (x : option bool) (s : np) : np := NP (p_zs s) x (p_zn s).
Definition pset_zn (x : zn_state) (s : np) : np := NP (p_zs s) (p_seccomp s) x.

#[export] Instance np_mem : HasMem np.
Proof.
  refine {| the_mem s := the_mem (p_zs s); put_mem m s := pset_zs (put_mem m (p_zs s)) s |};
    [done|done|by intros [[[]]]].
Defined.
#[export] Instance np_so : HasSo np.
Proof. refine {| the_so s := the_so (p_zs s); put_so x s := pset_zs (put_so x (p_zs s)) s |}; done. Defined.

(** ** The table *)

Inductive zn_fn :=
| FPltHook | FInlineHook | FInlineUnhook
| FNewSymbolResolver | FFreeSymbolResolver | FGetBaseAddress | FSymbolLookup | FForEachSymbols
| FConnect | FGetRuntime
| FGetRuntimeUnavailable
| FSymbolResolverUnavailable | FFreeSymbolResolverUnavailable | FGetBaseAddressUnavailable
| FSymbolLookupUnavailable | FForEachSymbolsUnavailable.

Inductive zn_table := TApiV4 | TApiFull | TApiNoSymbolResolver.

Definition kApiV4 : list zn_fn :=
  [FPltHook; FInlineHook; FInlineUnhook; FNewSymbolResolver; FFreeSymbolResolver; FGetBaseAddress; FSymbolLookup;
   FForEachSymbols; FConnect; FGetRuntime].
Definition kApiFull : list zn_fn :=
  [FPltHook; FInlineHook; FInlineUnhook; FNewSymbolResolver; FFreeSymbolResolver; FGetBaseAddress; FSymbolLookup;
   FForEachSymbols; FConnect; FGetRuntimeUnavailable].
Definition kApiNoSymbolResolver : list zn_fn :=
  [FPltHook; FInlineHook; FInlineUnhook; FSymbolResolverUnavailable; FFreeSymbolResolverUnavailable;
   FGetBaseAddressUnavailable; FSymbolLookupUnavailable; FForEachSymbolsUnavailable; FConnect; FGetRuntimeUnavailable].

Definition table_rows (t : zn_table) : list zn_fn :=
  match t with TApiV4 => kApiV4 | TApiFull => kApiFull | TApiNoSymbolResolver => kApiNoSymbolResolver end.

Definition getApiForVersion (target_api_version : Z) : zn_table :=
  if 4 <=? target_api_version then TApiV4
  else if 2 <=? target_api_version then TApiFull
  else TApiNoSymbolResolver.

(** ** Programs of modules *)

(** What a module passes; a null string is [None]. *)
Inductive zn_args :=
| ZPlt (base : Z) (symbol : option (list Z)) (fn original : Z)
| ZInline (target addr original : Z)
| ZUnhook (target : Z)
| ZNew (path : option (list Z)) (base : Z)
| ZResolver (resolver : Z)
| ZLookup (resolver : Z) (name : option (list Z)) (prefix : bool) (size : Z)
| ZEach (resolver callback data : Z)
| ZHandle (self_handle : Z)
| ZNone.

Inductive zn_step :=
| ZApi (t : zn_table) (slot : nat) (args : zn_args)
| ZRegister (runtime module : Z)
| ZSetcontext (uid is_system_server se_info pkg_name : Z)
| ZSetname (thread name : Z).

Inductive zn_prog :=
| ZDone
| ZStep (x : zn_step) (k : Z -> zn_prog).

Class ZnCode := zn_code : Z -> list event -> zn_prog.

(** ** The critical sections of g_hook_mutex *)

Definition hook_insert (t : Z) (hooked : gset Z) : bool * gset Z :=
  if bool_decide (t ∈ hooked) then (false, hooked) else (true, {[t]} ∪ hooked).
Definition hook_erase (t : Z) (hooked : gset Z) : gset Z := hooked ∖ {[t]}.
Definition hook_found (t : Z) (hooked : gset Z) : bool := bool_decide (t ∈ hooked).

(** ** Choosing the file to hook *)

(** The address is inside the mapping, or where its file begins in memory. *)
Definition entry_hit (b : Z) (m : MapEntry) : bool :=
  let is_load_base := (me_offset m <=? me_start m) && (b =? me_start m - me_offset m) in
  ((me_start m <=? b) && (b <? me_end m)) || is_load_base.

Definition plt_target (maps : list MapEntry) (b : Z) : option MapEntry :=
  match List.find (fun m => entry_hit b m && negb (me_inode m =? 0)) maps with
  | None => None
  | Some m =>
      match List.find (fun h => (me_inode h =? me_inode m) && (me_dev h =? me_dev m) && (me_offset h =? 0)) maps with
      | Some h => Some h
      | None => Some m
      end
  end.

Definition spawner_map (m : MapEntry) : bool :=
  (me_offset m =? 0) && negb (me_inode m =? 0)
  && (beq (me_path m) (B "/system_ext/bin/hyos_spawner") || ends_with (me_path m) (B "/hyos_spawner")
      || contains (me_path m) (B "hyos_spawner")).

(** The answer of [readlink] for the program of the process. *)
Definition spawner_exe (r : reply) : bool :=
  if r_ret r <=? 0 then false
  else
    let p := c_str (take (Z.to_nat (r_ret r)) (r_data r)) in
    let p := if ends_with p (B " (deleted)") then take (length p - 10) p else p in
    beq p (B "/system_ext/bin/hyos_spawner") || ends_with p (B "/hyos_spawner").

(** [strlcpy] into a buffer of [size] bytes: what the buffer holds as a string. *)
Definition strlcpy_text (size : nat) (src : list Z) : list Z := take (size - 1) src.

Section Ops.
Context {W : Type} `{!World W} `{!Symbols} `{!ZnCode} (fuel : nat) (nr_getpid : Z).
Abbreviation K := (M W np).

Definition in_zs {A} (m : M W zs A) : K A := zoom p_zs pset_zs m.
Definition zn : K zn_state := s ← get; mret (p_zn s).
Definition upd_zn (f : zn_state -> zn_state) : K unit := modify (fun s => pset_zn (f (p_zn s)) s).

(** A function of a module: it overwrites memory, then runs a program. *)
Definition module_call (run : zn_prog -> K unit) (c : call) (fn : Z) : K Z :=
  r ← syscall c;
  modify (fun s => put_mem (poke (r_aux r) (the_mem s)) s);;
  log ← get_log;
  run (zn_code fn log);;
  mret (u64 (r_ret r)).

(** ** Hooks *)

(** Registers and commits one LSPlt hook with a local variable for the
    original; 0 if any of it failed. *)
Definition plt_replace (dev inode : Z) (symbol : list Z) (hook : Z) : K Z :=
  let backup := old_var (B "backup") in
  in_zs (modify (fun s => zset_olds (<[backup := 0]> (z_olds s)) s));;
  ok ← in_zs (lsplt_RegisterHook dev inode symbol hook backup);
  if negb ok then mret 0
  else
    ok ← in_zs (lsplt_CommitHook false);
    if negb ok then mret 0
    else s ← get; mret (default 0 (z_olds (p_zs s) !! backup)).

Definition api_pltHook (base : Z) (symbol : option (list Z)) (hook original : Z) : K Z :=
  match symbol with
  | None => mret ZN_FAILED
  | Some symbol =>
      if (base =? 0) || (hook =? 0) then mret ZN_FAILED
      else
        maps ← parseMaps (B "self");
        match plt_target maps base with
        | None => mret ZN_FAILED
        | Some target_entry =>
            backup ← plt_replace (me_dev target_entry) (me_inode target_entry) symbol hook;
            if backup =? 0 then mret ZN_FAILED
            else
              (if negb (original =? 0) then store_u64 original backup else mret tt);;
              mret ZN_SUCCESS
        end
  end.

(** DobbyHook: the original function if it succeeded. *)
Definition DobbyHook (target addr original : Z) : K (option Z) :=
  r ← syscall (CDobbyHook target addr original);
  mret (if r_ret r =? RT_SUCCESS then Some (nth 0 (r_aux r) 0) else None).

(** What a call does between its start and its result, action by action: the
    critical sections under g_hook_mutex (an insertion, a search, a removal)
    and the calls of Dobby, which are made without the lock. *)
Inductive hprog :=
| HDone (r : Z)
| HInsert (t : Z) (k : bool -> hprog)
| HFind (t : Z) (k : bool -> hprog)
| HErase (t : Z) (k : hprog)
| HDobbyHook (t addr original : Z) (k : bool -> hprog)
| HDobbyDestroy (t : Z) (k : bool -> hprog).

(** Without another thread in between. *)
Fixpoint run_code (p : hprog) : K Z :=
  match p with
  | HDone r => mret r
  | HInsert t k =>
      z ← zn;
      let '(inserted, hooked) := hook_insert t (n_hooked z) in
      upd_zn (set_n_hooked hooked);; run_code (k inserted)
  | HFind t k => z ← zn; run_code (k (hook_found t (n_hooked z)))
  | HErase t k => upd_zn (fun z => set_n_hooked (hook_erase t (n_hooked z)) z);; run_code k
  | HDobbyHook t addr original k =>
      o ← DobbyHook t addr original;
      match o with
      | None => run_code (k false)
      | Some f => (if negb (original =? 0) then store_u64 original f else mret tt);; run_code (k true)
      end
  | HDobbyDestroy t k =>
      r ← syscall (CDobbyDestroy t); run_code (k (r_ret r =? RT_SUCCESS))
  end.

(** api_inlineHook, from its end: after DobbyHook, after the insertion. *)
Definition after_dobby_hook (t : Z) (ok : bool) : hprog :=
  if negb ok then HErase t (HDone ZN_FAILED) else HDone ZN_SUCCESS.
Definition after_insert (t addr original : Z) (inserted : bool) : hprog :=
  if negb inserted then HDone ZN_FAILED else HDobbyHook t addr original (after_dobby_hook t).
Definition inlineHook_code (t addr original : Z) : hprog :=
  if (t =? 0) || (addr =? 0) then HDone ZN_FAILED else HInsert t (after_insert t addr original).

(** api_inlineUnhook: after DobbyDestroy, after the search. *)
Definition after_destroy (t : Z) (ok : bool) : hprog :=
  if negb ok then HDone ZN_FAILED else HErase t (HDone ZN_SUCCESS).
Definition after_find (t : Z) (found : bool) : hprog :=
  if negb found then HDone ZN_FAILED else HDobbyDestroy t (after_destroy t).
Definition inlineUnhook_code (t : Z) : hprog :=
  if t =? 0 then HDone ZN_FAILED else HFind t (after_find t).

Definition api_inlineHook (target addr original : Z) : K Z := run_code (inlineHook_code target addr original).
Definition api_inlineUnhook (target : Z) : K Z := run_code (inlineUnhook_code target).

(** ** Symbol resolvers *)

Definition get_resolver (resolver : Z) : K znImage :=
  z ← zn; match n_resolvers z !! resolver with Some img => mret img | None => crash end.
Definition put_resolver (resolver : Z) (img : znImage) : K unit :=
  upd_zn (fun z => set_n_resolvers (<[resolver := img]> (n_resolvers z)) z).

Definition api_newSymbolResolver (path : option (list Z)) (base : Z) : K Z :=
  match path with
  | None => mret 0
  | Some path =>
      r ← syscall (CNew 8);
      img ← new_image path base;
      if negb (valid_ img) then delete_image img;; mret 0
      else put_resolver (r_ret r) img;; mret (r_ret r)
  end.

Definition api_freeSymbolResolver (resolver : Z) : K unit :=
  if resolver =? 0 then mret tt
  else
    img ← get_resolver resolver;
    delete_image img;;
    upd_zn (fun z => set_n_resolvers (delete resolver (n_resolvers z)) z).

Definition api_getBaseAddress (resolver : Z) : K Z :=
  if resolver =? 0 then mret 0 else img ← get_resolver resolver; mret (base_ img).

Definition api_symbolLookup (resolver : Z) (name : option (list Z)) (prefix : bool) (size : Z) : K Z :=
  match name with
  | None => mret 0
  | Some name =>
      if resolver =? 0 then mret 0
      else
        let found a n := (if negb (size =? 0) then store_u64 size n else mret tt);; mret a in
        img ← get_resolver resolver;
        '(img, s) ← lookup fuel img name prefix;
        put_resolver resolver img;;
        match s with
        | Some s => found (y_addr s) (y_size_ s)
        | None =>
            if prefix then mret 0
            else
              o ← runtimeLookup fuel img name;
              match o with Some (a, n) => found a n | None => mret 0 end
        end
  end.

(** A callback that frees the resolver leaves the loop without its list. *)
Definition api_forEachSymbols (run : zn_prog -> K unit) (resolver callback data : Z) : K unit :=
  if (resolver =? 0) || (callback =? 0) then mret tt
  else
    img ← get_resolver resolver;
    img ← ensureParsed fuel img;
    put_resolver resolver img;;
    each_symbol (fun s =>
      r ← module_call run (CCall callback (y_addr s :: y_size_ s :: data :: y_name_ s)) callback;
      get_resolver resolver;;
      mret (negb (Z.land r 255 =? 0))) (symbols_ img).

Definition api_connectCompanion (self_handle : Z) : K Z :=
  if self_handle =? 0 then mret (-1)
  else
    z ← zn;
    match n_handles z !! self_handle with
    | None => crash
    | Some h =>
        if negb (h_companion h) || (h_target_api_version h <? 3) || bool_decide (h_lib_path h = []) then mret (-1)
        else in_zs (in_daemon (ConnectZnCompanion fuel (h_lib_path h)))
    end.

Definition inlineHookRaw (target addr original : Z) : K (option Z) :=
  if (target =? 0) || (addr =? 0) then mret None else DobbyHook target addr original.

(** ** The runtime of hyos_spawner *)

Definition getpid_raw : K Z := r ← syscall (CSyscall nr_getpid []); mret (swrap 32 (r_ret r)).

Definition hyosInChild : K bool :=
  z ← zn;
  if n_spawner_pid z =? 0 then mret false
  else p ← getpid_raw; mret (negb (p =? n_spawner_pid z)).

(** [do ... while (r < 0 && errno == EINTR)] *)
Fixpoint retry_eintr (n : nat) (c : call) : K reply :=
  match n with
  | O => out_of_fuel
  | Datatypes.S n' =>
      r ← syscall c;
      e ← get_errno;
      if (r_ret r <? 0) && (e =? EINTR) then retry_eintr n' c else mret r
  end.

(** The bytes up to a NUL, [n] at most, behind the [length_] read so far; and
    whether the NUL was there behind at least one byte. *)
Fixpoint cmdline_loop (n : nat) (fd : Z) (out : list Z) : K (list Z * bool) :=
  match n with
  | O => mret (out, false)
  | Datatypes.S n' =>
      r ← retry_eintr fuel (CRead fd 1);
      if negb (r_ret r =? 1) then mret (out, false)
      else
        let val := nth 0 (r_data r) 0 in
        if val =? 0 then mret (out, bool_decide (out <> []))
        else cmdline_loop n' fd (out ++ [val])
  end.

Definition readProcCmdline (max_len : nat) : K (list Z * bool) :=
  match max_len with
  | O => mret ([], false)
  | Datatypes.S room =>
      r ← retry_eintr fuel (COpen (B "/proc/self/cmdline") O_RDONLY_CLOEXEC 0);
      if r_ret r <? 0 then mret ([], false)
      else
        res ← cmdline_loop room (r_ret r) [];
        do_ (CClose (r_ret r));;
        mret res
  end.

(** The name reported for the process. *)
Definition process_name : K (list Z) :=
  z ← zn;
  if n_cap_has z && bool_decide (n_cap_name z <> []) then mret (strlcpy_text 256 (n_cap_name z))
  else
    '(name, complete) ← readProcCmdline 256;
    if complete && bool_decide (name <> []) then mret name
    else
      r ← syscall (CPrctl PR_GET_NAME 0);
      let name := take 15 (c_str (r_data r)) in
      mret (if negb (r_ret r =? 0) || bool_decide (name = []) then B "hyos_app" else name).

(** A string given by its address, which may be null. *)
Definition text_at (p : Z) : K (list Z) := if p =? 0 then mret [] else load_cstr fuel p.

(** [for (i = ...; i < g_hyos_module_count; ++i)] *)
Fixpoint deliver_from (run : zn_prog -> K unit) (n i : nat) (process package se_info : list Z) : K unit :=
  match n with
  | O => out_of_fuel
  | Datatypes.S n' =>
      z ← zn;
      match n_modules z !! i with
      | None => mret tt
      | Some m =>
          (if negb (hm_onAppSpecialized m =? 0)
           then module_call run (CZnSpecialized (hm_onAppSpecialized m) process package se_info) (hm_onAppSpecialized m);;
                mret tt
           else mret tt);;
          deliver_from run n' (Datatypes.S i) process package se_info
      end
  end.

Definition hyosDeliverAppSpecialized (run : zn_prog -> K unit) (pkg_name se_info : Z) : K unit :=
  child ← hyosInChild;
  z ← zn;
  if negb child || n_fired z || bool_decide (n_modules z = []) then mret tt
  else
    upd_zn (set_n_fired true);;
    process ← process_name;
    package ← text_at pkg_name;
    se ← text_at se_info;
    deliver_from run (Datatypes.S (Z.to_nat kMaxHyosModules)) 0 process (strlcpy_text 256 package) (strlcpy_text 64 se).

Definition hyosSetcontextHook (run : zn_prog -> K unit) (uid is_system_server se_info pkg_name : Z) : K Z :=
  z ← zn;
  ret ← (if negb (n_orig_setcontext z =? 0)
         then r ← call_code (n_orig_setcontext z) [uid; is_system_server; se_info; pkg_name]; mret (swrap 32 r)
         else mret (-1));
  z ← zn;
  (if ret =? 0 then hyosDeliverAppSpecialized run pkg_name se_info
   else if negb (n_fired z) then hyosInChild;; mret tt
   else mret tt);;
  mret ret.

Definition hyosSetnameHook (thread name : Z) : K Z :=
  z ← zn;
  ret ← (if negb (n_orig_setname z =? 0)
         then r ← call_code (n_orig_setname z) [thread; name]; mret (swrap 32 r)
         else mret (-1));
  z ← zn;
  (if negb (ret =? 0) || n_cap_has z || n_fired z || (name =? 0) then mret tt
   else
     first ← load_u8 name;
     if first =? 0 then mret tt
     else
       self ← syscall CPthreadSelf;
       if negb (thread =? r_ret self) then mret tt
       else
         child ← hyosInChild;
         if negb child then mret tt
         else
           text ← load_cstr fuel name;
           upd_zn (fun z => set_n_cap_has true (set_n_cap_name (strlcpy_text 256 text) z)));;
  mret ret.

Definition setcontext_name : list Z := B "selinux_android_setcontext".
Definition setname_name : list Z := B "pthread_setname_np".

Definition find_spawner : K unit :=
  z ← zn;
  if negb (n_spawner_inode z =? 0) then mret tt
  else
    maps ← parseMaps (B "self");
    match List.find spawner_map maps with
    | None => mret tt
    | Some m => upd_zn (fun z => set_n_spawner_inode (me_inode m) (set_n_spawner_dev (me_dev m) z))
    end.

(** Hooks [symbol] in the spawner's image, unless [orig] is set. *)
Definition pltHookSpawner (symbol : list Z) (orig : zn_state -> Z) (set_orig : Z -> zn_state -> zn_state) : K unit :=
  z ← zn;
  if (n_spawner_inode z =? 0) || negb (orig z =? 0) then mret tt
  else
    backup ← plt_replace (n_spawner_dev z) (n_spawner_inode z) symbol (new_fn symbol);
    if negb (backup =? 0) then upd_zn (set_orig backup) else mret tt.

(** Hooks the function itself, looked for in [library] if it is not loaded,
    unless [orig] is set. *)
Definition inlineHookSpawner (symbol library : list Z) (orig : zn_state -> Z) (set_orig : Z -> zn_state -> zn_state)
  : K unit :=
  z ← zn;
  if negb (orig z =? 0) then mret tt
  else
    f ← syscall (CDlsym 0 symbol);
    fn ← (if r_ret f =? 0 then
            h ← syscall (CDlopen library RTLD_NOW);
            if r_ret h =? 0 then mret 0 else f ← syscall (CDlsym (r_ret h) symbol); mret (r_ret f)
          else mret (r_ret f));
    if fn =? 0 then mret tt
    else
      o ← inlineHookRaw fn (new_fn symbol) (old_var symbol);
      match o with Some f => upd_zn (set_orig f) | None => mret tt end.

Definition hyosInstallHooks : K unit :=
  find_spawner;;
  pltHookSpawner setcontext_name n_orig_setcontext set_n_orig_setcontext;;
  pltHookSpawner setname_name n_orig_setname set_n_orig_setname;;
  inlineHookSpawner setcontext_name (B "libselinux.so") n_orig_setcontext set_n_orig_setcontext;;
  inlineHookSpawner setname_name (B "libc.so") n_orig_setname set_n_orig_setname;;
  z ← zn;
  if (n_orig_setcontext z =? 0) && negb (n_warned z) then upd_zn (set_n_warned true) else mret tt.

Definition hyosAtForkPrepare : K unit :=
  z ← zn;
  if negb (bool_decide (n_modules z = [])) && ((n_orig_setcontext z =? 0) || (n_orig_setname z =? 0))
  then hyosInstallHooks else mret tt.

Definition api_hyos_registerModule (module : Z) : K Z :=
  if module =? 0 then mret ZN_FAILED
  else
    fn ← load_u64 (module + 8);
    if fn =? 0 then mret ZN_FAILED
    else
      v ← load_u32 module;
      if ZYGISK_NEXT_HYOS_API_VERSION <? swrap 32 v then mret ZN_FAILED
      else
        z ← zn;
        if kMaxHyosModules <=? Z.of_nat (length (n_modules z)) then mret ZN_FAILED
        else
          upd_zn (fun z => set_n_modules (n_modules z ++ [HyosModule (swrap 32 v) fn]) z);;
          child ← hyosInChild;
          (if negb child then
             z ← zn;
             (if negb (n_atfork z)
              then upd_zn (set_n_atfork true);; do_ (CAtfork (new_fn (B "hyosAtForkPrepare")))
              else mret tt);;
             hyosInstallHooks
           else mret tt);;
          mret ZN_SUCCESS.

Definition kHyosRuntime : Z := new_fn (B "kHyosRuntime").

Definition api_getRuntime : K Z := z ← zn; mret (if n_runtime z then kHyosRuntime else 0).

(** ** Calls of modules *)

(** The entries of the table; the resolver's stubs return null. *)
Definition zn_call (run : zn_prog -> K unit) (fn : zn_fn) (args : zn_args) : K Z :=
  match fn, args with
  | FPltHook, ZPlt base symbol hook original => api_pltHook base symbol hook original
  | FInlineHook, ZInline target addr original => api_inlineHook target addr original
  | FInlineUnhook, ZUnhook target => api_inlineUnhook target
  | FNewSymbolResolver, ZNew path base => api_newSymbolResolver path base
  | FFreeSymbolResolver, ZResolver r => api_freeSymbolResolver r;; mret 0
  | FGetBaseAddress, ZResolver r => api_getBaseAddress r
  | FSymbolLookup, ZLookup r name prefix size => api_symbolLookup r name prefix size
  | FForEachSymbols, ZEach r callback data => api_forEachSymbols run r callback data;; mret 0
  | FConnect, ZHandle h => api_connectCompanion h
  | FGetRuntime, ZNone => api_getRuntime
  | FGetRuntimeUnavailable, ZNone => mret 0
  | FSymbolResolverUnavailable, ZNew _ _ => mret 0
  | FFreeSymbolResolverUnavailable, ZResolver _ => mret 0
  | FGetBaseAddressUnavailable, ZResolver _ => mret 0
  | FSymbolLookupUnavailable, ZLookup _ _ _ _ => mret 0
  | FForEachSymbolsUnavailable, ZEach _ _ _ => mret 0
  | _, _ => crash
  end.

Definition zn_do (run : zn_prog -> K unit) (x : zn_step) : K Z :=
  match x with
  | ZApi t slot args => match table_rows t !! slot with Some fn => zn_call run fn args | None => crash end
  | ZRegister runtime module => if runtime =? kHyosRuntime then api_hyos_registerModule module else crash
  | ZSetcontext uid server se pkg => hyosSetcontextHook run uid server se pkg
  | ZSetname thread name => hyosSetnameHook thread name
  end.

Fixpoint run_steps (do_step : zn_step -> K Z) (p : zn_prog) : K unit :=
  match p with
  | ZDone => mret tt
  | ZStep x k => r ← do_step x; run_steps do_step (k r)
  end.

(** Functions of modules that are called from calls of modules, [d] deep. *)
Fixpoint run_zn (d : nat) (p : zn_prog) : K unit :=
  match d with
  | O => out_of_fuel
  | Datatypes.S d' => run_steps (zn_do (run_zn d')) p
  end.

(** ** The process *)

Definition isHyosSpawner : K bool := r ← syscall (CReadlink (B "/proc/self/exe") 4095); mret (spawner_exe r).

Definition initHyosRuntime : K unit :=
  upd_zn (set_n_runtime true);;
  p ← getpid_raw;
  upd_zn (set_n_spawner_pid p).

Definition isHyosRuntime : K bool := z ← zn; mret (n_runtime z).

(** What happens in the spawner and in its children: a fork is prepared, one
    of the hooked functions is called, a module's code runs. *)
Inductive hyos_event :=
| EPrepare
| ESetcontext (uid is_system_server se_info pkg_name : Z)
| ESetname (thread name : Z)
| EModule (p : zn_prog).

Definition hyos_do (d : nat) (e : hyos_event) : K unit :=
  match e with
  | EPrepare => hyosAtForkPrepare
  | ESetcontext uid server se pkg => hyosSetcontextHook (run_zn d) uid server se pkg;; mret tt
  | ESetname thread name => hyosSetnameHook thread name;; mret tt
  | EModule p => run_zn d p
  end.

Fixpoint hyos_run (d : nat) (es : list hyos_event) : K unit :=
  match es with
  | [] => mret tt
  | e :: es' => hyos_do d e;; hyos_run d es'
  end.
End Ops.
