(* ===== verification/InlineHooks.v ===== *)
(** Inline hooks of Zygisk Next modules from several threads (api_inlineHook
    and api_inlineUnhook of loader/src/injector/zn_api.cpp): the critical
    sections and the calls of Dobby between them as a step relation, the
    invariant of every interleaving, and that interleaving the programs ZnApi.v
    has for the calls gives no other states. *)
From S2P Require Import Prelude Sys Mem Context ZnApi.
Open Scope Z_scope.

(** ** Inline hooks from several threads *)

(** Where a thread is between the critical sections of api_inlineHook and
    api_inlineUnhook. *)
Inductive phase :=
| Idle
| HookInserted (t : Z)
| HookFailed (t : Z)
| UnhookFound (t : Z)
| UnhookDestroyed (t : Z).

(** g_hooked, the addresses Dobby has hooked for the API, and the threads. *)
Record hook_config := Config { c_hooked : gset Z; c_dobby : gset Z; c_threads : list phase }.

Definition at_phase (i : nat) (ph : phase) (c : hook_config) : Prop := c_threads c !! i = Some ph.
Definition to_phase (i : nat) (ph : phase) (c : hook_config) : list phase := <[i := ph]> (c_threads c).

(** One critical section, or one call of Dobby, of the thread [i]. Dobby can
    refuse a hook; it removes only a hook it has. *)
Inductive hook_step : hook_config -> hook_config -> Prop :=
| step_insert c i t hooked :
    at_phase i Idle c -> hook_insert t (c_hooked c) = (true, hooked) ->
    hook_step c (Config hooked (c_dobby c) (to_phase i (HookInserted t) c))
| step_already c i t hooked :
    at_phase i Idle c -> hook_insert t (c_hooked c) = (false, hooked) ->
    hook_step c (Config hooked (c_dobby c) (c_threads c))
| step_hook_ok c i t :
    at_phase i (HookInserted t) c -> hook_step c (Config (c_hooked c) ({[t]} ∪ c_dobby c) (to_phase i Idle c))
| step_hook_fails c i t :
    at_phase i (HookInserted t) c -> hook_step c (Config (c_hooked c) (c_dobby c) (to_phase i (HookFailed t) c))
| step_erase_failed c i t :
    at_phase i (HookFailed t) c -> hook_step c (Config (hook_erase t (c_hooked c)) (c_dobby c) (to_phase i Idle c))
| step_find c i t :
    at_phase i Idle c -> hook_found t (c_hooked c) = true ->
    hook_step c (Config (c_hooked c) (c_dobby c) (to_phase i (UnhookFound t) c))
| step_destroy_ok c i t :
    at_phase i (UnhookFound t) c -> t ∈ c_dobby c ->
    hook_step c (Config (c_hooked c) (c_dobby c ∖ {[t]}) (to_phase i (UnhookDestroyed t) c))
| step_destroy_fails c i t :
    at_phase i (UnhookFound t) c -> hook_step c (Config (c_hooked c) (c_dobby c) (to_phase i Idle c))
| step_erase_destroyed c i t :
    at_phase i (UnhookDestroyed t) c ->
    hook_step c (Config (hook_erase t (c_hooked c)) (c_dobby c) (to_phase i Idle c)).

(** The address a thread answers for: between its insertion and the end of
    the hooking, or between the unhooking and its removal. *)
Definition answers_for (ph : phase) : option Z :=
  match ph with
  | HookInserted t | HookFailed t | UnhookDestroyed t => Some t
  | Idle | UnhookFound _ => None
  end.

Definition one (P : Prop) `{!Decision P} : nat := if decide P then 1 else 0.
Definition owners (t : Z) (l : list phase) : nat := sum_list_with (fun ph => one (answers_for ph = Some t)) l.

(** An address is in g_hooked exactly while Dobby or one thread has it, and
    never both or two of them. *)
Definition exclusive (c : hook_config) : Prop := forall t,
  (one (t ∈ c_dobby c) + owners t (c_threads c) = one (t ∈ c_hooked c))%nat.

Lemma owners_to t i old ph l : l !! i = Some old ->
  (owners t (<[i := ph]> l) + one (answers_for old = Some t) = owners t l + one (answers_for ph = Some t))%nat.
Proof.
  unfold owners. revert i. induction l as [|x l IH]; intros [|i] E; [done..| |]; cbn in *.
  - injection E as ->. lia.
  - specialize (IH i E). change (insert i ph l) with (<[i:=ph]> l) in *. lia.
Qed.

Lemma owners_pos t i ph l : l !! i = Some ph -> answers_for ph = Some t -> (1 <= owners t l)%nat.
Proof.
  intros E Ha. unfold owners. revert i E. induction l as [|x l IH]; intros [|i] E; [done..| |]; cbn in *.
  - injection E as ->. unfold one. rewrite decide_True by done. lia.
  - specialize (IH i E). lia.
Qed.

Lemma one_iff (P Q : Prop) `{!Decision P, !Decision Q} : (P <-> Q) -> one P = one Q.
Proof. intros H. unfold one. destruct (decide P), (decide Q); tauto. Qed.

Lemma one_true (P : Prop) `{!Decision P} : P -> one P = 1%nat.
Proof. intros. unfold one. by rewrite decide_True. Qed.

Lemma one_false (P : Prop) `{!Decision P} : ~ P -> one P = 0%nat.
Proof. intros. unfold one. by rewrite decide_False. Qed.

Lemma one_insert (u t : Z) (x : gset Z) : (u ∉ x) -> one (t ∈ {[u]} ∪ x) = (one (t ∈ x) + one (Some u = Some t))%nat.
Proof.
  intros Hu. destruct (decide (u = t)) as [->|Hne].
  - rewrite (one_true (t ∈ _ ∪ _)), (one_false (t ∈ x)), one_true by (done || by apply elem_of_union_l, elem_of_singleton). done.
  - rewrite (one_iff (t ∈ _ ∪ _) (t ∈ x)), (one_false (Some u = _)) by
      (congruence || (rewrite elem_of_union, elem_of_singleton; intuition congruence)). lia.
Qed.

Lemma one_remove (u t : Z) (x : gset Z) : u ∈ x -> (one (t ∈ x ∖ {[u]}) + one (Some u = Some t))%nat = one (t ∈ x).
Proof.
  intros Hu. destruct (decide (u = t)) as [->|Hne].
  - rewrite (one_false (t ∈ _ ∖ _)), (one_true (t ∈ x)), one_true by
      (done || (rewrite elem_of_difference, elem_of_singleton; tauto)). done.
  - rewrite (one_iff (t ∈ _ ∖ _) (t ∈ x)), (one_false (Some u = _)) by
      (congruence || (rewrite elem_of_difference, elem_of_singleton; intuition congruence)). lia.
Qed.

Lemma owners_idle t l : Forall (fun ph => ph = Idle) l -> owners t l = 0%nat.
Proof. induction 1 as [|ph l -> _ IH]; [done|exact IH]. Qed.

(** A thread that answers for an address has it alone. *)
Lemma exclusive_owner c i ph t : exclusive c -> at_phase i ph c -> answers_for ph = Some t ->
  t ∈ c_hooked c /\ (t ∉ c_dobby c) /\ owners t (c_threads c) = 1%nat.
Proof.
  intros Hx Hi Ha. specialize (Hx t). pose proof (owners_pos _ _ _ _ Hi Ha). unfold one in *. repeat case_decide; lia || done.
Qed.

Lemma hook_step_exclusive c c' : hook_step c c' -> exclusive c -> exclusive c'.
Proof.
  intros Hs Hx u. pose proof (Hx u) as Hu.
  destruct Hs as [c i t h Hi E|c i t h Hi E|c i t Hi|c i t Hi|c i t Hi|c i t Hi E|c i t Hi E|c i t Hi|c i t Hi];
    unfold hook_insert, hook_erase in *; repeat case_bool_decide; simplify_eq; cbn [c_hooked c_dobby c_threads]; try done.
  all: try (destruct (exclusive_owner _ _ _ t Hx Hi eq_refl) as (Hh & Hd & _)).
  all: match goal with |- context [to_phase _ ?ph _] =>
         let H := fresh in pose proof (owners_to u _ _ ph _ Hi) as H; cbn [answers_for] in H; unfold to_phase end.
  all: rewrite ?(one_false (None = Some u)) in * by done.
  - rewrite one_insert by done. lia.
  - rewrite one_insert by done. lia.
  - lia.
  - pose proof (one_remove t u _ Hh). lia.
  - lia.
  - pose proof (one_remove t u _ E). lia.
  - lia.
  - pose proof (one_remove t u _ Hh). lia.
Qed.

(** C9. Inline hooks are never lost and never doubled, however threads
    interleave their calls: in every reachable state, a thread that is about
    to hook an address is the only one that holds it and Dobby has not hooked
    it; every address Dobby has hooked is in g_hooked, so it can be unhooked;
    and when no call is under way the two sets are the same. *)
Theorem inline_hooks_exclusive n c :
  rtc hook_step (Config ∅ ∅ (replicate n Idle)) c ->
  (forall i t, at_phase i (HookInserted t) c -> (t ∉ c_dobby c) /\ owners t (c_threads c) = 1%nat)
  /\ c_dobby c ⊆ c_hooked c
  /\ (Forall (fun ph => ph = Idle) (c_threads c) -> c_hooked c = c_dobby c).
Proof.
  intros Hr. assert (Hx : exclusive c).
  { revert Hr. apply (rtc_ind_r exclusive).
    - intros t. cbn [c_hooked c_dobby c_threads]. rewrite !one_false by apply not_elem_of_empty.
      rewrite owners_idle; [done|]. by apply Forall_replicate.
    - intros c1 c2 _ Hs IH. by eapply hook_step_exclusive. }
  split; [|split].
  - intros i t Hi. by destruct (exclusive_owner _ _ _ t Hx Hi eq_refl) as (_ & ? & ?).
  - intros t Ht. specialize (Hx t). rewrite (one_true (t ∈ c_dobby c)) in Hx by done. unfold one in Hx. case_decide; [done|lia].
  - intros Hidle. apply set_eq. intros t. specialize (Hx t).
    rewrite owners_idle in Hx by done. unfold one in Hx. repeat case_decide; lia || done.
Qed.

(** ** The calls are steps *)

Inductive hook_request := RHook (target addr original : Z) | RUnhook (target : Z).

(** What a thread does for a call. *)
Definition hook_code (q : hook_request) : hprog :=
  match q with RHook t addr original => inlineHook_code t addr original | RUnhook t => inlineUnhook_code t end.

(** Several threads: g_hooked, Dobby's hooks, and what each has left to do. *)
Record pool := Pool { o_hooked : gset Z; o_dobby : gset Z; o_threads : list hprog }.

Definition goes (c : pool) (i : nat) (hooked dobby : gset Z) (p : hprog) : pool :=
  Pool hooked dobby (<[i := p]> (o_threads c)).

(** One action of the thread [i]. A thread that is done makes its next call.
    Dobby can refuse; it removes only a hook it has. *)
Inductive thread_step (c : pool) (i : nat) : pool -> Prop :=
| run_call r q :
    o_threads c !! i = Some (HDone r) -> thread_step c i (goes c i (o_hooked c) (o_dobby c) (hook_code q))
| run_insert t k inserted hooked :
    o_threads c !! i = Some (HInsert t k) -> hook_insert t (o_hooked c) = (inserted, hooked) ->
    thread_step c i (goes c i hooked (o_dobby c) (k inserted))
| run_find t k :
    o_threads c !! i = Some (HFind t k) ->
    thread_step c i (goes c i (o_hooked c) (o_dobby c) (k (hook_found t (o_hooked c))))
| run_erase t k :
    o_threads c !! i = Some (HErase t k) ->
    thread_step c i (goes c i (hook_erase t (o_hooked c)) (o_dobby c) k)
| run_dobby_hook t addr original k (ok : bool) :
    o_threads c !! i = Some (HDobbyHook t addr original k) ->
    thread_step c i (goes c i (o_hooked c) (if ok then {[t]} ∪ o_dobby c else o_dobby c) (k ok))
| run_dobby_destroy t k (ok : bool) :
    o_threads c !! i = Some (HDobbyDestroy t k) -> (ok = true -> t ∈ o_dobby c) ->
    thread_step c i (goes c i (o_hooked c) (if ok then o_dobby c ∖ {[t]} else o_dobby c) (k ok)).

(** Where a thread is when it has [p] left to do. *)
Inductive in_phase : hprog -> phase -> Prop :=
| ph_done r : in_phase (HDone r) Idle
| ph_hook t addr original : in_phase (HInsert t (after_insert t addr original)) Idle
| ph_unhook t : in_phase (HFind t (after_find t)) Idle
| ph_inserted t addr original : in_phase (HDobbyHook t addr original (after_dobby_hook t)) (HookInserted t)
| ph_failed t : in_phase (HErase t (HDone ZN_FAILED)) (HookFailed t)
| ph_found t : in_phase (HDobbyDestroy t (after_destroy t)) (UnhookFound t)
| ph_destroyed t : in_phase (HErase t (HDone ZN_SUCCESS)) (UnhookDestroyed t).

(** The configuration of the steps above that a pool stands for. *)
Definition represents (o : pool) (c : hook_config) : Prop :=
  c_hooked c = o_hooked o /\ c_dobby c = o_dobby o /\ Forall2 in_phase (o_threads o) (c_threads c).

Lemma code_idle q : in_phase (hook_code q) Idle.
Proof.
  destruct q; cbn [hook_code]; unfold inlineHook_code, inlineUnhook_code; case_match; constructor.
Qed.

Lemma represents_go o c i p ph hooked dobby :
  represents o c -> in_phase p ph -> represents (goes o i hooked dobby p) (Config hooked dobby (to_phase i ph c)).
Proof. intros (_ & _ & Hf) Hp. split; [done|]. split; [done|]. by apply Forall2_insert. Qed.

(** An action of a thread is a step of the configuration, or none. *)
Lemma thread_step_simulates o i o' c :
  thread_step o i o' -> represents o c -> exists c', rtc hook_step c c' /\ represents o' c'.
Proof.
  intros Hs Hr. pose proof Hr as (Eh & Ed & Hf).
  assert (Hat : forall p, o_threads o !! i = Some p -> exists ph, at_phase i ph c /\ in_phase p ph).
  { intros p Hp. destruct (Forall2_lookup_l _ _ _ _ _ Hf Hp) as (ph & H1 & H2). eauto. }
  assert (Hstay : forall p ph, at_phase i ph c -> in_phase p ph ->
    represents (goes o i (o_hooked o) (o_dobby o) p) c).
  { intros p ph Ha Hp. pose proof (represents_go o c i p ph (o_hooked o) (o_dobby o) Hr Hp) as H.
    unfold to_phase in H. rewrite list_insert_id in H by exact Ha. destruct c as [h d l]. cbn in Eh, Ed. by subst h d. }
  destruct Hs as [r q Hi|t k ins hooked Hi E|t k Hi|t k Hi|t addr original k ok Hi|t k ok Hi Hok];
    destruct (Hat _ Hi) as (ph & Ha & Hp); inversion Hp; subst; clear Hp.
  - exists c. split; [done|]. eapply Hstay; [exact Ha|apply code_idle].
  - destruct ins; cbn [after_insert].
    + eexists. split; [apply rtc_once, (step_insert c i t hooked Ha); by rewrite Eh|].
      rewrite Ed. apply represents_go; [done|constructor].
    + unfold hook_insert in E. case_bool_decide; [|done]. injection E as <-.
      exists c. split; [done|]. eapply Hstay; [exact Ha|constructor].
  - destruct (hook_found t (o_hooked o)) eqn:Ef; cbn [after_find].
    + eexists. split; [apply rtc_once, (step_find c i t Ha); by rewrite Eh|].
      rewrite Ed, Eh. apply represents_go; [done|constructor].
    + exists c. split; [done|]. eapply Hstay; [exact Ha|constructor].
  - eexists. split; [apply rtc_once, (step_erase_failed c i t Ha)|]. rewrite Ed, Eh. apply represents_go; [done|constructor].
  - eexists. split; [apply rtc_once, (step_erase_destroyed c i t Ha)|]. rewrite Ed, Eh. apply represents_go; [done|constructor].
  - destruct ok; cbn [after_dobby_hook].
    + eexists. split; [apply rtc_once, (step_hook_ok c i t Ha)|]. rewrite Ed, Eh. apply represents_go; [done|constructor].
    + eexists. split; [apply rtc_once, (step_hook_fails c i t Ha)|]. rewrite Ed, Eh. apply represents_go; [done|constructor].
  - destruct ok; cbn [after_destroy].
    + eexists. split; [apply rtc_once, (step_destroy_ok c i t Ha); rewrite Ed; auto|].
      rewrite Ed, Eh. apply represents_go; [done|constructor].
    + eexists. split; [apply rtc_once, (step_destroy_fails c i t Ha)|]. rewrite Ed, Eh. apply represents_go; [done|constructor].
Qed.

Section Steps.
Context {W : Type} `{!World W}.
Abbreviation K := (M W np).

Definition hook_do (q : hook_request) : K Z :=
  match q with
  | RHook target addr original => api_inlineHook target addr original
  | RUnhook target => api_inlineUnhook target
  end.

(** C27. The two calls of the API run programs of critical sections and calls
    of Dobby; when these programs are interleaved action by action in any
    number of threads, each making any calls one after the other, every
    reachable state of g_hooked and of Dobby's hooks is one that the steps
    above reach, with each thread in the phase its program is at. So what
    holds of all sequences of steps holds of all interleavings of the calls.
    Dobby removes only hooks it has. *)
Theorem hook_calls_are_steps :
  (forall q, hook_do q = (run_code (hook_code q) : K Z))
  /\ forall n r o,
      rtc (fun o o' => exists i, thread_step o i o') (Pool ∅ ∅ (replicate n (HDone r))) o ->
      exists c, rtc hook_step (Config ∅ ∅ (replicate n Idle)) c /\ represents o c.
Proof.
  split; [by intros []|]. intros n r o Hr.
  revert Hr. apply (rtc_ind_r (fun o => exists c, rtc hook_step (Config ∅ ∅ (replicate n Idle)) c /\ represents o c)).
  - eexists. split; [reflexivity|]. split; [done|]. split; [done|]. apply Forall2_replicate. constructor.
  - intros o1 o2 _ [i Hs] (c & Hc & Hr). destruct (thread_step_simulates _ _ _ _ Hs Hr) as (c' & Hc' & Hr').
    exists c'. split; [by etrans|done].
Qed.
End Steps.

(** ** Examples *)

Lemma inline_hooks_exclusive_witness :
  let c := Config {[5]} ∅ [HookInserted 5; UnhookFound 5] in
  rtc hook_step (Config ∅ ∅ (replicate 2 Idle)) c
  /\ (forall i t, at_phase i (HookInserted t) c -> (t ∉ c_dobby c) /\ owners t (c_threads c) = 1%nat)
  /\ c_dobby c ⊆ c_hooked c
  /\ (Forall (fun ph => ph = Idle) (c_threads c) -> c_hooked c = c_dobby c).
Proof.
  intros c. assert (Hr : rtc hook_step (Config ∅ ∅ (replicate 2 Idle)) c).
  { pose proof (step_insert (Config ∅ ∅ (replicate 2 Idle)) 0 5 ({[5]} ∪ ∅) eq_refl eq_refl) as S1.
    pose proof (step_find (Config {[5]} ∅ [HookInserted 5; Idle]) 1 5 eq_refl eq_refl) as S2.
    rewrite (right_id_L ∅ (∪)) in S1. eapply rtc_l; [exact S1|]. by apply rtc_once. }
  split; [exact Hr|]. exact (inline_hooks_exclusive 2 c Hr).
Defined.

Definition hooked_state : st script np := St [] [] 0 (NP api_zs None (set_n_hooked {[5]} zn_init)).

(** Two threads: one has inserted 5, the other is about to look for it. *)
Definition two_threads : pool :=
  Pool {[5]} ∅ [HDobbyHook 5 6 0 (after_dobby_hook 5); HFind 5 (after_find 5)].

Lemma hook_calls_are_steps_witness :
  hook_do (W := script) (RUnhook 5) = run_code (hook_code (RUnhook 5))
  /\ (exists s', hook_do (RUnhook 5) hooked_state = (Ret ZN_SUCCESS, s') /\ elements (n_hooked (p_zn (st_s s'))) = [])
  /\ exists c, rtc hook_step (Config ∅ ∅ (replicate 2 Idle)) c /\ represents two_threads c.
Proof.
  destruct (hook_calls_are_steps (W := script)) as [H1 H2].
  split; [apply H1|]. split; [eexists; split; vm_compute; reflexivity|]. apply (H2 2%nat 0).
  pose proof (run_call (Pool ∅ ∅ (replicate 2 (HDone 0))) 0 0 (RHook 5 6 0) eq_refl) as S1.
  pose proof (run_insert _ 0 5 _ true _ (eq_refl : o_threads (Pool ∅ ∅ [HInsert 5 (after_insert 5 6 0); HDone 0]) !! 0%nat = _) eq_refl) as S2.
  pose proof (run_call (Pool {[5]} ∅ [HDobbyHook 5 6 0 (after_dobby_hook 5); HDone 0]) 1 0 (RUnhook 5) eq_refl) as S3.
  cbn in S2. rewrite (right_id_L ∅ (∪)) in S2.
  eapply rtc_l; [exists 0%nat; exact S1|]. eapply rtc_l; [exists 0%nat; exact S2|]. apply rtc_once. exists 1%nat. exact S3.
Defined.
