(* ===== verification/Hyos.v ===== *)
(** The runtime for applications of hyos_spawner (the HYOS part of
    loader/src/injector/zn_api.cpp): its variables stay well formed, an
    application is announced at most once and only in a child, and then to
    every module.

    Code is classified by how far it can move the state: [still] code leaves
    the runtime's variables alone, [calm] code only adds to them, and neither
    announces anything; [runs_rel] and [once_rel] are what calls of modules,
    which can call back into the API at any depth, preserve. *)
From S2P Require Import Prelude Sys Text SocketUtils ProcUtils Mem Linker ModLoader ElfParser Daemon SoList Context Hook ElfUtil ZnApi.
Open Scope Z_scope.

(** ** Code that leaves the runtime alone *)

Definition is_spec (c : call) : bool := match c with CZnSpecialized _ _ _ _ => true | _ => false end.
Definition unspec (e : event) : Prop := is_spec e.1 = false.

Section Still.
Context {W : Type} `{!World W}.
Abbreviation K := (M W np).

(** The events added deliver nothing. *)
Definition log_calm {S} (s s' : st W S) : Prop := exists evs, st_log s' = evs ++ st_log s /\ Forall unspec evs.

#[export] Instance log_calm_preorder {S} : PreOrder (@log_calm S).
Proof.
  split.
  - intros s. by exists [].
  - intros s1 s2 s3 (e1 & E1 & H1) (e2 & E2 & H2). exists (e2 ++ e1). rewrite E2, E1, app_assoc. split; [done|].
    by apply Forall_app.
Qed.

(** The context of the zygote's hooks. *)
Definition hook_of (s : st W np) : pointer hook := z_hook (p_zs (st_s s)).

(** Nothing is delivered; the variables of zn_api.cpp and the zygote's hooks
    are as before. *)
Definition still_rel (s s' : st W np) : Prop :=
  log_calm s s' /\ p_zn (st_s s') = p_zn (st_s s) /\ hook_of s' = hook_of s.

#[export] Instance still_preorder : PreOrder still_rel.
Proof.
  split; [by intros s|]. intros s1 s2 s3 (A1 & A2 & A3) (B1 & B2 & B3). split; [by etrans|]. split; congruence.
Qed.

(** Every run moves along [R]. *)
Definition moves (R : st W np -> st W np -> Prop) {A} (m : K A) : Prop := forall s, wp m (fun _ s' => R s s') s.

Section Moves.
Context (R : st W np -> st W np -> Prop) `{!PreOrder R} (Hsub : forall s s', still_rel s s' -> R s s').

Lemma moves_bind {A C} (m : K A) (f : A -> K C) : moves R m -> (forall a, moves R (f a)) -> moves R (m ≫= f).
Proof.
  intros Hm Hf s. wstep. eapply wp_mono; [apply Hm|]. intros [a| | |] s1 H1; cbn [wp_cont]; [|done..].
  eapply wp_mono; [apply Hf|]. intros o s2 H2. by etrans.
Qed.

Lemma moves_still {A} (m : K A) : moves still_rel m -> moves R m.
Proof. intros Hm s. eapply wp_mono; [apply Hm|]. intros o s'. apply Hsub. Qed.
End Moves.

Abbreviation still := (moves still_rel).

Lemma still_syscall c : is_spec c = false -> still (syscall c : K reply).
Proof. intros Hc s. apply wp_syscall. intros r w e. split; [|done]. exists [(c, r)]. split; [done|]. by repeat constructor. Qed.

Lemma still_pure {A} (m : K A) : (forall s, (m s).2 = s) -> still m.
Proof. intros H s. unfold wp. by rewrite H. Qed.

Lemma still_modify f : (forall x, p_zn (f x) = p_zn x /\ z_hook (p_zs (f x)) = z_hook (p_zs x)) -> still (modify f).
Proof. intros Hf s. wrun. split; [by exists []|apply Hf]. Qed.

Lemma still_zs {A} (m : M W zs A) : emits unspec m -> (forall h, keeps (fun x => z_hook x = h) m) -> still (in_zs m).
Proof.
  intros Hm Hk s. apply wp_zoom. eapply wp_mono; [apply wp_and; [apply Hm|by apply (Hk (hook_of s))]|].
  intros o s1 [(evs & E & He) Hh]. split; [by exists evs|done].
Qed.

(** What [still] gives inside a longer program. *)
Lemma wp_still {A} (m : K A) (Q : outcome A -> st W np -> Prop) s :
  still m -> (forall o s', still_rel s s' -> Q o s') -> wp m Q s.
Proof. intros Hm HQ. eapply wp_mono; [apply Hm|]. apply HQ. Qed.
End Still.

Abbreviation still := (moves still_rel).

Create HintDb still.

Ltac still_tac :=
  repeat match goal with
  | |- moves _ (mbind _ _) => apply moves_bind; [apply _| |intros ?]
  | |- moves _ (syscall _) => by apply still_syscall
  | |- moves _ (do_ _) => unfold do_
  | |- moves _ (modify _) => by apply still_modify
  | |- moves _ (if ?b then _ else _) => destruct b eqn:?
  | |- moves _ (match ?x with _ => _ end) => destruct x eqn:?
  | |- moves _ _ => first [by apply still_pure | solve [eauto with still]]
  end.

Section StillOps.
Context {W : Type} `{!World W} `{!Symbols} (fuel : nat).
Abbreviation K := (M W np).

Lemma still_load n p : still (load n p : K (list Z)).
Proof. apply still_pure, reads_load. Qed.
Lemma still_u8 p : still (load_u8 p : K Z).
Proof. apply still_pure, reads_u8. Qed.
Lemma still_u32 p : still (load_u32 p : K Z).
Proof. apply still_pure, reads_u32. Qed.
Lemma still_u64 p : still (load_u64 p : K Z).
Proof. apply still_pure, reads_u64. Qed.
Lemma still_cstr n p : still (load_cstr n p : K (list Z)).
Proof. apply still_pure, reads_cstr. Qed.
Lemma still_str_eq p name : still (str_eq p name : K bool).
Proof. apply still_pure, reads_str_eq. Qed.
Lemma still_store p x : still (store_u64 p x : K unit).
Proof. unfold store_u64, store. apply moves_bind; [apply _|by apply still_pure|]. intros s. still_tac. Qed.
Lemma still_call fn args : still (call_code fn args : K Z).
Proof. unfold call_code. still_tac. Qed.
#[local] Hint Resolve still_load still_u8 still_u32 still_u64 still_cstr still_str_eq still_store still_call : still.

Lemma still_u16 p : still (load_u16 p : K Z).
Proof. unfold load_u16. still_tac. Qed.
#[local] Hint Resolve still_u16 : still.

(** A reader that only reads. *)
Definition still_reader (rd : reader (W := W) (S := np)) : Prop := forall n off, still (rd n off).

Lemma still_file_reader file : still_reader (file_reader file).
Proof. intros n off. unfold file_reader. still_tac. Qed.
Lemma still_vec_reader bytes : still_reader (vec_reader bytes).
Proof. intros n off. unfold vec_reader. still_tac. Qed.
#[local] Hint Resolve still_file_reader still_vec_reader : still.

Lemma still_rd_u rd n off : still_reader rd -> still (rd_u rd n off).
Proof. intros Hr. unfold rd_u. apply moves_bind; [apply _|apply Hr|]. intros bs. still_tac. Qed.
#[local] Hint Resolve still_rd_u : still.

Lemma still_parse rd str size n : still_reader rd -> forall sym bias, still (parseSymbols fuel rd str size n sym bias).
Proof.
  intros Hr. assert (Hc : forall k off, still (rd_cstr rd k off)).
  { induction k as [|k IH]; intros off; cbn [rd_cstr]; still_tac. }
  induction n as [|n IH]; intros sym bias; cbn [parseSymbols]; still_tac.
Qed.

Lemma still_section rd shdrs shnum limit sh bias : still_reader rd -> still (section_symbols fuel rd shdrs shnum limit sh bias).
Proof. intros Hr. unfold section_symbols. pose proof (still_parse rd) as Hp. still_tac. Qed.

Lemma still_debug n rd shdrs shnum : still_reader rd -> forall i bias, still (debug_sections fuel n rd shdrs shnum i bias).
Proof.
  intros Hr. induction n as [|n IH]; intros i bias; cbn [debug_sections]; pose proof (still_section rd) as Hs; still_tac.
Qed.

Lemma still_debugdata data size : still (parseGnuDebugData fuel data size : K (option (list Z))).
Proof.
  assert (Hx : forall n sz cap out, still (xz_loop n sz cap out : K (option (list Z)))).
  { induction n as [|n IH]; intros; cbn [xz_loop]; still_tac. }
  unfold parseGnuDebugData, decompress_xz. still_tac.
Qed.
#[local] Hint Resolve still_parse still_section still_debug still_debugdata : still.

Lemma still_file_sections n img shdrs shnum shstr : forall i bias debug,
  still (file_sections fuel n img shdrs shnum shstr i bias debug : K _).
Proof. induction n as [|n IH]; intros i bias debug; cbn [file_sections]; still_tac. Qed.
#[local] Hint Resolve still_file_sections : still.

Lemma still_parsed img : still (ensureParsed fuel img : K znImage).
Proof. unfold ensureParsed, read_symbols. still_tac. Qed.

Lemma still_maps pid : still (parseMaps pid : K (list MapEntry)).
Proof. unfold parseMaps, parseMapsPath. still_tac. Qed.

Lemma still_delete img : still (delete_image img : K unit).
Proof. unfold delete_image, munmap. still_tac. Qed.
#[local] Hint Resolve still_parsed still_maps still_delete : still.

Lemma still_lookup img name prefix : still (lookup fuel img name prefix : K _).
Proof. unfold lookup. still_tac. Qed.

Lemma still_new path base : still (new_image path base : K znImage).
Proof.
  unfold new_image, open_library, resolveMapPath, findLibraryBase, check_file, mmap.
  assert (Hr : forall file n off, still (file_reader file n off : K (list Z))) by (intros; apply still_file_reader).
  still_tac.
Qed.

Lemma still_runtime img name : still (runtimeLookup fuel img name : K _).
Proof.
  assert (H1 : forall n i p, still (find_dynamic n i p : K Z)).
  { induction n as [|n IH]; intros i p; cbn [find_dynamic]; still_tac. }
  assert (H2 : forall n i d t, still (read_dynamic n i d t : K _)).
  { induction n as [|n IH]; intros i d t; cbn [read_dynamic]; still_tac. }
  assert (H3 : forall n a b c i nm base, still (scan_symbols n a b c i nm base : K _)).
  { induction n as [|n IH]; intros; cbn [scan_symbols]; still_tac. }
  unfold runtimeLookup. still_tac.
Qed.

Lemma still_plt dev inode symbol hook : still (plt_replace dev inode symbol hook : K Z).
Proof.
  assert (H1 : forall f, (forall x, z_hook (f x) = z_hook x) -> still (in_zs (modify f) : K unit)) by
    (intros f Hf; apply still_zs; [apply emits_modify|intros h; by apply keeps_modify; intros x <-]).
  assert (H2 : forall fn backup, still (in_zs (lsplt_RegisterHook dev inode symbol fn backup) : K bool)).
  { intros fn backup. unfold lsplt_RegisterHook. apply still_zs; [by emits_tac|intros h; keeps_tac]. }
  assert (H3 : still (in_zs (lsplt_CommitHook false) : K bool)).
  { unfold lsplt_CommitHook. apply still_zs; [by emits_tac|intros h; by keeps_tac]. }
  unfold plt_replace. still_tac.
Qed.

Lemma emits_connect path : emits unspec (ConnectZnCompanion fuel path : M W daemon_state Z).
Proof.
  assert (Hw : forall n fd buf count sz, emits unspec (xwrite_loop n fd buf count sz : M W daemon_state Z)).
  { induction n as [|n IH]; intros; cbn [xwrite_loop]; emits_tac; try done; apply IH. }
  assert (Hr : forall n fd count sz buf, emits unspec (xread_loop n fd count sz buf : M W daemon_state _)).
  { induction n as [|n IH]; intros; cbn [xread_loop]; emits_tac; try done; apply IH. }
  unfold ConnectZnCompanion, Connect, GetTmpPath, companion_answer, send_action, write_string, write_usize, write_u8, read_u8,
    write_exact, read_exact_or, xwrite, xread, Connect_loop, SetSocketTimeout, close_.
  emits_tac; try done; first [apply Hw | apply Hr].
Qed.

Lemma still_companion path : still (in_zs (in_daemon (ConnectZnCompanion fuel path)) : K Z).
Proof.
  apply still_zs; [|intros h; by apply keeps_zoom]. intros s. apply wp_zoom. eapply wp_mono; [apply emits_connect|].
  intros o s1 (evs & E & He). by exists evs.
Qed.
End StillOps.

#[export] Hint Resolve still_load still_u8 still_u32 still_u64 still_cstr still_store still_call still_parsed still_maps
  still_delete still_lookup still_new still_runtime still_plt still_companion : still.

(** ** The state of the runtime *)

(** A C string of at most [n] characters. *)
Definition text_ok (n : nat) (text : list Z) : Prop := (length text <= n)%nat /\ Forall (fun c => c <> 0) text.

Definition hyos_module_ok (m : hyos_module) : Prop :=
  hm_onAppSpecialized m <> 0 /\ hm_version m <= ZYGISK_NEXT_HYOS_API_VERSION.

Definition zn_ok (z : zn_state) : Prop :=
  Z.of_nat (length (n_modules z)) <= kMaxHyosModules
  /\ Forall hyos_module_ok (n_modules z)
  /\ text_ok 255 (n_cap_name z)
  /\ (n_cap_has z = true -> n_cap_name z <> []).

(** What only grows, and what stays once it is set. *)
Record grows (z z' : zn_state) : Prop := {
  grow_modules : n_modules z `prefix_of` n_modules z';
  grow_fired : n_fired z = true -> n_fired z' = true;
  grow_setcontext : n_orig_setcontext z <> 0 -> n_orig_setcontext z' = n_orig_setcontext z;
  grow_setname : n_orig_setname z <> 0 -> n_orig_setname z' = n_orig_setname z;
  grow_name : n_cap_has z = true -> n_cap_has z' = true /\ n_cap_name z' = n_cap_name z;
  grow_pid : n_spawner_pid z' = n_spawner_pid z;
  grow_runtime : n_runtime z' = n_runtime z }.

#[export] Instance grows_preorder : PreOrder grows.
Proof.
  split.
  - intros z. by split.
  - intros x y z [A1 A2 A3 A4 A5 A6 A7] [B1 B2 B3 B4 B5 B6 B7]. split.
    + by etrans.
    + auto.
    + intros Hn. rewrite <- (A3 Hn). apply B3. by rewrite (A3 Hn).
    + intros Hn. rewrite <- (A4 Hn). apply B4. by rewrite (A4 Hn).
    + intros Hn. destruct (A5 Hn) as [H1 <-]. by apply B5.
    + congruence.
    + congruence.
Qed.

Section Calm.
Context {W : Type} `{!World W} `{!Symbols} `{!ZnCode} (fuel : nat) (nr_getpid : Z).
Abbreviation K := (M W np).

(** The runtime's state stays well formed and only grows, nothing is
    delivered, and the zygote's hooks are as before. *)
Definition calm_rel (s s' : st W np) : Prop := zn_ok (p_zn (st_s s)) ->
  zn_ok (p_zn (st_s s')) /\ grows (p_zn (st_s s)) (p_zn (st_s s')) /\ n_fired (p_zn (st_s s')) = n_fired (p_zn (st_s s))
  /\ log_calm s s' /\ hook_of s' = hook_of s.

#[export] Instance calm_preorder : PreOrder calm_rel.
Proof.
  split; [by intros s|]. intros s1 s2 s3 A B Hok. destruct (A Hok) as (H2 & A1 & A2 & A3 & A4). destruct (B H2) as (H3 & B1 & B2 & B3 & B4).
  split; [done|]. split; [by etrans|]. split; [congruence|]. split; [by etrans|congruence].
Qed.

Lemma still_calm (s s' : st W np) : still_rel s s' -> calm_rel s s'.
Proof. intros (Hl & Hz & Hh) Hok. rewrite Hz. split; [done|]. by split; [reflexivity|]. Qed.

Lemma calm_same (s : st W np) z' :
  (zn_ok (p_zn (st_s s)) -> zn_ok z' /\ grows (p_zn (st_s s)) z' /\ n_fired z' = n_fired (p_zn (st_s s))) ->
  calm_rel s (St (st_w s) (st_log s) (st_errno s) (pset_zn z' (st_s s))).
Proof. intros Hz Hok. destruct (Hz Hok) as (? & ? & ?). do 3 (split; [done|]). by split; [exists []|]. Qed.

Abbreviation calm := (moves calm_rel).

Lemma calm_still {A} (m : K A) : still m -> calm m.
Proof. apply moves_still. apply still_calm. Qed.

Lemma calm_upd f : (forall z, zn_ok z -> zn_ok (f z) /\ grows z (f z) /\ n_fired (f z) = n_fired z) -> calm (upd_zn f : K unit).
Proof. intros Hf s. unfold upd_zn. wrun. apply calm_same, Hf. Qed.

(** Reading the variables: what follows may rely on them. *)
Lemma moves_zn R `{!PreOrder R} {A} (k : zn_state -> K A) :
  (forall s, wp (k (p_zn (st_s s))) (fun _ s' => R s s') s) -> moves R (zn ≫= k).
Proof. intros Hk s. unfold zn. wrun. apply Hk. Qed.
End Calm.

Abbreviation calm := (moves calm_rel).

Create HintDb calm.

Ltac calm_tac :=
  repeat match goal with
  | |- moves _ (mbind _ _) => apply moves_bind; [apply _| |intros ?]
  | |- moves _ (if ?b then _ else _) => destruct b eqn:?
  | |- moves _ (match ?x with _ => _ end) => destruct x eqn:?
  | |- moves _ (upd_zn _) => apply calm_upd; by intros
  | |- moves _ _ => first [solve [eauto with calm] | solve [apply calm_still; still_tac]]
  end.

Section CalmOps.
Context {W : Type} `{!World W} `{!Symbols} `{!ZnCode} (fuel : nat) (nr_getpid : Z).
Abbreviation K := (M W np).

Lemma calm_plt base symbol hook original : calm (api_pltHook base symbol hook original : K Z).
Proof. unfold api_pltHook. calm_tac. Qed.

Lemma calm_dobby target addr original : still (DobbyHook target addr original : K (option Z)).
Proof. unfold DobbyHook. still_tac. Qed.
#[local] Hint Resolve calm_dobby : still.

Lemma calm_code p : calm (run_code p : K Z).
Proof. induction p; cbn [run_code]; calm_tac. Qed.

Lemma calm_inline target addr original : calm (api_inlineHook target addr original : K Z).
Proof. apply calm_code. Qed.

Lemma calm_unhook target : calm (api_inlineUnhook target : K Z).
Proof. apply calm_code. Qed.

Lemma calm_new path base : calm (api_newSymbolResolver path base : K Z).
Proof. unfold api_newSymbolResolver, put_resolver. calm_tac. Qed.

Lemma still_resolver r : still (get_resolver r : K znImage).
Proof. unfold get_resolver. still_tac. Qed.
#[local] Hint Resolve still_resolver : still.

Lemma calm_free r : calm (api_freeSymbolResolver r : K unit).
Proof. unfold api_freeSymbolResolver. calm_tac. Qed.

Lemma calm_base r : calm (api_getBaseAddress r : K Z).
Proof. unfold api_getBaseAddress. calm_tac. Qed.

Lemma calm_lookup r name prefix size : calm (api_symbolLookup fuel r name prefix size : K Z).
Proof. unfold api_symbolLookup, put_resolver. calm_tac. Qed.

Lemma calm_connect h : calm (api_connectCompanion fuel h : K Z).
Proof. unfold api_connectCompanion. calm_tac. Qed.

Lemma still_child : still (hyosInChild nr_getpid : K bool).
Proof. unfold hyosInChild, getpid_raw. still_tac. Qed.
#[local] Hint Resolve still_child : still.

Lemma calm_spawner : calm (find_spawner : K unit).
Proof. unfold find_spawner. calm_tac. Qed.

(** A variable that is set only while it is 0. *)
Definition settable (orig : zn_state -> Z) (set_orig : Z -> zn_state -> zn_state) : Prop := forall z f,
  zn_ok z -> orig z = 0 -> zn_ok (set_orig f z) /\ grows z (set_orig f z) /\ n_fired (set_orig f z) = n_fired z.

Lemma settable_setcontext : settable n_orig_setcontext set_n_orig_setcontext.
Proof. intros z f Hok Hz. split; [exact Hok|]. by split. Qed.
Lemma settable_setname : settable n_orig_setname set_n_orig_setname.
Proof. intros z f Hok Hz. split; [exact Hok|]. by split. Qed.

Lemma calm_set orig set_orig f (s s1 : st W np) : settable orig set_orig -> orig (p_zn (st_s s)) = 0 -> still_rel s s1 ->
  wp (upd_zn (set_orig f)) (fun _ s' => calm_rel s s') s1.
Proof.
  intros Hset Hz H1. unfold upd_zn. wrun. etrans; [by apply still_calm|]. apply calm_same. intros Hok.
  apply Hset; [done|]. by rewrite (proj1 (proj2 H1)).
Qed.

Lemma calm_plt_spawner symbol orig set_orig : settable orig set_orig -> calm (pltHookSpawner symbol orig set_orig : K unit).
Proof.
  intros Hset. apply (moves_zn _). intros s. destruct (_ || _) eqn:E; [by wrun|]. wstep. apply wp_still; [apply still_plt|].
  apply orb_false_iff in E as [_ E%negb_false_iff%Z.eqb_eq].
  intros [b| | |] s1 H1; cbn [wp_cont]; [|by apply still_calm..]. destruct (negb _); [by apply (calm_set orig)|wrun; by apply still_calm].
Qed.

Lemma calm_inline_spawner symbol library orig set_orig :
  settable orig set_orig -> calm (inlineHookSpawner symbol library orig set_orig : K unit).
Proof.
  intros Hset. apply (moves_zn _). intros s. destruct (negb _) eqn:E; [by wrun|]. apply negb_false_iff, Z.eqb_eq in E.
  wstep. apply wp_still; [by apply still_syscall|]. intros [f| | |] s1 H1; cbn [wp_cont]; [|by apply still_calm..].
  wstep. apply wp_still; [still_tac|]. intros [fn| | |] s2 H2; cbn [wp_cont]; [|by apply still_calm; etrans..].
  destruct (fn =? 0); [wrun; apply still_calm; by etrans|].
  wstep. apply wp_still; [unfold inlineHookRaw; still_tac|].
  intros [o| | |] s3 H3; cbn [wp_cont]; [|apply still_calm; etrans; [exact H1|]; by etrans..].
  destruct o as [g|]; [apply (calm_set orig); [done..|]; etrans; [exact H1|]; by etrans|].
  wrun. apply still_calm. etrans; [exact H1|]. by etrans.
Qed.

Lemma calm_install : calm (hyosInstallHooks : K unit).
Proof.
  unfold hyosInstallHooks. pose proof calm_spawner.
  pose proof (fun sym => calm_plt_spawner sym _ _ settable_setcontext). pose proof (fun sym => calm_plt_spawner sym _ _ settable_setname).
  pose proof (fun sym lib => calm_inline_spawner sym lib _ _ settable_setcontext).
  pose proof (fun sym lib => calm_inline_spawner sym lib _ _ settable_setname). calm_tac.
Qed.
#[local] Hint Resolve calm_install : calm.

Lemma calm_prepare : calm (hyosAtForkPrepare : K unit).
Proof. unfold hyosAtForkPrepare. calm_tac. Qed.

(** A module that passed the checks joins a list that has room. *)
Lemma push_module z m : hyos_module_ok m -> Z.of_nat (length (n_modules z)) < kMaxHyosModules -> zn_ok z ->
  zn_ok (set_n_modules (n_modules z ++ [m]) z) /\ grows z (set_n_modules (n_modules z ++ [m]) z).
Proof.
  intros Hm Hl (A1 & A2 & A3 & A4). split.
  - split; [cbn [n_modules set_n_modules]; rewrite length_app; cbn [length]; lia|]. split; [|done].
    cbn [n_modules set_n_modules]. apply Forall_app. auto.
  - split; try done. by eexists.
Qed.

Lemma calm_register module : calm (api_hyos_registerModule nr_getpid module : K Z).
Proof.
  unfold api_hyos_registerModule. destruct (module =? 0); [calm_tac|].
  apply moves_bind; [apply _|apply calm_still; still_tac|]. intros fn. destruct (Z.eqb_spec fn 0) as [|Hfn]; [calm_tac|].
  apply moves_bind; [apply _|apply calm_still; still_tac|]. intros v. destruct (Z.ltb_spec ZYGISK_NEXT_HYOS_API_VERSION (swrap 32 v)); [calm_tac|].
  apply (moves_zn _). intros s. destruct (Z.leb_spec kMaxHyosModules (Z.of_nat (length (n_modules (p_zn (st_s s)))))) as [|Hl]; [by wrun|].
  wstep. unfold upd_zn at 1. apply wp_modify. cbn [wp_cont].
  assert (Hrest : calm (child ← hyosInChild nr_getpid;
    (if negb child then
       z ← zn; (if negb (n_atfork z) then upd_zn (set_n_atfork true);; do_ (CAtfork (new_fn (B "hyosAtForkPrepare"))) else mret tt);;
       hyosInstallHooks
     else mret tt);; mret ZN_SUCCESS : K Z)) by calm_tac.
  eapply wp_mono; [apply Hrest|]. intros o s' Hs'. etrans; [|exact Hs']. apply calm_same. intros Hok.
  destruct (push_module (p_zn (st_s s)) (HyosModule (swrap 32 v) fn)) as [P1 P2]; [by split|lia|done|]. by split.
Qed.

Lemma cstr_nonzero n : forall p (s : st W np), wp (load_cstr n p) (on_ret (fun t _ => Forall (fun c => c <> 0) t)) s.
Proof.
  induction n as [|n IH]; intros p s; cbn [load_cstr]; [done|]. wstep. apply wp_reads; [apply reads_u8|].
  intros [b| | |] _; cbn [wp_cont on_ret]; [|done..]. destruct (Z.eqb_spec b 0); [by wrun; constructor|]. wstep.
  eapply wp_mono; [apply IH|]. intros [t| | |] s1 Ht; cbn [wp_cont on_ret]; [|done..]. wrun. by constructor.
Qed.

Lemma strlcpy_ok n text : Forall (fun c => c <> 0) text -> text_ok (n - 1) (strlcpy_text n text).
Proof. intros Ht. unfold strlcpy_text. split; [rewrite length_take; lia|by apply Forall_take]. Qed.

(** A string whose first character was seen. *)
Lemma cstr_first n p b (s : st W np) : (load_u8 p s).1 = Ret b -> b <> 0 ->
  wp (load_cstr n p) (on_ret (fun t _ => t <> [] /\ Forall (fun c => c <> 0) t)) s.
Proof.
  intros E Hb. destruct n as [|n]; cbn [load_cstr]; [done|]. wstep. apply wp_reads; [apply reads_u8|].
  intros o Eo. rewrite Eo in E. cbn in E. subst o. cbn [wp_cont]. destruct (Z.eqb_spec b 0); [done|]. wstep.
  eapply wp_mono; [apply cstr_nonzero|]. intros [t| | |] s1 Ht; cbn [wp_cont on_ret]; [|done..]. wrun. split; [done|]. by constructor.
Qed.

Lemma load_u8_state p (s s' : st W np) : st_s s = st_s s' -> (load_u8 p s).1 = (load_u8 p s').1.
Proof. intros E. unfold load_u8, load, mbind, M_bind, get. rewrite E. by destruct (read_bytes _ _ _). Qed.

(** Calls that leave all variables alone. *)
Definition same_vars {A} (m : K A) : Prop := forall s, wp m (fun _ s' => st_s s' = st_s s /\ still_rel s s') s.

Lemma same_child : same_vars (hyosInChild nr_getpid : K bool).
Proof.
  intros s. unfold hyosInChild, getpid_raw, zn. wrun. destruct (_ =? 0); [wrun; split; [done|reflexivity]|]. wrun. apply wp_syscall. intros r w e. wrun.
  split; [done|]. split; [|done]. exists [(CSyscall nr_getpid [], r)]. split; [done|]. by repeat constructor.
Qed.

(** The first name a child gives to its main thread is kept. *)
Lemma capture_name name first (s0 s : st W np) :
  still_rel s0 s -> n_cap_has (p_zn (st_s s0)) = false -> (load_u8 name s).1 = Ret first -> first <> 0 ->
  wp (text ← load_cstr fuel name; upd_zn (fun z => set_n_cap_has true (set_n_cap_name (strlcpy_text 256 text) z)))
    (fun _ s' => calm_rel s0 s') s.
Proof.
  intros H1 Hcap Hload Hfirst. wstep.
  eapply wp_mono; [apply wp_and; [by eapply cstr_first|apply still_cstr]|].
  intros [t| | |] s2 [Ht H2]; cbn [wp_cont]; [|by apply still_calm; etrans..]. destruct Ht as [Hne Hnz].
  assert (H3 : still_rel s0 s2) by by etrans. unfold upd_zn. wrun. etrans; [by apply still_calm|]. apply calm_same.
  rewrite (proj1 (proj2 H3)). intros (A1 & A2 & A3 & A4). destruct (strlcpy_ok 256 t Hnz) as [B1 B2]. split; [|split; [split|]]; try done.
  - split; [done|]. split; [done|]. split; [done|]. intros _. by destruct t.
  - cbn. by rewrite Hcap.
Qed.

Lemma calm_setname thread name : calm (hyosSetnameHook fuel nr_getpid thread name : K Z).
Proof.
  unfold hyosSetnameHook. apply moves_bind; [apply _|apply calm_still; still_tac|]. intros z0.
  apply moves_bind; [apply _|apply calm_still; still_tac|]. intros ret. apply (moves_zn _). intros s.
  wstep. eapply (wp_mono _ (fun _ s' => calm_rel s s')).
  2: { intros [[]| | |] s' Hs'; cbn [wp_cont]; [by wrun|done..]. }
  destruct (_ || _) eqn:E; [by wrun|]. apply orb_false_iff in E as [E _]. apply orb_false_iff in E as [E _].
  apply orb_false_iff in E as [_ Hcap]. wstep. apply wp_reads; [apply reads_u8|].
  intros [first| | |] Hload; cbn [wp_cont]; [|done..]. destruct (Z.eqb_spec first 0) as [|Hfirst]; [by wrun|].
  wstep. apply wp_syscall. intros self w e. cbn [wp_cont]. set (s1 := St w _ e _).
  assert (H1 : still_rel s s1). { split; [|done]. exists [(CPthreadSelf, self)]. split; [done|]. by repeat constructor. }
  destruct (negb _); [wrun; by apply still_calm|]. wstep. eapply wp_mono; [apply same_child|].
  intros [child| | |] s2 [E2 H2]; cbn [wp_cont]; [|by apply still_calm; etrans..].
  destruct (negb child); [wrun; apply still_calm; by etrans|].
  eapply capture_name; [by etrans|done| |exact Hfirst]. rewrite (load_u8_state name s2 s) by exact E2. by rewrite Hload.
Qed.
End CalmOps.

(** ** Calls of modules from calls of modules *)

Section Runs.
Context {W : Type} `{!World W} `{!Symbols} `{!ZnCode} (fuel : nat) (nr_getpid : Z).
Abbreviation K := (M W np).

Lemma wp_get_log (Q : outcome (list event) -> st W np -> Prop) s : Q (Ret (st_log s)) s -> wp get_log Q s.
Proof. done. Qed.

Lemma still_module_name : still (process_name fuel : K (list Z)).
Proof.
  assert (Hr : forall n c, is_spec c = false -> still (retry_eintr n c : K reply)).
  { induction n as [|n IH]; intros c Hc; cbn [retry_eintr]; still_tac. }
  assert (Hl : forall n fd out, still (cmdline_loop fuel n fd out : K _)).
  { induction n as [|n IH]; intros fd out; cbn [cmdline_loop]; still_tac. }
  unfold process_name, readProcCmdline. still_tac.
Qed.

Lemma still_text p : still (text_at fuel p : K (list Z)).
Proof. unfold text_at. still_tac. Qed.

Section Relation.
Context (R : st W np -> st W np -> Prop) `{!PreOrder R} (Hcalm : forall s s', calm_rel s s' -> R s s').

Lemma of_calm {A} (m : K A) : calm m -> moves R m.
Proof. intros Hm s. eapply wp_mono; [apply Hm|]. intros o s'. apply Hcalm. Qed.

Lemma of_still {A} (m : K A) : still m -> moves R m.
Proof. intros Hm. by apply of_calm, calm_still. Qed.

(** A function of a module, apart from its own event. *)
Lemma moves_module_call run c fn : (forall p, moves R (run p)) -> is_spec c = false -> moves R (module_call run c fn : K Z).
Proof.
  intros Hrun Hc. unfold module_call. apply moves_bind; [done|by apply of_still, still_syscall|]. intros r.
  apply moves_bind; [done|apply of_still; by apply still_modify|]. intros _.
  apply moves_bind; [done|by apply of_still, still_pure|]. intros log.
  apply moves_bind; [done|apply Hrun|]. intros _. by apply of_still, still_pure.
Qed.

Lemma moves_each run resolver callback data : (forall p, moves R (run p)) ->
  moves R (api_forEachSymbols fuel run resolver callback data : K unit).
Proof.
  intros Hrun. unfold api_forEachSymbols. destruct (_ || _); [by apply of_still, still_pure|].
  apply moves_bind; [done|apply of_still, still_resolver|]. intros img.
  apply moves_bind; [done|apply of_still; still_tac|]. intros img'.
  apply moves_bind; [done|apply of_calm; unfold put_resolver; calm_tac|]. intros _.
  induction (symbols_ img') as [|y l IH]; cbn [each_symbol]; [by apply of_still, still_pure|].
  apply moves_bind; [done| |].
  - apply moves_bind; [done|by apply moves_module_call|]. intros r.
    apply moves_bind; [done|apply of_still, still_resolver|]. intros _. by apply of_still, still_pure.
  - intros [|]; [exact IH|by apply of_still, still_pure].
Qed.

Lemma moves_do run x : (forall p, moves R (run p)) ->
  (forall uid server se pkg, moves R (hyosSetcontextHook fuel nr_getpid run uid server se pkg)) ->
  moves R (zn_do fuel nr_getpid run x : K Z).
Proof.
  intros Hrun Hctx. destruct x as [t slot args|runtime module|uid server se pkg|thread name]; cbn [zn_do].
  - destruct (table_rows t !! slot) as [fn|]; [|by apply of_still, still_pure].
    destruct fn, args; cbn [zn_call]; try (by apply of_still, still_pure).
    + apply of_calm, calm_plt.
    + apply of_calm, calm_inline.
    + apply of_calm, calm_unhook.
    + apply of_calm, calm_new.
    + apply moves_bind; [done|apply of_calm, calm_free|]. intros _. by apply of_still, still_pure.
    + apply of_calm, calm_base.
    + apply of_calm, calm_lookup.
    + apply moves_bind; [done|by apply moves_each|]. intros _. by apply of_still, still_pure.
    + apply of_calm, calm_connect.
  - destruct (_ =? _); [apply of_calm, calm_register|by apply of_still, still_pure].
  - apply Hctx.
  - apply of_calm, calm_setname.
Qed.

Lemma moves_run : (forall run, (forall p, moves R (run p)) ->
    forall uid server se pkg, moves R (hyosSetcontextHook fuel nr_getpid run uid server se pkg : K Z)) ->
  forall d p, moves R (run_zn fuel nr_getpid d p : K unit).
Proof.
  intros Hctx. induction d as [|d IH]; intros p; cbn [run_zn]; [by apply of_still, still_pure|].
  induction p as [|x k IHp]; cbn [run_steps]; [by apply of_still, still_pure|].
  apply moves_bind; [done| |intros r; apply IHp]. apply moves_do; [exact IH|]. by apply Hctx.
Qed.

Lemma moves_hyos d : (forall run, (forall p, moves R (run p)) ->
    forall uid server se pkg, moves R (hyosSetcontextHook fuel nr_getpid run uid server se pkg : K Z)) ->
  forall es, moves R (hyos_run fuel nr_getpid d es : K unit).
Proof.
  intros Hctx. pose proof (moves_run Hctx d) as Hrun. induction es as [|e es IH]; cbn [hyos_run]; [by apply of_still, still_pure|].
  apply moves_bind; [done| |intros _; apply IH]. destruct e as [|uid server se pkg|thread name|p]; cbn [hyos_do].
  - apply of_calm, calm_prepare.
  - apply moves_bind; [done|by apply Hctx|]. intros _. by apply of_still, still_pure.
  - apply moves_bind; [done|apply of_calm, calm_setname|]. intros _. by apply of_still, still_pure.
  - apply Hrun.
Qed.
End Relation.

(** ** The runtime's state is kept *)

(** The state stays well formed and grows; after the delivery nothing more is
    delivered. *)
Definition runs_rel (s s' : st W np) : Prop := zn_ok (p_zn (st_s s)) ->
  zn_ok (p_zn (st_s s')) /\ grows (p_zn (st_s s)) (p_zn (st_s s'))
  /\ (n_fired (p_zn (st_s s)) = true -> log_calm s s') /\ hook_of s' = hook_of s.

#[local] Instance runs_preorder : PreOrder runs_rel.
Proof.
  split; [intros s Hok; split; [done|]; by split|]. intros s1 s2 s3 A C Hok. destruct (A Hok) as (H2 & A1 & A2 & A3).
  destruct (C H2) as (H3 & B1 & B2 & B3). split; [done|]. split; [by etrans|]. split; [|congruence]. intros Hf.
  etrans; [by apply A2|]. apply B2. by apply (grow_fired _ _ A1).
Qed.

Lemma calm_runs (s s' : st W np) : calm_rel s s' -> runs_rel s s'.
Proof. intros Hc Hok. destruct (Hc Hok) as (? & ? & ? & ? & ?). by split. Qed.

Lemma still_runs (s s' : st W np) : still_rel s s' -> runs_rel s s'.
Proof. intros Hs. by apply calm_runs, still_calm. Qed.

(** The same without the log. *)
Definition weak_rel (s s' : st W np) : Prop := zn_ok (p_zn (st_s s)) ->
  zn_ok (p_zn (st_s s')) /\ grows (p_zn (st_s s)) (p_zn (st_s s')) /\ hook_of s' = hook_of s.

#[local] Instance weak_preorder : PreOrder weak_rel.
Proof.
  split; [by intros s|]. intros s1 s2 s3 A C Hok. destruct (A Hok) as (H2 & A1 & A2). destruct (C H2) as (H3 & B1 & B2).
  split; [done|]. split; [by etrans|congruence].
Qed.

Lemma still_weak (s s' : st W np) : still_rel s s' -> weak_rel s s'.
Proof. intros (_ & Hz & Hh) Hok. rewrite Hz. by split. Qed.

Lemma weak_deliver run n : (forall p, moves runs_rel (run p)) -> forall i process package se,
  moves weak_rel (deliver_from run n i process package se : K unit).
Proof.
  intros Hrun. induction n as [|n IH]; intros i process package se; cbn [deliver_from].
  { apply (moves_still _ still_weak). by apply still_pure. }
  apply moves_bind; [apply _|apply (moves_still _ still_weak); unfold zn; still_tac|]. intros z.
  destruct (n_modules z !! i) as [m|]; [|apply (moves_still _ still_weak); by apply still_pure].
  apply moves_bind; [apply _| |intros _; apply IH].
  destruct (negb _); [|apply (moves_still _ still_weak); by apply still_pure]. unfold module_call. intros s. wrun. apply wp_syscall.
  intros r w e. wrun. apply wp_get_log. wrun. eapply wp_mono; [apply Hrun|].
  intros [[]| | |] s1 H1; cbn [wp_cont]; [wrun|..]; intros Hok; destruct (H1 Hok) as (? & ? & _ & ?); by split.
Qed.

Lemma runs_setcontext run : (forall p, moves runs_rel (run p)) -> forall uid server se pkg,
  moves runs_rel (hyosSetcontextHook fuel nr_getpid run uid server se pkg : K Z).
Proof.
  intros Hrun uid server se pkg. assert (Hst : forall A (m : K A), still m -> moves runs_rel m) by (intros A m; apply (of_still _ calm_runs)).
  assert (Hdel : moves runs_rel (hyosDeliverAppSpecialized fuel nr_getpid run pkg se : K unit)).
  { unfold hyosDeliverAppSpecialized. apply moves_bind; [apply _|apply Hst, still_child|]. intros child.
    apply (moves_zn _). intros s. destruct (_ || _) eqn:E; [by wrun|]. apply orb_false_iff in E as [E _].
    apply orb_false_iff in E as [_ Hf].
    assert (Hrest : moves weak_rel (process ← process_name fuel; package ← text_at fuel pkg; se ← text_at fuel se;
      deliver_from run (Datatypes.S (Z.to_nat kMaxHyosModules)) 0 process (strlcpy_text 256 package) (strlcpy_text 64 se) : K unit)).
    { apply moves_bind; [apply _|apply (moves_still _ still_weak), still_module_name|]. intros name.
      apply moves_bind; [apply _|apply (moves_still _ still_weak), still_text|]. intros package.
      apply moves_bind; [apply _|apply (moves_still _ still_weak), still_text|]. intros se'. by apply weak_deliver. }
    wstep. unfold upd_zn. apply wp_modify. cbn [wp_cont]. eapply wp_mono; [apply Hrest|]. intros o s1 H1 Hok.
    destruct (H1 Hok) as (H2 & H3 & H4). split; [done|]. split; [etrans; [|exact H3]; by split|]. by rewrite Hf. }
  unfold hyosSetcontextHook. apply moves_bind; [apply _|apply Hst; unfold zn; still_tac|]. intros z.
  apply moves_bind; [apply _|apply Hst; still_tac|]. intros ret. apply moves_bind; [apply _|apply Hst; unfold zn; still_tac|]. intros z'.
  apply moves_bind; [apply _| |intros _; apply Hst; still_tac]. destruct (ret =? 0); [exact Hdel|].
  apply Hst. pose proof (still_child nr_getpid). still_tac.
Qed.

Lemma runs_run d p : moves runs_rel (run_zn fuel nr_getpid d p : K unit).
Proof. apply moves_run; [apply _|apply calm_runs|apply runs_setcontext]. Qed.

(** C18. The runtime's variables, whatever modules, the spawner and the
    environment do: at most 16 modules are registered, each with a callback
    and a supported version; the list only grows; the hooked functions keep
    the originals they found first, so that they never call themselves; a
    captured process name is a string that fits its buffer, and the first one
    is kept; the delivery is not undone. *)
Theorem hyos_state_invariant d es (s : st W np) : zn_ok (p_zn (st_s s)) ->
  wp (hyos_run fuel nr_getpid d es)
    (fun _ s' => zn_ok (p_zn (st_s s')) /\ grows (p_zn (st_s s)) (p_zn (st_s s'))) s.
Proof.
  intros Hok. eapply wp_mono; [by apply (moves_hyos runs_rel); [apply calm_runs|apply runs_setcontext]|].
  intros o s' Hs'. destruct (Hs' Hok) as (? & ? & _). by split.
Qed.
End Runs.

(** ** The delivery *)

(** The deliveries among the events, oldest first. *)
Definition specs (evs : list event) : list call := List.filter is_spec (reverse evs).*1.

Definition spec_call (process package se_info : list Z) (m : hyos_module) : call :=
  CZnSpecialized (hm_onAppSpecialized m) process package se_info.

Lemma specs_app evs evs' : specs (evs' ++ evs) = specs evs ++ specs evs'.
Proof. unfold specs. rewrite reverse_app, fmap_app. apply List.filter_app. Qed.

Lemma specs_calm evs : Forall unspec evs -> specs evs = [].
Proof.
  induction 1 as [|e evs He _ IH]; [done|]. change (e :: evs) with ([e] ++ evs). rewrite specs_app, IH.
  unfold specs. cbn. by rewrite He.
Qed.

Section Delivery.
Context {W : Type} `{!World W} `{!Symbols} `{!ZnCode} (fuel : nat) (nr_getpid : Z).
Abbreviation K := (M W np).
Abbreviation zv s := (p_zn (st_s s)).

Lemma still_retry n c : is_spec c = false -> still (retry_eintr n c : K reply).
Proof. intros Hc. induction n as [|n IH]; cbn [retry_eintr]; still_tac. Qed.

Lemma cmdline_ok n : forall fd out (s : st W np), Forall (fun c => c <> 0) out -> (length out + n <= 255)%nat ->
  wp (cmdline_loop fuel n fd out) (on_ret (fun r _ => text_ok 255 r.1)) s.
Proof.
  induction n as [|n IH]; intros fd out s Ho Hl; cbn [cmdline_loop]; [wrun; split; [cbn; lia|done]|].
  wstep. apply wp_still; [by apply still_retry|]. intros [r| | |] s1 _; cbn [wp_cont on_ret]; [|done..].
  destruct (negb _); [wrun; split; [cbn; lia|done]|].
  destruct (Z.eqb_spec (nth 0 (r_data r) 0) 0); [wrun; split; [cbn; lia|done]|].
  apply IH; [apply Forall_app; split; [done|by constructor]|rewrite length_app; cbn [length]; lia].
Qed.

Lemma c_str_nonzero text : Forall (fun c => c <> 0) (c_str text).
Proof.
  apply Forall_forall. intros c Hc. pose proof (take_while_forallb (fun c => negb (c =? 0)) text) as Hf.
  rewrite forallb_forall in Hf. apply list_elem_of_In in Hc. by apply Hf, negb_true_iff, Z.eqb_neq in Hc.
Qed.

Lemma thread_name_ok (s : st W np) : wp (r ← syscall (CPrctl PR_GET_NAME 0);
    let name := take 15 (c_str (r_data r)) in
    mret (if negb (r_ret r =? 0) || bool_decide (name = []) then B "hyos_app" else name) : K (list Z))
  (on_ret (fun t _ => t <> [] /\ text_ok 255 t)) s.
Proof.
  wrun. apply wp_syscall. intros r w e. wrun. destruct (_ || _) eqn:E.
  - split; [done|]. split; [cbn; lia|]. by repeat constructor.
  - apply orb_false_iff in E as [_ E%bool_decide_eq_false]. split; [done|]. split; [rewrite length_take; lia|].
    apply Forall_take, c_str_nonzero.
Qed.

(** The name is never empty and fits its buffer. *)
Lemma process_name_ok (s : st W np) : zn_ok (zv s) -> wp (process_name fuel) (on_ret (fun t _ => t <> [] /\ text_ok 255 t)) s.
Proof.
  intros (_ & _ & [Hl Hn] & _). unfold process_name, zn. wrun. destruct (_ && _) eqn:E.
  { wrun. apply andb_true_iff in E as [_ E%bool_decide_eq_true]. destruct (strlcpy_ok 256 _ Hn) as [L1 L2]. split; [|done].
    unfold strlcpy_text. by destruct (n_cap_name _). }
  wstep. eapply (wp_mono _ (on_ret (fun r _ => text_ok 255 r.1))).
  - unfold readProcCmdline. wstep. apply wp_still; [by apply still_retry|]. intros [r| | |] s1 _; cbn [wp_cont on_ret]; [|done..].
    destruct (_ <? 0); [wrun; split; [cbn; lia|done]|]. wstep. eapply wp_mono; [apply cmdline_ok; [done|cbn; lia]|].
    intros [res| | |] s2 Hr; cbn [wp_cont on_ret]; [|done..]. wstep. apply wp_do. intros. by wrun.
  - intros [[name complete]| | |] s1 Hr; cbn [wp_cont on_ret]; [|done..]. destruct (complete && bool_decide (name <> [])) eqn:E'; [|apply thread_name_ok].
    wrun. by apply andb_true_iff in E' as [_ E'%bool_decide_eq_true].
Qed.

Lemma text_at_ok p (s : st W np) : wp (text_at fuel p) (on_ret (fun t _ => Forall (fun c => c <> 0) t)) s.
Proof. unfold text_at. destruct (p =? 0); [wrun; constructor|apply cstr_nonzero]. Qed.

(** The spawner's function succeeded, in a process that is not the spawner. *)
Definition permitted (evs : list event) (z : zn_state) : Prop :=
  n_orig_setcontext z <> 0 /\
  exists args r p, (CCall (n_orig_setcontext z) args, r) ∈ evs /\ swrap 32 (u64 (r_ret r)) = 0
    /\ (CSyscall nr_getpid [], p) ∈ evs /\ swrap 32 (r_ret p) <> n_spawner_pid z.

(** What was delivered since the log was [l0], to [ms]. *)
Record delivered (l0 : list event) (process package se_info : list Z) (ms : list hyos_module) (s : st W np) : Prop := {
  dl_log : exists evs, st_log s = evs ++ l0 /\ specs evs = spec_call process package se_info <$> ms
           /\ (ms <> [] -> permitted evs (zv s));
  dl_ok : zn_ok (zv s);
  dl_modules : ms `prefix_of` n_modules (zv s);
  dl_fired : n_fired (zv s) = false -> ms = [] }.

Definition strings_ok (process package se_info : list Z) : Prop :=
  process <> [] /\ text_ok 255 process /\ text_ok 255 package /\ text_ok 63 se_info.

Definition once (l0 : list event) (s : st W np) : Prop := exists process package se_info ms,
  strings_ok process package se_info /\ delivered l0 process package se_info ms s.

Lemma permitted_mono evs evs' z z' : permitted evs z -> grows z z' -> permitted (evs' ++ evs) z'.
Proof.
  intros (Hn & args & r & p & H1 & H2 & H3 & H4) Hg. pose proof (grow_setcontext _ _ Hg Hn) as E. unfold permitted. rewrite E.
  split; [done|]. exists args, r, p. rewrite (grow_pid _ _ Hg), !elem_of_app. auto.
Qed.

(** Code that delivers nothing. *)
Lemma delivered_calm l0 process package se_info ms (s s' : st W np) :
  zn_ok (zv s') -> grows (zv s) (zv s') -> (n_fired (zv s') = false -> n_fired (zv s) = false) -> log_calm s s' ->
  delivered l0 process package se_info ms s -> delivered l0 process package se_info ms s'.
Proof.
  intros Hok Hg Hf (evs' & E' & Hc) [(evs & E & Hs & Hp) _ Hm Hd]. split.
  - exists (evs' ++ evs). rewrite E', E, app_assoc, specs_app, (specs_calm evs') by done. rewrite app_nil_r. split; [done|].
    split; [done|]. intros Hne. by eapply permitted_mono, Hg; apply Hp.
  - done.
  - etrans; [exact Hm|]. apply Hg.
  - auto.
Qed.

Definition once_rel (l0 : list event) (s s' : st W np) : Prop := once l0 s -> once l0 s'.
#[local] Instance once_preorder l0 : PreOrder (once_rel l0).
Proof. split; [by intros s Hs|]. intros s1 s2 s3 A C Hs. by apply C, A. Qed.

Lemma calm_once l0 (s s' : st W np) : calm_rel s s' -> once_rel l0 s s'.
Proof.
  intros Hc (process & package & se & ms & Hstr & Hd). destruct (Hc (dl_ok _ _ _ _ _ _ Hd)) as (Hok & Hg & Hf & Hl & _).
  exists process, package, se, ms. split; [done|]. eapply delivered_calm; [exact Hok|exact Hg| |exact Hl|exact Hd]. congruence.
Qed.
End Delivery.

Section Once.
Context {W : Type} `{!World W} `{!Symbols} `{!ZnCode} (fuel : nat) (nr_getpid : Z).
Abbreviation K := (M W np).
Abbreviation zv s := (p_zn (st_s s)).
Context (run : zn_prog -> K unit) (Hrun : forall p, moves runs_rel (run p)).

(** The loop has reached the first [i] modules. *)
Definition reached (l0 : list event) (process package se_info : list Z) (i : nat) (s : st W np) : Prop :=
  delivered nr_getpid l0 process package se_info (take i (n_modules (zv s))) s /\ n_fired (zv s) = true
  /\ (i <= length (n_modules (zv s)))%nat /\ exists evs, st_log s = evs ++ l0 /\ permitted nr_getpid evs (zv s).

Lemma reached_call l0 process package se_info i m r w e x (s : st W np) :
  reached l0 process package se_info i s -> n_modules (zv s) !! i = Some m -> p_zn x = zv s ->
  reached l0 process package se_info (Datatypes.S i)
    (St w ((spec_call process package se_info m, r) :: st_log s) e x).
Proof.
  intros ([(evs & E & Hs & _) Hok _ _] & Hf & Hi & evs' & E' & Hp) Em Ex. unfold reached. cbn [st_s st_log]. rewrite Ex.
  assert (evs' = evs) as -> by (apply (app_inv_tail l0); congruence).
  assert (Hp1 : permitted nr_getpid ((spec_call process package se_info m, r) :: evs) (zv s)).
  { change (?x :: evs) with ([x] ++ evs). by apply (permitted_mono _ _ _ (zv s)). }
  split; [|split; [done|]; split; [by apply lookup_lt_Some in Em|]; exists (((spec_call process package se_info m, r) :: evs)); by rewrite E].
  split; cbn [st_s st_log]; rewrite ?Ex; [|done|apply prefix_take|congruence].
  exists ((spec_call process package se_info m, r) :: evs). split; [by rewrite E|]. split; [|done].
  change (?x :: evs) with ([x] ++ evs). by rewrite specs_app, Hs, (take_S_r _ _ _ Em), fmap_app.
Qed.

Lemma reached_runs l0 process package se_info i (s s' : st W np) :
  runs_rel s s' -> reached l0 process package se_info i s -> reached l0 process package se_info i s'.
Proof.
  intros Hr (Hd & Hf & Hi & evs & E & Hp). destruct (Hr (dl_ok _ _ _ _ _ _ _ Hd)) as (Hok & Hg & Hl & _). specialize (Hl Hf).
  pose proof (grow_modules _ _ Hg) as [l El]. unfold reached.
  assert (Et : take i (n_modules (zv s')) = take i (n_modules (zv s))) by (rewrite El; by apply take_app_le).
  split; [rewrite Et; eapply delivered_calm; [done|done| |done|done]; by rewrite (grow_fired _ _ Hg)|].
  split; [by apply (grow_fired _ _ Hg)|]. split; [rewrite El, length_app; lia|].
  destruct Hl as (evs' & E' & _). exists (evs' ++ evs). rewrite E', E, app_assoc. split; [done|]. by eapply permitted_mono.
Qed.

(** The loop reaches the modules one after the other, those included that
    register meanwhile. *)
Lemma deliver_loop l0 process package se_info n : forall i (s : st W np), reached l0 process package se_info i s ->
  wp (deliver_from run n i process package se_info) (fun o s' => exists j, reached l0 process package se_info j s'
    /\ (o = Ret tt -> j = length (n_modules (zv s')))) s.
Proof.
  induction n as [|n IH]; intros i s Hd; cbn [deliver_from]; [by exists i|]. unfold zn. wrun.
  destruct (n_modules (zv s) !! i) as [m|] eqn:Em.
  2: { wrun. exists i. split; [done|]. intros _. apply lookup_ge_None in Em. destruct Hd as (_ & _ & Hi & _). lia. }
  assert (Hm : hm_onAppSpecialized m <> 0).
  { destruct (dl_ok _ _ _ _ _ _ _ (proj1 Hd)) as (_ & Hall & _). by apply (Forall_lookup_1 _ _ _ _ Hall Em). }
  rewrite (proj2 (Z.eqb_neq _ _) Hm). cbn [negb]. unfold module_call. wrun. apply wp_syscall. intros r w e. wrun.
  apply wp_get_log. wrun. eapply wp_mono; [apply Hrun|]. intros o s2 H2.
  assert (Hr : reached l0 process package se_info (Datatypes.S i) s2) by (eapply reached_runs; [exact H2|]; by apply reached_call).
  destruct o as [[]| | |]; cbn [wp_cont]; [wrun; by apply IH|by eexists..].
Qed.

(** Code that leaves the variables alone, then more. *)
Lemma wp_still_bind {A C} (m : K A) (k : A -> K C) (P : A -> Prop) (Q : outcome C -> st W np -> Prop) s :
  still m -> wp m (on_ret (fun a _ => P a)) s -> (forall o s', still_rel s s' -> Q o s') ->
  (forall a s', still_rel s s' -> P a -> wp (k a) Q s') -> wp (m ≫= k) Q s.
Proof.
  intros Hm Hp HQ Hk. wstep. eapply wp_mono; [apply wp_and; [apply Hp|apply Hm]|].
  intros [a| | |] s' [Ha Hs]; cbn [wp_cont]; auto.
Qed.

Lemma child_asked (s : st W np) : wp (hyosInChild nr_getpid) (fun o s' => st_s s' = st_s s /\ still_rel s s' /\
  (o = Ret true -> exists p, st_log s' = (CSyscall nr_getpid [], p) :: st_log s /\ swrap 32 (r_ret p) <> n_spawner_pid (zv s))) s.
Proof.
  eapply wp_mono; [apply wp_and; [apply same_child|]|intros o s' [[E Hs] Hp]; split; [exact E|]; split; [exact Hs|exact Hp]].
  unfold hyosInChild, getpid_raw, zn. wrun. destruct (_ =? 0); [by wrun|]. wrun. apply wp_syscall. intros r w e. wrun.
  intros [= Hc%negb_true_iff%Z.eqb_neq]. by exists r.
Qed.

Lemma once_still l0 (s s' : st W np) : still_rel s s' -> once nr_getpid l0 s -> once nr_getpid l0 s'.
Proof. intros Hs. by apply calm_once, still_calm. Qed.

(** With nothing delivered yet, the strings can still be chosen. *)
Lemma reached_start l0 p q r process package se_info evs (s s' : st W np) :
  delivered nr_getpid l0 p q r [] s -> n_fired (zv s) = true -> st_log s = evs ++ l0 -> permitted nr_getpid evs (zv s) ->
  still_rel s s' -> reached l0 process package se_info 0 s'.
Proof.
  intros [(evs0 & E0 & Hs & _) Hok _ _] Hf E Hp Hst. assert (Hd : delivered nr_getpid l0 process package se_info [] s).
  { split; [by exists evs0|done|apply prefix_nil|done]. }
  apply (reached_runs _ _ _ _ _ s); [by apply still_runs|]. split; [done|]. split; [done|]. split; [lia|]. by exists evs.
Qed.

(** The delivery itself, after the spawner's function succeeded. *)
Lemma once_deliver l0 evs args r pkg_name se_info (s : st W np) : once nr_getpid l0 s ->
  st_log s = evs ++ l0 -> (CCall (n_orig_setcontext (zv s)) args, r) ∈ evs -> swrap 32 (u64 (r_ret r)) = 0 ->
  n_orig_setcontext (zv s) <> 0 ->
  wp (hyosDeliverAppSpecialized fuel nr_getpid run pkg_name se_info) (fun _ s' => once nr_getpid l0 s') s.
Proof.
  intros Ho E Hin Hr Hn. unfold hyosDeliverAppSpecialized. wstep. eapply wp_mono; [apply child_asked|].
  intros [child| | |] s1 (Es & Hs & Hc); cbn [wp_cont]; [|by eapply once_still..]. unfold zn. wrun. rewrite Es.
  destruct (_ || _) eqn:Eg; [wrun; by eapply once_still|]. apply orb_false_iff in Eg as [Eg _].
  apply orb_false_iff in Eg as [->%negb_false_iff Hf]. destruct (Hc eq_refl) as (p & El & Hp).
  apply (once_still _ _ _ Hs) in Ho as (p0 & q0 & r0 & ms & Hstr & Hd). pose proof (dl_fired _ _ _ _ _ _ _ Hd) as Hms.
  rewrite Es in Hms. specialize (Hms Hf) as ->. unfold upd_zn. apply wp_bind, wp_modify. cbn [wp_cont]. set (s2 := St _ _ _ _).
  assert (Hd2 : delivered nr_getpid l0 p0 q0 r0 [] s2).
  { destruct Hd as [(evs0 & E0 & Hs0 & _) Hok _ _]. split; [by exists evs0|exact Hok|apply prefix_nil|done]. }
  assert (Hz2 : zv s2 = set_n_fired true (zv s)) by (unfold s2; cbn; by rewrite Es).
  assert (Hp2 : permitted nr_getpid ((CSyscall nr_getpid [], p) :: evs) (zv s2)).
  { rewrite Hz2. split; [done|]. exists args, r, p. split; [by right|]. split; [done|]. split; [by left|done]. }
  assert (E2 : st_log s2 = ((CSyscall nr_getpid [], p) :: evs) ++ l0) by (cbn; by rewrite El, E).
  assert (Hf2 : n_fired (zv s2) = true) by by rewrite Hz2.
  assert (Hok2 : zn_ok (zv s2)) by apply Hd2. clearbody s2.
  assert (Hfail : forall s3, still_rel s2 s3 -> once nr_getpid l0 s3).
  { intros s3 H3. eapply once_still; [exact H3|]. by exists p0, q0, r0, []. }
  eapply wp_still_bind; [apply still_module_name|by apply process_name_ok|intros o; apply Hfail|]. intros process s3 H3 [N1 N2].
  eapply wp_still_bind; [apply still_text|apply text_at_ok|intros o s' Hs'; apply Hfail; by etrans|]. intros package s4 H4 N3.
  eapply wp_still_bind; [apply still_text|apply text_at_ok|intros o s' Hs'; apply Hfail; etrans; [exact H3|]; by etrans|].
  intros se s5 H5 N4. eapply wp_mono; [eapply deliver_loop, reached_start; [exact Hd2|done|exact E2|exact Hp2|]|].
  - etrans; [exact H3|]. by etrans.
  - intros o s6 (j & (Hd6 & _) & _). eexists _, _, _, _. split; [|exact Hd6]. split; [done|]. split; [done|].
    by split; apply strlcpy_ok.
Qed.

Lemma once_setcontext l0 uid server se pkg :
  moves (once_rel nr_getpid l0) (hyosSetcontextHook fuel nr_getpid run uid server se pkg : K Z).
Proof.
  intros s. cut (once nr_getpid l0 s ->
    wp (hyosSetcontextHook fuel nr_getpid run uid server se pkg) (fun _ s' => once nr_getpid l0 s') s); [done|].
  intros Ho. unfold hyosSetcontextHook, zn. wrun. destruct (Z.eqb_spec (n_orig_setcontext (zv s)) 0) as [Hn|Hn]; cbn [negb].
  { wrun. change (-1 =? 0) with false. destruct (negb (n_fired (zv s))); [|by wrun]. wrun.
    apply wp_still; [apply still_child|]. intros o s1 Hs.
    destruct o; cbn [wp_cont]; wrun; by eapply once_still. }
  unfold call_code. wrun. apply wp_syscall. intros r w e. wrun. set (s1 := St w _ e _).
  assert (Hs1 : still_rel s s1). { split; [|done]. eexists [_]. split; [done|]. by repeat constructor. }
  pose proof (once_still _ _ _ Hs1 Ho) as Ho1. destruct (Z.eqb_spec (swrap 32 (u64 (r_ret r))) 0) as [Hr|Hr].
  - destruct Ho as (p0 & q0 & r0 & ms & _ & [(evs & E & _) _ _ _]).
    eapply wp_mono; [eapply (once_deliver l0 ((CCall (n_orig_setcontext (zv s)) [uid; server; se; pkg], r) :: evs)); [exact Ho1| |by left|done|done]|].
    + cbn. by rewrite E.
    + intros [[]| | |] s2 H2; cbn [wp_cont]; [wrun|..]; exact H2.
  - wcase; [|wrun; exact Ho1]. wrun. apply wp_still; [apply still_child|]. intros o s2 Hs.
    destruct o; cbn [wp_cont]; wrun; by eapply once_still.
Qed.
End Once.

Section OnceTheorem.
Context {W : Type} `{!World W} `{!Symbols} `{!ZnCode} (fuel : nat) (nr_getpid : Z).
Abbreviation K := (M W np).
Abbreviation zv s := (p_zn (st_s s)).

Definition both_rel (l0 : list event) (s s' : st W np) : Prop := runs_rel s s' /\ once_rel nr_getpid l0 s s'.

#[local] Instance both_preorder l0 : PreOrder (both_rel l0).
Proof.
  destruct (runs_preorder (W := W)) as [Hrefl Htrans]. split.
  - intros s. split; [apply Hrefl|by intros ?].
  - intros s1 s2 s3 [A1 A2] [B1 B2]. split; [by eapply Htrans|]. intros Hs. by apply B2, A2.
Qed.

Lemma both_hyos l0 d es : moves (both_rel l0) (hyos_run fuel nr_getpid d es : K unit).
Proof.
  apply moves_hyos; [apply _| |].
  - intros s s' Hc. split; [by apply calm_runs|by apply calm_once].
  - intros run Hrun uid server se pkg s.
    assert (Hr : forall p, moves runs_rel (run p)). { intros p s1. eapply wp_mono; [apply Hrun|]. by intros o s' [? _]. }
    apply wp_and; [by apply runs_setcontext|by apply once_setcontext].
Qed.

Lemma hyos_app_ok : strings_ok (B "hyos_app") [] [].
Proof. split; [done|]. split; [split; [cbn; lia|by repeat constructor]|]. split; (split; [cbn; lia|constructor]). Qed.

(** C10. An application is announced to the modules at most once: in any
    sequence of calls of the hooked functions, forks and calls of modules,
    whatever the environment answers, the callbacks that run are those of the
    first registered modules, each once, in the order of registration and all
    with the same strings; the process has a name, and every string fits its
    buffer; and none runs unless setting the security context has succeeded
    and the process is not the spawner. *)
Theorem specialized_once d es (s : st W np) : zn_ok (zv s) -> n_fired (zv s) = false ->
  wp (hyos_run fuel nr_getpid d es) (fun _ s' => exists evs process package se_info ms,
    st_log s' = evs ++ st_log s /\ specs evs = spec_call process package se_info <$> ms
    /\ ms `prefix_of` n_modules (zv s') /\ strings_ok process package se_info
    /\ (ms <> [] -> permitted nr_getpid evs (zv s'))) s.
Proof.
  intros Hok Hf. eapply wp_mono; [apply (both_hyos (st_log s))|]. intros o s' [_ Hs'].
  destruct Hs' as (process & package & se & ms & Hstr & [(evs & E & Hs & Hp) _ Hm _]).
  - exists (B "hyos_app"), [], [], []. split; [exact hyos_app_ok|].
    split; [by exists []|done|apply prefix_nil|done].
  - by exists evs, process, package, se, ms.
Qed.
End OnceTheorem.

(** ** The delivery is complete *)

Section Complete.
Context {W : Type} `{!World W} `{!Symbols} `{!ZnCode} (fuel : nat) (nr_getpid : Z).
Abbreviation K := (M W np).
Abbreviation zv s := (p_zn (st_s s)).

(** The name is the captured one if there is one; asking for it changes no
    variable. *)
Lemma process_name_spec (s : st W np) : zn_ok (zv s) ->
  wp (process_name fuel) (fun o s' => (st_s s' = st_s s /\ still_rel s s')
    /\ on_ret (fun t _ => t <> [] /\ text_ok 255 t) o s'
    /\ (n_cap_has (zv s) = true -> o = Ret (strlcpy_text 256 (n_cap_name (zv s))))) s.
Proof.
  intros Hok. apply wp_and; [apply wp_and|apply wp_and].
  - assert (Hr : forall n c, keeps (fun x => x = st_s s) (retry_eintr n c : K reply)).
    { induction n as [|n IH]; intros c; cbn [retry_eintr]; keeps_tac. }
    assert (Hl : forall n fd out, keeps (fun x => x = st_s s) (cmdline_loop fuel n fd out : K _)).
    { induction n as [|n IH]; intros fd out; cbn [cmdline_loop]; keeps_tac. }
    assert (Hk : keeps (fun x => x = st_s s) (process_name fuel : K _)).
    { unfold process_name, readProcCmdline, zn. keeps_tac. }
    by apply Hk.
  - apply still_module_name.
  - by apply process_name_ok.
  - destruct Hok as (_ & _ & _ & A4). unfold process_name, zn. wrun. destruct (n_cap_has (zv s)) eqn:E.
    + rewrite bool_decide_true by by apply A4. by wrun.
    + unfold wp. by intros.
Qed.

(** The callbacks of registered modules return, at the depth [d] of calls of
    modules from calls of modules, in any state in which the announcement is
    being made. *)
Definition modules_return (d : nat) : Prop := forall m log (s : st W np),
  zn_ok (zv s) -> n_fired (zv s) = true -> m ∈ n_modules (zv s) ->
  exists s', run_zn fuel nr_getpid d (zn_code (hm_onAppSpecialized m) log) s = (Ret tt, s').

Lemma deliver_returns l0 process package se_info d n : modules_return d -> forall i (s : st W np),
  reached nr_getpid l0 process package se_info i s -> kMaxHyosModules < Z.of_nat (n + i) ->
  wp (deliver_from (run_zn fuel nr_getpid d) n i process package se_info) (fun o _ => o = Ret tt) s.
Proof.
  intros Hret. induction n as [|n IH]; intros i s Hd Hn; cbn [deliver_from].
  { destruct Hd as (Hd & _ & Hi & _). pose proof (proj1 (dl_ok _ _ _ _ _ _ _ Hd)). lia. }
  unfold zn. wrun. destruct (n_modules (zv s) !! i) as [m|] eqn:Em; [|by wrun].
  pose proof (dl_ok _ _ _ _ _ _ _ (proj1 Hd)) as Hok. pose proof Hok as (_ & Hall & _).
  rewrite (proj2 (Z.eqb_neq _ _) (proj1 (Forall_lookup_1 _ _ _ _ Hall Em))). cbn [negb]. unfold module_call. wrun.
  apply wp_syscall. intros r w e. wrun. apply wp_get_log. wrun. set (s1 := St w _ _ _).
  assert (Hwp : wp (run_zn fuel nr_getpid d (zn_code (hm_onAppSpecialized m) (st_log s1))) (fun o s2 => runs_rel s1 s2 /\ o = Ret tt) s1).
  { apply wp_and; [apply runs_run|]. destruct (Hret m (st_log s1) s1) as [s2 E2];
      [exact Hok|exact (proj1 (proj2 Hd))|by eapply list_elem_of_lookup_2|]. unfold wp. by rewrite E2. }
  eapply wp_mono; [exact Hwp|]. intros o s2 [H2 ->]. cbn [wp_cont]. wrun. apply IH; [|lia].
  eapply reached_runs; [exact H2|]. by apply reached_call.
Qed.

(** What the hooked function has done once the spawner's function succeeded
    in a child: the modules of [ms] were called. *)
Definition told (l0 : list event) (z0 : zn_state) (package se_info : list Z) (ms : list hyos_module) (s : st W np) : Prop :=
  n_fired (zv s) = true /\ n_modules z0 `prefix_of` n_modules (zv s) /\ ms `prefix_of` n_modules (zv s) /\
  exists evs process, st_log s = evs ++ l0 /\ specs evs = spec_call process (take 255 package) (take 63 se_info) <$> ms
    /\ process <> [] /\ text_ok 255 process /\ (n_cap_has z0 = true -> process = take 255 (n_cap_name z0)).

(** The announcement from the state in which it was marked as made. *)
Lemma deliver_told d pkg_ptr se_ptr package se_info l0 z0 evs p q r0 (s : st W np) :
  delivered nr_getpid l0 p q r0 [] s -> n_fired (zv s) = true -> st_log s = evs ++ l0 -> permitted nr_getpid evs (zv s) ->
  n_modules z0 = n_modules (zv s) -> n_cap_has z0 = n_cap_has (zv s) -> n_cap_name z0 = n_cap_name (zv s) ->
  (forall s' : st W np, the_mem (st_s s') = the_mem (st_s s) ->
     text_at fuel pkg_ptr s' = (Ret package, s') /\ text_at fuel se_ptr s' = (Ret se_info, s')) ->
  wp (process ← process_name fuel; package ← text_at fuel pkg_ptr; se ← text_at fuel se_ptr;
      deliver_from (run_zn fuel nr_getpid d) (Datatypes.S (Z.to_nat kMaxHyosModules)) 0 process
        (strlcpy_text 256 package) (strlcpy_text 64 se))
    (fun o s' => exists ms, told l0 z0 package se_info ms s' /\ (o = Ret tt -> ms = n_modules (zv s'))
       /\ (n_cap_has z0 = true -> modules_return d -> o = Ret tt)) s.
Proof.
  intros Hd Hf E Hp Em Ec En Htext. pose proof (dl_ok _ _ _ _ _ _ _ Hd) as Hok. wstep.
  eapply wp_mono; [by apply process_name_spec|]. intros o s1 ([Es Hs] & Hname & Hcap).
  assert (Hreach : forall process, reached nr_getpid l0 process (take 255 package) (take 63 se_info) 0 s1)
    by (intros process; by eapply reached_start).
  destruct o as [process| | |]; cbn [wp_cont on_ret] in *.
  2-4: exists []; split; [|split; [done|intros Hc; rewrite Ec in Hc; by specialize (Hcap Hc)]];
    destruct (Hreach (B "hyos_app")) as ([(evs1 & E1 & Hsp & _) _ _ _] & Hf1 & _);
    (split; [done|split; [by rewrite Em, Es|split; [apply prefix_nil|]]]); exists evs1;
    (destruct (n_cap_has (zv s)) eqn:Hc; [by specialize (Hcap eq_refl)|]); exists (B "hyos_app");
    (split; [done|split; [by rewrite Hsp|split; [done|split; [apply hyos_app_ok|by rewrite Ec]]]]).
  destruct (Htext s1) as [T1 T2]; [by rewrite Es|]. wstep. unfold wp at 1. rewrite T1. cbn [fst snd wp_cont]. wstep. unfold wp at 1.
  rewrite T2. cbn [fst snd wp_cont]. change (strlcpy_text 256 package) with (take 255 package).
  change (strlcpy_text 64 se_info) with (take 63 se_info). specialize (Hreach process).
  assert (Hcapd : n_cap_has z0 = true -> process = take 255 (n_cap_name z0)).
  { intros Hc. rewrite Ec in Hc. rewrite En. by injection (Hcap Hc). }
  eapply (wp_mono _ (fun o s' => weak_rel s1 s' /\ (exists j, reached nr_getpid l0 process (take 255 package) (take 63 se_info) j s'
    /\ (o = Ret tt -> j = length (n_modules (zv s')))) /\ (modules_return d -> o = Ret tt))).
  { apply wp_and; [|apply wp_and].
    - apply weak_deliver, runs_run.
    - apply deliver_loop; [apply runs_run|exact Hreach].
    - unfold wp. intros Hret. by eapply (deliver_returns l0 process). }
  intros o s' (Hr & (j & Hj & Ho) & Hret). exists (take j (n_modules (zv s'))). destruct Hj as ([(evs1 & E1 & Hsp & _) _ Hpre _] & Hf1 & _).
  split; [|split; [|by intros _]].
  - split; [done|]. split; [|split; [done|]; exists evs1, process; by destruct Hname].
    rewrite Em, <- Es. apply grow_modules. apply Hr. by rewrite Es.
  - intros Ho'. rewrite (Ho Ho'). by apply take_ge.
Qed.

(** C28. Every registered module learns of an application, whatever programs
    the modules run: when nothing was announced before, setting the security
    context succeeds, the process has another pid than the spawner and the
    package and the security information are readable strings (or null), the
    announcement is marked as made and the callbacks run so far are those of
    the first registered modules, each once and in order, with one name and
    the two strings cut to 255 and 63 characters; the name is the captured one
    where a thread name was captured. If the hooked function returns, it
    returns 0 and every module has been called, those included that register
    during the announcement; and it does return if a thread name was captured
    and the callbacks return. *)
Theorem specialized_delivered d uid server se_ptr pkg_ptr package se_info r p w1 w2 (s : st W np) :
  zn_ok (zv s) -> n_fired (zv s) = false -> n_modules (zv s) <> [] -> n_orig_setcontext (zv s) <> 0 -> n_spawner_pid (zv s) <> 0 ->
  sys (CCall (n_orig_setcontext (zv s)) [uid; server; se_ptr; pkg_ptr]) (st_w s) = (r, w1) -> swrap 32 (u64 (r_ret r)) = 0 ->
  sys (CSyscall nr_getpid []) w1 = (p, w2) -> swrap 32 (r_ret p) <> n_spawner_pid (zv s) ->
  (forall s' : st W np, the_mem (st_s s') = poke (r_aux r) (the_mem (st_s s)) ->
     text_at fuel pkg_ptr s' = (Ret package, s') /\ text_at fuel se_ptr s' = (Ret se_info, s')) ->
  wp (hyosSetcontextHook fuel nr_getpid (run_zn fuel nr_getpid d) uid server se_ptr pkg_ptr)
    (fun o s' => exists ms, told (st_log s) (zv s) package se_info ms s'
       /\ (forall v, o = Ret v -> v = 0 /\ ms = n_modules (zv s'))
       /\ (n_cap_has (zv s) = true -> modules_return d -> o = Ret 0)) s.
Proof.
  intros Hok Hf Hms Hn Hpid E1 Hr E2 Hp Htext.
  unfold hyosSetcontextHook, zn. wrun. rewrite (proj2 (Z.eqb_neq _ _) Hn). cbn [negb]. unfold call_code. wrun.
  eapply wp_syscall_eq; [exact E1|]. wrun. rewrite Hr. change (0 =? 0) with true.
  eapply (wp_mono _ (fun o s' => exists ms, told (st_log s) (zv s) package se_info ms s'
    /\ (o = Ret tt -> ms = n_modules (zv s')) /\ (n_cap_has (zv s) = true -> modules_return d -> o = Ret tt))).
  2: { intros o s' (ms & Ht & Ho & Hret). destruct o as [[]| | |]; cbn [wp_cont]; [wrun|..]; exists ms; (split; [done|]).
       - split; [|done]. intros v [= <-]. auto.
       - split; [done|]. intros Hc Hm. by specialize (Hret Hc Hm).
       - split; [done|]. intros Hc Hm. by specialize (Hret Hc Hm).
       - split; [done|]. intros Hc Hm. by specialize (Hret Hc Hm). }
  unfold hyosDeliverAppSpecialized, hyosInChild, getpid_raw, zn. wrun. set (x := put_mem _ (st_s s)).
  assert (Hx : p_zn x = zv s) by done. rewrite !Hx, (proj2 (Z.eqb_neq _ _) Hpid). wrun.
  eapply wp_syscall_eq; [exact E2|]. wrun. rewrite Hx, (proj2 (Z.eqb_neq _ _) Hp), Hf.
  rewrite bool_decide_false by done. cbn [negb orb]. wstep. unfold upd_zn. apply wp_modify. cbn [wp_cont]. set (s1 := St w2 _ _ _).
  apply (deliver_told d _ _ _ _ _ _ [(CSyscall nr_getpid [], p); (CCall (n_orig_setcontext (zv s)) [uid; server; se_ptr; pkg_ptr], r)]
    [] [] []); try done.
  - split; [|exact Hok|apply prefix_nil|done]. eexists [_; _]. by split; [reflexivity|].
  - split; [done|]. eexists _, _, _. split; [by right; left|]. split; [done|]. split; [by left|done].
Qed.
End Complete.

(** ** Examples *)

#[local] Instance zn_symbols : Symbols :=
  {| new_fn _ := 0x5000; old_var _ := 0x6000; row_fn i := 0x7000 + Z.of_nat i |}.
#[local] Instance zn_silent : ZnCode := fun _ _ => ZDone.

(** A child of the spawner 100 with two modules, whose main thread is
    named. *)
Definition hyos_zn : zn_state :=
  Zn ∅ ∅ ∅ true [HyosModule 1 0x900; HyosModule 0 0x910] false true 100 0x700 0x710 false 0 0 (B "com.example") true.
Definition hyos_child : st script np := St [ans 0; ans 101] [] 0 (NP api_zs None hyos_zn).

Lemma hyos_zn_ok : zn_ok hyos_zn.
Proof.
  split; [cbn; unfold kMaxHyosModules; lia|]. split; [by repeat constructor|].
  split; [split; [cbn; lia|by repeat constructor]|done].
Qed.

Lemma hyos_state_invariant_witness :
  wp (hyos_run 10 172 2 [ESetcontext 10001 0 0 0; EPrepare])
    (fun _ s' => zn_ok (p_zn (st_s s')) /\ grows hyos_zn (p_zn (st_s s'))) hyos_child.
Proof. exact (hyos_state_invariant 10 172 2 [ESetcontext 10001 0 0 0; EPrepare] hyos_child hyos_zn_ok). Defined.

(** A second success announces nothing. *)
Lemma specialized_once_witness :
  wp (hyos_run 10 172 2 [ESetcontext 10001 0 0 0; ESetcontext 10001 0 0 0]) (fun _ s' => exists evs process package se_info ms,
    st_log s' = evs ++ [] /\ specs evs = spec_call process package se_info <$> ms
    /\ ms `prefix_of` n_modules (p_zn (st_s s')) /\ strings_ok process package se_info
    /\ (ms <> [] -> permitted 172 evs (p_zn (st_s s')))) hyos_child
  /\ exists s', hyos_run 10 172 2 [ESetcontext 10001 0 0 0; ESetcontext 10001 0 0 0] hyos_child = (Ret tt, s')
     /\ specs (st_log s') = [CZnSpecialized 0x900 (B "com.example") [] []; CZnSpecialized 0x910 (B "com.example") [] []].
Proof.
  split; [exact (specialized_once 10 172 2 [ESetcontext 10001 0 0 0; ESetcontext 10001 0 0 0] hyos_child hyos_zn_ok eq_refl)|].
  eexists. split; vm_compute; reflexivity.
Defined.

(** A module whose callback tries to register again with a null pointer,
    beside one that does nothing. *)
#[local] Instance zn_again : ZnCode := fun fn _ => if fn =? 0x900 then ZStep (ZRegister kHyosRuntime 0) (fun _ => ZDone) else ZDone.

Lemma zn_again_returns : modules_return (W := script) 10 172 2.
Proof.
  intros m log s _ _ _. exists s. unfold zn_code, zn_again. by destruct (_ =? _).
Qed.

Lemma specialized_delivered_witness : modules_return (W := script) 10 172 2 /\
  exists s', hyosSetcontextHook 10 172 (run_zn 10 172 2) 10001 0 0 0 hyos_child = (Ret 0, s')
    /\ told [] hyos_zn [] [] (n_modules hyos_zn) s'.
Proof.
  split; [exact zn_again_returns|].
  assert (H := specialized_delivered 10 172 2 10001 0 0 0 [] [] (ans 0) (ans 101) [ans 101] [] hyos_child
    hyos_zn_ok eq_refl ltac:(done) ltac:(done) ltac:(done) eq_refl eq_refl eq_refl ltac:(done) ltac:(by intros s' _; split)).
  unfold wp in H. destruct H as (ms & Ht & Hall & Hret). specialize (Hret eq_refl zn_again_returns). destruct (Hall 0 Hret) as [_ ->].
  match type of Hret with (?y).1 = _ => set (x := y) in * end.
  assert (Em : n_modules (p_zn (st_s x.2)) = n_modules hyos_zn) by (vm_compute; reflexivity). rewrite Em in Ht.
  exists x.2. split; [|exact Ht]. rewrite <- Hret. apply surjective_pairing.
Defined.
