(* ===== verification/Entry.v ===== *)
(** Loading Zygisk Next modules and entering the injected library
    (loader/src/injector/zn_loader.cpp, entry.cpp): the daemon's plan is
    loaded module by module, each is handed the API of its version, and the
    traces of those that needed the system's loader are removed; and what the
    library does in a process depends on which process it is. *)
From S2P Require Import Prelude Sys Text SocketUtils ProcUtils Mem Linker ModLoader Sort ElfParser Unmount Clean Daemon Seccomp.
From S2P Require Import SoList Context Hook ElfUtil ZnApi Hyos.
Open Scope Z_scope.

Inductive TraceMode := UNKNOWN | SPAWN | STANDALONE | SYSTEM_SERVER.

Definition kZnMemfdName : list Z := B "zn-module".
Definition kDeleted : list Z := B " (deleted)".

(** The answer of [readlink] as a path, without the kernel's mark. *)
Definition exe_path (r : reply) : list Z :=
  if r_ret r <=? 0 then []
  else
    let p := take (Z.to_nat (r_ret r)) (r_data r) in
    if (length kDeleted <? length p)%nat && ends_with p kDeleted then take (length p - length kDeleted) p else p.

Definition table_code (t : zn_table) : Z := match t with TApiV4 => 4 | TApiFull => 2 | TApiNoSymbolResolver => 0 end.

Section Ops.
Context {W : Type} `{!World W} `{!Regex} `{!Lsplt} `{!RuntimeCode} `{!Symbols} `{!HashOrder} `{!StdSort} `{!ZnCode}.
Context (fuel : nat) (a : arch) (interposed : list Z) (page_sz nr_getpid nr_exit_group : Z) (d : nat).
Abbreviation K := (M W np).

Definition getProcessPath : K (list Z) := r ← syscall (CReadlink (B "/proc/self/exe") 4095); mret (exe_path r).
Definition getProcessName : K (list Z) := p ← getProcessPath; mret (base_name p).

Definition report (lib_path : list Z) (injected : bool) : K unit := in_zs (in_daemon (ReportZnModule fuel lib_path injected)).

(** Whether the module was started, and [*via_system]. *)
Definition loadEntry (entry : ZnPlanEntry) : K (bool * bool) :=
  let refuse via := report (zn_lib_path entry) false;; mret (false, via) in
  '(lib, via_system) ← in_zs (in_lk (open_module fuel a interposed (zn_lib_fd entry) kZnMemfdName));
  if lib =? 0 then refuse via_system
  else
    m ← in_zs (in_lk (module_symbol fuel lib (B "zn_module")));
    if m =? 0 then refuse via_system
    else
      fn ← load_u64 (m + 8);
      if fn =? 0 then refuse via_system
      else
        v ← load_u32 m;
        let version := swrap 32 v in
        if ZYGISK_NEXT_API_VERSION <? version then refuse via_system
        else
          h ← syscall (CNew 40);
          upd_zn (fun z => set_n_handles (<[r_ret h := Handle (zn_lib_path entry) (zn_companion entry) version]> (n_handles z)) z);;
          module_call (run_zn fuel nr_getpid d) (CZnLoaded fn (r_ret h) (table_code (getApiForVersion version))) fn;;
          report (zn_lib_path entry) true;;
          mret (true, via_system).

(** Code that uses the memory only, and code that also uses what is known of
    the linker's list. *)
Definition in_mem {A} (m : M W mem A) : K A := zoom the_mem put_mem m.
Definition in_so {A} (m : M W (so_state * mem) A) : K A :=
  zoom (fun s => (the_so s, the_mem s)) (fun x s => put_so x.1 (put_mem x.2 s)) m.

(** The number of modules the system's loader loaded. *)
Fixpoint load_plan (plan : list ZnPlanEntry) : K Z :=
  match plan with
  | [] => mret 0
  | entry :: plan' =>
      if zn_lib_fd entry <? 0 then load_plan plan'
      else
        '(ok, via_system) ← loadEntry entry;
        n ← load_plan plan';
        mret (if ok && via_system then n + 1 else n)
  end.

Fixpoint close_plan (plan : list ZnPlanEntry) : K unit :=
  match plan with
  | [] => mret tt
  | entry :: plan' => (if 0 <=? zn_lib_fd entry then do_ (CClose (zn_lib_fd entry)) else mret tt);; close_plan plan'
  end.

Definition loadAllModules (connect_retry : nat) : K unit :=
  proc_name ← getProcessName;
  proc_path ← getProcessPath;
  plan ← in_zs (in_daemon (GetZnPlan fuel proc_name proc_path connect_retry));
  system_loaded ← load_plan plan;
  (if 0 <? system_loaded then
     enabled ← in_mem is_anonymous_memory_enabled;
     if enabled : bool then
       in_mem (spoof_virtual_maps kZnMemfdName true false);;
       in_so (clean_linker_trace fuel kZnMemfdName system_loaded system_loaded true None None);;
       mret tt
     else mret tt
   else mret tt);;
  close_plan plan.

(** ** The entry of the library *)

Definition entry_zygote (addr size : Z) : K unit :=
  in_zs (hook_entry fuel addr size);;
  zoom p_seccomp pset_seccomp (send_seccomp_event_if_needed nr_exit_group);;
  loadAllModules 1.

Definition entry (addr size : Z) (path : list Z) (mode : TraceMode) : K unit :=
  in_zs (in_daemon (Init path));;
  spawner ← isHyosSpawner;
  if spawner : bool then initHyosRuntime nr_getpid;; loadAllModules 5
  else
    alive ← in_zs (in_daemon (PingHeartbeat fuel));
    if negb alive then mret tt
    else
      match mode with
      | SYSTEM_SERVER => in_zs trigger_system_server_hooks
      | STANDALONE => entry_zygote addr size;; in_zs trigger_zygote_hooks
      | _ => entry_zygote addr size
      end.

(** The library registers no exit handlers. *)
Definition cxa_atexit (func arg dso : Z) : K Z := do_ (CDladdr func);; mret 0.
End Ops.

(** ** Which process gets which hooks *)

Section Roles.
Context {W : Type} `{!World W} `{!Regex} `{!Lsplt} `{!RuntimeCode} `{!Symbols} `{!HashOrder} `{!StdSort} `{!ZnCode}.
Context (fuel : nat) (a : arch) (interposed : list Z) (nr_getpid nr_exit_group : Z) (d : nat).
Abbreviation K := (M W np).
Abbreviation zv s := (p_zn (st_s s)).

(** The runtime is as enabled as before and the zygote's hooks are not
    touched. *)
Definition role_rel (s s' : st W np) : Prop := zn_ok (zv s) ->
  zn_ok (zv s') /\ n_runtime (zv s') = n_runtime (zv s) /\ hook_of s' = hook_of s.

#[local] Instance role_preorder : PreOrder role_rel.
Proof.
  split; [by intros s|]. intros s1 s2 s3 A C Hok. destruct (A Hok) as (Hok' & A1 & A2). destruct (C Hok') as (Hok2 & B1 & B2).
  split; [done|]. split; congruence.
Qed.

Lemma role_runs (s s' : st W np) : runs_rel s s' -> role_rel s s'.
Proof. intros Hr Hok. destruct (Hr Hok) as (Hok' & Hg & _ & Hh). split; [done|]. by split; [apply Hg|]. Qed.

(** Code that does not see the runtime or the hooks. *)
Lemma role_plain {A} (m : K A) : (forall s, zv (m s).2 = zv s /\ hook_of (m s).2 = hook_of s) -> moves role_rel m.
Proof. intros Hm s Hok. destruct (Hm s) as [E1 E2]. unfold role_rel in *. rewrite E1. by split. Qed.

Lemma role_zoom {T A} (g : np -> T) (p : T -> np -> np) (m : M W T A) :
  (forall y x, p_zn (p y x) = p_zn x /\ z_hook (p_zs (p y x)) = z_hook (p_zs x)) -> moves role_rel (zoom g p m).
Proof. intros Hp. apply role_plain. intros s. unfold zoom, hook_of. destruct (m _) as [o s']. apply Hp. Qed.

Lemma role_lk {A} (m : M W lk A) : moves role_rel (in_zs (in_lk m) : K A).
Proof. apply role_plain. intros s. unfold in_zs, in_lk, zoom. by destruct (m _). Qed.

Lemma role_daemon {A} (m : M W daemon_state A) : moves role_rel (in_zs (in_daemon m) : K A).
Proof. apply role_plain. intros s. unfold in_zs, in_daemon, zoom. by destruct (m _). Qed.

Lemma role_syscall c : moves role_rel (syscall c : K reply).
Proof. apply role_plain. intros s. unfold syscall. by destruct (sys _ _). Qed.

Lemma role_pure {A} (m : K A) : (forall s, (m s).2 = s) -> moves role_rel m.
Proof. intros Hm. apply role_plain. intros s. by rewrite Hm. Qed.

Ltac roles :=
  repeat match goal with
  | |- moves _ (mbind _ _) => apply moves_bind; [apply _| |intros ?]
  | |- moves _ (syscall _) => apply role_syscall
  | |- moves _ (do_ _) => unfold do_
  | |- moves _ (in_zs (in_daemon _)) => apply role_daemon
  | |- moves _ (in_zs (in_lk _)) => apply role_lk
  | |- moves _ (if ?b then _ else _) => destruct b
  | |- moves _ (match ?x with _ => _ end) => destruct x
  | |- moves _ _ => first [by apply role_pure | assumption | by apply role_plain]
  end.

Lemma role_entry e : moves role_rel (loadEntry fuel a interposed nr_getpid d e : K (bool * bool)).
Proof.
  unfold loadEntry, report, module_call.
  assert (H64 : forall p, moves role_rel (load_u64 p : K Z)) by (intros p; apply role_pure, reads_u64).
  assert (H32 : forall p, moves role_rel (load_u32 p : K Z)) by (intros p; apply role_pure, reads_u32).
  assert (Hrun : forall p, moves role_rel (run_zn fuel nr_getpid d p : K unit)).
  { intros p s. eapply wp_mono; [apply runs_run|]. intros o s'. apply role_runs. }
  assert (Hupd : forall h x, moves role_rel (upd_zn (fun z => set_n_handles (<[h := x]> (n_handles z)) z) : K unit)).
  { intros h x s. unfold upd_zn. wrun. by intros Hok. }
  roles; auto.
Qed.

Lemma role_load retry : moves role_rel (loadAllModules fuel a interposed nr_getpid d retry : K unit).
Proof.
  assert (Hp : forall plan, moves role_rel (load_plan fuel a interposed nr_getpid d plan : K Z)).
  { pose proof role_entry as He. induction plan as [|e plan IH]; cbn [load_plan]; roles; auto. }
  assert (Hc : forall plan, moves role_rel (close_plan plan : K unit)).
  { induction plan as [|e plan IH]; cbn [close_plan]; roles. }
  unfold loadAllModules, getProcessName, getProcessPath, in_mem, in_so. roles; auto; by apply role_zoom.
Qed.

(** The runtime is as enabled as before. *)
Definition rt_rel (s s' : st W np) : Prop := zn_ok (zv s) -> zn_ok (zv s') /\ n_runtime (zv s') = n_runtime (zv s).

#[local] Instance rt_preorder : PreOrder rt_rel.
Proof.
  split; [by intros s|]. intros s1 s2 s3 A C Hok. destruct (A Hok) as (Hok' & A1). destruct (C Hok') as (Hok2 & B1). split; congruence.
Qed.

Lemma rt_zoom {T A} (g : np -> T) (p : T -> np -> np) (m : M W T A) : (forall y x, p_zn (p y x) = p_zn x) -> moves rt_rel (zoom g p m).
Proof. intros Hp s. apply wp_zoom. unfold wp. intros Hok. cbn [st_s]. by rewrite Hp. Qed.

Lemma rt_load retry : moves rt_rel (loadAllModules fuel a interposed nr_getpid d retry : K unit).
Proof. intros s. eapply wp_mono; [apply role_load|]. intros o s' Hr Hok. destruct (Hr Hok) as (? & ? & _). by split. Qed.

Lemma rt_zygote addr size : moves rt_rel (entry_zygote fuel a interposed nr_getpid nr_exit_group d addr size : K unit).
Proof.
  unfold entry_zygote, in_zs. apply moves_bind; [apply _|by apply rt_zoom|intros _].
  apply moves_bind; [apply _|by apply rt_zoom|intros _]. apply rt_load.
Qed.

(** The daemon answered. *)
Lemma entry_modes addr size mode (s : st W np) : zn_ok (zv s) ->
  wp (match mode with
      | SYSTEM_SERVER => in_zs trigger_system_server_hooks
      | STANDALONE => entry_zygote fuel a interposed nr_getpid nr_exit_group d addr size;; in_zs trigger_zygote_hooks
      | _ => entry_zygote fuel a interposed nr_getpid nr_exit_group d addr size
      end : K unit)
    (fun _ s' => n_runtime (zv s') = n_runtime (zv s) /\ (mode = SYSTEM_SERVER -> hook_of s' = hook_of s /\ zv s' = zv s)) s.
Proof.
  intros Hok. assert (Hz : forall m : K unit, moves rt_rel m -> mode <> SYSTEM_SERVER ->
    wp m (fun _ s' => n_runtime (zv s') = n_runtime (zv s) /\ (mode = SYSTEM_SERVER -> hook_of s' = hook_of s /\ zv s' = zv s)) s).
  { intros m Hm Hne. eapply wp_mono; [apply Hm|]. intros o s' Hs'. destruct (Hs' Hok) as [_ ?]. by split. }
  destruct mode; [by apply Hz; [apply rt_zygote|]..| |].
  - apply Hz; [|done]. apply moves_bind; [apply _|apply rt_zygote|intros _; by apply rt_zoom].
  - apply wp_zoom. unfold trigger_system_server_hooks. wrun. apply wp_syscall. intros r w e. wrun.
    destruct (negb _); wrun; [done|]. by apply wp_do.
Qed.

(** The state in which the daemon is asked. *)
Definition asking (path : list Z) (r : reply) (w : W) (s : st W np) : st W np :=
  St w ((CReadlink (B "/proc/self/exe") 4095, r) :: st_log s) (if r_ret r <? 0 then r_errno r else st_errno s)
    (st_s (in_zs (in_daemon (Init path)) s).2).

(** C19. What the library does depends on the process it is in: the runtime
    for applications is enabled exactly in hyos_spawner; the hooks of the
    zygote are installed neither there nor in a running system server, whose
    modules this code does not touch either, nor where the daemon does not
    answer. *)
Theorem entry_roles addr size path mode r w (s : st W np) :
  zn_ok (zv s) -> n_runtime (zv s) = false -> sys (CReadlink (B "/proc/self/exe") 4095) (st_w s) = (r, w) ->
  wp (entry fuel a interposed nr_getpid nr_exit_group d addr size path mode) (fun _ s' =>
    n_runtime (zv s') = spawner_exe r
    /\ (spawner_exe r = true \/ mode = SYSTEM_SERVER -> hook_of s' = hook_of s)
    /\ (spawner_exe r = false -> mode = SYSTEM_SERVER -> zv s' = zv s)
    /\ ((forall s2, in_zs (in_daemon (PingHeartbeat fuel)) (asking path r w s) <> (Ret true, s2)) ->
        spawner_exe r = false -> hook_of s' = hook_of s /\ zv s' = zv s)) s.
Proof.
  intros Hok Hrt E. unfold entry. wstep. unfold in_zs at 1, in_daemon at 1, Init. apply wp_zoom, wp_zoom. wrun.
  unfold isHyosSpawner. wrun. eapply wp_syscall_eq; [exact E|]. wrun. change (St w _ _ _) with (asking path r w s).
  destruct (spawner_exe r) eqn:Er.
  - unfold initHyosRuntime, getpid_raw, upd_zn. wrun. apply wp_syscall. intros p w' e. wrun. eapply wp_mono; [apply role_load|].
    intros o s' Hs'. destruct Hs' as (_ & Hr & Hh); [exact Hok|]. split; [exact Hr|]. split; [intros _; exact Hh|]. by split.
  - wstep. unfold wp at 1.
    assert (Hping : zv (in_zs (in_daemon (PingHeartbeat fuel)) (asking path r w s)).2 = zv s
                    /\ hook_of (in_zs (in_daemon (PingHeartbeat fuel)) (asking path r w s)).2 = hook_of s).
    { unfold in_zs, in_daemon, zoom. by destruct (PingHeartbeat fuel _). }
    destruct (in_zs (in_daemon (PingHeartbeat fuel)) (asking path r w s)) as [o s2] eqn:Ep. destruct Hping as [Ez Eh].
    cbn [fst snd] in Ez, Eh |- *. destruct o as [[]| | |]; cbn [wp_cont negb]; wrun; rewrite ?Ez; try done.
    eapply wp_mono; [apply entry_modes; by rewrite Ez|]. intros o s3 [Hr Hs]. rewrite Ez, Eh in *. split; [congruence|].
    split; [intros [?|Hm]; [done|by apply Hs]|]. split; [intros _ Hm; by apply Hs|]. intros Hn. by destruct (Hn s2).
Qed.
End Roles.

(** ** Examples *)

#[local] Existing Instances demo_regex demo_lsplt id_order zn_symbols zn_silent.
#[local] Instance no_runtime : RuntimeCode := fun _ _ => RDone.

Definition spawner_name : list Z := B "/system_ext/bin/hyos_spawner (deleted)".
Definition spawner_start : st script np :=
  St [Reply 38 0 spawner_name []; ans 100] [] 0 (NP (zset_hook Null api_zs) None zn_init).

Lemma entry_roles_witness :
  wp (entry 10 AArch64 [] 172 94 2 0x1000 0x2000 (B "/dev/x") SPAWN) (fun _ s' =>
    n_runtime (p_zn (st_s s')) = true /\ (true = true \/ SPAWN = SYSTEM_SERVER -> hook_of s' = Null)
    /\ (true = false -> SPAWN = SYSTEM_SERVER -> p_zn (st_s s') = zn_init)
    /\ ((forall s2, in_zs (in_daemon (PingHeartbeat 10)) (asking (B "/dev/x") (Reply 38 0 spawner_name []) [ans 100] spawner_start)
                    <> (Ret true, s2)) -> true = false -> hook_of s' = Null /\ p_zn (st_s s') = zn_init)) spawner_start
  /\ exists s', entry 10 AArch64 [] 172 94 2 0x1000 0x2000 (B "/dev/x") SPAWN spawner_start = (Ret tt, s')
     /\ n_spawner_pid (p_zn (st_s s')) = 100.
Proof.
  split; [|eexists; split; vm_compute; reflexivity].
  refine (entry_roles 10 AArch64 [] 172 94 2 0x1000 0x2000 (B "/dev/x") SPAWN (Reply 38 0 spawner_name []) [ans 100] spawner_start _ eq_refl eq_refl).
  split; [done|]. split; [constructor|]. split; [split; [cbn; lia|constructor]|done].
Defined.

(** A library that the system's loader accepted but that is no module is not
    counted, so what is left of it is not removed; it is not closed either. *)
Lemma rejected_module_uncounted : exists s',
  load_plan 10 AArch64 [] 172 2 [ZnPlan (B "/data/x.so") false 9]
    (St [ans 0; ans 0x77; ans 0] [] 0 (NP api_zs None zn_init) : st script np) = (Ret 0, s')
  /\ (CDlopenExt kZnMemfdName RTLD_NOW 9, ans 0x77) ∈ st_log s'
  /\ ~ (exists r, (CDlclose 0x77, r) ∈ st_log s').
Proof.
  eexists. split; [vm_compute; reflexivity|]. split; [repeat (first [by left|right])|].
  intros [r Hr]. no_event Hr.
Qed.
